(** * The cross-shard join planner of radon: JoinNode and OrderByPlan

    A shallow embedding of [planner/join_node.go], [planner/plan_node.go]
    and [planner/orderby_plan.go].

    - Go [int] is [Z]; slices are lists; [map[K]V] is a [gmap].
    - A Go [error] is an [option string] ([None] is [nil]); it is an ordinary
      return value, so a function that fails still hands back the state it
      has reached.
    - A run-time panic (nil dereference, index out of range) is [None] of
      the outer [option].
    - Objects reached through several pointers live in a store ([Heap]):
      the [sqlparser.ColName] nodes ([filter.col] aliases the column inside
      [filter.expr]), the [TableInfo] records shared by every
      [referredTables] map, and the [MergeNode]s ([TableInfo.parent] points
      at them).  A [JoinNode] owns its two children exclusively, so the join
      part of the plan is an inductive tree; each join node carries its
      address for the pointer comparisons of [findLCA]. *)

From stdpp Require Import gmap strings list fin_maps pretty.
From Stdlib Require Import ZArith Lia.

Open Scope Z_scope.

Abbreviation Ptr := nat.
Abbreviation error := (option string).

(** ** sqlparser syntax (the part the planner inspects) *)

(** [sqlparser.ColName]: [Name.String()] and [Qualifier.Name.String()]. *)
Record ColName := mkColName { Name : string; Qualifier : string }.

(** [sqlparser.Expr].  A column expression is the pointer to its
    [ColName] object; the other forms are immutable and kept by value. *)
Inductive Expr :=
| ColNameE (c : Ptr)
| SQLVal (v : string)
| NullVal
| ComparisonExpr (Operator : string) (l r : Expr)
| IsExpr (Operator : string) (e : Expr)
| AndExpr (l r : Expr).

(** [sqlparser.SelectExpr]. *)
Inductive SelectExpr :=
| AliasedExpr (e : Expr) (As : string)
| StarExpr (table : string).

(** [sqlparser.Order]. *)
Record Order := mkOrder { o_Expr : Expr; o_Direction : string }.

Definition AscScr : string := "asc".
Definition LeftJoinStr : string := "left join".

(** [sqlparser.Select], the clauses the planner reads or extends. *)
Record Select := mkSelect {
  SelectExprs : list SelectExpr;
  OrderBy : list Order;
  GroupBy : list Expr;
  Having : list Expr }.

(** [sqlparser.JoinTableExpr]: the join kind and the ON expression. *)
Record JoinTableExpr := mkJoinTableExpr { Join_ : string; On : option Expr }.

Global Instance ColName_eq_dec : EqDecision ColName.
Proof. solve_decision. Defined.
Global Instance Expr_eq_dec : EqDecision Expr.
Proof. solve_decision. Defined.
Global Instance SelectExpr_eq_dec : EqDecision SelectExpr.
Proof. solve_decision. Defined.

Fixpoint Expr_enc (e : Expr) : gen_tree (nat + string) :=
  match e with
  | ColNameE c => GenLeaf (inl c)
  | SQLVal v => GenLeaf (inr v)
  | NullVal => GenNode 0 []
  | ComparisonExpr op l r => GenNode 1 [GenLeaf (inr op); Expr_enc l; Expr_enc r]
  | IsExpr op e => GenNode 2 [GenLeaf (inr op); Expr_enc e]
  | AndExpr l r => GenNode 3 [Expr_enc l; Expr_enc r]
  end.

Fixpoint Expr_dec (t : gen_tree (nat + string)) : option Expr :=
  match t with
  | GenLeaf (inl c) => Some (ColNameE c)
  | GenLeaf (inr v) => Some (SQLVal v)
  | GenNode 0 [] => Some NullVal
  | GenNode 1 [GenLeaf (inr op); l; r] =>
      l' ← Expr_dec l; r' ← Expr_dec r; Some (ComparisonExpr op l' r')
  | GenNode 2 [GenLeaf (inr op); e] => e' ← Expr_dec e; Some (IsExpr op e')
  | GenNode 3 [l; r] => l' ← Expr_dec l; r' ← Expr_dec r; Some (AndExpr l' r')
  | _ => None
  end.

Lemma Expr_dec_enc (e : Expr) : Expr_dec (Expr_enc e) = Some e.
Proof.
  induction e as [| | |op l IHl r IHr|op e IHe|l IHl r IHr]; simpl; try done.
  - by rewrite IHl, IHr.
  - by rewrite IHe.
  - by rewrite IHl, IHr.
Qed.

Global Instance Expr_countable : Countable Expr :=
  inj_countable Expr_enc Expr_dec Expr_dec_enc.

(** ** Tuples of the planner *)

(** [selectTuple]: one projected expression. *)
Record selectTuple := mkSelectTuple {
  sel_expr : SelectExpr;
  sel_field : string;
  sel_referTables : list string }.

(** [filterTuple]: [col] is the [*sqlparser.ColName] of a column-vs-literal
    predicate ([None] is nil), [val] the literal. *)
Record filterTuple := mkFilterTuple {
  f_expr : Expr;
  f_referTables : list string;
  f_col : option Ptr;
  f_val : option string }.

(** [joinTuple]: [left] and [right] are [*sqlparser.ColName]. *)
Record joinTuple := mkJoinTuple {
  jt_expr : Expr;
  jt_referTables : list string;
  jt_left : Ptr;
  jt_right : Ptr }.

(** [nullExpr]: an entry of [rightNull]. *)
Record nullExpr := mkNullExpr {
  ne_expr : Expr;
  ne_referTables : list string }.

Global Instance selectTuple_eq_dec : EqDecision selectTuple.
Proof. solve_decision. Defined.

Inductive JoinStrategy := Cartesian | SortMerge.

Record JoinKey := mkJoinKey { Field : string; Table : string; Index : Z }.

Record Comparison := mkComparison {
  cmp_Left : Z; cmp_Right : Z; cmp_Operator : string; Exchange : bool }.

Record otherJoin := mkOtherJoin {
  oj_noTables : list Expr;
  oj_others : list Expr;
  oj_left : list selectTuple;
  oj_right : list filterTuple }.

(** [TableInfo]; [parent] is the [*MergeNode] that owns the table. *)
Record TableInfo := mkTableInfo {
  database : string;
  tableName : string;
  shardKey : string;
  tb_parent : Ptr }.

(** A [PlanNode] interface value: a typed pointer ([None] is nil). *)
Inductive NodeRef := MergeRef (p : Ptr) | JoinRef (p : Ptr).

Global Instance NodeRef_eq_dec : EqDecision NodeRef.
Proof. solve_decision. Defined.

(** [xcontext.QueryTuple].  The SQL text is kept clause by clause, each
    clause rendered to a string. *)
Record QueryTuple := mkQueryTuple {
  q_Backend : string;
  q_select : list string;
  q_where : list string;
  q_orderBy : list string }.

(** ** Child plans ([Plan], [PlanTree]) *)

(** [Direction] is a string type; its zero value is the empty string. *)
Definition ASC : string := "ASC".
Definition DESC : string := "DESC".

(** The [OrderBy] tuple of orderby_plan.go. *)
Record OrderByT := mkOrderBy {
  ob_Field : string; ob_Table : string; ob_Direction : string }.

(** [OrderByPlan]: [node] is the select statement, [tuples] the select
    list, [tbInfos] the referred tables. *)
Record OrderByPlan := mkOrderByPlan {
  op_node : Select;
  op_tuples : list selectTuple;
  op_tbInfos : gmap string Ptr;
  OrderBys : list OrderByT }.

Inductive Plan :=
| PlanAggregate (fields groups : list selectTuple)
| PlanOrderBy (p : OrderByPlan)
| PlanLimit.

(** ** Plan nodes *)

(** Modelled from the spec: [MergeNode], whose declaration is in
    merge_node.go.  Section 4.2: it accumulates WHERE filters, an ORDER BY,
    HAVING and select expressions, binds a shard [index] once ([-1] while
    unrouted) and carries a [backend] and a [shardCount]; join_node.go
    reads and writes [filters], [index], [backend], [routeLen], [shardCount],
    [referredTables] and [sel] directly. *)
Record MergeNode := mkMergeNode {
  m_referredTables : gmap string Ptr;
  m_fields : list selectTuple;
  m_filters : gmap Expr Z;
  m_sel : Select;
  m_index : Z;
  m_backend : string;
  m_shardCount : Z;
  m_routeLen : Z;
  m_hasParen : bool;
  m_parent : option NodeRef;
  m_querys : list QueryTuple }.

(** [JoinNode] without [Left] and [Right], which are the subtrees of
    [Join] below; [self] is the node's address. *)
Record JoinNode := mkJoinNode {
  self : Ptr;
  Strategy : JoinStrategy;
  joinExpr : option JoinTableExpr;
  j_referredTables : gmap string Ptr;
  j_hasParen : bool;
  j_parent : option NodeRef;
  j_children : list Plan;
  Cols : list Z;
  j_fields : list selectTuple;
  joinOn : list joinTuple;
  LeftKeys : list JoinKey;
  RightKeys : list JoinKey;
  CmpFilter : list Comparison;
  LeftUnique : bool;
  RightUnique : bool;
  tableFilter : list filterTuple;
  otherFilter : list Expr;
  noTableFilter : list Expr;
  otherJoinOn : option otherJoin;
  rightNull : list nullExpr;
  IsLeftJoin : bool;
  HasRightFilter : bool;
  LeftTmpCols : list Z;
  RightTmpCols : list Z;
  keyFilters : gmap nat (list filterTuple) }.

Inductive PlanNode :=
| Merge (m : Ptr)
| Join (j : JoinNode) (Left Right : PlanNode).

Record Heap := mkHeap {
  cols : gmap Ptr ColName;
  tbInfos : gmap Ptr TableInfo;
  merges : gmap Ptr MergeNode }.

(** ** Field updates

    [set_F v x] is the Go assignment [x.F = v]. *)

Definition set_Strategy (v : JoinStrategy) (j : JoinNode) : JoinNode :=
  let 'mkJoinNode a0 _ a2 a3 a4 a5 a6 a7 a8 a9 a10 a11 a12 a13 a14 a15 a16 a17 a18 a19 a20 a21 a22 a23 a24 := j in
  mkJoinNode a0 v a2 a3 a4 a5 a6 a7 a8 a9 a10 a11 a12 a13 a14 a15 a16 a17 a18 a19 a20 a21 a22 a23 a24.

Definition set_j_children (v : list Plan) (j : JoinNode) : JoinNode :=
  let 'mkJoinNode a0 a1 a2 a3 a4 a5 _ a7 a8 a9 a10 a11 a12 a13 a14 a15 a16 a17 a18 a19 a20 a21 a22 a23 a24 := j in
  mkJoinNode a0 a1 a2 a3 a4 a5 v a7 a8 a9 a10 a11 a12 a13 a14 a15 a16 a17 a18 a19 a20 a21 a22 a23 a24.

Definition set_Cols (v : list Z) (j : JoinNode) : JoinNode :=
  let 'mkJoinNode a0 a1 a2 a3 a4 a5 a6 _ a8 a9 a10 a11 a12 a13 a14 a15 a16 a17 a18 a19 a20 a21 a22 a23 a24 := j in
  mkJoinNode a0 a1 a2 a3 a4 a5 a6 v a8 a9 a10 a11 a12 a13 a14 a15 a16 a17 a18 a19 a20 a21 a22 a23 a24.

Definition set_j_fields (v : list selectTuple) (j : JoinNode) : JoinNode :=
  let 'mkJoinNode a0 a1 a2 a3 a4 a5 a6 a7 _ a9 a10 a11 a12 a13 a14 a15 a16 a17 a18 a19 a20 a21 a22 a23 a24 := j in
  mkJoinNode a0 a1 a2 a3 a4 a5 a6 a7 v a9 a10 a11 a12 a13 a14 a15 a16 a17 a18 a19 a20 a21 a22 a23 a24.

Definition set_LeftKeys (v : list JoinKey) (j : JoinNode) : JoinNode :=
  let 'mkJoinNode a0 a1 a2 a3 a4 a5 a6 a7 a8 a9 _ a11 a12 a13 a14 a15 a16 a17 a18 a19 a20 a21 a22 a23 a24 := j in
  mkJoinNode a0 a1 a2 a3 a4 a5 a6 a7 a8 a9 v a11 a12 a13 a14 a15 a16 a17 a18 a19 a20 a21 a22 a23 a24.

Definition set_RightKeys (v : list JoinKey) (j : JoinNode) : JoinNode :=
  let 'mkJoinNode a0 a1 a2 a3 a4 a5 a6 a7 a8 a9 a10 _ a12 a13 a14 a15 a16 a17 a18 a19 a20 a21 a22 a23 a24 := j in
  mkJoinNode a0 a1 a2 a3 a4 a5 a6 a7 a8 a9 a10 v a12 a13 a14 a15 a16 a17 a18 a19 a20 a21 a22 a23 a24.

Definition set_CmpFilter (v : list Comparison) (j : JoinNode) : JoinNode :=
  let 'mkJoinNode a0 a1 a2 a3 a4 a5 a6 a7 a8 a9 a10 a11 _ a13 a14 a15 a16 a17 a18 a19 a20 a21 a22 a23 a24 := j in
  mkJoinNode a0 a1 a2 a3 a4 a5 a6 a7 a8 a9 a10 a11 v a13 a14 a15 a16 a17 a18 a19 a20 a21 a22 a23 a24.

Definition set_LeftUnique (v : bool) (j : JoinNode) : JoinNode :=
  let 'mkJoinNode a0 a1 a2 a3 a4 a5 a6 a7 a8 a9 a10 a11 a12 _ a14 a15 a16 a17 a18 a19 a20 a21 a22 a23 a24 := j in
  mkJoinNode a0 a1 a2 a3 a4 a5 a6 a7 a8 a9 a10 a11 a12 v a14 a15 a16 a17 a18 a19 a20 a21 a22 a23 a24.

Definition set_RightUnique (v : bool) (j : JoinNode) : JoinNode :=
  let 'mkJoinNode a0 a1 a2 a3 a4 a5 a6 a7 a8 a9 a10 a11 a12 a13 _ a15 a16 a17 a18 a19 a20 a21 a22 a23 a24 := j in
  mkJoinNode a0 a1 a2 a3 a4 a5 a6 a7 a8 a9 a10 a11 a12 a13 v a15 a16 a17 a18 a19 a20 a21 a22 a23 a24.

Definition set_tableFilter (v : list filterTuple) (j : JoinNode) : JoinNode :=
  let 'mkJoinNode a0 a1 a2 a3 a4 a5 a6 a7 a8 a9 a10 a11 a12 a13 a14 _ a16 a17 a18 a19 a20 a21 a22 a23 a24 := j in
  mkJoinNode a0 a1 a2 a3 a4 a5 a6 a7 a8 a9 a10 a11 a12 a13 a14 v a16 a17 a18 a19 a20 a21 a22 a23 a24.

Definition set_otherFilter (v : list Expr) (j : JoinNode) : JoinNode :=
  let 'mkJoinNode a0 a1 a2 a3 a4 a5 a6 a7 a8 a9 a10 a11 a12 a13 a14 a15 _ a17 a18 a19 a20 a21 a22 a23 a24 := j in
  mkJoinNode a0 a1 a2 a3 a4 a5 a6 a7 a8 a9 a10 a11 a12 a13 a14 a15 v a17 a18 a19 a20 a21 a22 a23 a24.

Definition set_noTableFilter (v : list Expr) (j : JoinNode) : JoinNode :=
  let 'mkJoinNode a0 a1 a2 a3 a4 a5 a6 a7 a8 a9 a10 a11 a12 a13 a14 a15 a16 _ a18 a19 a20 a21 a22 a23 a24 := j in
  mkJoinNode a0 a1 a2 a3 a4 a5 a6 a7 a8 a9 a10 a11 a12 a13 a14 a15 a16 v a18 a19 a20 a21 a22 a23 a24.

Definition set_rightNull (v : list nullExpr) (j : JoinNode) : JoinNode :=
  let 'mkJoinNode a0 a1 a2 a3 a4 a5 a6 a7 a8 a9 a10 a11 a12 a13 a14 a15 a16 a17 a18 _ a20 a21 a22 a23 a24 := j in
  mkJoinNode a0 a1 a2 a3 a4 a5 a6 a7 a8 a9 a10 a11 a12 a13 a14 a15 a16 a17 a18 v a20 a21 a22 a23 a24.

Definition set_HasRightFilter (v : bool) (j : JoinNode) : JoinNode :=
  let 'mkJoinNode a0 a1 a2 a3 a4 a5 a6 a7 a8 a9 a10 a11 a12 a13 a14 a15 a16 a17 a18 a19 a20 _ a22 a23 a24 := j in
  mkJoinNode a0 a1 a2 a3 a4 a5 a6 a7 a8 a9 a10 a11 a12 a13 a14 a15 a16 a17 a18 a19 a20 v a22 a23 a24.

Definition set_LeftTmpCols (v : list Z) (j : JoinNode) : JoinNode :=
  let 'mkJoinNode a0 a1 a2 a3 a4 a5 a6 a7 a8 a9 a10 a11 a12 a13 a14 a15 a16 a17 a18 a19 a20 a21 _ a23 a24 := j in
  mkJoinNode a0 a1 a2 a3 a4 a5 a6 a7 a8 a9 a10 a11 a12 a13 a14 a15 a16 a17 a18 a19 a20 a21 v a23 a24.

Definition set_RightTmpCols (v : list Z) (j : JoinNode) : JoinNode :=
  let 'mkJoinNode a0 a1 a2 a3 a4 a5 a6 a7 a8 a9 a10 a11 a12 a13 a14 a15 a16 a17 a18 a19 a20 a21 a22 _ a24 := j in
  mkJoinNode a0 a1 a2 a3 a4 a5 a6 a7 a8 a9 a10 a11 a12 a13 a14 a15 a16 a17 a18 a19 a20 a21 a22 v a24.

Definition set_keyFilters (v : gmap nat (list filterTuple)) (j : JoinNode) : JoinNode :=
  let 'mkJoinNode a0 a1 a2 a3 a4 a5 a6 a7 a8 a9 a10 a11 a12 a13 a14 a15 a16 a17 a18 a19 a20 a21 a22 a23 _ := j in
  mkJoinNode a0 a1 a2 a3 a4 a5 a6 a7 a8 a9 a10 a11 a12 a13 a14 a15 a16 a17 a18 a19 a20 a21 a22 a23 v.

Definition set_m_referredTables (v : gmap string Ptr) (m : MergeNode) : MergeNode :=
  let 'mkMergeNode _ a1 a2 a3 a4 a5 a6 a7 a8 a9 a10 := m in
  mkMergeNode v a1 a2 a3 a4 a5 a6 a7 a8 a9 a10.

Definition set_m_fields (v : list selectTuple) (m : MergeNode) : MergeNode :=
  let 'mkMergeNode a0 _ a2 a3 a4 a5 a6 a7 a8 a9 a10 := m in
  mkMergeNode a0 v a2 a3 a4 a5 a6 a7 a8 a9 a10.

Definition set_m_filters (v : gmap Expr Z) (m : MergeNode) : MergeNode :=
  let 'mkMergeNode a0 a1 _ a3 a4 a5 a6 a7 a8 a9 a10 := m in
  mkMergeNode a0 a1 v a3 a4 a5 a6 a7 a8 a9 a10.

Definition set_m_sel (v : Select) (m : MergeNode) : MergeNode :=
  let 'mkMergeNode a0 a1 a2 _ a4 a5 a6 a7 a8 a9 a10 := m in
  mkMergeNode a0 a1 a2 v a4 a5 a6 a7 a8 a9 a10.

Definition set_m_index (v : Z) (m : MergeNode) : MergeNode :=
  let 'mkMergeNode a0 a1 a2 a3 _ a5 a6 a7 a8 a9 a10 := m in
  mkMergeNode a0 a1 a2 a3 v a5 a6 a7 a8 a9 a10.

Definition set_m_backend (v : string) (m : MergeNode) : MergeNode :=
  let 'mkMergeNode a0 a1 a2 a3 a4 _ a6 a7 a8 a9 a10 := m in
  mkMergeNode a0 a1 a2 a3 a4 v a6 a7 a8 a9 a10.

Definition set_m_shardCount (v : Z) (m : MergeNode) : MergeNode :=
  let 'mkMergeNode a0 a1 a2 a3 a4 a5 _ a7 a8 a9 a10 := m in
  mkMergeNode a0 a1 a2 a3 a4 a5 v a7 a8 a9 a10.

Definition set_m_routeLen (v : Z) (m : MergeNode) : MergeNode :=
  let 'mkMergeNode a0 a1 a2 a3 a4 a5 a6 _ a8 a9 a10 := m in
  mkMergeNode a0 a1 a2 a3 a4 a5 a6 v a8 a9 a10.

Definition set_m_hasParen (v : bool) (m : MergeNode) : MergeNode :=
  let 'mkMergeNode a0 a1 a2 a3 a4 a5 a6 a7 _ a9 a10 := m in
  mkMergeNode a0 a1 a2 a3 a4 a5 a6 a7 v a9 a10.

Definition set_m_parent (v : option NodeRef) (m : MergeNode) : MergeNode :=
  let 'mkMergeNode a0 a1 a2 a3 a4 a5 a6 a7 a8 _ a10 := m in
  mkMergeNode a0 a1 a2 a3 a4 a5 a6 a7 a8 v a10.

Definition set_m_querys (v : list QueryTuple) (m : MergeNode) : MergeNode :=
  let 'mkMergeNode a0 a1 a2 a3 a4 a5 a6 a7 a8 a9 _ := m in
  mkMergeNode a0 a1 a2 a3 a4 a5 a6 a7 a8 a9 v.

Definition set_merge (m : Ptr) (mn : MergeNode) (h : Heap) : Heap :=
  mkHeap (cols h) (tbInfos h) (<[m := mn]> (merges h)).

Definition set_col (c : Ptr) (cn : ColName) (h : Heap) : Heap :=
  mkHeap (<[c := cn]> (cols h)) (tbInfos h) (merges h).

Definition set_tbInfos (t : gmap Ptr TableInfo) (h : Heap) : Heap :=
  mkHeap (cols h) t (merges h).

Definition set_tb_parent (p : Ptr) (t : TableInfo) : TableInfo :=
  mkTableInfo (database t) (tableName t) (shardKey t) p.

Definition set_OrderBy (v : list Order) (s : Select) : Select :=
  mkSelect (SelectExprs s) v (GroupBy s) (Having s).

Definition set_SelectExprs (v : list SelectExpr) (s : Select) : Select :=
  mkSelect v (OrderBy s) (GroupBy s) (Having s).

Definition set_Having (v : list Expr) (s : Select) : Select :=
  mkSelect (SelectExprs s) (OrderBy s) (GroupBy s) v.

Definition set_OrderBys (v : list OrderByT) (p : OrderByPlan) : OrderByPlan :=
  mkOrderByPlan (op_node p) (op_tuples p) (op_tbInfos p) v.

(** A loop over a slice whose body may panic. *)
Fixpoint foldM {A S : Type} (f : A → S → option S) (l : list A) (s : S)
  : option S :=
  match l with
  | [] => Some s
  | x :: l' => s' ← f x s; foldM f l' s'
  end.

(** A loop over a slice whose body may [return err] or panic. *)
Fixpoint foldE {A S : Type} (f : A → S → option (error * S)) (l : list A)
    (s : S) : option (error * S) :=
  match l with
  | [] => Some (None, s)
  | x :: l' =>
      '(err, s') ← f x s;
      match err with
      | Some e => Some (Some e, s')
      | None => foldE f l' s'
      end
  end.

(** ** Collaborators outside the files embedded here *)

Class Collaborators := {
  (** The Route Oracle, [router.GetIndex(database, table, literal)]: the
      shard index and an error. *)
  GetIndex : string → string → string → Z * error;
  (** [checkIsWithNull(filter, tbs)] of expr.go: whether the filter is an
      IS NULL style test on tables of [tbs], and the [nullExpr] to record. *)
  checkIsWithNull : filterTuple → gmap string Ptr → bool * nullExpr;
  (** [AggregatePlan.Build] of the plan made by
      [NewAggregatePlan(log, sel.SelectExprs, fields, groups)]. *)
  AggregatePlan_Build :
    list SelectExpr → list selectTuple → list selectTuple → error;
  (** [LimitPlan.Build] of the plan made by [NewLimitPlan(log, sel)]. *)
  LimitPlan_Build : Select → error;
  (** The route resolution of [MergeNode.calcRoute]: the node with its
      route fields set, and an error. *)
  MergeNode_route : MergeNode → MergeNode * error;
  (** [fmt]'s [%+v] rendering of an expression. *)
  Sprintf_v : Expr → string }.

(** ** Rendering ([sqlparser]'s [Format]) *)

Definition ColName_String (cn : ColName) : string :=
  if decide (Qualifier cn = "") then Name cn
  else Qualifier cn +:+ "." +:+ Name cn.

(** [None] when a column pointer is dangling (a nil dereference). *)
Fixpoint Format (cs : gmap Ptr ColName) (e : Expr) : option string :=
  match e with
  | ColNameE c => ColName_String <$> cs !! c
  | SQLVal v => Some v
  | NullVal => Some "null"
  | ComparisonExpr op l r =>
      a ← Format cs l; b ← Format cs r; Some (a +:+ " " +:+ op +:+ " " +:+ b)
  | IsExpr op e => a ← Format cs e; Some (a +:+ " " +:+ op)
  | AndExpr l r =>
      a ← Format cs l; b ← Format cs r; Some (a +:+ " and " +:+ b)
  end.

Definition Format_SelectExpr (cs : gmap Ptr ColName) (e : SelectExpr)
  : option string :=
  match e with
  | AliasedExpr e As =>
      a ← Format cs e;
      Some (if decide (As = "") then a else a +:+ " as " +:+ As)
  | StarExpr tb => Some (if decide (tb = "") then "*" else tb +:+ ".*")
  end.

Definition Format_Order (cs : gmap Ptr ColName) (o : Order) : option string :=
  a ← Format cs (o_Expr o); Some (a +:+ " " +:+ o_Direction o).

(** ** Helpers of expr.go *)

(** Modelled from the spec: [checkTbInNode(referTables, tbInfos)], which is
    in expr.go.  Section 4.1.4: a node "covers" a tuple when every table the
    tuple refers to is among the node's referred tables. *)
Definition checkTbInNode (referTables : list string) (tbs : gmap string Ptr)
  : bool :=
  forallb (λ tb, bool_decide (is_Some (tbs !! tb))) referTables.

(** Modelled from the spec: [getTbInExpr(expr)], which is in expr.go.
    Section 4.1.6: the tables of an operand, that is the qualifiers of its
    columns. *)
Fixpoint getTbInExpr (cs : gmap Ptr ColName) (e : Expr) : option (list string) :=
  match e with
  | ColNameE c => cn ← cs !! c; Some [Qualifier cn]
  | SQLVal _ | NullVal => Some []
  | ComparisonExpr _ l r | AndExpr l r =>
      a ← getTbInExpr cs l; b ← getTbInExpr cs r; Some (a ++ b)
  | IsExpr _ e => getTbInExpr cs e
  end.

(** Modelled from the spec: [nameMatch(col, table, shardKey)], which is in
    expr.go.  Section 4.1.1: "the column equals the table's shard key". *)
Definition nameMatch (cn : ColName) (table shardkey : string) : bool :=
  bool_decide (Qualifier cn = "" ∨ Qualifier cn = table)
  && bool_decide (Name cn = shardkey).

(** Modelled from the spec: [checkInTuple(field, table, tuples)], which is
    in expr.go.  Section 4.1.7: the ordering column "must be in the select
    list": some tuple has that field name and, when the column is
    qualified, refers to that table. *)
Definition checkInTuple (field table : string) (tuples : list selectTuple)
  : bool :=
  existsb (λ t, bool_decide (sel_field t = field)
                && bool_decide (table = "" ∨ table ∈ sel_referTables t))
          tuples.

(** ** MergeNode operations consumed by the join planner *)

(** Modelled from the spec: [MergeNode.setWhereFilter], in merge_node.go.
    Section 4.2: "accumulate WHERE filters"; the filter set is the
    [filters] map that [JoinNode.buildQuery] writes with
    [filters[expr] = 0]. *)
Definition MergeNode_setWhereFilter (m : Ptr) (filter : Expr) (h : Heap)
  : option Heap :=
  mn ← merges h !! m;
  Some (set_merge m (set_m_filters (<[filter := 0]> (m_filters mn)) mn) h).

(** Modelled from the spec: [MergeNode.setNoTableFilter], in merge_node.go.
    Section 4.1.8: the no-table filters are propagated to the child, which
    accumulates them with its WHERE filters. *)
Definition MergeNode_setNoTableFilter (m : Ptr) (exprs : list Expr) (h : Heap)
  : option Heap :=
  _ ← merges h !! m;
  foldM (MergeNode_setWhereFilter m) exprs h.

(** Modelled from the spec: [MergeNode.pushSelectExpr], in merge_node.go.
    Section 4.2: "append a select expression (returns its index)". *)
Definition MergeNode_pushSelectExpr (m : Ptr) (field : selectTuple) (h : Heap)
  : option (Z * error * Heap) :=
  mn ← merges h !! m;
  let sel := set_SelectExprs (SelectExprs (m_sel mn) ++ [sel_expr field])
               (m_sel mn) in
  let mn' := set_m_fields (m_fields mn ++ [field]) (set_m_sel sel mn) in
  Some (Z.of_nat (length (m_fields mn')) - 1, None, set_merge m mn' h).

(** Modelled from the spec: [m.sel.AddHaving(expr)] on the select
    statement of a Merge.  Section 4.2: "add HAVING". *)
Definition MergeNode_AddHaving (m : Ptr) (e : Expr) (h : Heap) : option Heap :=
  mn ← merges h !! m;
  Some (set_merge m
          (set_m_sel (set_Having (Having (m_sel mn) ++ [e]) (m_sel mn)) mn) h).

(** Modelled from the spec: [MergeNode.buildQuery], in merge_node.go.
    Section 2: the Merge "emits one SELECT" with the accumulated
    projections, WHERE filters and ORDER BY, rendered when the query is
    built.  One tuple stands for the per-shard copies. *)
Definition MergeNode_buildQuery (m : Ptr) (h : Heap) : option Heap :=
  mn ← merges h !! m;
  sels ← mapM (Format_SelectExpr (cols h)) (SelectExprs (m_sel mn));
  whs ← mapM (Format (cols h)) (map fst (map_to_list (m_filters mn)));
  obs ← mapM (Format_Order (cols h)) (OrderBy (m_sel mn));
  Some (set_merge m
          (set_m_querys [mkQueryTuple (m_backend mn) sels whs obs] mn) h).

(** Modelled from the spec: [MergeNode.calcRoute], in merge_node.go.
    Section 6: [calcRoute() → (node, err)]; a Merge resolves its own route
    and returns itself. *)
Definition MergeNode_calcRoute {collab : Collaborators} (m : Ptr) (h : Heap)
  : option (error * Heap) :=
  mn ← merges h !! m;
  let '(mn', err) := MergeNode_route mn in
  Some (err, set_merge m mn' h).

(** Modelled from the spec: [mergeRoutes(lmn, rmn, joinExpr, nil)], in
    merge_node.go.  Sections 4.2 and 5: the collapse keeps one Merge (the
    left one, which [calcRoute] prepares), which takes over the other's
    tables and filters; every [TableInfo.parent] that pointed to the
    collapsed Merge points to the survivor; a zero [shardCount] inherits
    from the other side. *)
Definition mergeRoutes (lp rp : Ptr) (joinExpr : option JoinTableExpr)
    (h : Heap) : option (Ptr * error * Heap) :=
  lmn ← merges h !! lp;
  rmn ← merges h !! rp;
  let tbs := map_fold (λ _ p acc, alter (set_tb_parent lp) p acc)
               (tbInfos h) (m_referredTables rmn) in
  let lmn1 := set_m_referredTables
                (m_referredTables lmn ∪ m_referredTables rmn) lmn in
  let lmn2 := set_m_filters (m_filters lmn ∪ m_filters rmn) lmn1 in
  let lmn3 := set_m_hasParen (m_hasParen lmn || m_hasParen rmn) lmn2 in
  let lmn4 := if decide (m_shardCount lmn = 0)
              then set_m_shardCount (m_shardCount rmn) lmn3 else lmn3 in
  Some (lp, None, set_merge lp lmn4 (set_tbInfos tbs h)).

(** ** The PlanNode interface on the plan tree *)

(** The interface value of a node of the tree. *)
Definition ref (n : PlanNode) : NodeRef :=
  match n with
  | Merge m => MergeRef m
  | Join j _ _ => JoinRef (self j)
  end.

Definition getReferredTables (n : PlanNode) (h : Heap)
  : option (gmap string Ptr) :=
  match n with
  | Merge m => m_referredTables <$> merges h !! m
  | Join j _ _ => Some (j_referredTables j)
  end.

Definition getFields (n : PlanNode) (h : Heap) : option (list selectTuple) :=
  match n with
  | Merge m => m_fields <$> merges h !! m
  | Join j _ _ => Some (j_fields j)
  end.

(** [findLCA(h, p1, p2)] of plan_node.go. *)
Fixpoint findLCA (h : PlanNode) (p1 p2 : option NodeRef) : option NodeRef :=
  if bool_decide (p1 = Some (ref h)) || bool_decide (p2 = Some (ref h))
  then Some (ref h)
  else
    match h with
    | Merge _ => None
    | Join jn Left Right =>
        let pl := findLCA Left p1 p2 in
        let pr := findLCA Right p1 p2 in
        match pl, pr with
        | Some _, Some _ => Some (JoinRef (self jn))
        | None, _ => pr
        | _, _ => pl
        end
    end.

(** [JoinNode.setWhereFilter]. *)
Definition JoinNode_setWhereFilter (filter : Expr) (j : JoinNode) : JoinNode :=
  set_otherFilter (otherFilter j ++ [filter]) j.

(** [JoinNode.setNoTableFilter]. *)
Definition JoinNode_setNoTableFilter (exprs : list Expr) (j : JoinNode)
  : JoinNode :=
  set_noTableFilter (noTableFilter j ++ exprs) j.

(** A write through a [*JoinNode] found in the tree: the node whose
    address is [a] is updated in place. *)
Fixpoint update_join (a : Ptr) (f : JoinNode → JoinNode) (n : PlanNode)
  : PlanNode :=
  match n with
  | Merge m => Merge m
  | Join j l r =>
      Join (if bool_decide (self j = a) then f j else j)
           (update_join a f l) (update_join a f r)
  end.

(** [p.setWhereFilter(filter)] on an interface value [p] that points into
    the tree [n] or to a Merge; a nil [p] panics. *)
Definition setWhereFilter (p : option NodeRef) (filter : Expr)
    (n : PlanNode) (h : Heap) : option (PlanNode * Heap) :=
  match p with
  | None => None
  | Some (MergeRef m) => h' ← MergeNode_setWhereFilter m filter h; Some (n, h')
  | Some (JoinRef a) => Some (update_join a (JoinNode_setWhereFilter filter) n, h)
  end.

(** [n.setNoTableFilter(exprs)] on a child [n]. *)
Definition setNoTableFilter (n : PlanNode) (exprs : list Expr) (h : Heap)
  : option (PlanNode * Heap) :=
  match n with
  | Merge m => h' ← MergeNode_setNoTableFilter m exprs h; Some (Merge m, h')
  | Join j l r => Some (Join (JoinNode_setNoTableFilter exprs j) l r, h)
  end.

(** [j.referredTables[tb]] followed by a dereference: a missing table is a
    nil [*TableInfo]. *)
Definition tableInfo (tbs : gmap string Ptr) (tb : string) (h : Heap)
  : option TableInfo :=
  p ← tbs !! tb; tbInfos h !! p.

(** The loop of [pushFilter], [pushOtherJoin] and [pushHaving] that finds
    the common ancestor of the tables of a filter, below the node [top]. *)
Definition parentOf (top : PlanNode) (tbs : gmap string Ptr) (h : Heap)
    (tb : string) (parent : option NodeRef) : option (option NodeRef) :=
  tbInfo ← tableInfo tbs tb h;
  match parent with
  | None => Some (Some (MergeRef (tb_parent tbInfo)))
  | Some p =>
      if bool_decide (p ≠ MergeRef (tb_parent tbInfo))
      then Some (findLCA top parent (Some (MergeRef (tb_parent tbInfo))))
      else Some parent
  end.

(** [newJoinNode(log, Left, Right, router, joinExpr, joinOn, referredTables)]:
    the node is allocated at [addr]; [Left] and [Right] are the subtrees
    it is put on. *)
Definition newJoinNode (addr : Ptr) (joinExpr : option JoinTableExpr)
    (joinOn : list joinTuple) (referredTables : gmap string Ptr) : JoinNode :=
  mkJoinNode addr Cartesian joinExpr referredTables false None [] [] []
    joinOn [] [] [] false false [] [] [] None []
    (bool_decide (Join_ <$> joinExpr = Some LeftJoinStr)) false [] [] ∅.

(** ** [JoinNode.pushFilter] *)

Section Planner.
Context {collab : Collaborators}.

(** The [if len(filter.referTables) == 1 ... else ...] of the loop of
    [pushFilter]: where a filter that refers to tables is put.  The error
    is the one of the [return err] after [GetIndex]. *)
Definition pushFilter_place (filter : filterTuple) (n : PlanNode) (h : Heap)
  : option (error * PlanNode * Heap) :=
  match n with
  | Merge _ => None
  | Join j Left Right =>
      if bool_decide (length (f_referTables filter) = 1%nat) then
        tb ← head (f_referTables filter);
        tbInfo ← tableInfo (j_referredTables j) tb h;
        match f_col filter with
        | None =>
            h1 ← MergeNode_setWhereFilter (tb_parent tbInfo) (f_expr filter) h;
            Some (None, n, h1)
        | Some c =>
            let n1 := Join (set_tableFilter (tableFilter j ++ [filter]) j)
                        Left Right in
            mn ← merges h !! tb_parent tbInfo;
            match f_val filter with
            | Some v =>
                if bool_decide (m_index mn = -1)
                   && bool_decide (shardKey tbInfo ≠ "")
                then
                  cn ← cols h !! c;
                  if nameMatch cn tb (shardKey tbInfo) then
                    let '(idx, err) :=
                      GetIndex (database tbInfo) (tableName tbInfo) v in
                    Some (err, n1,
                          set_merge (tb_parent tbInfo) (set_m_index idx mn) h)
                  else Some (None, n1, h)
                else Some (None, n1, h)
            | None => Some (None, n1, h)
            end
        end
      else
        parent ← foldM (parentOf n (j_referredTables j) h)
                   (f_referTables filter) None;
        '(n1, h1) ← setWhereFilter parent (f_expr filter) n h;
        Some (None, n1, h1)
  end.

(** The body of the loop of [pushFilter] for one filter, on the node
    [Join j Left Right]. *)
Definition pushFilter_step (rightTbs : gmap string Ptr) (filter : filterTuple)
    (n : PlanNode) (h : Heap) : option (error * PlanNode * Heap) :=
  match n with
  | Merge _ => None
  | Join j Left Right =>
      if bool_decide (length (f_referTables filter) = 0%nat) then
        Some (None,
              Join (set_noTableFilter (noTableFilter j ++ [f_expr filter]) j)
                   Left Right, h)
      else if IsLeftJoin j && fst (checkIsWithNull filter rightTbs) then
        let nullFunc := snd (checkIsWithNull filter rightTbs) in
        Some (None,
              Join (set_rightNull (rightNull j ++ [nullFunc]) j) Left Right, h)
      else
        '(err, n1, h1) ← pushFilter_place filter n h;
        match err with
        | Some e => Some (Some e, n1, h1)
        | None =>
            match n1 with
            | Merge _ => None
            | Join j1 Left1 Right1 =>
                if IsLeftJoin j1 && negb (HasRightFilter j1)
                   && existsb (λ tb, bool_decide (is_Some (rightTbs !! tb)))
                        (f_referTables filter)
                then Some (None,
                           Join (set_HasRightFilter true j1) Left1 Right1, h1)
                else Some (None, n1, h1)
            end
        end
  end.

Fixpoint pushFilter_loop (rightTbs : gmap string Ptr)
    (filters : list filterTuple) (n : PlanNode) (h : Heap)
  : option (error * PlanNode * Heap) :=
  match filters with
  | [] => Some (None, n, h)
  | filter :: rest =>
      '(err, n1, h1) ← pushFilter_step rightTbs filter n h;
      match err with
      | Some e => Some (Some e, n1, h1)
      | None => pushFilter_loop rightTbs rest n1 h1
      end
  end.

(** [func (j *JoinNode) pushFilter(filters []filterTuple) error]. *)
Definition pushFilter (n : PlanNode) (filters : list filterTuple) (h : Heap)
  : option (error * PlanNode * Heap) :=
  match n with
  | Merge _ => None
  | Join j Left Right =>
      rightTbs ← getReferredTables Right h;
      pushFilter_loop rightTbs filters n h
  end.

(** ** [JoinNode.calcRoute] and [JoinNode.buildKeyFilter] *)

(** The loop of [buildKeyFilter] over [j.joinOn]: the first join-on whose
    column on the filter's side ([onLeft]: [join.left], else [join.right])
    is [table.field], with its index. *)
Fixpoint scanJoinOn (onLeft : bool) (table field : string)
    (cs : gmap Ptr ColName) (joins : list joinTuple) (i : nat)
  : option (option (nat * joinTuple)) :=
  match joins with
  | [] => Some None
  | join :: rest =>
      cn ← cs !! (if onLeft then jt_left join else jt_right join);
      if bool_decide (Qualifier cn = table) && bool_decide (Name cn = field)
      then Some (Some (i, join))
      else scanJoinOn onLeft table field cs rest (S i)
  end.

(** The body run at the matching join-on: record the filter under slot
    [i], and route the other side's Merge when the other column is its
    shard key.  The error of [GetIndex] is dropped ([index, _ = ...]). *)
Definition recordKeyFilter (onLeft : bool) (filter : filterTuple) (i : nat)
    (join : joinTuple) (j : JoinNode) (h : Heap) : option (JoinNode * Heap) :=
  let j1 := set_keyFilters
              (<[i := default [] (keyFilters j !! i) ++ [filter]]>
                 (keyFilters j)) j in
  match f_val filter with
  | None => Some (j1, h)
  | Some v =>
      cn ← cols h !! (if onLeft then jt_right join else jt_left join);
      tbInfo ← tableInfo (j_referredTables j) (Qualifier cn) h;
      mn ← merges h !! tb_parent tbInfo;
      if bool_decide (m_index mn = -1)
         && bool_decide (shardKey tbInfo = Name cn)
      then
        let idx := fst (GetIndex (database tbInfo) (tableName tbInfo) v) in
        Some (j1, set_merge (tb_parent tbInfo) (set_m_index idx mn) h)
      else Some (j1, h)
  end.

(** [func (j *JoinNode) buildKeyFilter(filter filterTuple, isFind bool) bool];
    only a JoinNode has this method. *)
Fixpoint buildKeyFilter (n : PlanNode) (filter : filterTuple) (isFind : bool)
    (h : Heap) : option (bool * PlanNode * Heap) :=
  match n with
  | Merge _ => None
  | Join j Left Right =>
      c ← f_col filter;
      cn ← cols h !! c;
      let table := Qualifier cn in
      let field := Name cn in
      tb0 ← head (f_referTables filter);
      ltbs ← getReferredTables Left h;
      let onLeft := bool_decide (is_Some (ltbs !! tb0)) in
      found ← scanJoinOn onLeft table field (cols h) (joinOn j) 0;
      '(find, j1, h1) ←
        match found with
        | Some (i, join) =>
            '(j1, h1) ← recordKeyFilter onLeft filter i join j h;
            Some (true, j1, h1)
        | None => Some (false, j, h)
        end;
      if onLeft then
        match Left with
        | Join _ _ _ =>
            '(b, Left1, h2) ← buildKeyFilter Left filter (find || isFind) h1;
            Some (b, Join j1 Left1 Right, h2)
        | Merge _ => Some (find || isFind, Join j1 Left Right, h1)
        end
      else
        match Right with
        | Join _ _ _ =>
            '(b, Right1, h2) ← buildKeyFilter Right filter (find || isFind) h1;
            Some (b, Join j1 Left Right1, h2)
        | Merge _ => Some (find || isFind, Join j1 Left Right, h1)
        end
  end.

(** The body of the first loop of [calcRoute], for one table filter. *)
Definition calcRoute_filter (filter : filterTuple) (s : PlanNode * Heap)
  : option (PlanNode * Heap) :=
  let '(n, h) := s in
  '(found, n1, h1) ← buildKeyFilter n filter false h;
  if (found : bool) then Some (n1, h1)
  else
    match n1 with
    | Merge _ => None
    | Join j1 _ _ =>
        tb0 ← head (f_referTables filter);
        tbInfo ← tableInfo (j_referredTables j1) tb0 h1;
        h2 ← MergeNode_setWhereFilter (tb_parent tbInfo) (f_expr filter) h1;
        Some (n1, h2)
    end.

(** The expressions [calcRoute] hands to the collapsed Merge, in the order
    of the four loops. *)
Definition collapseFilters (j : JoinNode) : list Expr :=
  otherFilter j
  ++ flat_map (λ kv, map f_expr (snd kv)) (map_to_list (keyFilters j))
  ++ noTableFilter j
  ++ (if bool_decide (joinExpr j = None)
         && bool_decide ((0 < length (joinOn j))%nat)
      then map jt_expr (joinOn j) else []).

(** The test of [calcRoute] on the two routed Merges. *)
Definition sameRoute (lmn rmn : MergeNode) : bool :=
  (bool_decide (m_backend lmn ≠ "")
   && bool_decide (m_backend lmn = m_backend rmn))
  || bool_decide (m_shardCount rmn = 0)
  || bool_decide (m_shardCount lmn = 0).

(** The end of [calcRoute], once both children are routed: "left and right
    node have same routes". *)
Definition calcRoute_collapse (j : JoinNode) (Left Right : PlanNode) (h : Heap)
  : option (PlanNode * error * Heap) :=
  match Left, Right with
  | Merge lp, Merge rp =>
      lmn ← merges h !! lp;
      rmn ← merges h !! rp;
      if sameRoute lmn rmn then
        let lmn1 :=
          if bool_decide (m_shardCount lmn = 0)
          then set_m_index (m_index rmn)
                 (set_m_routeLen (m_routeLen rmn)
                    (set_m_backend (m_backend rmn) lmn))
          else lmn in
        let h1 := set_merge lp lmn1 h in
        '(mp, _, h2) ← mergeRoutes lp rp (joinExpr j) h1;
        mn ← merges h2 !! mp;
        let h3 := set_merge mp
                    (set_m_hasParen (j_hasParen j)
                       (set_m_parent (j_parent j) mn)) h2 in
        h4 ← foldM (MergeNode_setWhereFilter mp) (collapseFilters j) h3;
        Some (Merge mp, None, h4)
      else Some (Join j Left Right, None, h)
  | _, _ => Some (Join j Left Right, None, h)
  end.

(** [func (j *JoinNode) calcRoute() (PlanNode, error)].

    The first loop rewrites [keyFilters] inside the children before they
    are routed, so the recursion cannot follow the node itself; it follows
    [t], the node as it was on entry, whose shape the loop keeps.
    [calcRoute_unfold] below is the equation of the source, with
    [calcRoute] itself called on the children. *)
Fixpoint calcRoute_at (t n : PlanNode) (h : Heap)
  : option (PlanNode * error * Heap) :=
  match n with
  | Merge m => '(err, h1) ← MergeNode_calcRoute m h; Some (Merge m, err, h1)
  | Join j _ _ =>
      '(n1, h1) ← foldM calcRoute_filter (tableFilter j) (n, h);
      match n1, t with
      | Join j1 Left1 Right1, Join _ tl tr =>
          '(Left2, err, h2) ← calcRoute_at tl Left1 h1;
          match err with
          | Some e => Some (Join j1 Left2 Right1, Some e, h2)
          | None =>
              '(Right2, err, h3) ← calcRoute_at tr Right1 h2;
              match err with
              | Some e => Some (Join j1 Left2 Right2, Some e, h3)
              | None => calcRoute_collapse j1 Left2 Right2 h3
              end
          end
      | _, _ => None
      end
  end.

Definition calcRoute (n : PlanNode) (h : Heap)
  : option (PlanNode * error * Heap) :=
  calcRoute_at n n h.

(** ** [JoinNode.pushSelectExprs] and the passes it runs *)

(** [func (j *JoinNode) pushSelectExpr(field selectTuple) (int, error)],
    and [MergeNode.pushSelectExpr] on a Merge. *)
Fixpoint pushSelectExpr (n : PlanNode) (field : selectTuple) (h : Heap)
  : option (Z * error * PlanNode * Heap) :=
  match n with
  | Merge m =>
      '(index, err, h1) ← MergeNode_pushSelectExpr m field h;
      Some (index, err, Merge m, h1)
  | Join j Left Right =>
      ltbs ← getReferredTables Left h;
      if checkTbInNode (sel_referTables field) ltbs then
        '(index, err, Left1, h1) ← pushSelectExpr Left field h;
        match err with
        | Some e => Some (-1, Some e, Join j Left1 Right, h1)
        | None =>
            let j1 := set_Cols (Cols j ++ [- index - 1]) j in
            let j2 := set_j_fields (j_fields j1 ++ [field]) j1 in
            Some (Z.of_nat (length (j_fields j2)) - 1, None,
                  Join j2 Left1 Right, h1)
        end
      else
        rtbs ← getReferredTables Right h;
        if checkTbInNode (sel_referTables field) rtbs then
          '(index, err, Right1, h1) ← pushSelectExpr Right field h;
          match err with
          | Some e => Some (-1, Some e, Join j Left Right1, h1)
          | None =>
              let j1 := set_Cols (Cols j ++ [index + 1]) j in
              let j2 := set_j_fields (j_fields j1 ++ [field]) j1 in
              Some (Z.of_nat (length (j_fields j2)) - 1, None,
                    Join j2 Left Right1, h1)
          end
        else
          sql ← Format_SelectExpr (cols h) (sel_expr field);
          Some (-1,
                Some ("unsupported: expr.'" +:+ sql +:+ "'.in.cross-shard.join"),
                n, h)
  end.

(** The search of [buildOrderBy] and [pushOtherFilter] for a projected
    column: the first index whose tuple refers to exactly [table] and is
    named [field], or [-1]. *)
Fixpoint findField (table field : string) (tuples : list selectTuple) (i : Z)
  : Z :=
  match tuples with
  | [] => -1
  | tuple :: rest =>
      if bool_decide (sel_referTables tuple = [table])
         && bool_decide (sel_field tuple = field)
      then i
      else findField table field rest (i + 1)
  end.

(** [func (j *JoinNode) buildOrderBy(col *sqlparser.ColName, node PlanNode) JoinKey];
    the error of [pushSelectExpr] is dropped. *)
Definition buildOrderBy (col : Ptr) (node : PlanNode) (h : Heap)
  : option (JoinKey * PlanNode * Heap) :=
  cn ← cols h !! col;
  let field := Name cn in
  let table := Qualifier cn in
  tuples ← getFields node h;
  let index := findField table field tuples 0 in
  '(index1, node1, h1) ←
    (if bool_decide (index = -1) then
       let tuple := mkSelectTuple (AliasedExpr (ColNameE col) "") field [table] in
       '(index1, _, node1, h1) ← pushSelectExpr node tuple h;
       Some (index1, node1, h1)
     else Some (index, node, h));
  h2 ←
    match node1 with
    | Merge m =>
        mn ← merges h1 !! m;
        let sel := set_OrderBy
                     (OrderBy (m_sel mn) ++ [mkOrder (ColNameE col) AscScr])
                     (m_sel mn) in
        Some (set_merge m (set_m_sel sel mn) h1)
    | Join _ _ _ => Some h1
    end;
  Some (mkJoinKey field table index1, node1, h2).

Definition isMerge (n : PlanNode) : bool :=
  match n with Merge _ => true | Join _ _ _ => false end.

(** The body of the loop of [handleJoinOn] for one join-on. *)
Definition handleJoinOn_step (lok rok : bool) (join : joinTuple)
    (s : JoinNode * PlanNode * PlanNode * Heap)
  : option (JoinNode * PlanNode * PlanNode * Heap) :=
  let '(j, Left, Right, h) := s in
  '(leftKey, Left1, h1) ← buildOrderBy (jt_left join) Left h;
  j1 ←
    (if lok && negb (LeftUnique j) then
       tbInfo ← tableInfo (j_referredTables j) (Table leftKey) h1;
       Some (set_LeftUnique (bool_decide (Field leftKey = shardKey tbInfo)) j)
     else Some j);
  let j2 := set_LeftKeys (LeftKeys j1 ++ [leftKey]) j1 in
  '(rightKey, Right1, h2) ← buildOrderBy (jt_right join) Right h1;
  j3 ←
    (if rok && negb (RightUnique j2) then
       tbInfo ← tableInfo (j_referredTables j2) (Table rightKey) h2;
       Some (set_RightUnique (bool_decide (Field rightKey = shardKey tbInfo)) j2)
     else Some j2);
  Some (set_RightKeys (RightKeys j3 ++ [rightKey]) j3, Left1, Right1, h2).

(** [func (j *JoinNode) handleJoinOn()]. *)
Fixpoint handleJoinOn (n : PlanNode) (h : Heap) : option (PlanNode * Heap) :=
  match n with
  | Merge _ => None
  | Join j Left Right =>
      '(Left1, h1) ←
        (if isMerge Left then Some (Left, h) else handleJoinOn Left h);
      '(Right1, h2) ←
        (if isMerge Right then Some (Right, h1) else handleJoinOn Right h1);
      '(j3, Left3, Right3, h3) ←
        foldM (handleJoinOn_step (isMerge Left) (isMerge Right)) (joinOn j)
          (j, Left1, Right1, h2);
      Some (Join j3 Left3 Right3, h3)
  end.

(** [func (j *JoinNode) pushOtherFilter(expr, node, tbs, idx) (int, error)];
    the counter behind [idx] is returned with the result. *)
Definition pushOtherFilter (expr : Expr) (node : PlanNode) (tbs : list string)
    (idx : Z) (h : Heap) : option (Z * error * PlanNode * Z * Heap) :=
  index ←
    match expr with
    | ColNameE c =>
        cn ← cols h !! c;
        tuples ← getFields node h;
        Some (findField (Qualifier cn) (Name cn) tuples 0)
    | _ => Some (-1)
    end;
  if bool_decide (index = -1) then
    let alias := "tmpo_" +:+ pretty idx in
    let tuple := mkSelectTuple (AliasedExpr expr alias) alias tbs in
    '(index1, err, node1, h1) ← pushSelectExpr node tuple h;
    match err with
    | Some e => Some (index1, Some e, node1, idx, h1)
    | None => Some (index1, None, node1, idx + 1, h1)
    end
  else Some (index, None, node, idx, h).

(** The state of the passes of [handleOthers] on one JoinNode: the node,
    its children, the counter [idx] and the store. *)
Definition OthersState : Type := JoinNode * PlanNode * PlanNode * Z * Heap.

Definition clauseError (cs : gmap Ptr ColName) (expr : Expr) : option string :=
  sql ← Format cs expr;
  Some ("unsupported: clause.'" +:+ sql +:+ "'.in.cross-shard.join").

(** One branch of the loop of [pushOtherFilters]: [lexpr] is projected on
    the left child, [rexpr] on the right child, and the comparison of the
    two indexes is recorded; [exchange] says that the operands were
    swapped. *)
Definition pushComparison (op : string) (exchange : bool)
    (lexpr : Expr) (ltbs : list string) (rexpr : Expr) (rtbs : list string)
    (s : OthersState) : option (error * OthersState) :=
  let '(j, Left, Right, idx, h) := s in
  '(lidx, err, Left1, idx1, h1) ← pushOtherFilter lexpr Left ltbs idx h;
  match err with
  | Some e => Some (Some e, (j, Left1, Right, idx1, h1))
  | None =>
      '(ridx, err, Right1, idx2, h2) ← pushOtherFilter rexpr Right rtbs idx1 h1;
      match err with
      | Some e => Some (Some e, (j, Left1, Right1, idx2, h2))
      | None =>
          Some (None,
                (set_CmpFilter
                   (CmpFilter j ++ [mkComparison lidx ridx op exchange]) j,
                 Left1, Right1, idx2, h2))
      end
  end.

(** The body of the loop of [pushOtherFilters]. *)
Definition pushOtherFilters_step (expr : Expr) (s : OthersState)
  : option (error * OthersState) :=
  let '(j, Left, Right, idx, h) := s in
  match expr with
  | ComparisonExpr op el er =>
      left ← getTbInExpr (cols h) el;
      right ← getTbInExpr (cols h) er;
      ltb ← getReferredTables Left h;
      rtb ← getReferredTables Right h;
      if checkTbInNode left ltb && checkTbInNode right rtb then
        pushComparison op false el left er right s
      else if checkTbInNode left rtb && checkTbInNode right ltb then
        pushComparison op true er right el left s
      else
        e ← clauseError (cols h) expr; Some (Some e, s)
  | _ => e ← clauseError (cols h) expr; Some (Some e, s)
  end.

(** [func (j *JoinNode) pushOtherFilters(filters []sqlparser.Expr, idx *int) error]. *)
Definition pushOtherFilters (filters : list Expr) (s : OthersState)
  : option (error * OthersState) :=
  foldE pushOtherFilters_step filters s.

(** The body of the loop of [pushNullExprs]. *)
Definition pushNullExprs_step (tuple : nullExpr) (s : OthersState)
  : option (error * OthersState) :=
  let '(j, Left, Right, idx, h) := s in
  '(index, err, Right1, idx1, h1) ←
    pushOtherFilter (ne_expr tuple) Right (ne_referTables tuple) idx h;
  match err with
  | Some e => Some (Some e, (j, Left, Right1, idx1, h1))
  | None =>
      Some (None,
            (set_RightTmpCols (RightTmpCols j ++ [index]) j,
             Left, Right1, idx1, h1))
  end.

(** [func (j *JoinNode) pushNullExprs(idx *int) error]. *)
Definition pushNullExprs (s : OthersState) : option (error * OthersState) :=
  foldE pushNullExprs_step (rightNull (s.1.1.1.1)) s.

(** The loop of [pushOtherJoin] over [otherJoinOn.left]. *)
Definition pushOtherJoin_left (field : selectTuple) (s : OthersState)
  : option (error * OthersState) :=
  let '(j, Left, Right, idx, h) := s in
  '(index, err, Left1, h1) ← pushSelectExpr Left field h;
  match err with
  | Some e => Some (Some e, (j, Left1, Right, idx, h1))
  | None =>
      Some (None,
            (set_LeftTmpCols (LeftTmpCols j ++ [index]) j,
             Left1, Right, idx, h1))
  end.

(** The loop of [pushOtherJoin] over [otherJoinOn.right]. *)
Definition pushOtherJoin_right (filter : filterTuple) (s : OthersState)
  : option (error * OthersState) :=
  let '(j, Left, Right, idx, h) := s in
  parent ← foldM (parentOf Right (j_referredTables j) h)
             (f_referTables filter) None;
  match parent with
  | Some (MergeRef m) =>
      h1 ← MergeNode_setWhereFilter m (f_expr filter) h;
      Some (None, (j, Left, Right, idx, h1))
  | _ =>
      sql ← Format (cols h) (f_expr filter);
      Some (Some ("unsupported: on.clause.'" +:+ sql
                  +:+ "'.in.cross-shard.join"), s)
  end.

(** [func (j *JoinNode) pushOtherJoin(idx *int) error]. *)
Definition pushOtherJoin (s : OthersState) : option (error * OthersState) :=
  match otherJoinOn (s.1.1.1.1) with
  | None => Some (None, s)
  | Some oj =>
      '(err, s1) ←
        (if bool_decide ((0 < length (oj_others oj))%nat)
         then pushOtherFilters (oj_others oj) s else Some (None, s));
      match err with
      | Some e => Some (Some e, s1)
      | None =>
          let '(j, Left, Right, idx, h) := s1 in
          '(Right1, h1) ←
            (if bool_decide ((0 < length (oj_noTables oj))%nat)
             then setNoTableFilter Right (oj_noTables oj) h
             else Some (Right, h));
          '(err, s2) ← foldE pushOtherJoin_left (oj_left oj)
                         (j, Left, Right1, idx, h1);
          match err with
          | Some e => Some (Some e, s2)
          | None => foldE pushOtherJoin_right (oj_right oj) s2
          end
      end
  end.

(** [func (j *JoinNode) handleOthers() error]. *)
Fixpoint handleOthers (n : PlanNode) (h : Heap)
  : option (error * PlanNode * Heap) :=
  match n with
  | Merge _ => None
  | Join j Left Right =>
      '(err, Left1, h1) ←
        (if isMerge Left then Some (None, Left, h) else handleOthers Left h);
      match err with
      | Some e => Some (Some e, Join j Left1 Right, h1)
      | None =>
          '(err, Right1, h2) ←
            (if isMerge Right then Some (None, Right, h1)
             else handleOthers Right h1);
          match err with
          | Some e => Some (Some e, Join j Left1 Right1, h2)
          | None =>
              '(err, s1) ← pushOtherJoin (j, Left1, Right1, 0, h2);
              match err with
              | Some e => Some (Some e, Join s1.1.1.1.1 s1.1.1.1.2 s1.1.1.2, s1.2)
              | None =>
                  '(err, s2) ← pushNullExprs s1;
                  match err with
                  | Some e =>
                      Some (Some e, Join s2.1.1.1.1 s2.1.1.1.2 s2.1.1.2, s2.2)
                  | None =>
                      '(err, s3) ← pushOtherFilters (otherFilter s2.1.1.1.1) s2;
                      Some (err, Join s3.1.1.1.1 s3.1.1.1.2 s3.1.1.2, s3.2)
                  end
              end
          end
      end
  end.

(** The body of the loop of [pushSelectExprs] over [fields]. *)
Definition pushSelectExprs_step (tuple : selectTuple) (s : PlanNode * Heap)
  : option (error * (PlanNode * Heap)) :=
  '(_, err, n1, h1) ← pushSelectExpr s.1 tuple s.2;
  Some (err, (n1, h1)).

(** [func (j *JoinNode) pushSelectExprs(fields, groups []selectTuple,
      sel *sqlparser.Select, hasAggregates bool) error]. *)
Definition pushSelectExprs (n : PlanNode) (fields groups : list selectTuple)
    (sel : Select) (hasAggregates : bool) (h : Heap)
  : option (error * PlanNode * Heap) :=
  match n with
  | Merge _ => None
  | Join j Left Right =>
      if hasAggregates then
        Some (Some "unsupported: cross-shard.query.with.aggregates", n, h)
      else
        let '(err, n1) :=
          if bool_decide ((0 < length groups)%nat) then
            match AggregatePlan_Build (SelectExprs sel) fields groups with
            | Some e => (Some e, n)
            | None =>
                (None,
                 Join (set_j_children
                         (j_children j ++ [PlanAggregate fields groups]) j)
                      Left Right)
            end
          else (None, n) in
        match err with
        | Some e => Some (Some e, n1, h)
        | None =>
            '(err, s2) ← foldE pushSelectExprs_step fields (n1, h);
            match err with
            | Some e => Some (Some e, s2.1, s2.2)
            | None =>
                '(n3, h3) ← handleJoinOn s2.1 s2.2;
                handleOthers n3 h3
            end
        end
  end.

(** ** [OrderByPlan] *)

(** The body of the loop of [analyze] for one ordering. *)
Definition analyze_step (cs : gmap Ptr ColName) (o : Order) (p : OrderByPlan)
  : option (error * OrderByPlan) :=
  match o_Expr o with
  | ColNameE c =>
      e ← cs !! c;
      let dir := if bool_decide (o_Direction o = "desc") then DESC
                 else if bool_decide (o_Direction o = "asc") then ASC
                 else "" in
      let orderBy := mkOrderBy (Name e) (Qualifier e) dir in
      if bool_decide (ob_Table orderBy ≠ "")
         && negb (bool_decide (is_Some (op_tbInfos p !! ob_Table orderBy)))
      then
        Some (Some ("unsupported: unknow.table.in.order.by.field["
                    +:+ ob_Table orderBy +:+ "." +:+ ob_Field orderBy +:+ "]"),
              p)
      else if negb (checkInTuple (ob_Field orderBy) (ob_Table orderBy)
                      (op_tuples p))
      then
        Some (Some ("unsupported: orderby[" +:+ ob_Field orderBy
                    +:+ "].should.in.select.list"), p)
      else Some (None, set_OrderBys (OrderBys p ++ [orderBy]) p)
  | e => Some (Some ("unsupported: orderby:" +:+ Sprintf_v e), p)
  end.

(** [func (p *OrderByPlan) analyze() error]. *)
Definition analyze (cs : gmap Ptr ColName) (p : OrderByPlan)
  : option (error * OrderByPlan) :=
  foldE (analyze_step cs) (OrderBy (op_node p)) p.

(** [func (p *OrderByPlan) Build() error]. *)
Definition OrderByPlan_Build (cs : gmap Ptr ColName) (p : OrderByPlan)
  : option (error * OrderByPlan) :=
  analyze cs p.

(** [NewOrderByPlan(log, node, tuples, tbInfos)]. *)
Definition NewOrderByPlan (node : Select) (tuples : list selectTuple)
    (tbs : gmap string Ptr) : OrderByPlan :=
  mkOrderByPlan node tuples tbs [].

(** ** HAVING, ORDER BY, LIMIT *)

(** Modelled from the spec: [MergeNode.pushHaving], in merge_node.go.
    Section 4.2: the Merge adds each predicate to its HAVING. *)
Definition MergeNode_pushHaving (m : Ptr) (havings : list filterTuple)
    (h : Heap) : option (error * Heap) :=
  h1 ← foldM (λ filter, MergeNode_AddHaving m (f_expr filter)) havings h;
  Some (None, h1).

(** [func (j *JoinNode) pushHaving(havings []filterTuple) error]; the
    results of the two broadcast calls are dropped. *)
Fixpoint pushHaving (n : PlanNode) (havings : list filterTuple) (h : Heap)
  : option (error * Heap) :=
  match n with
  | Merge m => MergeNode_pushHaving m havings h
  | Join j Left Right =>
      foldE
        (λ filter h,
           if bool_decide (length (f_referTables filter) = 0%nat) then
             '(_, h1) ← pushHaving Left [filter] h;
             '(_, h2) ← pushHaving Right [filter] h1;
             Some (None, h2)
           else if bool_decide (length (f_referTables filter) = 1%nat) then
             tb ← head (f_referTables filter);
             tbInfo ← tableInfo (j_referredTables j) tb h;
             h1 ← MergeNode_AddHaving (tb_parent tbInfo) (f_expr filter) h;
             Some (None, h1)
           else
             parent ← foldM (parentOf n (j_referredTables j) h)
                        (f_referTables filter) None;
             match parent with
             | Some (MergeRef m) =>
                 h1 ← MergeNode_AddHaving m (f_expr filter) h;
                 Some (None, h1)
             | _ =>
                 sql ← Format (cols h) (f_expr filter);
                 Some (Some ("unsupported: havings.'" +:+ sql
                             +:+ "'.in.cross-shard.join"), h)
             end)
        havings h
  end.

(** [func (j *JoinNode) pushOrderBy(sel *sqlparser.Select, fields []selectTuple) error];
    [sel] is written through its pointer and returned. *)
Definition pushOrderBy (n : PlanNode) (sel : Select) (fields : list selectTuple)
    (h : Heap) : option (error * PlanNode * Select) :=
  match n with
  | Merge _ => None
  | Join j Left Right =>
      let sel1 :=
        if bool_decide (length (OrderBy sel) = 0%nat)
        then set_OrderBy
               (OrderBy sel ++ map (λ by_, mkOrder by_ AscScr) (GroupBy sel)) sel
        else sel in
      if bool_decide ((0 < length (OrderBy sel1))%nat) then
        '(err, orderPlan) ←
          OrderByPlan_Build (cols h)
            (NewOrderByPlan sel1 fields (j_referredTables j));
        match err with
        | Some e => Some (Some e, n, sel1)
        | None =>
            Some (None,
                  Join (set_j_children (j_children j ++ [PlanOrderBy orderPlan]) j)
                       Left Right, sel1)
        end
      else Some (None, n, sel1)
  end.

(** [func (j *JoinNode) pushLimit(sel *sqlparser.Select) error]. *)
Definition pushLimit (n : PlanNode) (sel : Select)
  : option (error * PlanNode) :=
  match n with
  | Merge _ => None
  | Join j Left Right =>
      match LimitPlan_Build sel with
      | Some e => Some (Some e, n)
      | None =>
          Some (None,
                Join (set_j_children (j_children j ++ [PlanLimit]) j) Left Right)
      end
  end.

(** ** [JoinNode.buildQuery] *)

(** The inner loop of [buildQuery] for one filter of a slot: the column
    object of the filter is renamed to [table.field] and the expression is
    put in the filter set of the Merge that owns [table]. *)
Definition attachKeyFilter (table field : string) (tbInfo : option TableInfo)
    (filter : filterTuple) (h : Heap) : option Heap :=
  c ← f_col filter;
  _ ← cols h !! c;
  let h1 := set_col c (mkColName field table) h in
  ti ← tbInfo;
  mn ← merges h1 !! tb_parent ti;
  Some (set_merge (tb_parent ti)
          (set_m_filters (<[f_expr filter := 0]> (m_filters mn)) mn) h1).

(** The body of the loop over [j.keyFilters], for the keys of one side. *)
Definition attachKeyFilters_slot (keys : list JoinKey)
    (tbs : gmap string Ptr) (slot : nat * list filterTuple) (h : Heap)
  : option Heap :=
  key ← keys !! slot.1;
  foldM (attachKeyFilter (Table key) (Field key) (tableInfo tbs (Table key) h))
    slot.2 h.

Definition attachKeyFilters (keys : list JoinKey) (j : JoinNode) (h : Heap)
  : option Heap :=
  foldM (attachKeyFilters_slot keys (j_referredTables j))
    (map_to_list (keyFilters j)) h.

Definition chooseStrategy (j : JoinNode) : JoinStrategy :=
  if bool_decide (length (LeftKeys j) = 0%nat)
     && bool_decide (length (CmpFilter j) = 0%nat)
  then Cartesian else SortMerge.

(** The two statements of [buildQuery] that come before a child is built:
    [child.setNoTableFilter(j.noTableFilter)] and the loop over
    [j.keyFilters] with the keys of that side. *)
Definition prepareChild (keys : list JoinKey) (j : JoinNode) (child : PlanNode)
    (h : Heap) : option (PlanNode * Heap) :=
  '(child1, h1) ← setNoTableFilter child (noTableFilter j) h;
  h2 ← attachKeyFilters keys j h1;
  Some (child1, h2).

(** [func (j *JoinNode) buildQuery()], and [MergeNode.buildQuery] on a
    Merge.  [setNoTableFilter] rewrites a child before it is built, so the
    recursion follows [t], the node as it was on entry; [buildQuery_unfold]
    below is the equation of the source, with [buildQuery] itself called
    on the children. *)
Fixpoint buildQuery_at (t n : PlanNode) (h : Heap) : option (PlanNode * Heap) :=
  match n with
  | Merge m => h1 ← MergeNode_buildQuery m h; Some (Merge m, h1)
  | Join j Left Right =>
      match t with
      | Merge _ => None
      | Join _ tl tr =>
          let j1 := set_Strategy (chooseStrategy j) j in
          '(Left1, h1) ← prepareChild (LeftKeys j1) j1 Left h;
          '(Left2, h2) ← buildQuery_at tl Left1 h1;
          '(Right1, h3) ← prepareChild (RightKeys j1) j1 Right h2;
          '(Right2, h4) ← buildQuery_at tr Right1 h3;
          Some (Join j1 Left2 Right2, h4)
      end
  end.

Definition buildQuery (n : PlanNode) (h : Heap) : option (PlanNode * Heap) :=
  buildQuery_at n n h.

(** The state of [calcRoute] on a JoinNode once both children are routed
    (or the first of them has failed): the node, its children, the error
    and the store. *)
Definition calcRoute_children (n : PlanNode) (h : Heap)
  : option (JoinNode * PlanNode * PlanNode * error * Heap) :=
  match n with
  | Merge _ => None
  | Join j Left Right =>
      '(n1, h1) ← foldM calcRoute_filter (tableFilter j) (n, h);
      match n1 with
      | Merge _ => None
      | Join j1 Left1 Right1 =>
          '(Left2, err, h2) ← calcRoute_at Left Left1 h1;
          match err with
          | Some e => Some (j1, Left2, Right1, Some e, h2)
          | None =>
              '(Right2, err, h3) ← calcRoute_at Right Right1 h2;
              Some (j1, Left2, Right2, err, h3)
          end
      end
  end.

End Planner.

(** * A worked plan: [t1 join t2 on t1.a = t2.a where t1.a = 1] *)

Module Example.

(** Modelled from the spec: an instance of [checkIsWithNull].  Section
    4.1.1: a predicate that is an IS NULL test on right-side tables is
    recorded in [rightNull]. *)
Definition checkIsWithNull_isnull (filter : filterTuple)
    (tbs : gmap string Ptr) : bool * nullExpr :=
  match f_expr filter with
  | IsExpr op _ =>
      if bool_decide (op = "is null") && checkTbInNode (f_referTables filter) tbs
      then (true, mkNullExpr (f_expr filter) (f_referTables filter))
      else (false, mkNullExpr NullVal [])
  | _ => (false, mkNullExpr NullVal [])
  end.

(** A Route Oracle that hashes a numeric literal by its length and
    rejects the literal ['x']. *)
Definition GetIndex_hash (db tb v : string) : Z * error :=
  if bool_decide (v = "'x'") then (0, Some "hash.unsupported.key.type")
  else (Z.of_nat (String.length v), None).

Definition route_backend (mn : MergeNode) : MergeNode * error :=
  (set_m_shardCount 1
     (set_m_routeLen 1
        (set_m_backend ("backend" +:+ pretty (m_index mn)) mn)), None).

Definition collaborators : Collaborators := {|
  GetIndex := GetIndex_hash;
  checkIsWithNull := checkIsWithNull_isnull;
  AggregatePlan_Build := λ _ _ _, None;
  LimitPlan_Build := λ _, None;
  MergeNode_route := route_backend;
  Sprintf_v := λ _, "&{...}" |}.

Definition emptySelect : Select := mkSelect [] [] [] [].

Definition newMergeNode (tb : string) (ti : Ptr) : MergeNode :=
  mkMergeNode {[tb := ti]} [] ∅ emptySelect (-1) "" 0 0 false None [].

(** Column objects: 101 and 102 are the two sides of the ON clause, 103
    the column of the WHERE filter, 104 and 105 the select list. *)
Definition heap0 : Heap :=
  mkHeap
    (list_to_map [(101%nat, mkColName "a" "t1"); (102%nat, mkColName "a" "t2");
                  (103%nat, mkColName "a" "t1"); (104%nat, mkColName "b" "t1");
                  (105%nat, mkColName "b" "t2"); (106%nat, mkColName "c" "t2")])
    (list_to_map [(11%nat, mkTableInfo "db" "t1" "id" 1%nat);
                  (12%nat, mkTableInfo "db" "t2" "a" 2%nat)])
    (list_to_map [(1%nat, newMergeNode "t1" 11%nat);
                  (2%nat, newMergeNode "t2" 12%nat)]).

Definition tables : gmap string Ptr := list_to_map [("t1", 11%nat); ("t2", 12%nat)].

Definition on_a : joinTuple :=
  mkJoinTuple (ComparisonExpr "=" (ColNameE 101) (ColNameE 102)) ["t1"; "t2"]
    101 102.

Definition where_a (lit : string) : filterTuple :=
  mkFilterTuple (ComparisonExpr "=" (ColNameE 103) (SQLVal lit)) ["t1"]
    (Some 103%nat) (Some lit).

Definition isnull_c : filterTuple :=
  mkFilterTuple (IsExpr "is null" (ColNameE 106)) ["t2"] None None.

Definition select_list : list selectTuple :=
  [mkSelectTuple (AliasedExpr (ColNameE 104) "") "b" ["t1"];
   mkSelectTuple (AliasedExpr (ColNameE 105) "") "b" ["t2"]].

Definition plan0 (kind : string) : PlanNode :=
  Join (newJoinNode 3 (Some (mkJoinTableExpr kind None)) [on_a] tables)
       (Merge 1) (Merge 2).

End Example.


(** * Theorems *)

(** Case analysis on the outcome of the first call of a sequence of
    calls, in a hypothesis that says the sequence returned. *)
Ltac dbind_in o H :=
  lazymatch o with
  | mbind _ ?o' => dbind_in o' H
  | _ => let E := fresh "E" in
         destruct o eqn:E; simpl in H; [|discriminate H]
  end.

Ltac dbind H :=
  lazymatch type of H with
  | mbind _ ?o = _ => dbind_in o H
  end.

Ltac dpairs :=
  repeat match goal with
         | p : (_ * _)%type |- _ => destruct p
         end.

Section Theorems.
Context {collab : Collaborators}.

(** ** Query emission *)

Lemma Strategy_set_Strategy s j : Strategy (set_Strategy s j) = s.
Proof. by destruct j. Qed.

Lemma LeftKeys_set_Strategy s j : LeftKeys (set_Strategy s j) = LeftKeys j.
Proof. by destruct j. Qed.

Lemma CmpFilter_set_Strategy s j : CmpFilter (set_Strategy s j) = CmpFilter j.
Proof. by destruct j. Qed.

(** [buildQuery] on a JoinNode, one statement after the other. *)
Lemma buildQuery_Join j l r h n' h' :
  buildQuery (Join j l r) h = Some (n', h') →
  let j1 := set_Strategy (chooseStrategy j) j in
  ∃ l1 h1 l2 h2 r1 h3 r2,
    prepareChild (LeftKeys j1) j1 l h = Some (l1, h1)
    ∧ buildQuery_at l l1 h1 = Some (l2, h2)
    ∧ prepareChild (RightKeys j1) j1 r h2 = Some (r1, h3)
    ∧ buildQuery_at r r1 h3 = Some (r2, h')
    ∧ n' = Join j1 l2 r2.
Proof.
  unfold buildQuery. simpl. intros Hb.
  destruct (prepareChild _ _ l h) as [[l1 h1]|] eqn:E1; simpl in Hb; [|done].
  destruct (buildQuery_at l l1 h1) as [[l2 h2]|] eqn:E2; simpl in Hb; [|done].
  destruct (prepareChild _ _ r h2) as [[r1 h3]|] eqn:E3; simpl in Hb; [|done].
  destruct (buildQuery_at r r1 h3) as [[r2 h4]|] eqn:E4; simpl in Hb; [|done].
  injection Hb as <- <-. by exists l1, h1, l2, h2, r1, h3, r2.
Qed.

(** C5: after [buildQuery] returns, [Strategy] is [SortMerge] exactly when
    [LeftKeys] or [CmpFilter] is non-empty, and [Cartesian] otherwise;
    [buildQuery] leaves both lists as they were. *)
Theorem buildQuery_Strategy j l r h n' h' :
  buildQuery (Join j l r) h = Some (n', h') →
  ∃ j' l' r',
    n' = Join j' l' r'
    ∧ LeftKeys j' = LeftKeys j ∧ CmpFilter j' = CmpFilter j
    ∧ (Strategy j' = SortMerge ↔ LeftKeys j' ≠ [] ∨ CmpFilter j' ≠ [])
    ∧ (Strategy j' = Cartesian ↔ LeftKeys j' = [] ∧ CmpFilter j' = []).
Proof.
  intros Hb. apply buildQuery_Join in Hb.
  destruct Hb as (l1 & h1 & l2 & h2 & r1 & h3 & r2 & _ & _ & _ & _ & ->).
  exists (set_Strategy (chooseStrategy j) j), l2, r2.
  rewrite Strategy_set_Strategy, LeftKeys_set_Strategy, CmpFilter_set_Strategy.
  split; [done|]. split; [done|]. split; [done|].
  unfold chooseStrategy.
  destruct (LeftKeys j) as [|k ks], (CmpFilter j) as [|c cs]; simpl;
    split; split; intros; try done; try tauto; try (destruct_and?; done);
    try (left; done); try (right; done).
Qed.

(** ** Select expressions *)

(** C10: with [hasAggregates] set, [pushSelectExprs] returns the aggregate
    error and hands back the node and the store untouched: no field of the
    node (fields, Cols, children plans) and no Merge has been written. *)
Theorem pushSelectExprs_aggregates j l r fields groups sel h :
  pushSelectExprs (Join j l r) fields groups sel true h
  = Some (Some "unsupported: cross-shard.query.with.aggregates", Join j l r, h).
Proof. reflexivity. Qed.

(** ** ORDER BY *)

(** An ordering the checks of [analyze] let through. *)
Definition orderInSelect (cs : gmap Ptr ColName) (p : OrderByPlan) (o : Order)
  : Prop :=
  ∃ c e, o_Expr o = ColNameE c ∧ cs !! c = Some e
         ∧ (Qualifier e ≠ "" → is_Some (op_tbInfos p !! Qualifier e))
         ∧ checkInTuple (Name e) (Qualifier e) (op_tuples p) = true.

Lemma analyze_step_same cs o p err p' :
  analyze_step cs o p = Some (err, p') →
  op_tuples p' = op_tuples p ∧ op_tbInfos p' = op_tbInfos p.
Proof.
  unfold analyze_step. intros Hs.
  destruct (o_Expr o) as [c| | | | |]; try (by simplify_eq).
  destruct (cs !! c) as [e|]; simpl in Hs; [|done].
  repeat case_match; by simplify_eq.
Qed.

Lemma analyze_step_ok cs o p p' :
  analyze_step cs o p = Some (None, p') → orderInSelect cs p o.
Proof.
  unfold analyze_step, orderInSelect. intros Hs.
  destruct (o_Expr o) as [c| | | | |]; try done.
  destruct (cs !! c) as [e|] eqn:Ec; simpl in Hs; [|done].
  exists c, e. split; [done|]. split; [done|].
  destruct (bool_decide (Qualifier e ≠ "")) eqn:Eq; simpl in Hs.
  - destruct (bool_decide (is_Some (op_tbInfos p !! Qualifier e))) eqn:Et;
      simpl in Hs; [|done].
    apply bool_decide_eq_true in Et.
    destruct (checkInTuple _ _ _); simpl in Hs; [|done]. done.
  - apply bool_decide_eq_false in Eq.
    destruct (checkInTuple _ _ _); simpl in Hs; [|done].
    split; [|done]. intros Hq. by destruct Eq.
Qed.

Lemma analyze_step_pass cs o p :
  orderInSelect cs p o → ∃ p', analyze_step cs o p = Some (None, p').
Proof.
  intros (c & e & Ho & Hc & Ht & Hin). unfold analyze_step.
  rewrite Ho, Hc. simpl. rewrite Hin. simpl.
  destruct (bool_decide (Qualifier e ≠ "")) eqn:Eq; simpl; [|eauto].
  apply bool_decide_eq_true in Eq.
  rewrite (bool_decide_eq_true_2 _ (Ht Eq)). simpl. eauto.
Qed.

Lemma orderInSelect_same cs p p' o :
  op_tuples p' = op_tuples p → op_tbInfos p' = op_tbInfos p →
  orderInSelect cs p o → orderInSelect cs p' o.
Proof. unfold orderInSelect. intros -> ->. done. Qed.

Lemma foldE_analyze_pass cs os p :
  Forall (orderInSelect cs p) os →
  ∃ p', foldE (analyze_step cs) os p = Some (None, p')
        ∧ op_tuples p' = op_tuples p ∧ op_tbInfos p' = op_tbInfos p.
Proof.
  revert p. induction os as [|o os IH]; intros p Hall; simpl.
  - eauto.
  - inversion Hall as [|? ? Ho Hos]; subst.
    destruct (analyze_step_pass _ _ _ Ho) as [p1 Hp1]. rewrite Hp1. simpl.
    destruct (analyze_step_same _ _ _ _ _ Hp1) as [Ht Hi].
    destruct (IH p1) as (p' & Hf & Ht' & Hi').
    { eapply Forall_impl; [exact Hos|]. intros o'.
      by apply orderInSelect_same. }
    exists p'. rewrite Hf. split; [done|]. split; congruence.
Qed.

Lemma foldE_analyze_ok cs os p p' :
  foldE (analyze_step cs) os p = Some (None, p') →
  Forall (orderInSelect cs p) os.
Proof.
  revert p. induction os as [|o os IH]; intros p Hf; simpl in Hf.
  - constructor.
  - destruct (analyze_step cs o p) as [[[e|] p1]|] eqn:Es; simpl in Hf;
      try done.
    destruct (analyze_step_same _ _ _ _ _ Es) as [Ht Hi].
    constructor.
    + by eapply analyze_step_ok.
    + eapply Forall_impl; [by apply (IH p1)|]. intros o'.
      by apply orderInSelect_same.
Qed.

Lemma foldE_app {A S : Type} (f : A → S → option (error * S)) l1 l2 s s1 :
  foldE f l1 s = Some (None, s1) → foldE f (l1 ++ l2) s = foldE f l2 s1.
Proof.
  revert s. induction l1 as [|x l1 IH]; intros s Hf; simpl in *.
  - by simplify_eq.
  - destruct (f x s) as [[[e|] s']|]; simpl in *; try done. by apply IH.
Qed.

(** C9: [OrderByPlan.Build] succeeds only if every ordering is a plain
    column that is in the select list, with a known table when qualified.
    At the first ordering that is not, a plain column whose qualifier names
    a table outside the referred-table map fails with the unknown-table
    error, and a plain column (unqualified, or of a known table) absent
    from the select list fails with the should-be-in-select-list error. *)
Theorem OrderByPlan_Build_errors cs p :
  (∀ p', OrderByPlan_Build cs p = Some (None, p') →
         Forall (orderInSelect cs p) (OrderBy (op_node p)))
  ∧ (∀ pre o post c e,
       OrderBy (op_node p) = pre ++ o :: post →
       Forall (orderInSelect cs p) pre →
       o_Expr o = ColNameE c → cs !! c = Some e →
       Qualifier e = "" ∨ is_Some (op_tbInfos p !! Qualifier e) →
       checkInTuple (Name e) (Qualifier e) (op_tuples p) = false →
       ∃ p', OrderByPlan_Build cs p
             = Some (Some ("unsupported: orderby[" +:+ Name e
                           +:+ "].should.in.select.list"), p'))
  ∧ (∀ pre o post c e,
       OrderBy (op_node p) = pre ++ o :: post →
       Forall (orderInSelect cs p) pre →
       o_Expr o = ColNameE c → cs !! c = Some e →
       Qualifier e ≠ "" → op_tbInfos p !! Qualifier e = None →
       ∃ p', OrderByPlan_Build cs p
             = Some (Some ("unsupported: unknow.table.in.order.by.field["
                           +:+ Qualifier e +:+ "." +:+ Name e +:+ "]"), p')).
Proof.
  split; [|split].
  - intros p' Hb. by eapply foldE_analyze_ok.
  - intros pre o post c e Hos Hpre Ho Hc Hq Hin.
    unfold OrderByPlan_Build, analyze. rewrite Hos.
    destruct (foldE_analyze_pass _ _ _ Hpre) as (p1 & Hf & Ht & Hi).
    rewrite (foldE_app _ _ _ _ _ Hf). simpl.
    unfold analyze_step. rewrite Ho, Hc. simpl. rewrite Ht, Hi, Hin. simpl.
    destruct Hq as [Hq|Hq].
    + rewrite bool_decide_eq_false_2 by (by intros ?). simpl. eauto.
    + rewrite (bool_decide_eq_true_2 _ Hq). rewrite andb_false_r. eauto.
  - intros pre o post c e Hos Hpre Ho Hc Hq Hn.
    unfold OrderByPlan_Build, analyze. rewrite Hos.
    destruct (foldE_analyze_pass _ _ _ Hpre) as (p1 & Hf & Ht & Hi).
    rewrite (foldE_app _ _ _ _ _ Hf). simpl.
    unfold analyze_step. rewrite Ho, Hc. simpl. rewrite Hi.
    rewrite (bool_decide_eq_true_2 _ Hq).
    rewrite bool_decide_eq_false_2 by (rewrite Hn; by inversion 1).
    simpl. eauto.
Qed.

(** ** Filter pushdown *)

Arguments pushFilter_place : simpl never.
Arguments pushFilter_step : simpl never.

(** The fields of a JoinNode that [pushFilter] writes only in its own
    loop body: a write through a pointer into the tree leaves them. *)
Definition sameFlags (j j' : JoinNode) : Prop :=
  IsLeftJoin j' = IsLeftJoin j ∧ HasRightFilter j' = HasRightFilter j
  ∧ rightNull j' = rightNull j.

Lemma sameFlags_refl j : sameFlags j j.
Proof. by repeat split. Qed.

Lemma sameFlags_setWhereFilter e j : sameFlags j (JoinNode_setWhereFilter e j).
Proof. by destruct j. Qed.

Lemma sameFlags_tableFilter v j : sameFlags j (set_tableFilter v j).
Proof. by destruct j. Qed.

Lemma update_join_Join a f j l r :
  update_join a f (Join j l r)
  = Join (if bool_decide (self j = a) then f j else j)
         (update_join a f l) (update_join a f r).
Proof. done. Qed.

Lemma pushFilter_place_root filter j l r h err n' h' :
  pushFilter_place filter (Join j l r) h = Some (err, n', h') →
  ∃ j' l' r', n' = Join j' l' r' ∧ sameFlags j j'.
Proof.
  unfold pushFilter_place. intros Hp.
  case_bool_decide.
  - dbind Hp. dbind Hp.
    destruct (f_col filter) as [c|].
    + dbind Hp.
      assert (∃ j', Join (set_tableFilter (tableFilter j ++ [filter]) j) l r
                    = Join j' l r ∧ sameFlags j j') as (j' & Hj & Hs).
      { eexists. split; [done|]. apply sameFlags_tableFilter. }
      rewrite Hj in Hp. clear Hj.
      repeat case_match; try dbind Hp; repeat case_match; simplify_eq; eauto.
    + dbind Hp. simplify_eq. eauto using sameFlags_refl.
  - dbind Hp. dbind Hp. dpairs. simplify_eq.
    unfold setWhereFilter in *.
    repeat case_match; try dbind E0; simplify_eq; eauto using sameFlags_refl.
    rewrite update_join_Join. do 3 eexists. split; [done|].
    case_bool_decide; eauto using sameFlags_refl, sameFlags_setWhereFilter.
Qed.

(** One turn of the loop of [pushFilter] keeps the node a JoinNode, keeps
    [IsLeftJoin], never clears [HasRightFilter] and only appends to
    [rightNull]. *)
Lemma pushFilter_step_root rt filter j l r h err n' h' :
  pushFilter_step rt filter (Join j l r) h = Some (err, n', h') →
  ∃ j' l' r', n' = Join j' l' r' ∧ IsLeftJoin j' = IsLeftJoin j
    ∧ (HasRightFilter j = true → HasRightFilter j' = true)
    ∧ rightNull j `prefix_of` rightNull j'.
Proof.
  unfold pushFilter_step. intros Hp.
  case_bool_decide.
  { simplify_eq. do 3 eexists. split; [done|]. by destruct j. }
  destruct (IsLeftJoin j && (checkIsWithNull filter rt).1) eqn:En.
  { simplify_eq. do 3 eexists. split; [done|].
    destruct j; simpl. repeat split; try done. by apply prefix_app_r. }
  dbind Hp. dpairs.
  destruct (pushFilter_place_root _ _ _ _ _ _ _ _ E)
    as (j1 & l1 & r1 & -> & Hi & Hh & Hr).
  destruct o as [e|]; [simplify_eq; do 3 eexists; split; [done|];
                       rewrite Hi, Hh, Hr; done|].
  case_match; simplify_eq.
  - do 3 eexists. split; [done|]. destruct j1; simpl in *.
    rewrite Hi, Hr. done.
  - do 3 eexists. split; [done|]. rewrite Hi, Hh, Hr. done.
Qed.

(** A filter that is not recorded in [rightNull] and names a right-side
    table sets [HasRightFilter] on a left join. *)
Lemma pushFilter_step_right rt filter j l r h j' l' r' h' tb :
  pushFilter_step rt filter (Join j l r) h = Some (None, Join j' l' r', h') →
  IsLeftJoin j = true → (checkIsWithNull filter rt).1 = false →
  tb ∈ f_referTables filter → is_Some (rt !! tb) →
  HasRightFilter j' = true.
Proof.
  unfold pushFilter_step. intros Hp Hleft Hnull Htb Hrt.
  rewrite bool_decide_eq_false_2 in Hp
    by (destruct (f_referTables filter); [by inversion Htb|done]).
  rewrite Hleft, Hnull in Hp. simpl in Hp.
  dbind Hp. dpairs.
  destruct (pushFilter_place_root _ _ _ _ _ _ _ _ E)
    as (j1 & l1 & r1 & -> & Hi & Hh & Hr).
  destruct o as [e|]; [done|].
  rewrite Hi, Hleft in Hp. simpl in Hp.
  assert (existsb (λ tb, bool_decide (is_Some (rt !! tb)))
            (f_referTables filter) = true) as He.
  { apply existsb_exists. exists tb. split; [by apply list_elem_of_In|].
    by apply bool_decide_eq_true. }
  rewrite He in Hp.
  destruct (HasRightFilter j1) eqn:Eh; simpl in Hp; simplify_eq; [done|].
  by destruct j1.
Qed.

Lemma pushFilter_loop_root rt fs j l r h err n' h' :
  pushFilter_loop rt fs (Join j l r) h = Some (err, n', h') →
  ∃ j' l' r', n' = Join j' l' r' ∧ IsLeftJoin j' = IsLeftJoin j
    ∧ (HasRightFilter j = true → HasRightFilter j' = true)
    ∧ rightNull j `prefix_of` rightNull j'.
Proof.
  revert j l r h. induction fs as [|f fs IH]; intros j l r h Hl; simpl in Hl.
  - simplify_eq. by exists j, l, r.
  - dbind Hl. dpairs.
    destruct (pushFilter_step_root _ _ _ _ _ _ _ _ _ E)
      as (j1 & l1 & r1 & -> & Hi & Hh & Hr).
    destruct o as [e|].
    + simplify_eq. by exists j1, l1, r1.
    + destruct (IH _ _ _ _ Hl) as (j2 & l2 & r2 & -> & Hi2 & Hh2 & Hr2).
      exists j2, l2, r2. split; [done|]. split; [congruence|].
      split; [tauto|]. by etrans.
Qed.


(** When the loop of [pushFilter] ends without an error, it has gone
    through every filter of the list. *)
Lemma pushFilter_loop_split rt pre f post n h n' h' :
  pushFilter_loop rt (pre ++ f :: post) n h = Some (None, n', h') →
  ∃ n1 h1 n2 h2,
    pushFilter_loop rt pre n h = Some (None, n1, h1)
    ∧ pushFilter_step rt f n1 h1 = Some (None, n2, h2)
    ∧ pushFilter_loop rt post n2 h2 = Some (None, n', h').
Proof.
  revert n h. induction pre as [|g pre IH]; intros n h Hl; simpl in *.
  - dbind Hl. dpairs. destruct o; [done|]. by exists n, h, p, h0.
  - dbind Hl. dpairs. destruct o; [done|].
    destruct (IH _ _ Hl) as (n1 & h1 & n2 & h2 & H1 & H2 & H3).
    exists n1, h1, n2, h2. done.
Qed.

(** C8, as the code has it: on a left join, after [pushFilter] has gone
    through the list without an error, [HasRightFilter] is set whenever a
    filter of the list that [checkIsWithNull] does not record in
    [rightNull] refers to a table of the right child. *)
Theorem pushFilter_HasRightFilter j l r fs h j' l' r' h' rightTbs filter tb :
  pushFilter (Join j l r) fs h = Some (None, Join j' l' r', h') →
  IsLeftJoin j = true →
  getReferredTables r h = Some rightTbs →
  filter ∈ fs → tb ∈ f_referTables filter → is_Some (rightTbs !! tb) →
  (checkIsWithNull filter rightTbs).1 = false →
  HasRightFilter j' = true.
Proof.
  unfold pushFilter. intros Hp Hleft Hrt Hin Htb Hr Hnull.
  rewrite Hrt in Hp. simpl in Hp.
  apply list_elem_of_split in Hin as (pre & post & ->).
  apply pushFilter_loop_split in Hp
    as (n1 & h1 & n2 & h2 & Hpre & Hstep & Hpost).
  destruct (pushFilter_loop_root _ _ _ _ _ _ _ _ _ Hpre)
    as (j1 & l1 & r1 & -> & Hi1 & _ & _).
  destruct (pushFilter_step_root _ _ _ _ _ _ _ _ _ Hstep)
    as (j2 & l2 & r2 & -> & Hi2 & _ & _).
  destruct (pushFilter_loop_root _ _ _ _ _ _ _ _ _ Hpost)
    as (j3 & l3 & r3 & ? & _ & Hh3 & _). simplify_eq.
  apply Hh3. eapply pushFilter_step_right; eauto.
Qed.

(** ** Projections only grow

    The passes run by [pushSelectExprs] append to the field lists and
    never rewrite them; they leave the referred-table maps alone. *)

Arguments pushSelectExpr : simpl nomatch.

Definition heap_grow (h h' : Heap) : Prop :=
  cols h' = cols h ∧ tbInfos h' = tbInfos h
  ∧ ∀ m mn, merges h !! m = Some mn →
      ∃ mn', merges h' !! m = Some mn'
             ∧ m_fields mn `prefix_of` m_fields mn'
             ∧ m_referredTables mn' = m_referredTables mn.

Definition top_grow (n n' : PlanNode) : Prop :=
  match n, n' with
  | Merge m, Merge m' => m = m'
  | Join j _ _, Join j' _ _ =>
      j_fields j `prefix_of` j_fields j'
      ∧ j_referredTables j' = j_referredTables j
  | _, _ => False
  end.

Global Instance heap_grow_refl : Reflexive heap_grow.
Proof. intros h. split; [done|]. split; [done|]. intros m mn Hm. by exists mn. Qed.

Global Instance heap_grow_trans : Transitive heap_grow.
Proof.
  intros h1 h2 h3 (Hc12 & Ht12 & H12) (Hc23 & Ht23 & H23).
  split; [congruence|]. split; [congruence|]. intros m mn Hm.
  destruct (H12 _ _ Hm) as (mn2 & Hm2 & Hp2 & Hr2).
  destruct (H23 _ _ Hm2) as (mn3 & Hm3 & Hp3 & Hr3).
  exists mn3. split; [done|]. split; [by etrans|congruence].
Qed.

Global Instance top_grow_refl : Reflexive top_grow.
Proof. intros [m|j l r]; simpl; done. Qed.

Global Instance top_grow_trans : Transitive top_grow.
Proof.
  intros [m1|j1 l1 r1] [m2|j2 l2 r2] [m3|j3 l3 r3]; simpl; try done.
  - congruence.
  - intros [Hp1 Hr1] [Hp2 Hr2]. split; [by etrans|congruence].
Qed.

Lemma heap_grow_set_merge m mn mn' h :
  merges h !! m = Some mn →
  m_fields mn `prefix_of` m_fields mn' →
  m_referredTables mn' = m_referredTables mn →
  heap_grow h (set_merge m mn' h).
Proof.
  intros Hm Hp Hr. split; [done|]. split; [done|].
  intros m0 mn0 Hm0. unfold set_merge. simpl.
  destruct (decide (m = m0)) as [->|Hne].
  - rewrite lookup_insert_eq. simplify_eq. by exists mn'.
  - rewrite lookup_insert_ne by done. by exists mn0.
Qed.

(** What a caller that holds a node sees after the store and the node
    have grown. *)
Lemma grow_getFields n n' h h' fs :
  heap_grow h h' → top_grow n n' → getFields n h = Some fs →
  ∃ fs', getFields n' h' = Some fs' ∧ fs `prefix_of` fs'.
Proof.
  intros Hh Ht Hf. destruct n as [m|j l r], n' as [m'|j' l' r']; try done;
    simpl in *.
  - subst m'. destruct (merges h !! m) as [mn|] eqn:Em; [|done].
    simpl in Hf. simplify_eq.
    destruct Hh as (_ & _ & Hh).
    destruct (Hh _ _ Em) as (mn' & -> & Hp & _). simpl. eauto.
  - simplify_eq. destruct Ht. eauto.
Qed.

Lemma grow_getReferredTables n n' h h' tbs :
  heap_grow h h' → top_grow n n' → getReferredTables n h = Some tbs →
  getReferredTables n' h' = Some tbs.
Proof.
  intros Hh Ht Hf. destruct n as [m|j l r], n' as [m'|j' l' r']; try done;
    simpl in *.
  - subst m'. destruct (merges h !! m) as [mn|] eqn:Em; [|done].
    simpl in Hf. simplify_eq.
    destruct Hh as (_ & _ & Hh).
    destruct (Hh _ _ Em) as (mn' & -> & _ & Hr). simpl. by rewrite Hr.
  - simplify_eq. destruct Ht as [_ Hr]. by rewrite Hr.
Qed.

Lemma MergeNode_setWhereFilter_grow m e h h' :
  MergeNode_setWhereFilter m e h = Some h' → heap_grow h h'.
Proof.
  unfold MergeNode_setWhereFilter. intros Hs. dbind Hs. simplify_eq.
  eapply heap_grow_set_merge; [done| |]; by destruct m0.
Qed.

Lemma foldM_grow {A} (f : A → Heap → option Heap) l h h' :
  (∀ x h h', f x h = Some h' → heap_grow h h') →
  foldM f l h = Some h' → heap_grow h h'.
Proof.
  intros Hf. revert h. induction l as [|x l IH]; intros h Hl; simpl in Hl.
  - by simplify_eq.
  - dbind Hl. etrans; [by eapply Hf|by apply IH].
Qed.

Lemma setNoTableFilter_grow n exprs h n' h' :
  setNoTableFilter n exprs h = Some (n', h') →
  heap_grow h h' ∧ top_grow n n'.
Proof.
  destruct n as [m|j l r]; simpl; intros Hs.
  - dbind Hs. simplify_eq. split; [|done].
    unfold MergeNode_setNoTableFilter in E. dbind E.
    eapply foldM_grow; [|done]. apply MergeNode_setWhereFilter_grow.
  - simplify_eq. split; [done|]. simpl. by destruct j.
Qed.

Lemma MergeNode_pushSelectExpr_spec m field h index err h' :
  MergeNode_pushSelectExpr m field h = Some (index, err, h') →
  ∃ mn mn', merges h !! m = Some mn ∧ merges h' !! m = Some mn'
    ∧ m_fields mn' = m_fields mn ++ [field]
    ∧ index = Z.of_nat (length (m_fields mn)) ∧ err = None
    ∧ heap_grow h h'.
Proof.
  unfold MergeNode_pushSelectExpr. intros Hp. dbind Hp. simplify_eq.
  eexists _, _. split; [done|]. split; [apply lookup_insert_eq|].
  destruct m0; simpl. split; [done|]. split.
  { rewrite length_app. simpl. lia. }
  split; [done|].
  eapply heap_grow_set_merge; [done| |done]. simpl. by apply prefix_app_r.
Qed.

(** [pushSelectExpr] appends the tuple to the fields of the node and
    returns the index it got. *)
Lemma pushSelectExpr_grow n field h index err n' h' :
  pushSelectExpr n field h = Some (index, err, n', h') →
  heap_grow h h' ∧ top_grow n n'
  ∧ (err = None →
     ∃ fs, getFields n h = Some fs ∧ getFields n' h' = Some (fs ++ [field])
           ∧ index = Z.of_nat (length fs)).
Proof.
  revert h index err n' h'.
  induction n as [m|j l IHl r IHr]; intros h index err n' h' Hp; simpl in Hp.
  - dbind Hp. dpairs. simplify_eq.
    apply MergeNode_pushSelectExpr_spec in E
      as (mn & mn' & Hm & Hm' & Hf & -> & -> & Hg).
    split; [done|]. split; [done|]. intros _. exists (m_fields mn).
    simpl. rewrite Hm, Hm'. simpl. rewrite Hf. done.
  - dbind Hp. case_match.
    + dbind Hp. dpairs. destruct (IHl _ _ _ _ _ E0) as (Hg & Ht & _).
      destruct o as [e|]; simplify_eq.
      * split; [done|]. split; [|done]. simpl. done.
      * split; [done|]. split; [simpl; destruct j; simpl; split;
                                [by apply prefix_app_r|done]|].
        intros _. exists (j_fields j). simpl. destruct j; simpl.
        split; [done|]. split; [done|]. rewrite length_app. simpl. lia.
    + dbind Hp. case_match.
      * dbind Hp. dpairs. destruct (IHr _ _ _ _ _ E1) as (Hg & Ht & _).
        destruct o as [e|]; simplify_eq.
        -- split; [done|]. split; [|done]. simpl. done.
        -- split; [done|]. split; [simpl; destruct j; simpl; split;
                                   [by apply prefix_app_r|done]|].
           intros _. exists (j_fields j). simpl. destruct j; simpl.
           split; [done|]. split; [done|]. rewrite length_app. simpl. lia.
      * dbind Hp. simplify_eq. split; [done|]. split; [done|]. done.
Qed.

(** Loops keep what every turn keeps. *)
Lemma foldM_rel {A S} (R : relation S) `{!PreOrder R}
    (f : A → S → option S) l s s' :
  (∀ x s s', f x s = Some s' → R s s') →
  foldM f l s = Some s' → R s s'.
Proof.
  intros Hf. revert s. induction l as [|x l IH]; intros s Hl; simpl in Hl.
  - by simplify_eq.
  - dbind Hl. etrans; [by eapply Hf|by apply IH].
Qed.

Lemma foldE_rel {A S} (R : relation S) `{!PreOrder R}
    (f : A → S → option (error * S)) l s err s' :
  (∀ x s err s', f x s = Some (err, s') → R s s') →
  foldE f l s = Some (err, s') → R s s'.
Proof.
  intros Hf. revert s. induction l as [|x l IH]; intros s Hl; simpl in Hl.
  - by simplify_eq.
  - dbind Hl. dpairs. destruct o as [e|].
    + simplify_eq. by eapply Hf.
    + etrans; [by eapply Hf|by apply IH].
Qed.

(** The fields of a JoinNode that only its own [pushSelectExpr] writes. *)
Definition jsame (j j' : JoinNode) : Prop :=
  j_fields j' = j_fields j ∧ Cols j' = Cols j
  ∧ j_referredTables j' = j_referredTables j.

Global Instance jsame_preorder : PreOrder jsame.
Proof.
  split.
  - by intros j.
  - intros j1 j2 j3 (?&?&?) (?&?&?). repeat split; congruence.
Qed.

(** The state of the loops of [handleJoinOn] and [handleOthers]: the node
    keeps its own fields and [Cols], its children and the store grow. *)
Definition state_grow (s s' : JoinNode * PlanNode * PlanNode * Heap) : Prop :=
  jsame s.1.1.1 s'.1.1.1 ∧ top_grow s.1.1.2 s'.1.1.2
  ∧ top_grow s.1.2 s'.1.2 ∧ heap_grow s.2 s'.2.

Global Instance state_grow_preorder : PreOrder state_grow.
Proof.
  split.
  - intros [[[j l] r] h]. unfold state_grow. simpl.
    split; [reflexivity|]. split; [reflexivity|]. split; reflexivity.
  - intros s1 s2 s3 (?&?&?&?) (?&?&?&?).
    split; [by etrans|]. split; [by etrans|]. split; by etrans.
Qed.

Definition others_grow (s s' : OthersState) : Prop :=
  state_grow (s.1.1.1.1, s.1.1.1.2, s.1.1.2, s.2)
             (s'.1.1.1.1, s'.1.1.1.2, s'.1.1.2, s'.2).

Global Instance others_grow_preorder : PreOrder others_grow.
Proof.
  split.
  - intros s. unfold others_grow. done.
  - intros s1 s2 s3. unfold others_grow. intros H1 H2. by etrans.
Qed.

Lemma findField_spec table field tuples i k :
  0 ≤ i → findField table field tuples i = k →
  k = -1 ∨ ∃ t, i ≤ k ∧ tuples !! Z.to_nat (k - i) = Some t
                ∧ sel_referTables t = [table] ∧ sel_field t = field.
Proof.
  revert i. induction tuples as [|t ts IH]; intros i Hi Hf; simpl in Hf.
  - by left.
  - destruct (bool_decide (sel_referTables t = [table])) eqn:E1;
      [destruct (bool_decide (sel_field t = field)) eqn:E2|]; simpl in Hf.
    + right. exists t. subst k. rewrite Z.sub_diag. simpl.
      apply bool_decide_eq_true in E1, E2. split; [lia|done].
    + destruct (IH (i + 1)) as [?|(t' & Hk & Hl & ?)]; [lia|done|by left|].
      right. exists t'. split; [lia|]. split; [|done].
      replace (Z.to_nat (k - i)) with (S (Z.to_nat (k - (i + 1)))) by lia.
      done.
    + destruct (IH (i + 1)) as [?|(t' & Hk & Hl & ?)]; [lia|done|by left|].
      right. exists t'. split; [lia|]. split; [|done].
      replace (Z.to_nat (k - i)) with (S (Z.to_nat (k - (i + 1)))) by lia.
      done.
Qed.

Lemma buildOrderBy_grow col node h key node' h' :
  buildOrderBy col node h = Some (key, node', h') →
  heap_grow h h' ∧ top_grow node node'.
Proof.
  unfold buildOrderBy. intros Hb. dbind Hb. dbind Hb. dbind Hb. dpairs.
  dbind Hb.
  assert (heap_grow h h0 ∧ top_grow node p) as [Hg Ht].
  { case_bool_decide; [|by simplify_eq].
    destruct (pushSelectExpr node _ h) as [[[[i1 e1] n1] h2]|] eqn:Ep;
      simpl in E1; [|done].
    simplify_eq.
    by destruct (pushSelectExpr_grow _ _ _ _ _ _ _ Ep) as (? & ? & _). }
  assert (heap_grow h0 h1) as Hg1.
  { destruct p as [m|]; [|by simplify_eq].
    dbind E2. simplify_eq.
    eapply heap_grow_set_merge; [done| |]; by destruct m0. }
  simplify_eq. split; [by etrans|done].
Qed.

Lemma handleJoinOn_step_grow lok rok join s s' :
  handleJoinOn_step lok rok join s = Some s' → state_grow s s'.
Proof.
  destruct s as [[[j l] r] h]. unfold handleJoinOn_step. intros Hs.
  destruct (buildOrderBy _ l h) as [[[leftKey l1] h1]|] eqn:E1;
    simpl in Hs; [|done].
  destruct (buildOrderBy_grow _ _ _ _ _ _ E1) as [Hg1 Ht1].
  match type of Hs with
  | mbind _ ?o = _ => destruct o as [j1|] eqn:Ej1; simpl in Hs; [|done]
  end.
  assert (jsame j j1) as Hj1.
  { destruct (lok && negb (LeftUnique j)); [|simplify_eq; reflexivity].
    dbind Ej1. simplify_eq. by destruct j. }
  destruct (buildOrderBy _ r h1) as [[[rightKey r1] h2]|] eqn:E2;
    simpl in Hs; [|done].
  destruct (buildOrderBy_grow _ _ _ _ _ _ E2) as [Hg2 Ht2].
  match type of Hs with
  | mbind _ ?o = _ => destruct o as [j3|] eqn:Ej3; simpl in Hs; [|done]
  end.
  assert (jsame (set_LeftKeys (LeftKeys j1 ++ [leftKey]) j1) j3) as Hj3.
  { destruct (rok && negb (RightUnique _)); [|simplify_eq; reflexivity].
    dbind Ej3. simplify_eq. by destruct j1. }
  simplify_eq.
  split; [|split; [done|split; [done|by etrans]]]. simpl.
  etrans; [exact Hj1|]. etrans; [|etrans; [exact Hj3|]]; [by destruct j1|].
  by destruct j3.
Qed.

(** A JoinNode after a pass that it runs on itself: its own fields and
    [Cols] are as before, its children have grown. *)
Definition node_grow (n n' : PlanNode) : Prop :=
  match n, n' with
  | Merge m, Merge m' => m = m'
  | Join j l r, Join j' l' r' => jsame j j' ∧ top_grow l l' ∧ top_grow r r'
  | _, _ => False
  end.

Lemma node_grow_top n n' : node_grow n n' → top_grow n n'.
Proof.
  destruct n as [m|j l r], n' as [m'|j' l' r']; simpl; try done.
  intros ((-> & _ & ->) & _). done.
Qed.

(** [handleJoinOn] leaves the fields and [Cols] of the node it is called
    on; below it, projections are appended. *)
Lemma handleJoinOn_grow n h n' h' :
  handleJoinOn n h = Some (n', h') → heap_grow h h' ∧ node_grow n n'.
Proof.
  revert h n' h'. induction n as [m|j l IHl r IHr]; intros h n' h' Hj;
    simpl in Hj; [done|].
  match type of Hj with
  | mbind _ ?o = _ => destruct o as [[l1 h1]|] eqn:El; simpl in Hj; [|done]
  end.
  match type of Hj with
  | mbind _ ?o = _ => destruct o as [[r1 h2]|] eqn:Er; simpl in Hj; [|done]
  end.
  match type of Hj with
  | mbind _ ?o = _ =>
      destruct o as [[[[j3 l3] r3] h3]|] eqn:Ef; simpl in Hj; [|done]
  end.
  assert (heap_grow h h1 ∧ top_grow l l1) as [Hg1 Ht1].
  { destruct (isMerge l); [simplify_eq; split; reflexivity|].
    apply IHl in El as [? ?]. split; [done|]. by apply node_grow_top. }
  assert (heap_grow h1 h2 ∧ top_grow r r1) as [Hg2 Ht2].
  { destruct (isMerge r); [simplify_eq; split; reflexivity|].
    apply IHr in Er as [? ?]. split; [done|]. by apply node_grow_top. }
  apply (foldM_rel state_grow) in Ef; [|apply handleJoinOn_step_grow].
  destruct Ef as (Hs & Hl3 & Hr3 & Hg3). simpl in *. simplify_eq.
  split; [etrans; [done|]; by etrans|].
  split; [done|]. split; by etrans.
Qed.

(** A tuple of a field list that projects [expr]: the column synthesized
    for it under an alias [tmpo_k], or, when [expr] is a column, the
    projection of that column that was already there. *)
Definition projected (cs : gmap Ptr ColName) (expr : Expr) (tbs : list string)
    (t : selectTuple) : Prop :=
  (∃ k : Z, t = mkSelectTuple (AliasedExpr expr ("tmpo_" +:+ pretty k))
                  ("tmpo_" +:+ pretty k) tbs)
  ∨ (∃ c cn, expr = ColNameE c ∧ cs !! c = Some cn
             ∧ sel_referTables t = [Qualifier cn] ∧ sel_field t = Name cn).

Lemma pushOtherFilter_spec expr node tbs idx h index err node' idx' h' :
  pushOtherFilter expr node tbs idx h = Some (index, err, node', idx', h') →
  heap_grow h h' ∧ top_grow node node'
  ∧ (err = None →
     ∃ fs t, getFields node' h' = Some fs ∧ 0 ≤ index
             ∧ fs !! Z.to_nat index = Some t
             ∧ projected (cols h) expr tbs t).
Proof.
  unfold pushOtherFilter. intros Hp.
  match type of Hp with
  | mbind _ ?o = _ => destruct o as [index0|] eqn:Ei; simpl in Hp; [|done]
  end.
  case_bool_decide as Hm.
  - destruct (pushSelectExpr node _ h) as [[[[i1 e1] n1] h1]|] eqn:Ep;
      simpl in Hp; [|done].
    destruct (pushSelectExpr_grow _ _ _ _ _ _ _ Ep) as (Hg & Ht & Hf).
    destruct e1 as [e|]; simplify_eq; (split; [done|]; split; [done|]);
      [done|].
    intros _. destruct (Hf eq_refl) as (fs & Hfs & Hfs' & ->).
    eexists _, _. split; [done|]. split; [lia|].
    rewrite Nat2Z.id. split; [apply list_lookup_middle; done|].
    left. by exists idx.
  - simplify_eq. split; [done|]. split; [done|]. intros _.
    destruct expr as [c| | | | |]; simplify_eq.
    destruct (cols h' !! c) as [cn|] eqn:Ec; simpl in Ei; [|done].
    destruct (getFields node' h') as [fs|] eqn:Ef; simpl in Ei; [|done].
    simplify_eq.
    destruct (findField_spec (Qualifier cn) (Name cn) fs 0 _ ltac:(lia) eq_refl)
      as [?|(t & Hk & Hl & Hr & Hn)]; [done|].
    rewrite Z.sub_0_r in Hl. exists fs, t. split; [done|]. split; [done|].
    split; [done|]. right. by exists c, cn.
Qed.

Lemma jsame_set_CmpFilter v j : jsame j (set_CmpFilter v j).
Proof. by destruct j. Qed.

Lemma jsame_set_RightTmpCols v j : jsame j (set_RightTmpCols v j).
Proof. by destruct j. Qed.

Lemma jsame_set_LeftTmpCols v j : jsame j (set_LeftTmpCols v j).
Proof. by destruct j. Qed.

Lemma others_grow_intro j l r idx h j' l' r' idx' h' :
  jsame j j' → top_grow l l' → top_grow r r' → heap_grow h h' →
  others_grow (j, l, r, idx, h) (j', l', r', idx', h').
Proof. intros. unfold others_grow, state_grow. simpl. done. Qed.

Lemma pushComparison_grow op exch a ta b tb s err s' :
  pushComparison op exch a ta b tb s = Some (err, s') → others_grow s s'.
Proof.
  destruct s as [[[[j l] r] idx] h]. unfold pushComparison. intros Hb.
  destruct (pushOtherFilter a l ta idx h) as [[[[[li e0] l1] i1] h1]|] eqn:E5;
    simpl in Hb; [|done].
  destruct (pushOtherFilter_spec _ _ _ _ _ _ _ _ _ _ E5) as (Hg1 & Ht1 & _).
  destruct e0 as [e0|].
  { simplify_eq. by apply others_grow_intro. }
  destruct (pushOtherFilter b r tb i1 h1) as [[[[[ri e1] r1] i2] h2]|] eqn:E6;
    simpl in Hb; [|done].
  destruct (pushOtherFilter_spec _ _ _ _ _ _ _ _ _ _ E6) as (Hg2 & Ht2 & _).
  destruct e1 as [e1|]; simplify_eq; apply others_grow_intro;
    try done; try (by etrans). apply jsame_set_CmpFilter.
Qed.

Lemma pushOtherFilters_step_grow expr s err s' :
  pushOtherFilters_step expr s = Some (err, s') → others_grow s s'.
Proof.
  destruct s as [[[[j l] r] idx] h]. unfold pushOtherFilters_step.
  intros Hs.
  assert (clauseError (cols h) expr ≫= (λ e, Some (Some e, (j, l, r, idx, h)))
          = Some (err, s') → others_grow (j, l, r, idx, h) s') as Herr.
  { intros He. dbind He. simplify_eq. reflexivity. }
  destruct expr as [c|v| |op el er|op e|el er]; try (by apply Herr).
  dbind Hs. dbind Hs. dbind Hs. dbind Hs.
  repeat case_match; try (by eapply pushComparison_grow). by apply Herr.
Qed.

Lemma pushOtherFilters_grow filters s err s' :
  pushOtherFilters filters s = Some (err, s') → others_grow s s'.
Proof.
  apply (foldE_rel others_grow). intros. by eapply pushOtherFilters_step_grow.
Qed.

Lemma pushNullExprs_step_grow tuple s err s' :
  pushNullExprs_step tuple s = Some (err, s') → others_grow s s'.
Proof.
  destruct s as [[[[j l] r] idx] h]. unfold pushNullExprs_step. intros Hs.
  destruct (pushOtherFilter _ r _ idx h) as [[[[[i e] r1] i1] h1]|] eqn:E;
    simpl in Hs; [|done].
  destruct (pushOtherFilter_spec _ _ _ _ _ _ _ _ _ _ E) as (Hg & Ht & _).
  destruct e; simplify_eq; apply others_grow_intro; try done.
  apply jsame_set_RightTmpCols.
Qed.

Lemma pushOtherJoin_left_grow field s err s' :
  pushOtherJoin_left field s = Some (err, s') → others_grow s s'.
Proof.
  destruct s as [[[[j l] r] idx] h]. unfold pushOtherJoin_left. intros Hs.
  destruct (pushSelectExpr l field h) as [[[[i e] l1] h1]|] eqn:E;
    simpl in Hs; [|done].
  destruct (pushSelectExpr_grow _ _ _ _ _ _ _ E) as (Hg & Ht & _).
  destruct e; simplify_eq; apply others_grow_intro; try done.
  apply jsame_set_LeftTmpCols.
Qed.

Lemma pushOtherJoin_right_grow filter s err s' :
  pushOtherJoin_right filter s = Some (err, s') → others_grow s s'.
Proof.
  destruct s as [[[[j l] r] idx] h]. unfold pushOtherJoin_right. intros Hs.
  dbind Hs.
  destruct o as [[m|a]|]; try (dbind Hs; simplify_eq; reflexivity).
  destruct (MergeNode_setWhereFilter m _ h) as [h1|] eqn:E1; simpl in Hs;
    [|done].
  simplify_eq. apply others_grow_intro; try done.
  by eapply MergeNode_setWhereFilter_grow.
Qed.

Lemma pushOtherJoin_grow s err s' :
  pushOtherJoin s = Some (err, s') → others_grow s s'.
Proof.
  unfold pushOtherJoin. intros Hs.
  destruct (otherJoinOn _) as [oj|]; [|simplify_eq; reflexivity].
  match type of Hs with
  | mbind _ ?o = _ => destruct o as [[e1 s1]|] eqn:E1; simpl in Hs; [|done]
  end.
  assert (others_grow s s1) as H1.
  { clear Hs. case_bool_decide; [by eapply pushOtherFilters_grow|].
    simplify_eq. reflexivity. }
  destruct e1 as [e1|]; [by simplify_eq|].
  destruct s1 as [[[[j l] r] idx] h].
  match type of Hs with
  | mbind _ ?o = _ => destruct o as [[r1 h1]|] eqn:E2; simpl in Hs; [|done]
  end.
  assert (others_grow (j, l, r, idx, h) (j, l, r1, idx, h1)) as H2.
  { clear Hs. case_bool_decide; [|simplify_eq; reflexivity].
    apply setNoTableFilter_grow in E2 as [? ?].
    by apply others_grow_intro. }
  match type of Hs with
  | mbind _ ?o = _ => destruct o as [[e3 s3]|] eqn:E3; simpl in Hs; [|done]
  end.
  apply (foldE_rel others_grow) in E3;
    [|intros; by eapply pushOtherJoin_left_grow].
  destruct e3 as [e3|].
  { simplify_eq. etrans; [done|]. by etrans. }
  apply (foldE_rel others_grow) in Hs;
    [|intros; by eapply pushOtherJoin_right_grow].
  etrans; [done|]. etrans; [done|]. by etrans.
Qed.

Lemma pushNullExprs_grow s err s' :
  pushNullExprs s = Some (err, s') → others_grow s s'.
Proof.
  apply (foldE_rel others_grow). intros. by eapply pushNullExprs_step_grow.
Qed.

(** [handleOthers] leaves the fields and [Cols] of the node it is called
    on; below it, projections are appended. *)
Lemma handleOthers_grow n h err n' h' :
  handleOthers n h = Some (err, n', h') → heap_grow h h' ∧ node_grow n n'.
Proof.
  revert h err n' h'. induction n as [m|j l IHl r IHr];
    intros h err n' h' Hj; simpl in Hj; [done|].
  match type of Hj with
  | mbind _ ?o = _ =>
      destruct o as [[[e1 l1] h1]|] eqn:El; simpl in Hj; [|done]
  end.
  assert (heap_grow h h1 ∧ top_grow l l1) as [Hg1 Ht1].
  { destruct (isMerge l); [simplify_eq; split; reflexivity|].
    apply IHl in El as [? ?]. split; [done|]. by apply node_grow_top. }
  destruct e1 as [e1|].
  { simplify_eq. split; [done|]. simpl. split; [reflexivity|].
    split; [done|reflexivity]. }
  match type of Hj with
  | mbind _ ?o = _ =>
      destruct o as [[[e2 r1] h2]|] eqn:Er; simpl in Hj; [|done]
  end.
  assert (heap_grow h1 h2 ∧ top_grow r r1) as [Hg2 Ht2].
  { destruct (isMerge r); [simplify_eq; split; reflexivity|].
    apply IHr in Er as [? ?]. split; [done|]. by apply node_grow_top. }
  destruct e2 as [e2|].
  { simplify_eq. split; [by etrans|]. simpl. split; [reflexivity|]. done. }
  destruct (pushOtherJoin _) as [[e3 s3]|] eqn:E3; simpl in Hj; [|done].
  apply pushOtherJoin_grow in E3. destruct E3 as (Hj3 & Hl3 & Hr3 & Hg3).
  simpl in Hj3, Hl3, Hr3, Hg3.
  assert (heap_grow h s3.2 ∧ node_grow (Join j l r)
            (Join s3.1.1.1.1 s3.1.1.1.2 s3.1.1.2)) as [Hga Hna].
  { split; [etrans; [done|]; by etrans|]. simpl.
    split; [done|]. split; by etrans. }
  destruct e3 as [e3|]; [by simplify_eq|].
  destruct (pushNullExprs s3) as [[e4 s4]|] eqn:E4; simpl in Hj; [|done].
  apply pushNullExprs_grow in E4. destruct E4 as (Hj4 & Hl4 & Hr4 & Hg4).
  simpl in Hj4, Hl4, Hr4, Hg4.
  assert (heap_grow h s4.2 ∧ node_grow (Join j l r)
            (Join s4.1.1.1.1 s4.1.1.1.2 s4.1.1.2)) as [Hgb Hnb].
  { split; [by etrans|]. destruct Hna as (? & ? & ?). simpl.
    split; [by etrans|]. split; by etrans. }
  destruct e4 as [e4|]; [by simplify_eq|].
  destruct (pushOtherFilters _ s4) as [[e5 s5]|] eqn:E5; simpl in Hj; [|done].
  apply pushOtherFilters_grow in E5. destruct E5 as (Hj5 & Hl5 & Hr5 & Hg5).
  simpl in Hj5, Hl5, Hr5, Hg5. simplify_eq.
  split; [by etrans|]. destruct Hnb as (? & ? & ?). simpl.
  split; [by etrans|]. split; by etrans.
Qed.

(** ** [Cols] *)

(** The entry of [Cols] for a projected tuple: [-(i+1)] when the left
    child covers the tables of the tuple and holds it at index [i] of its
    fields, [+(i+1)] when the right child does. *)
Definition colOf (ltbs rtbs : gmap string Ptr) (lfs rfs : list selectTuple)
    (tuple : selectTuple) (c : Z) : Prop :=
  if checkTbInNode (sel_referTables tuple) ltbs
  then ∃ i : nat, c = - (Z.of_nat i + 1) ∧ lfs !! i = Some tuple
  else checkTbInNode (sel_referTables tuple) rtbs = true
       ∧ ∃ i : nat, c = Z.of_nat i + 1 ∧ rfs !! i = Some tuple.

Lemma colOf_nonzero ltbs rtbs lfs rfs tuple c :
  colOf ltbs rtbs lfs rfs tuple c → c ≠ 0.
Proof.
  unfold colOf. destruct (checkTbInNode _ ltbs).
  - intros (i & -> & _). lia.
  - intros (_ & i & -> & _). lia.
Qed.

Lemma colOf_prefix ltbs rtbs lfs rfs lfs' rfs' tuple c :
  lfs `prefix_of` lfs' → rfs `prefix_of` rfs' →
  colOf ltbs rtbs lfs rfs tuple c → colOf ltbs rtbs lfs' rfs' tuple c.
Proof.
  unfold colOf. intros Hl Hr. destruct (checkTbInNode _ ltbs).
  - intros (i & -> & Hi). exists i. split; [done|].
    by eapply prefix_lookup_Some.
  - intros (Hc & i & -> & Hi). split; [done|]. exists i. split; [done|].
    by eapply prefix_lookup_Some.
Qed.

Lemma getReferredTables_getFields n h tbs :
  getReferredTables n h = Some tbs → ∃ fs, getFields n h = Some fs.
Proof.
  destruct n as [m|j l r]; simpl; [|eauto].
  destruct (merges h !! m); simpl; [eauto|done].
Qed.

(** One call of [pushSelectExpr] on a JoinNode that returns no error. *)
Lemma pushSelectExpr_Join j l r field h index n' h' ltbs rtbs :
  pushSelectExpr (Join j l r) field h = Some (index, None, n', h') →
  getReferredTables l h = Some ltbs → getReferredTables r h = Some rtbs →
  ∃ j' l' r' c lfs rfs,
    n' = Join j' l' r' ∧ Cols j' = Cols j ++ [c]
    ∧ j_fields j' = j_fields j ++ [field]
    ∧ getFields l' h' = Some lfs ∧ getFields r' h' = Some rfs
    ∧ colOf ltbs rtbs lfs rfs field c
    ∧ heap_grow h h' ∧ top_grow l l' ∧ top_grow r r'.
Proof.
  intros Hp Hl Hr. simpl in Hp. rewrite Hl in Hp. simpl in Hp.
  unfold colOf.
  destruct (getReferredTables_getFields _ _ _ Hl) as [lfs0 Hlf].
  destruct (getReferredTables_getFields _ _ _ Hr) as [rfs0 Hrf].
  destruct (checkTbInNode (sel_referTables field) ltbs) eqn:Ecl.
  - destruct (pushSelectExpr l field h) as [[[[i e] l1] h1]|] eqn:E;
      simpl in Hp; [|done].
    destruct (pushSelectExpr_grow _ _ _ _ _ _ _ E) as (Hg & Ht & Hf).
    destruct e as [e|]; [done|]. simplify_eq.
    destruct (Hf eq_refl) as (fs & Hfs & Hfs' & ->).
    destruct (grow_getFields r r h h' _ Hg ltac:(reflexivity) Hrf)
      as (rfs & Hrfs & _).
    eexists _, l1, r, _, _, rfs. split; [done|].
    split; [by destruct j|]. split; [by destruct j|].
    split; [done|]. split; [done|].
    split; [|split; [done|split; [done|reflexivity]]].
    exists (length fs). split; [lia|]. by apply list_lookup_middle.
  - rewrite Hr in Hp. simpl in Hp.
    destruct (checkTbInNode (sel_referTables field) rtbs) eqn:Ecr;
      [|by dbind Hp].
    destruct (pushSelectExpr r field h) as [[[[i e] r1] h1]|] eqn:E;
      simpl in Hp; [|done].
    destruct (pushSelectExpr_grow _ _ _ _ _ _ _ E) as (Hg & Ht & Hf).
    destruct e as [e|]; [done|]. simplify_eq.
    destruct (Hf eq_refl) as (fs & Hfs & Hfs' & ->).
    destruct (grow_getFields l l h h' _ Hg ltac:(reflexivity) Hlf)
      as (lfs & Hlfs & _).
    eexists _, l, r1, _, lfs, _. split; [done|].
    split; [by destruct j|]. split; [by destruct j|].
    split; [done|]. split; [done|].
    split; [|split; [done|split; [reflexivity|done]]].
    split; [done|]. exists (length fs). split; [lia|].
    by apply list_lookup_middle.
Qed.

(** The loop of [pushSelectExprs] over the select list. *)
Lemma pushSelectExprs_loop fields j l r h n' h' ltbs rtbs :
  foldE pushSelectExprs_step fields (Join j l r, h) = Some (None, (n', h')) →
  getReferredTables l h = Some ltbs → getReferredTables r h = Some rtbs →
  ∃ j' l' r' cs lfs rfs,
    n' = Join j' l' r' ∧ Cols j' = Cols j ++ cs
    ∧ j_fields j' = j_fields j ++ fields
    ∧ getFields l' h' = Some lfs ∧ getFields r' h' = Some rfs
    ∧ Forall2 (colOf ltbs rtbs lfs rfs) fields cs
    ∧ heap_grow h h' ∧ top_grow l l' ∧ top_grow r r'.
Proof.
  revert j l r h. induction fields as [|t ts IH]; intros j l r h Hf Hl Hr;
    simpl in Hf.
  - simplify_eq.
    destruct (getReferredTables_getFields _ _ _ Hl) as [lfs Hlf].
    destruct (getReferredTables_getFields _ _ _ Hr) as [rfs Hrf].
    exists j, l, r, [], lfs, rfs. rewrite !app_nil_r.
    split; [done|]. split; [done|]. split; [done|]. split; [done|].
    split; [done|]. split; [constructor|].
    split; [reflexivity|]. split; reflexivity.
  - destruct (pushSelectExprs_step t (Join j l r, h)) as [[e s1]|] eqn:Es;
      simpl in Hf; [|done].
    destruct e as [e|]; [done|].
    unfold pushSelectExprs_step in Es. cbn [fst snd] in Es.
    destruct (pushSelectExpr (Join j l r) t h) as [[[[i e] n1] h1]|] eqn:E;
      [|done].
    cbn [mbind option_bind] in Es. simplify_eq.
    destruct (pushSelectExpr_Join _ _ _ _ _ _ _ _ _ _ E Hl Hr)
      as (j1 & l1 & r1 & c & lfs1 & rfs1 & -> & Hc1 & Hf1 & Hlf1 & Hrf1
          & Hcol & Hg1 & Htl1 & Htr1).
    destruct (IH j1 l1 r1 h1 Hf) as (j' & l' & r' & cs & lfs & rfs & -> & Hc
                                     & Hfs & Hlf & Hrf & Hall & Hg & Htl & Htr).
    { by eapply grow_getReferredTables. }
    { by eapply grow_getReferredTables. }
    exists j', l', r', (c :: cs), lfs, rfs. split; [done|].
    split; [by rewrite Hc, Hc1, <- app_assoc|].
    split; [by rewrite Hfs, Hf1, <- app_assoc|].
    split; [done|]. split; [done|].
    split; [|split; [by etrans|split; by etrans]].
    constructor; [|done].
    destruct (grow_getFields _ _ _ _ _ Hg Htl Hlf1) as (lfs' & Hlf' & Hpl).
    destruct (grow_getFields _ _ _ _ _ Hg Htr Hrf1) as (rfs' & Hrf' & Hpr).
    simplify_eq. by eapply colOf_prefix.
Qed.

(** C3: after a successful [pushSelectExprs] on a node whose [Cols] and
    fields were empty, as [newJoinNode] leaves them, the fields of the
    node are the projected tuples, [Cols] has one entry for each of them,
    every entry is nonzero, and the entry of a tuple is [-(i+1)] when the
    tuple went to the left child and sits at index [i] of its fields, and
    [+(i+1)] when it went to the right child. *)
Theorem pushSelectExprs_Cols j l r fields groups sel hasAggregates h
    j' l' r' h' ltbs rtbs :
  pushSelectExprs (Join j l r) fields groups sel hasAggregates h
    = Some (None, Join j' l' r', h') →
  Cols j = [] → j_fields j = [] →
  getReferredTables l h = Some ltbs → getReferredTables r h = Some rtbs →
  ∃ lfs rfs,
    getFields l' h' = Some lfs ∧ getFields r' h' = Some rfs
    ∧ j_fields j' = fields
    ∧ length (Cols j') = length (j_fields j')
    ∧ Forall (λ c, c ≠ 0) (Cols j')
    ∧ Forall2 (colOf ltbs rtbs lfs rfs) fields (Cols j').
Proof.
  unfold pushSelectExprs. intros Hp Hc0 Hf0 Hl Hr.
  destruct hasAggregates; [done|].
  assert (∃ j1, Cols j1 = [] ∧ j_fields j1 = []
    ∧ (foldE pushSelectExprs_step fields (Join j1 l r, h)
       ≫= λ '(err, s2),
            match err with
            | Some e => Some (Some e, s2.1, s2.2)
            | None => handleJoinOn s2.1 s2.2
                      ≫= λ '(n3, h3), handleOthers n3 h3
            end) = Some (None, Join j' l' r', h')) as (j1 & Hc1 & Hf1 & Hp1).
  { case_bool_decide.
    - destruct (AggregatePlan_Build _ _ _); [done|].
      exists (set_j_children (j_children j ++ [PlanAggregate fields groups]) j).
      split; [by destruct j|]. split; [by destruct j|]. done.
    - by exists j. }
  clear Hp.
  destruct (foldE _ _ _) as [[e2 [n2 h2]]|] eqn:E2; simpl in Hp1; [|done].
  destruct e2 as [e2|]; [done|].
  destruct (pushSelectExprs_loop _ _ _ _ _ _ _ _ _ E2 Hl Hr)
    as (j2 & l2 & r2 & cs & lfs2 & rfs2 & -> & Hc2 & Hf2 & Hlf2 & Hrf2
        & Hall & Hg2 & Htl2 & Htr2).
  rewrite Hc1 in Hc2. rewrite Hf1 in Hf2. simpl in Hc2, Hf2.
  destruct (handleJoinOn _ h2) as [[n3 h3]|] eqn:E3; simpl in Hp1; [|done].
  destruct (handleJoinOn_grow _ _ _ _ E3) as [Hg3 Hn3].
  destruct (handleOthers_grow _ _ _ _ _ Hp1) as [Hg4 Hn4].
  destruct n3 as [m3|j3 l3 r3]; [done|].
  destruct Hn3 as ((Hf3 & Hc3 & _) & Htl3 & Htr3).
  destruct Hn4 as ((Hf4 & Hc4 & _) & Htl4 & Htr4).
  destruct (grow_getFields l2 l' h2 h' _ ltac:(by etrans) ltac:(by etrans) Hlf2)
    as (lfs & Hlf & Hpl).
  destruct (grow_getFields r2 r' h2 h' _ ltac:(by etrans) ltac:(by etrans) Hrf2)
    as (rfs & Hrf & Hpr).
  exists lfs, rfs. split; [done|]. split; [done|].
  rewrite Hf4, Hf3, Hf2, Hc4, Hc3, Hc2.
  assert (Forall2 (colOf ltbs rtbs lfs rfs) fields cs) as Hall'.
  { eapply Forall2_impl; [exact Hall|]. intros t c. by apply colOf_prefix. }
  split; [done|]. split; [symmetry; by eapply Forall2_length|].
  split; [|done].
  clear -Hall'. induction Hall'; constructor; [|done].
  by eapply colOf_nonzero.
Qed.

(** ** The errors of the passes *)

Arguments pushNullExprs_step : simpl never.
Arguments pushOtherFilter : simpl never.
Arguments pushComparison : simpl never.
Arguments pushOtherFilters_step : simpl never.
Arguments pushOtherJoin_left : simpl never.
Arguments pushOtherJoin_right : simpl never.
Arguments analyze_step : simpl never.

(** The six reasons of the error surface of the specification. *)
Inductive specError : string → Prop :=
| err_aggregates :
    specError "unsupported: cross-shard.query.with.aggregates"
| err_clause sql :
    specError ("unsupported: clause.'" +:+ sql +:+ "'.in.cross-shard.join")
| err_on_clause sql :
    specError ("unsupported: on.clause.'" +:+ sql +:+ "'.in.cross-shard.join")
| err_expr sql :
    specError ("unsupported: expr.'" +:+ sql +:+ "'.in.cross-shard.join")
| err_orderby field :
    specError ("unsupported: orderby[" +:+ field +:+ "].should.in.select.list")
| err_unknow table field :
    specError ("unsupported: unknow.table.in.order.by.field["
               +:+ table +:+ "." +:+ field +:+ "]").

(** The errors the code can return: the six above, the two other
    messages of join_node.go and orderby_plan.go, and the errors that a
    collaborator returned, handed on as they are. *)
Inductive plannerError : string → Prop :=
| err_spec e : specError e → plannerError e
| err_havings sql :
    plannerError ("unsupported: havings.'" +:+ sql +:+ "'.in.cross-shard.join")
| err_orderby_expr v : plannerError ("unsupported: orderby:" +:+ v)
| err_GetIndex db tb v idx e :
    GetIndex db tb v = (idx, Some e) → plannerError e
| err_AggregatePlan exprs fields groups e :
    AggregatePlan_Build exprs fields groups = Some e → plannerError e
| err_LimitPlan sel e : LimitPlan_Build sel = Some e → plannerError e
| err_route mn mn' e : MergeNode_route mn = (mn', Some e) → plannerError e.

(** An error returned by one of the pushdown passes of a plan node. *)
Inductive passError : string → Prop :=
| pass_pushFilter n filters h e n' h' :
    pushFilter n filters h = Some (Some e, n', h') → passError e
| pass_calcRoute n h e n' h' :
    calcRoute n h = Some (n', Some e, h') → passError e
| pass_pushSelectExprs n fields groups sel hasAggregates h e n' h' :
    pushSelectExprs n fields groups sel hasAggregates h = Some (Some e, n', h') →
    passError e
| pass_pushHaving n havings h e h' :
    pushHaving n havings h = Some (Some e, h') → passError e
| pass_pushOrderBy n sel fields h e n' sel' :
    pushOrderBy n sel fields h = Some (Some e, n', sel') → passError e
| pass_pushLimit n sel e n' :
    pushLimit n sel = Some (Some e, n') → passError e.

Lemma foldE_err {A S} (P : string → Prop) (f : A → S → option (error * S))
    l s e s' :
  (∀ x s e s', f x s = Some (Some e, s') → P e) →
  foldE f l s = Some (Some e, s') → P e.
Proof.
  intros Hf. revert s. induction l as [|x l IH]; intros s Hl; simpl in Hl.
  - done.
  - destruct (f x s) as [[[e1|] s1]|] eqn:E; simpl in Hl; [| |done].
    + simplify_eq. by eapply Hf.
    + by eapply IH.
Qed.

Lemma pushFilter_place_err filter n h e n' h' :
  pushFilter_place filter n h = Some (Some e, n', h') → plannerError e.
Proof.
  unfold pushFilter_place. intros Hp. destruct n as [m|j l r]; [done|].
  case_bool_decide.
  - dbind Hp. dbind Hp. destruct (f_col filter) as [c|].
    + dbind Hp. destruct (f_val filter) as [v|]; [|done].
      destruct (_ && _); [|done]. dbind Hp.
      destruct (nameMatch _ _ _); [|done].
      destruct (GetIndex _ _ v) as [idx err] eqn:Eg. simplify_eq.
      by eapply err_GetIndex.
    + by dbind Hp.
  - dbind Hp. dbind Hp. by dpairs.
Qed.

Lemma pushFilter_step_err rt filter n h e n' h' :
  pushFilter_step rt filter n h = Some (Some e, n', h') → plannerError e.
Proof.
  unfold pushFilter_step. intros Hp. destruct n as [m|j l r]; [done|].
  case_bool_decide; [done|]. destruct (_ && _); [done|].
  destruct (pushFilter_place filter _ h) as [[[e1 n1] h1]|] eqn:E;
    simpl in Hp; [|done].
  destruct e1 as [e1|].
  - simplify_eq. by eapply pushFilter_place_err.
  - destruct n1; [done|]. by destruct (_ && _).
Qed.

Lemma pushFilter_err n filters h e n' h' :
  pushFilter n filters h = Some (Some e, n', h') → plannerError e.
Proof.
  unfold pushFilter. destruct n as [m|j l r]; [done|]. intros Hp. dbind Hp.
  clear E. revert Hp. generalize (Join j l r) as n. revert h.
  induction filters as [|f fs IH]; intros h n Hp; simpl in Hp; [done|].
  destruct (pushFilter_step g f n h) as [[[e1 n1] h1]|] eqn:E;
    simpl in Hp; [|done].
  destruct e1 as [e1|].
  - simplify_eq. by eapply pushFilter_step_err.
  - by eapply IH.
Qed.

Lemma calcRoute_collapse_err j l r h n' err h' :
  calcRoute_collapse j l r h = Some (n', err, h') → err = None.
Proof.
  unfold calcRoute_collapse. intros Hc.
  destruct l as [lp|]; [|by simplify_eq].
  destruct r as [rp|]; [|by simplify_eq].
  dbind Hc. dbind Hc. destruct (sameRoute _ _); [|by simplify_eq].
  dbind Hc. dpairs. dbind Hc. dbind Hc. by simplify_eq.
Qed.

Lemma calcRoute_at_err t n h e n' h' :
  calcRoute_at t n h = Some (n', Some e, h') → plannerError e.
Proof.
  revert n h e n' h'. induction t as [m|jt tl IHl tr IHr];
    intros n h e n' h' Hc; destruct n as [m'|j l r]; simpl in Hc.
  - dbind Hc. dpairs. simplify_eq. unfold MergeNode_calcRoute in E.
    dbind E. destruct (MergeNode_route m0) as [mn' err] eqn:Er. simplify_eq.
    by eapply err_route.
  - dbind Hc. dpairs. by destruct p.
  - dbind Hc. dpairs. simplify_eq. unfold MergeNode_calcRoute in E.
    dbind E. destruct (MergeNode_route m) as [mn' err] eqn:Er. simplify_eq.
    by eapply err_route.
  - dbind Hc. dpairs. destruct p as [|j1 l1 r1]; [done|].
    destruct (calcRoute_at tl l1 h0) as [[[l2 e1] h2]|] eqn:E1;
      simpl in Hc; [|done].
    destruct e1 as [e1|]; [simplify_eq; by eapply IHl|].
    destruct (calcRoute_at tr r1 h2) as [[[r2 e2] h3]|] eqn:E2;
      simpl in Hc; [|done].
    destruct e2 as [e2|]; [simplify_eq; by eapply IHr|].
    by apply calcRoute_collapse_err in Hc.
Qed.

Lemma pushSelectExpr_err n field h index e n' h' :
  pushSelectExpr n field h = Some (index, Some e, n', h') → specError e.
Proof.
  revert h index e n' h'.
  induction n as [m|j l IHl r IHr]; intros h index e n' h' Hp; simpl in Hp.
  - dbind Hp. dpairs.
    apply MergeNode_pushSelectExpr_spec in E as (_ & _ & _ & _ & _ & _ & ? & _).
    by simplify_eq.
  - dbind Hp. destruct (checkTbInNode _ g).
    + destruct (pushSelectExpr l field h) as [[[[i1 e1] l1] h1]|] eqn:E1;
        simpl in Hp; [|done].
      destruct e1 as [e1|]; simplify_eq. by eapply IHl.
    + dbind Hp. destruct (checkTbInNode _ g0).
      * destruct (pushSelectExpr r field h) as [[[[i1 e1] r1] h1]|] eqn:E1;
          simpl in Hp; [|done].
        destruct e1 as [e1|]; simplify_eq. by eapply IHr.
      * dbind Hp. simplify_eq. apply err_expr.
Qed.

Lemma pushOtherFilter_err expr node tbs idx h index e node' idx' h' :
  pushOtherFilter expr node tbs idx h = Some (index, Some e, node', idx', h') →
  specError e.
Proof.
  unfold pushOtherFilter. intros Hp. dbind Hp.
  case_bool_decide; [|done].
  destruct (pushSelectExpr node _ h) as [[[[i1 e1] n1] h1]|] eqn:E1;
    simpl in Hp; [|done].
  destruct e1 as [e1|]; simplify_eq. by eapply pushSelectExpr_err.
Qed.

Lemma pushComparison_err op exch a ta b tb s e s' :
  pushComparison op exch a ta b tb s = Some (Some e, s') → specError e.
Proof.
  destruct s as [[[[j l] r] idx] h]. unfold pushComparison. intros Hb.
  destruct (pushOtherFilter a l ta idx h) as [[[[[li e0] l1] i1] h1]|] eqn:E5;
    simpl in Hb; [|done].
  destruct e0 as [e0|]; [simplify_eq; by eapply pushOtherFilter_err|].
  destruct (pushOtherFilter b r tb i1 h1) as [[[[[ri e1] r1] i2] h2]|] eqn:E6;
    simpl in Hb; [|done].
  destruct e1 as [e1|]; [simplify_eq; by eapply pushOtherFilter_err|done].
Qed.

Lemma pushOtherFilters_step_err expr s e s' :
  pushOtherFilters_step expr s = Some (Some e, s') → specError e.
Proof.
  destruct s as [[[[j l] r] idx] h]. unfold pushOtherFilters_step.
  intros Hs.
  assert (clauseError (cols h) expr ≫= (λ e, Some (Some e, (j, l, r, idx, h)))
          = Some (Some e, s') → specError e) as Herr.
  { intros He. dbind He. unfold clauseError in E. dbind E. simplify_eq.
    apply err_clause. }
  destruct expr as [c|v| |op el er|op e0|el er]; try (by apply Herr).
  dbind Hs. dbind Hs. dbind Hs. dbind Hs.
  repeat case_match; try (by eapply pushComparison_err). by apply Herr.
Qed.

Lemma pushOtherFilters_err filters s e s' :
  pushOtherFilters filters s = Some (Some e, s') → specError e.
Proof.
  apply (foldE_err specError). intros. by eapply pushOtherFilters_step_err.
Qed.

Lemma pushNullExprs_err s e s' :
  pushNullExprs s = Some (Some e, s') → specError e.
Proof.
  apply (foldE_err specError). intros x [[[[j l] r] idx] h] e1 s1 Hs.
  unfold pushNullExprs_step in Hs.
  destruct (pushOtherFilter _ r _ idx h) as [[[[[i e0] r1] i1] h1]|] eqn:E;
    simpl in Hs; [|done].
  destruct e0 as [e0|]; simplify_eq. by eapply pushOtherFilter_err.
Qed.

Lemma pushOtherJoin_err s e s' :
  pushOtherJoin s = Some (Some e, s') → specError e.
Proof.
  unfold pushOtherJoin. intros Hs.
  destruct (otherJoinOn _) as [oj|]; [|done].
  match type of Hs with
  | mbind _ ?o = _ => destruct o as [[e1 s1]|] eqn:E1; simpl in Hs; [|done]
  end.
  destruct e1 as [e1|].
  { simplify_eq. revert E1. case_bool_decide; [|done].
    apply pushOtherFilters_err. }
  destruct s1 as [[[[j l] r] idx] h].
  match type of Hs with
  | mbind _ ?o = _ => destruct o as [[r1 h1]|] eqn:E2; simpl in Hs; [|done]
  end.
  match type of Hs with
  | mbind _ ?o = _ => destruct o as [[e3 s3]|] eqn:E3; simpl in Hs; [|done]
  end.
  destruct e3 as [e3|].
  { simplify_eq. revert E3. apply (foldE_err specError).
    intros x [[[[j2 l2] r2] idx2] h2] e2 s2 Hl. unfold pushOtherJoin_left in Hl.
    destruct (pushSelectExpr l2 x h2) as [[[[i e0] l3] h3]|] eqn:E;
      simpl in Hl; [|done].
    destruct e0 as [e0|]; simplify_eq. by eapply pushSelectExpr_err. }
  revert Hs. apply (foldE_err specError).
  intros x [[[[j2 l2] r2] idx2] h2] e2 s2 Hl. unfold pushOtherJoin_right in Hl.
  dbind Hl.
  destruct o as [[m|a]|]; try (dbind Hl; simplify_eq; apply err_on_clause).
Qed.

Lemma handleOthers_err n h e n' h' :
  handleOthers n h = Some (Some e, n', h') → specError e.
Proof.
  revert h e n' h'. induction n as [m|j l IHl r IHr];
    intros h e n' h' Hj; simpl in Hj; [done|].
  match type of Hj with
  | mbind _ ?o = _ =>
      destruct o as [[[e1 l1] h1]|] eqn:El; simpl in Hj; [|done]
  end.
  destruct e1 as [e1|].
  { simplify_eq. destruct (isMerge l); [done|]. by eapply IHl. }
  match type of Hj with
  | mbind _ ?o = _ =>
      destruct o as [[[e2 r1] h2]|] eqn:Er; simpl in Hj; [|done]
  end.
  destruct e2 as [e2|].
  { simplify_eq. destruct (isMerge r); [done|]. by eapply IHr. }
  destruct (pushOtherJoin _) as [[e3 s3]|] eqn:E3; simpl in Hj; [|done].
  destruct e3 as [e3|]; [simplify_eq; by eapply pushOtherJoin_err|].
  destruct (pushNullExprs s3) as [[e4 s4]|] eqn:E4; simpl in Hj; [|done].
  destruct e4 as [e4|]; [simplify_eq; by eapply pushNullExprs_err|].
  destruct (pushOtherFilters _ s4) as [[e5 s5]|] eqn:E5; simpl in Hj; [|done].
  simplify_eq. by eapply pushOtherFilters_err.
Qed.

Lemma pushSelectExprs_err n fields groups sel hasAggregates h e n' h' :
  pushSelectExprs n fields groups sel hasAggregates h = Some (Some e, n', h') →
  plannerError e.
Proof.
  unfold pushSelectExprs. intros Hp. destruct n as [m|j l r]; [done|].
  destruct hasAggregates.
  { simplify_eq. apply err_spec, err_aggregates. }
  match type of Hp with
  | (let '(_, _) := ?o in _) = _ => destruct o as [e1 n1] eqn:E1
  end.
  destruct e1 as [e1|].
  { simplify_eq. case_bool_decide; [|done].
    destruct (AggregatePlan_Build _ _ _) eqn:Ea; simplify_eq.
    by eapply err_AggregatePlan. }
  destruct (foldE _ _ _) as [[e2 s2]|] eqn:E2; simpl in Hp; [|done].
  destruct e2 as [e2|].
  { simplify_eq. apply err_spec. revert E2. apply (foldE_err specError).
    intros x s e1 s1 Hs. unfold pushSelectExprs_step in Hs.
    destruct (pushSelectExpr _ x _) as [[[[i e0] n3] h3]|] eqn:E;
      simpl in Hs; [|done].
    simplify_eq. by eapply pushSelectExpr_err. }
  dbind Hp. dpairs. apply err_spec. by eapply handleOthers_err.
Qed.

Lemma pushHaving_err n havings h e h' :
  pushHaving n havings h = Some (Some e, h') → plannerError e.
Proof.
  destruct n as [m|j l r]; simpl.
  - unfold MergeNode_pushHaving. intros Hp. by dbind Hp.
  - apply (foldE_err plannerError). intros filter h1 e1 h2 Hs.
    case_bool_decide.
    { dbind Hs. dpairs. dbind Hs. by dpairs. }
    case_bool_decide.
    { dbind Hs. dbind Hs. by dbind Hs. }
    dbind Hs. destruct o as [[m|a]|];
      try (dbind Hs; simplify_eq; apply err_havings).
Qed.

Lemma analyze_step_err cs o p e p' :
  analyze_step cs o p = Some (Some e, p') → plannerError e.
Proof.
  unfold analyze_step. intros Hs.
  destruct (o_Expr o) as [c| | | | |];
    try (simplify_eq; apply err_orderby_expr).
  dbind Hs. repeat case_match; simplify_eq.
  - apply err_spec, err_unknow.
  - apply err_spec, err_orderby.
Qed.

Lemma pushOrderBy_err n sel fields h e n' sel' :
  pushOrderBy n sel fields h = Some (Some e, n', sel') → plannerError e.
Proof.
  unfold pushOrderBy. intros Hp. destruct n as [m|j l r]; [done|].
  destruct (bool_decide (0 < length _)%nat); [|done].
  destruct (OrderByPlan_Build _ _) as [[e1 p1]|] eqn:E; simpl in Hp; [|done].
  destruct e1 as [e1|]; simplify_eq.
  revert E. apply (foldE_err plannerError). intros. by eapply analyze_step_err.
Qed.

Lemma pushLimit_err n sel e n' :
  pushLimit n sel = Some (Some e, n') → plannerError e.
Proof.
  unfold pushLimit. intros Hp. destruct n as [m|j l r]; [done|].
  destruct (LimitPlan_Build sel) eqn:E; simplify_eq. by eapply err_LimitPlan.
Qed.

(** C6, as the code has it: an error returned by [pushFilter],
    [calcRoute], [pushSelectExprs], [pushHaving], [pushOrderBy] or
    [pushLimit] is ["unsupported: "] followed by one of the six reasons of
    the specification, by [havings.'<sql>'.in.cross-shard.join] or by
    [orderby:<expr>], or it is the error of a collaborator (the Route
    Oracle, a child plan's [Build], the route resolution of a Merge)
    handed on unmodified. *)
Theorem passError_enumerated e : passError e → plannerError e.
Proof.
  intros [n fs h e' n' h' Hp|n h e' n' h' Hp|n fs gs sel ha h e' n' h' Hp
         |n hv h e' h' Hp|n sel fs h e' n' sel' Hp|n sel e' n' Hp].
  - by eapply pushFilter_err.
  - by eapply calcRoute_at_err.
  - by eapply pushSelectExprs_err.
  - by eapply pushHaving_err.
  - by eapply pushOrderBy_err.
  - by eapply pushLimit_err.
Qed.

(** ** Route calculation *)

Arguments buildKeyFilter : simpl nomatch.
Arguments calcRoute_filter : simpl never.
Arguments calcRoute_collapse : simpl never.
Arguments mergeRoutes : simpl never.

(** Two plan trees with the same nodes at the same places. *)
Fixpoint sameShape (n n' : PlanNode) : Prop :=
  match n, n' with
  | Merge m, Merge m' => m = m'
  | Join j l r, Join j' l' r' =>
      self j' = self j ∧ sameShape l l' ∧ sameShape r r'
  | _, _ => False
  end.

Lemma sameShape_refl n : sameShape n n.
Proof. induction n; simpl; done. Qed.

Lemma sameShape_trans n1 n2 n3 :
  sameShape n1 n2 → sameShape n2 n3 → sameShape n1 n3.
Proof.
  revert n2 n3. induction n1 as [m|j l IHl r IHr]; intros [m2|j2 l2 r2]
    [m3|j3 l3 r3]; simpl; try done; try congruence.
  intros (? & ? & ?) (? & ? & ?). split; [congruence|]. split; eauto.
Qed.

(** The fields of a JoinNode that [calcRoute] hands to the collapsed Merge
    and that the loop over [tableFilter] does not write. *)
Definition sameFilters (j j' : JoinNode) : Prop :=
  self j' = self j ∧ otherFilter j' = otherFilter j
  ∧ noTableFilter j' = noTableFilter j
  ∧ joinOn j' = joinOn j ∧ joinExpr j' = joinExpr j
  ∧ j_hasParen j' = j_hasParen j ∧ j_parent j' = j_parent j.

Lemma sameFilters_refl j : sameFilters j j.
Proof. by repeat split. Qed.

Lemma sameFilters_trans j1 j2 j3 :
  sameFilters j1 j2 → sameFilters j2 j3 → sameFilters j1 j3.
Proof.
  intros (?&?&?&?&?&?&?) (?&?&?&?&?&?&?). repeat split; congruence.
Qed.

Lemma recordKeyFilter_same onLeft filter i join j h j' h' :
  recordKeyFilter onLeft filter i join j h = Some (j', h') →
  sameFilters j j'.
Proof.
  unfold recordKeyFilter. intros Hr.
  destruct (f_val filter); [|simplify_eq; by destruct j].
  dbind Hr. dbind Hr. dbind Hr. case_match; simplify_eq; by destruct j.
Qed.

(** [buildKeyFilter] writes [keyFilters], in the node and below it, and
    nothing else of the tree. *)
Lemma buildKeyFilter_shape n filter isFind h b n' h' :
  buildKeyFilter n filter isFind h = Some (b, n', h') →
  sameShape n n'
  ∧ match n, n' with
    | Join j _ _, Join j' _ _ => sameFilters j j'
    | _, _ => False
    end.
Proof.
  revert isFind h b n' h'. induction n as [m|j l IHl r IHr];
    intros isFind h b n' h' Hb; simpl in Hb; [done|].
  dbind Hb. dbind Hb. dbind Hb. dbind Hb. dbind Hb.
  match type of Hb with
  | mbind _ ?o = _ =>
      destruct o as [[[find j1] h1]|] eqn:Ef; simpl in Hb; [|done]
  end.
  assert (sameFilters j j1) as Hs.
  { destruct o as [[i join]|]; [|simplify_eq; apply sameFilters_refl].
    dbind Ef. dpairs. simplify_eq. by eapply recordKeyFilter_same. }
  destruct (bool_decide (is_Some (g !! s))).
  - destruct l as [lm|lj ll lr].
    + simplify_eq. simpl. split; [|done].
      destruct Hs as (? & _). split; [done|]. split; [done|].
      apply sameShape_refl.
    + dbind Hb. dpairs. simplify_eq. apply IHl in E4 as [Hsh _].
      simpl. split; [|done]. destruct Hs as (? & _).
      split; [done|]. split; [done|]. apply sameShape_refl.
  - destruct r as [rm|rj rl rr].
    + simplify_eq. simpl. split; [|done].
      destruct Hs as (? & _). split; [done|]. split; [|done].
      apply sameShape_refl.
    + dbind Hb. dpairs. simplify_eq. apply IHr in E4 as [Hsh _].
      simpl. split; [|done]. destruct Hs as (? & _).
      split; [done|]. split; [|done]. apply sameShape_refl.
Qed.

Definition routeState_same (s s' : PlanNode * Heap) : Prop :=
  sameShape s.1 s'.1
  ∧ match s.1, s'.1 with
    | Join j _ _, Join j' _ _ => sameFilters j j'
    | Merge _, Merge _ => True
    | _, _ => False
    end.

Global Instance routeState_same_preorder : PreOrder routeState_same.
Proof.
  split.
  - intros [[m|j l r] h]; split; simpl; try done; try apply sameShape_refl.
    split; [done|]. split; apply sameShape_refl.
  - intros [[m1|j1 l1 r1] h1] [[m2|j2 l2 r2] h2] [[m3|j3 l3 r3] h3];
      unfold routeState_same; simpl; try tauto.
    + intros [-> _] [-> _]. done.
    + intros [(? & ? & ?) ?] [(? & ? & ?) ?].
      split; [|by eapply sameFilters_trans].
      split; [congruence|]. split; by eapply sameShape_trans.
Qed.

(** The first loop of [calcRoute] keeps the shape of the tree, which is
    why [calcRoute_at] can follow the node as it was on entry. *)
Lemma calcRoute_filters_shape filters s s' :
  foldM calcRoute_filter filters s = Some s' → routeState_same s s'.
Proof.
  apply (foldM_rel routeState_same). clear. intros filter [n h] [n' h'] Hc.
  unfold calcRoute_filter in Hc.
  destruct (buildKeyFilter n filter false h) as [[[found n1] h1]|] eqn:E;
    simpl in Hc; [|done].
  destruct (buildKeyFilter_shape _ _ _ _ _ _ _ E) as [Hsh Hsf].
  assert (n' = n1) as ->.
  { destruct found; [by simplify_eq|]. destruct n1; [done|].
    dbind Hc. dbind Hc. dbind Hc. by simplify_eq. }
  split; [done|]. simpl. destruct n, n1; done.
Qed.

(** [calcRoute] on a JoinNode is the routing of its children followed by
    the collapse test. *)
Lemma calcRoute_Join j l r h :
  calcRoute (Join j l r) h
  = '(j1, l2, r2, err, h3) ← calcRoute_children (Join j l r) h;
    match err with
    | Some e => Some (Join j1 l2 r2, Some e, h3)
    | None => calcRoute_collapse j1 l2 r2 h3
    end.
Proof.
  unfold calcRoute, calcRoute_children. simpl.
  destruct (foldM calcRoute_filter _ _) as [[[m|j1 l1 r1] h1]|]; simpl;
    try done.
  destruct (calcRoute_at l l1 h1) as [[[l2 [e|]] h2]|]; simpl; try done.
  destruct (calcRoute_at r r1 h2) as [[[r2 [e|]] h3]|]; simpl; done.
Qed.

(** A Merge that holds [e] in its filter set. *)
Definition hasFilter (h : Heap) (m : Ptr) (e : Expr) : Prop :=
  ∃ mn, merges h !! m = Some mn ∧ is_Some (m_filters mn !! e).

Lemma MergeNode_setWhereFilter_has m e h h' :
  MergeNode_setWhereFilter m e h = Some h' →
  hasFilter h' m e ∧ ∀ m0 e0, hasFilter h m0 e0 → hasFilter h' m0 e0.
Proof.
  unfold MergeNode_setWhereFilter. intros Hs. dbind Hs. simplify_eq.
  unfold hasFilter, set_merge. simpl. split.
  - eexists. rewrite lookup_insert_eq. split; [done|].
    destruct m0; simpl. rewrite lookup_insert_eq. by eexists.
  - intros m1 e0 (mn & Hm & Hf). destruct (decide (m = m1)) as [->|Hne].
    + eexists. rewrite lookup_insert_eq. split; [done|].
      rewrite E in Hm. injection Hm as <-.
      destruct m0; simpl in *. destruct (decide (e = e0)) as [->|].
      * rewrite lookup_insert_eq. by eexists.
      * by rewrite lookup_insert_ne.
    + exists mn. by rewrite lookup_insert_ne.
Qed.

Lemma foldM_setWhereFilter_has m es h h' :
  foldM (MergeNode_setWhereFilter m) es h = Some h' →
  (∀ e, e ∈ es → hasFilter h' m e)
  ∧ ∀ m0 e0, hasFilter h m0 e0 → hasFilter h' m0 e0.
Proof.
  revert h. induction es as [|e es IH]; intros h Hf; simpl in Hf.
  - simplify_eq. split; [|done]. intros e He. by inversion He.
  - dbind Hf. apply MergeNode_setWhereFilter_has in E as [He Hk].
    destruct (IH _ Hf) as [Hes Hk']. split; [|by eauto].
    intros e' [->|Hin]%elem_of_cons; eauto.
Qed.

Lemma collapseFilters_keyFilters j i fs f :
  keyFilters j !! i = Some fs → f ∈ fs → f_expr f ∈ collapseFilters j.
Proof.
  intros Hk Hf. unfold collapseFilters.
  apply elem_of_app. right. apply elem_of_app. left.
  apply list_elem_of_In, in_flat_map. exists (i, fs).
  split; [by apply list_elem_of_In, elem_of_map_to_list|].
  simpl. apply list_elem_of_In. by apply list_elem_of_fmap_2.
Qed.

(** C1: when [calcRoute] of a JoinNode succeeds and, once both children
    are routed, they are two Merges that have the same non-empty backend
    or of which one has no shard, [calcRoute] returns a Merge and not the
    JoinNode, and the filter set of that Merge holds every [otherFilter]
    expression of the join, the expression of every filter of its
    [keyFilters], every [noTableFilter] expression and, when the join has
    no ON clause and [joinOn] is not empty, the expression of every
    [joinOn]. *)
Theorem calcRoute_collapses j l r h res h' j1 lp rp h1 lmn rmn :
  calcRoute (Join j l r) h = Some (res, None, h') →
  calcRoute_children (Join j l r) h = Some (j1, Merge lp, Merge rp, None, h1) →
  merges h1 !! lp = Some lmn → merges h1 !! rp = Some rmn →
  (m_backend lmn ≠ "" ∧ m_backend lmn = m_backend rmn)
  ∨ m_shardCount rmn = 0 ∨ m_shardCount lmn = 0 →
  sameFilters j j1
  ∧ ∃ mp, res = Merge mp
      ∧ (∀ e, e ∈ otherFilter j → hasFilter h' mp e)
      ∧ (∀ i fs f, keyFilters j1 !! i = Some fs → f ∈ fs →
                   hasFilter h' mp (f_expr f))
      ∧ (∀ e, e ∈ noTableFilter j → hasFilter h' mp e)
      ∧ (joinExpr j = None → joinOn j ≠ [] →
         ∀ join, join ∈ joinOn j → hasFilter h' mp (jt_expr join)).
Proof.
  intros Hc Hch Hl Hr Hsame.
  rewrite calcRoute_Join, Hch in Hc. simpl in Hc.
  assert (sameFilters j j1) as Hsf.
  { unfold calcRoute_children in Hch.
    destruct (foldM calcRoute_filter _ _) as [[n1 h0]|] eqn:Ef; simpl in Hch;
      [|done].
    apply calcRoute_filters_shape in Ef as [_ Hs]. simpl in Hs.
    destruct n1 as [|j1' l1 r1]; [done|].
    destruct (calcRoute_at l l1 h0) as [[[l2 [e|]] h2]|]; simpl in Hch;
      try done.
    destruct (calcRoute_at r r1 h2) as [[[r2 e2] h3]|]; simpl in Hch;
      try done.
    by simplify_eq. }
  split; [done|].
  unfold calcRoute_collapse in Hc. rewrite Hl, Hr in Hc. simpl in Hc.
  assert (sameRoute lmn rmn = true) as Hsr.
  { unfold sameRoute. destruct Hsame as [[Hb1 Hb2]|[Hs|Hs]].
    - by rewrite (bool_decide_eq_true_2 _ Hb1), (bool_decide_eq_true_2 _ Hb2).
    - rewrite (bool_decide_eq_true_2 _ Hs). by rewrite orb_true_r.
    - rewrite (bool_decide_eq_true_2 _ Hs). by rewrite orb_true_r. }
  rewrite Hsr in Hc.
  dbind Hc. dpairs. dbind Hc. dbind Hc. simplify_eq.
  assert (n = lp) as ->.
  { unfold mergeRoutes in E. dbind E. dbind E. by simplify_eq. }
  exists lp. split; [done|].
  apply foldM_setWhereFilter_has in E1 as [Hall _].
  destruct Hsf as (_ & Ho & Hn & Hj & He & _).
  split; [|split; [|split]].
  - intros e Hin. apply Hall. unfold collapseFilters.
    apply elem_of_app. left. by rewrite Ho.
  - intros i fs f Hk Hin. apply Hall. by eapply collapseFilters_keyFilters.
  - intros e Hin. apply Hall. unfold collapseFilters.
    apply elem_of_app. right. apply elem_of_app. right.
    apply elem_of_app. left. by rewrite Hn.
  - intros Hnil Hne join Hin. apply Hall. unfold collapseFilters.
    apply elem_of_app. right. apply elem_of_app. right.
    apply elem_of_app. right.
    rewrite He, Hnil, Hj. rewrite bool_decide_eq_true_2 by done.
    rewrite bool_decide_eq_true_2
      by (destruct (joinOn j); [done|simpl; lia]).
    simpl. by apply list_elem_of_fmap_2.
Qed.

(** ** Key filters in [buildQuery] *)

Arguments attachKeyFilter : simpl never.
Arguments attachKeyFilters_slot : simpl never.
Arguments prepareChild : simpl never.
Arguments MergeNode_buildQuery : simpl never.

(** Every column object stands in the filters of one slot of
    [keyFilters] only: a filter is recorded under the one join-on it
    matches, and each filter has its own column node. *)
Definition slotsDisjoint (kf : gmap nat (list filterTuple)) : Prop :=
  ∀ i i' fs fs' f f',
    kf !! i = Some fs → kf !! i' = Some fs' → f ∈ fs → f' ∈ fs' →
    f_col f = f_col f' → i = i'.

(** The store after some turns of the loops over [keyFilters]: table
    infos are as before, filter sets have grown, and a column that was
    renamed carries a name allowed by [P]. *)
Definition renamed (P : Ptr → ColName → Prop) (h h' : Heap) : Prop :=
  tbInfos h' = tbInfos h
  ∧ (∀ m e, hasFilter h m e → hasFilter h' m e)
  ∧ ∀ c, cols h' !! c = cols h !! c ∨ ∃ cn, cols h' !! c = Some cn ∧ P c cn.

Lemma renamed_refl P h : renamed P h h.
Proof. split; [done|]. split; [done|]. intros c. by left. Qed.

Lemma renamed_trans P h1 h2 h3 :
  renamed P h1 h2 → renamed P h2 h3 → renamed P h1 h3.
Proof.
  intros (Ht1 & Hf1 & Hc1) (Ht2 & Hf2 & Hc2).
  split; [congruence|]. split; [by eauto|]. intros c.
  destruct (Hc2 c) as [Heq|Hp]; [|by right].
  rewrite Heq. apply Hc1.
Qed.

Lemma attachKeyFilter_spec table field tbInfo filter h h' :
  attachKeyFilter table field tbInfo filter h = Some h' →
  ∃ c ti, f_col filter = Some c ∧ tbInfo = Some ti
    ∧ cols h' = <[c := mkColName field table]> (cols h)
    ∧ tbInfos h' = tbInfos h
    ∧ hasFilter h' (tb_parent ti) (f_expr filter)
    ∧ ∀ m e, hasFilter h m e → hasFilter h' m e.
Proof.
  unfold attachKeyFilter. intros Ha.
  destruct (f_col filter) as [c|]; simpl in Ha; [|done].
  destruct (cols h !! c) as [cn0|]; simpl in Ha; [|done].
  destruct tbInfo as [ti|]; simpl in Ha; [|done].
  destruct (merges h !! tb_parent ti) as [mn|] eqn:Em; simpl in Ha; [|done].
  injection Ha as <-.
  exists c, ti. split; [done|]. split; [done|].
  split; [done|]. split; [done|].
  assert (MergeNode_setWhereFilter (tb_parent ti) (f_expr filter)
            (set_col c (mkColName field table) h)
          = Some (set_merge (tb_parent ti)
                    (set_m_filters (<[f_expr filter := 0]> (m_filters mn)) mn)
                    (set_col c (mkColName field table) h))) as Hs.
  { unfold MergeNode_setWhereFilter. simpl. by rewrite Em. }
  apply MergeNode_setWhereFilter_has in Hs as [Hh Hk]. split; [done|].
  intros m0 e0 Hf. apply Hk. exact Hf.
Qed.

Lemma attachKeyFilter_loop P table field tbInfo fs h h' :
  foldM (attachKeyFilter table field tbInfo) fs h = Some h' →
  (∀ f c, f ∈ fs → f_col f = Some c → P c (mkColName field table)) →
  renamed P h h'
  ∧ ∀ f, f ∈ fs →
      ∃ c ti cn, f_col f = Some c ∧ tbInfo = Some ti
        ∧ cols h' !! c = Some cn ∧ P c cn
        ∧ hasFilter h' (tb_parent ti) (f_expr f).
Proof.
  revert h. induction fs as [|f fs IH]; intros h Hf HP; simpl in Hf.
  - simplify_eq. split; [apply renamed_refl|]. intros f Hin. by inversion Hin.
  - dbind Hf.
    destruct (attachKeyFilter_spec _ _ _ _ _ _ E)
      as (c & ti & Hc & Hti & Hcols & Htb & Hhas & Hmono).
    destruct (IH _ Hf) as [Hren Hall].
    { intros f' c' Hin. apply HP. by apply list_elem_of_further. }
    assert (renamed P h h0) as Hren0.
    { split; [done|]. split; [done|]. intros c'. rewrite Hcols.
      destruct (decide (c = c')) as [->|Hne].
      - right. eexists. rewrite lookup_insert_eq. split; [done|].
        eapply HP; [apply list_elem_of_here|done].
      - left. by rewrite lookup_insert_ne. }
    split; [by eapply renamed_trans|].
    intros f' [->|Hin]%elem_of_cons; [|by apply Hall].
    destruct Hren as (_ & Hk & Hcs).
    assert (∃ cn, cols h' !! c = Some cn ∧ P c cn) as (cn & Hcn & Hpc).
    { destruct (Hcs c) as [Heq|Hp]; [|done].
      rewrite Heq, Hcols, lookup_insert_eq. eexists. split; [done|].
      eapply HP; [apply list_elem_of_here|done]. }
    exists c, ti, cn. repeat split; try done. by apply Hk.
Qed.

(** The names [buildQuery] gives to the column of a filter of slot [i]:
    the key of that slot. *)
Definition keyName (keys : list JoinKey)
    (slots : list (nat * list filterTuple)) (c : Ptr) (cn : ColName) : Prop :=
  ∃ i fs f key, (i, fs) ∈ slots ∧ f ∈ fs ∧ f_col f = Some c
                ∧ keys !! i = Some key
                ∧ cn = mkColName (Field key) (Table key).

Lemma attachKeyFilters_loop keys tbs all slots h h' :
  foldM (attachKeyFilters_slot keys tbs) slots h = Some h' →
  slots ⊆ all →
  renamed (keyName keys all) h h'
  ∧ ∀ i fs f, (i, fs) ∈ slots → f ∈ fs →
      ∃ key c ti cn, keys !! i = Some key ∧ f_col f = Some c
        ∧ tableInfo tbs (Table key) h = Some ti
        ∧ cols h' !! c = Some cn ∧ keyName keys all c cn
        ∧ hasFilter h' (tb_parent ti) (f_expr f).
Proof.
  revert h. induction slots as [|[i fs] slots IH]; intros h Hf Hsub;
    simpl in Hf.
  - simplify_eq. split; [apply renamed_refl|]. intros i fs f Hin.
    by inversion Hin.
  - dbind Hf. unfold attachKeyFilters_slot in E. simpl in E. dbind E.
    apply (attachKeyFilter_loop (keyName keys all)) in E as [Hren0 Hall0].
    2:{ intros f c Hin Hc. exists i, fs, f, j. split; [|done].
        apply Hsub, list_elem_of_here. }
    destruct (IH _ Hf) as [Hren Hall].
    { intros x Hx. apply Hsub. by apply list_elem_of_further. }
    split; [by eapply renamed_trans|].
    intros i' fs' f [Heq|Hin]%elem_of_cons Hf'.
    + simplify_eq.
      destruct (Hall0 _ Hf') as (c & ti & cn & Hc & Hti & Hcn & Hp & Hhas).
      destruct Hren as (_ & Hk & Hcs).
      assert (∃ cn', cols h' !! c = Some cn' ∧ keyName keys all c cn')
        as (cn' & Hcn' & Hp').
      { destruct (Hcs c) as [Heq|?]; [|done]. rewrite Heq. eauto. }
      exists j, c, ti, cn'. repeat split; try done. by apply Hk.
    + destruct (Hall _ _ _ Hin Hf')
        as (key & c & ti & cn & Hkey & Hc & Hti & Hcn & Hp & Hhas).
      exists key, c, ti, cn. repeat split; try done.
      destruct Hren0 as (Htb & _). unfold tableInfo in *. by rewrite <- Htb.
Qed.

Lemma setNoTableFilter_renamed P n exprs h n' h' :
  setNoTableFilter n exprs h = Some (n', h') →
  renamed P h h' ∧ cols h' = cols h.
Proof.
  intros Hs. destruct (setNoTableFilter_grow _ _ _ _ _ Hs) as [(Hc & Ht & _) _].
  split; [|done]. split; [done|]. split; [|intros c; left; by rewrite Hc].
  destruct n as [m|j l r]; simpl in Hs; [|by simplify_eq].
  dbind Hs. simplify_eq. unfold MergeNode_setNoTableFilter in E. dbind E.
  by apply foldM_setWhereFilter_has in E as [_ ?].
Qed.

(** What [prepareChild] has done for a filter of slot [i] when the child
    is about to be built. *)
Lemma prepareChild_keyFilter keys j child h child' h' i fs f :
  prepareChild keys j child h = Some (child', h') →
  slotsDisjoint (keyFilters j) →
  keyFilters j !! i = Some fs → f ∈ fs →
  ∃ key c ti,
    keys !! i = Some key ∧ f_col f = Some c
    ∧ tableInfo (j_referredTables j) (Table key) h = Some ti
    ∧ cols h' !! c = Some (mkColName (Field key) (Table key))
    ∧ hasFilter h' (tb_parent ti) (f_expr f)
    ∧ tbInfos h' = tbInfos h.
Proof.
  unfold prepareChild. intros Hp Hdis Hk Hin. dbind Hp. dpairs. dbind Hp.
  simplify_eq. unfold attachKeyFilters in E0.
  destruct (setNoTableFilter_renamed (λ _ _, True) _ _ _ _ _ E)
    as [(Htb0 & _) _].
  apply (attachKeyFilters_loop _ _ (map_to_list (keyFilters j))) in E0
    as [(Htb & _) Hall]; [|done].
  destruct (Hall i fs f) as (key & c & ti & cn & Hkey & Hc & Hti & Hcn & Hp & Hhas);
    [by apply elem_of_map_to_list|done|].
  exists key, c, ti. split; [done|]. split; [done|].
  split; [unfold tableInfo in *; by rewrite <- Htb0|].
  split; [|split; [done|congruence]].
  destruct Hp as (i' & fs' & f' & key' & Hs' & Hf' & Hc' & Hkey' & ->).
  apply elem_of_map_to_list in Hs'.
  assert (i' = i) as ->. { eapply Hdis; eauto. congruence. }
  by simplify_eq.
Qed.

Lemma prepareChild_shape keys j child h child' h' :
  prepareChild keys j child h = Some (child', h') →
  tbInfos h' = tbInfos h
  ∧ match child with
    | Merge m => child' = Merge m
    | Join jc l r => child' = Join (JoinNode_setNoTableFilter (noTableFilter j) jc) l r
    end.
Proof.
  unfold prepareChild. intros Hp. dbind Hp. dpairs. dbind Hp. simplify_eq.
  destruct (setNoTableFilter_renamed (λ _ _, True) _ _ _ _ _ E)
    as [(Htb0 & _) _].
  unfold attachKeyFilters in E0.
  apply (attachKeyFilters_loop _ _ (map_to_list (keyFilters j))) in E0
    as [(Htb & _) _]; [|done].
  split; [congruence|].
  destruct child as [m|jc l r]; simpl in E; [dbind E|]; by simplify_eq.
Qed.

Lemma buildQuery_at_tbInfos t n h n' h' :
  buildQuery_at t n h = Some (n', h') → tbInfos h' = tbInfos h.
Proof.
  revert n h n' h'. induction t as [m|jt tl IHl tr IHr];
    intros n h n' h' Hb; destruct n as [m'|j l r]; simpl in Hb; try done.
  - dbind Hb. simplify_eq. unfold MergeNode_buildQuery in E.
    dbind E. dbind E. dbind E. dbind E. by simplify_eq.
  - dbind Hb. simplify_eq. unfold MergeNode_buildQuery in E.
    dbind E. dbind E. dbind E. dbind E. by simplify_eq.
  - dbind Hb. dpairs. dbind Hb. dpairs. dbind Hb. dpairs. dbind Hb. dpairs.
    simplify_eq.
    apply prepareChild_shape in E as [? _].
    apply prepareChild_shape in E1 as [? _].
    apply IHl in E0. apply IHr in E2. congruence.
Qed.

(** The query a Merge emits holds the rendering, at the time it is
    built, of every expression of its filter set. *)
Lemma MergeNode_buildQuery_where m h h' e :
  MergeNode_buildQuery m h = Some h' → hasFilter h m e →
  ∃ mn q sql, merges h' !! m = Some mn ∧ m_querys mn = [q]
              ∧ Format (cols h) e = Some sql ∧ sql ∈ q_where q.
Proof.
  unfold MergeNode_buildQuery. intros Hb (mn & Hm & [v Hv]).
  rewrite Hm in Hb. simpl in Hb. dbind Hb. dbind Hb. dbind Hb. simplify_eq.
  eexists _, _. unfold set_merge. simpl. rewrite lookup_insert_eq.
  apply mapM_Some in E0.
  assert (e ∈ map fst (map_to_list (m_filters mn))) as Hin.
  { apply (list_elem_of_fmap_2 fst _ (e, v)). by apply elem_of_map_to_list. }
  apply list_elem_of_lookup in Hin as [k Hk].
  destruct (Forall2_lookup_l _ _ _ _ _ E0 Hk) as (sql & Hsql & Hfmt).
  exists sql. split; [done|]. split; [by destruct mn|].
  split; [done|]. simpl. by eapply list_elem_of_lookup_2.
Qed.

Lemma append_assoc (a b c : string) : (a +:+ b) +:+ c = a +:+ b +:+ c.
Proof.
  induction a as [|x a IH]; [done|].
  change (String x ((a +:+ b) +:+ c) = String x (a +:+ b +:+ c)).
  by rewrite IH.
Qed.

Lemma keyFilters_set_Strategy s j : keyFilters (set_Strategy s j) = keyFilters j.
Proof. by destruct j. Qed.

Lemma RightKeys_set_Strategy s j : RightKeys (set_Strategy s j) = RightKeys j.
Proof. by destruct j. Qed.

Lemma j_referredTables_set_Strategy s j :
  j_referredTables (set_Strategy s j) = j_referredTables j.
Proof. by destruct j. Qed.

(** C2: for a filter recorded in [keyFilters] under slot [i],
    [buildQuery] builds the left child in a store where the column of the
    filter is named after the left key of the slot and the expression is in
    the filter set of the Merge that owns the left key's table, and builds
    the right child in a store where the same column is named after the
    right key and the expression is in the filter set of the Merge that
    owns the right key's table.  When the right child is that Merge, the
    query it emits has the filter among its WHERE predicates, rendered on
    the right key: [t2.a = K] for the filter [t1.a = K]. *)
Theorem buildQuery_keyFilter j l r h n' h' i fs f :
  buildQuery (Join j l r) h = Some (n', h') →
  slotsDisjoint (keyFilters j) →
  keyFilters j !! i = Some fs → f ∈ fs →
  let j1 := set_Strategy (chooseStrategy j) j in
  ∃ c lkey rkey lti rti l1 hl l2 h2 r1 hr r2,
    f_col f = Some c
    ∧ LeftKeys j !! i = Some lkey ∧ RightKeys j !! i = Some rkey
    ∧ tableInfo (j_referredTables j) (Table lkey) h = Some lti
    ∧ tableInfo (j_referredTables j) (Table rkey) h = Some rti
    ∧ prepareChild (LeftKeys j1) j1 l h = Some (l1, hl)
    ∧ cols hl !! c = Some (mkColName (Field lkey) (Table lkey))
    ∧ hasFilter hl (tb_parent lti) (f_expr f)
    ∧ buildQuery_at l l1 hl = Some (l2, h2)
    ∧ prepareChild (RightKeys j1) j1 r h2 = Some (r1, hr)
    ∧ cols hr !! c = Some (mkColName (Field rkey) (Table rkey))
    ∧ hasFilter hr (tb_parent rti) (f_expr f)
    ∧ buildQuery_at r r1 hr = Some (r2, h')
    ∧ (r = Merge (tb_parent rti) →
       ∃ mn q sql,
         merges h' !! tb_parent rti = Some mn ∧ m_querys mn = [q]
         ∧ Format (cols hr) (f_expr f) = Some sql ∧ sql ∈ q_where q
         ∧ ∀ K, f_expr f = ComparisonExpr "=" (ColNameE c) (SQLVal K) →
                Table rkey ≠ "" →
                sql = Table rkey +:+ "." +:+ Field rkey +:+ " = " +:+ K).
Proof.
  intros Hb Hdis Hk Hin j1.
  apply buildQuery_Join in Hb.
  destruct Hb as (l1 & hl & l2 & h2 & r1 & hr & r2 & Hpl & Hbl & Hpr & Hbr & ->).
  fold j1 in Hpl, Hpr.
  assert (keyFilters j1 = keyFilters j) as Hkf by apply keyFilters_set_Strategy.
  destruct (prepareChild_keyFilter _ _ _ _ _ _ i fs f Hpl)
    as (lkey & c & lti & Hlk & Hc & Hlti & Hlc & Hlh & Htb1);
    [by rewrite Hkf|by rewrite Hkf|done|].
  destruct (prepareChild_keyFilter _ _ _ _ _ _ i fs f Hpr)
    as (rkey & c' & rti & Hrk & Hc' & Hrti & Hrc & Hrh & Htb3);
    [by rewrite Hkf|by rewrite Hkf|done|].
  assert (c' = c) as -> by congruence.
  pose proof (buildQuery_at_tbInfos _ _ _ _ _ Hbl) as Htb2.
  subst j1. rewrite LeftKeys_set_Strategy in Hlk.
  rewrite RightKeys_set_Strategy in Hrk.
  rewrite j_referredTables_set_Strategy in Hlti, Hrti.
  assert (tableInfo (j_referredTables j) (Table rkey) h = Some rti) as Hrti'.
  { unfold tableInfo in *. by rewrite <- Htb1, <- Htb2. }
  exists c, lkey, rkey, lti, rti, l1, hl, l2, h2, r1, hr, r2.
  repeat (split; [done|]).
  intros ->. apply prepareChild_shape in Hpr as [_ ->]. simpl in Hbr.
  dbind Hbr. simplify_eq.
  destruct (MergeNode_buildQuery_where _ _ _ _ E Hrh)
    as (mn & q & sql & Hm & Hq & Hfmt & Hsql).
  exists mn, q, sql. repeat (split; [done|]).
  intros K HK Hne. rewrite HK in Hfmt. simpl in Hfmt. rewrite Hrc in Hfmt.
  simpl in Hfmt. unfold ColName_String in Hfmt. simpl in Hfmt.
  rewrite decide_False in Hfmt by done. simplify_eq.
  by rewrite !append_assoc.
Qed.

(** ** The recursion of [calcRoute] and [buildQuery] *)

Lemma sameShape_sym n n' : sameShape n n' → sameShape n' n.
Proof.
  revert n'. induction n as [m|j l IHl r IHr]; intros [m'|j' l' r']; simpl;
    try done.
  intros (? & ? & ?). split; [done|]. split; eauto.
Qed.

(** [calcRoute_at] gives the same result along every tree of the shape of
    the node. *)
Lemma calcRoute_at_shape t t' n h :
  sameShape t n → sameShape t' n → calcRoute_at t n h = calcRoute_at t' n h.
Proof.
  revert t' n h. induction t as [m|jt tl IHl tr IHr]; intros t' n h Ht Ht'.
  - destruct n as [m'|]; [|done]. by destruct t'.
  - destruct n as [|j l r]; [done|]. destruct t' as [|jt' tl' tr']; [done|].
    destruct Ht as (_ & Htl & Htr). destruct Ht' as (_ & Htl' & Htr').
    simpl.
    destruct (foldM calcRoute_filter _ _) as [[n1 h1]|] eqn:Ef; simpl; [|done].
    apply calcRoute_filters_shape in Ef as [Hsh _]. simpl in Hsh.
    destruct n1 as [|j1 l1 r1]; [done|]. destruct Hsh as (_ & Hl & Hr).
    rewrite (IHl tl' l1 h1) by (by eapply sameShape_trans).
    destruct (calcRoute_at tl' l1 h1) as [[[l2 [e|]] h2]|]; simpl; try done.
    rewrite (IHr tr' r1 h2) by (by eapply sameShape_trans). done.
Qed.

(** The equation of [calcRoute] on a JoinNode, as the source has it. *)
Lemma calcRoute_unfold j l r h :
  calcRoute (Join j l r) h
  = '(n1, h1) ← foldM calcRoute_filter (tableFilter j) (Join j l r, h);
    match n1 with
    | Merge _ => None
    | Join j1 l1 r1 =>
        '(l2, err, h2) ← calcRoute l1 h1;
        match err with
        | Some e => Some (Join j1 l2 r1, Some e, h2)
        | None =>
            '(r2, err, h3) ← calcRoute r1 h2;
            match err with
            | Some e => Some (Join j1 l2 r2, Some e, h3)
            | None => calcRoute_collapse j1 l2 r2 h3
            end
        end
    end.
Proof.
  unfold calcRoute. simpl.
  destruct (foldM calcRoute_filter _ _) as [[n1 h1]|] eqn:Ef; simpl; [|done].
  apply calcRoute_filters_shape in Ef as [Hsh _]. simpl in Hsh.
  destruct n1 as [|j1 l1 r1]; [done|]. destruct Hsh as (_ & Hl & Hr).
  rewrite (calcRoute_at_shape l l1 l1 h1) by (done || apply sameShape_refl).
  destruct (calcRoute_at l1 l1 h1) as [[[l2 [e|]] h2]|]; simpl; try done.
  rewrite (calcRoute_at_shape r r1 r1 h2) by (done || apply sameShape_refl).
  done.
Qed.

Lemma prepareChild_sameShape keys j child h child' h' :
  prepareChild keys j child h = Some (child', h') → sameShape child child'.
Proof.
  intros Hp. apply prepareChild_shape in Hp as [_ Hc].
  destruct child as [m|jc l r]; subst child'; simpl; [done|].
  split; [by destruct jc|]. split; apply sameShape_refl.
Qed.

(** [buildQuery_at] gives the same result along every tree of the shape
    of the node. *)
Lemma buildQuery_at_shape t t' n h :
  sameShape t n → sameShape t' n → buildQuery_at t n h = buildQuery_at t' n h.
Proof.
  revert t' n h. induction t as [m|jt tl IHl tr IHr]; intros t' n h Ht Ht'.
  - destruct n as [m'|]; [|done]. by destruct t'.
  - destruct n as [|j l r]; [done|]. destruct t' as [|jt' tl' tr']; [done|].
    destruct Ht as (_ & Htl & Htr). destruct Ht' as (_ & Htl' & Htr').
    simpl.
    destruct (prepareChild _ _ l h) as [[l1 h1]|] eqn:E1; simpl; [|done].
    apply prepareChild_sameShape in E1.
    rewrite (IHl tl' l1 h1) by (by eapply sameShape_trans).
    destruct (buildQuery_at tl' l1 h1) as [[l2 h2]|]; simpl; [|done].
    destruct (prepareChild _ _ r h2) as [[r1 h3]|] eqn:E2; simpl; [|done].
    apply prepareChild_sameShape in E2.
    rewrite (IHr tr' r1 h3) by (by eapply sameShape_trans). done.
Qed.

(** The equation of [buildQuery] on a JoinNode, as the source has it. *)
Lemma buildQuery_unfold j l r h :
  buildQuery (Join j l r) h
  = let j1 := set_Strategy (chooseStrategy j) j in
    '(l1, h1) ← prepareChild (LeftKeys j1) j1 l h;
    '(l2, h2) ← buildQuery l1 h1;
    '(r1, h3) ← prepareChild (RightKeys j1) j1 r h2;
    '(r2, h4) ← buildQuery r1 h3;
    Some (Join j1 l2 r2, h4).
Proof.
  unfold buildQuery. simpl.
  destruct (prepareChild _ _ l h) as [[l1 h1]|] eqn:E1; simpl; [|done].
  apply prepareChild_sameShape in E1.
  rewrite (buildQuery_at_shape l l1 l1 h1) by (done || apply sameShape_refl).
  destruct (buildQuery_at l1 l1 h1) as [[l2 h2]|]; simpl; [|done].
  destruct (prepareChild _ _ r h2) as [[r1 h3]|] eqn:E2; simpl; [|done].
  apply prepareChild_sameShape in E2.
  rewrite (buildQuery_at_shape r r1 r1 h3) by (done || apply sameShape_refl).
  done.
Qed.

End Theorems.

(** * The worked plan, evaluated *)

Module Witnesses.
Import Example.
#[local] Existing Instance collaborators.

(** Evaluation of a call whose outcome is named by an equation [E]. *)
Ltac evaluate E := vm_compute in E; try discriminate E.

Definition rightTables : gmap string Ptr := {[ "t2" := 12%nat ]}.

Definition leftTables : gmap string Ptr := {[ "t1" := 11%nat ]}.

(** The plan after [handleJoinOn], with the filter [t1.a = 1] recorded
    under the join-on [t1.a = t2.a]. *)
Definition keyed (kind : string) : JoinNode :=
  set_keyFilters {[ 0%nat := [where_a "1"] ]}
    (set_RightKeys [mkJoinKey "a" "t2" 1]
       (set_LeftKeys [mkJoinKey "a" "t1" 1]
          (newJoinNode 3 (Some (mkJoinTableExpr kind None)) [on_a] tables))).

(** [t2.c = 5], a filter on a column of the right table. *)
Definition where_c : filterTuple :=
  mkFilterTuple (ComparisonExpr "=" (ColNameE 106) (SQLVal "5")) ["t2"]
    (Some 106%nat) (Some "5").

(** [t1.b > t2.b], a predicate across the two sides. *)
Definition cmp_b : Expr := ComparisonExpr ">" (ColNameE 104) (ColNameE 105).

Definition having_b : filterTuple :=
  mkFilterTuple cmp_b ["t1"; "t2"] None None.

Definition one_eq_one : Expr := ComparisonExpr "=" (SQLVal "1") (SQLVal "1").

(** The store of a schema in which both tables are sharded on [id]. *)
Definition heap_id : Heap :=
  mkHeap (cols heap0)
    (list_to_map [(11%nat, mkTableInfo "db" "t1" "id" 1%nat);
                  (12%nat, mkTableInfo "db" "t2" "id" 2%nat)])
    (merges heap0).

(** [from t1, t2 where t1.a = t2.a and t1.a = 1 and t1.b > t2.b and 1 = 1]
    after [pushFilter] and [pushEqualCmpr]. *)
Definition comma : JoinNode :=
  set_noTableFilter [one_eq_one]
    (set_otherFilter [cmp_b]
       (set_tableFilter [where_a "1"] (newJoinNode 3 None [on_a] tables))).

(** [select a from t order by b]. *)
Definition order_b : OrderByPlan :=
  NewOrderByPlan (mkSelect [] [mkOrder (ColNameE 1) "asc"] [] [])
    [mkSelectTuple (AliasedExpr (ColNameE 2) "") "a" ["t"]]
    {[ "t" := 1%nat ]}.

Definition order_cols : gmap Ptr ColName :=
  list_to_map [(1%nat, mkColName "b" ""); (2%nat, mkColName "a" "")].

Definition null_c : nullExpr :=
  mkNullExpr (IsExpr "is null" (ColNameE 106)) ["t2"].

Lemma buildQuery_Strategy_witness :
  ∃ n' h',
    buildQuery (Join (keyed "join") (Merge 1) (Merge 2)) heap0 = Some (n', h')
    ∧ ∃ j' l' r',
        n' = Join j' l' r'
        ∧ LeftKeys j' = LeftKeys (keyed "join")
        ∧ CmpFilter j' = CmpFilter (keyed "join")
        ∧ (Strategy j' = SortMerge ↔ LeftKeys j' ≠ [] ∨ CmpFilter j' ≠ [])
        ∧ (Strategy j' = Cartesian ↔ LeftKeys j' = [] ∧ CmpFilter j' = []).
Proof.
  destruct (buildQuery (Join (keyed "join") (Merge 1) (Merge 2)) heap0)
    as [[n' h']|] eqn:E; [|evaluate E].
  exists n', h'. split; [reflexivity|].
  exact (buildQuery_Strategy _ _ _ _ _ _ E).
Defined.

Lemma keyed_slotsDisjoint kind : slotsDisjoint (keyFilters (keyed kind)).
Proof.
  intros i i' fs fs' f f' Hi Hi' _ _ _.
  change (keyFilters (keyed kind))
    with ({[ 0%nat := [where_a "1"] ]} : gmap nat (list filterTuple)) in Hi, Hi'.
  apply lookup_singleton_Some in Hi as [<- _].
  apply lookup_singleton_Some in Hi' as [<- _]. reflexivity.
Qed.

Lemma buildQuery_keyFilter_witness :
  ∃ n' h' mn q,
    buildQuery (Join (keyed "join") (Merge 1) (Merge 2)) heap0 = Some (n', h')
    ∧ merges h' !! 2%nat = Some mn ∧ m_querys mn = [q]
    ∧ "t2.a = 1" ∈ q_where q.
Proof.
  destruct (buildQuery (Join (keyed "join") (Merge 1) (Merge 2)) heap0)
    as [[n' h']|] eqn:E; [|evaluate E].
  destruct (buildQuery_keyFilter _ _ _ _ _ _ 0%nat [where_a "1"] (where_a "1") E)
    as (c & lkey & rkey & lti & rti & l1 & hl & l2 & h2 & r1 & hr & r2
        & Hc & Hlk & Hrk & Hlti & Hrti & _ & _ & _ & _ & _ & _ & _ & _ & Hq).
  { apply keyed_slotsDisjoint. }
  { reflexivity. }
  { apply list_elem_of_here. }
  vm_compute in Hc. injection Hc as <-.
  vm_compute in Hrk. injection Hrk as <-.
  vm_compute in Hrti. injection Hrti as <-.
  destruct (Hq eq_refl) as (mn & q & sql & Hm & Hmq & _ & Hin & Hsql).
  exists n', h', mn, q. split; [reflexivity|]. split; [exact Hm|].
  split; [exact Hmq|].
  rewrite (Hsql "1" eq_refl) in Hin by discriminate. exact Hin.
Defined.

Lemma pushSelectExprs_Cols_witness :
  ∃ j' h' lfs rfs,
    pushSelectExprs (plan0 "join") select_list [] emptySelect false heap0
      = Some (None, Join j' (Merge 1) (Merge 2), h')
    ∧ Cols j' = [-1; 1]
    ∧ getFields (Merge 1) h' = Some lfs ∧ getFields (Merge 2) h' = Some rfs
    ∧ j_fields j' = select_list
    ∧ length (Cols j') = length (j_fields j')
    ∧ Forall (λ c, c ≠ 0) (Cols j')
    ∧ Forall2 (colOf leftTables rightTables lfs rfs) select_list (Cols j').
Proof.
  destruct (pushSelectExprs (plan0 "join") select_list [] emptySelect false
              heap0) as [[[err n'] h']|] eqn:E; [|evaluate E].
  pose proof E as E'. vm_compute in E'. injection E' as He Hn _.
  destruct err as [e|]; [discriminate He|]. clear He.
  destruct n' as [m|j' l' r']; [discriminate Hn|].
  injection Hn as Hj Hl Hr. subst l' r'.
  assert (Cols j' = [-1; 1]) as Hcols by (by subst j').
  clear Hj.
  destruct (pushSelectExprs_Cols _ _ _ _ _ _ _ _ _ _ _ _ leftTables rightTables E)
    as (lfs & rfs & H1 & H2 & H3 & H4 & H5 & H6);
    [reflexivity|reflexivity|reflexivity|reflexivity|].
  exists j', h', lfs, rfs. repeat (split; [assumption || reflexivity|]).
  exact H6.
Defined.

Lemma calcRoute_collapses_witness :
  ∃ res h' mp,
    calcRoute (Join comma (Merge 1) (Merge 2)) heap_id = Some (res, None, h')
    ∧ res = Merge mp
    ∧ hasFilter h' mp cmp_b
    ∧ hasFilter h' mp (f_expr (where_a "1"))
    ∧ hasFilter h' mp one_eq_one
    ∧ hasFilter h' mp (jt_expr on_a).
Proof.
  destruct (calcRoute (Join comma (Merge 1) (Merge 2)) heap_id)
    as [[[res err] h']|] eqn:E; [|evaluate E].
  pose proof E as E'. vm_compute in E'. injection E' as _ He _.
  destruct err as [e|]; [discriminate He|]. clear He.
  destruct (calcRoute_children (Join comma (Merge 1) (Merge 2)) heap_id)
    as [[[[[j1 l2] r2] err] h1]|] eqn:Ec; [|evaluate Ec].
  pose proof Ec as Ec'. vm_compute in Ec'. injection Ec' as Hj Hl Hr He Hh.
  subst l2 r2 err.
  destruct (merges h1 !! 1%nat) as [lmn|] eqn:El;
    [|subst h1; evaluate El].
  destruct (merges h1 !! 2%nat) as [rmn|] eqn:Er;
    [|subst h1; evaluate Er].
  assert (m_backend lmn ≠ "" ∧ m_backend lmn = m_backend rmn) as Hsame.
  { clear -Hh El Er. subst h1. vm_compute in El, Er.
    injection El as <-. injection Er as <-. split; [discriminate|reflexivity]. }
  assert (keyFilters j1 !! 0%nat = Some [where_a "1"]) as Hk.
  { clear -Hj. subst j1. vm_compute. reflexivity. }
  clear Hj Hh.
  destruct (calcRoute_collapses _ _ _ _ _ _ _ _ _ _ _ _ E Ec El Er
              (or_introl Hsame))
    as (_ & mp & Hres & Ho & Hkf & Hn & Hjo).
  exists res, h', mp. split; [reflexivity|]. split; [exact Hres|].
  split; [apply Ho, list_elem_of_here|].
  split; [exact (Hkf 0%nat _ _ Hk (list_elem_of_here _ _))|].
  split; [apply Hn, list_elem_of_here|].
  apply Hjo; [reflexivity|discriminate|apply list_elem_of_here].
Defined.

Lemma pushFilter_HasRightFilter_witness :
  ∃ j' h',
    pushFilter (plan0 "left join") [where_c] heap0
      = Some (None, Join j' (Merge 1) (Merge 2), h')
    ∧ HasRightFilter j' = true.
Proof.
  destruct (pushFilter (plan0 "left join") [where_c] heap0)
    as [[[err n'] h']|] eqn:E; [|evaluate E].
  pose proof E as E'. vm_compute in E'. injection E' as He Hn _.
  destruct err as [e|]; [discriminate He|]. clear He.
  destruct n' as [m|j' l' r']; [discriminate Hn|].
  injection Hn as _ Hl Hr. subst l' r'.
  exists j', h'. split; [reflexivity|].
  apply (pushFilter_HasRightFilter _ _ _ _ _ _ _ _ _ rightTables where_c "t2" E).
  - reflexivity.
  - reflexivity.
  - apply list_elem_of_here.
  - apply list_elem_of_here.
  - vm_compute. eexists. reflexivity.
  - reflexivity.
Defined.

(** C8 as it is stated fails: [t2.c is null] refers to the right table
    of a left join, and after [pushFilter] has gone through the list
    [HasRightFilter] is still unset. *)
Lemma pushFilter_HasRightFilter_counterexample :
  IsLeftJoin (newJoinNode 3 (Some (mkJoinTableExpr "left join" None))
                [on_a] tables) = true
  ∧ getReferredTables (Merge 2) heap0 = Some rightTables
  ∧ isnull_c ∈ [isnull_c] ∧ "t2" ∈ f_referTables isnull_c
  ∧ is_Some (rightTables !! "t2")
  ∧ ∃ j' h',
      pushFilter (plan0 "left join") [isnull_c] heap0
        = Some (None, Join j' (Merge 1) (Merge 2), h')
      ∧ HasRightFilter j' = false.
Proof.
  split; [reflexivity|]. split; [reflexivity|].
  split; [apply list_elem_of_here|]. split; [apply list_elem_of_here|].
  split; [vm_compute; eexists; reflexivity|].
  eexists (set_rightNull [null_c]
             (newJoinNode 3 (Some (mkJoinTableExpr "left join" None))
                [on_a] tables)), heap0.
  split; [vm_compute; reflexivity|reflexivity].
Qed.

Lemma passError_enumerated_witness :
  plannerError "unsupported: cross-shard.query.with.aggregates".
Proof.
  apply passError_enumerated.
  apply (pass_pushSelectExprs (plan0 "join") select_list [] emptySelect true
           heap0 _ (plan0 "join") heap0).
  reflexivity.
Defined.

(** C6 as it is stated fails: [pushHaving] returns an error whose reason
    is none of the six. *)
Lemma passError_counterexample :
  passError "unsupported: havings.'t1.b > t2.b'.in.cross-shard.join"
  ∧ ¬ specError "unsupported: havings.'t1.b > t2.b'.in.cross-shard.join".
Proof.
  split.
  - apply (pass_pushHaving (plan0 "join") [having_b] heap0 _ heap0).
    vm_compute. reflexivity.
  - intros Hs.
    inversion Hs as [He|sql He|sql He|sql He|field He|table field He];
      cbv in He; discriminate He.
Qed.

Lemma OrderByPlan_Build_errors_witness :
  ∃ p', OrderByPlan_Build order_cols order_b
        = Some (Some "unsupported: orderby[b].should.in.select.list", p').
Proof.
  exact (proj1 (proj2 (OrderByPlan_Build_errors order_cols order_b))
           [] (mkOrder (ColNameE 1) "asc") [] 1%nat (mkColName "b" "")
           eq_refl (Forall_nil_2 _) eq_refl eq_refl (or_introl eq_refl)
           eq_refl).
Defined.

(** C7 fails on the code: the Route Oracle rejects the literal ['x'] for
    [t2], [buildKeyFilter] binds the index it returned with the error to
    the Merge of [t2], and [calcRoute] goes on and returns no error. *)
Theorem calcRoute_drops_GetIndex_error :
  GetIndex "db" "t2" "'x'" = (0, Some "hash.unsupported.key.type")
  ∧ ∃ n h n' h' mn,
      pushFilter (plan0 "join") [where_a "'x'"] heap0 = Some (None, n, h)
      ∧ m_index <$> merges h !! 2%nat = Some (-1)
      ∧ calcRoute n h = Some (n', None, h')
      ∧ merges h' !! 2%nat = Some mn ∧ m_index mn = 0.
Proof.
  split; [reflexivity|].
  destruct (pushFilter (plan0 "join") [where_a "'x'"] heap0)
    as [[[err n] h]|] eqn:E; [|evaluate E].
  pose proof E as E'. vm_compute in E'. injection E' as He Hn Hh.
  destruct err as [e|]; [discriminate He|]. clear He E.
  destruct (calcRoute n h) as [[[n' err] h']|] eqn:Ec;
    [|rewrite <- Hn, <- Hh in Ec; evaluate Ec].
  pose proof Ec as Ec'. rewrite <- Hn, <- Hh in Ec'. vm_compute in Ec'.
  injection Ec' as _ He Hh'.
  destruct err as [e|]; [discriminate He|]. clear He.
  destruct (merges h' !! 2%nat) as [mn|] eqn:Em;
    [|rewrite <- Hh' in Em; evaluate Em].
  exists n, h, n', h', mn. split; [reflexivity|].
  split; [rewrite <- Hh; vm_compute; reflexivity|]. split; [exact Ec|].
  split; [exact Em|].
  rewrite <- Hh' in Em. vm_compute in Em. injection Em as <-. reflexivity.
Qed.

End Witnesses.

(** * The plan tree: [findLCA], [getOneTableInfo], [GetQuery], [setOtherJoin] *)

(** The nodes of a plan tree: the node itself, then the nodes of its left
    and of its right subtree. *)
Fixpoint nodes (n : PlanNode) : list PlanNode :=
  n :: match n with
       | Merge _ => []
       | Join _ Left Right => nodes Left ++ nodes Right
       end.

(** The interface values of the nodes of a tree. *)
Definition refs (n : PlanNode) : list NodeRef := ref <$> nodes n.

(** The Merge leaves of a tree, from left to right. *)
Fixpoint leaves (n : PlanNode) : list Ptr :=
  match n with
  | Merge m => [m]
  | Join _ Left Right => leaves Left ++ leaves Right
  end.

(** [getOneTableInfo(tbInfos)] of plan_node.go: the first entry that the
    [range] over the map yields, or the empty name and nil.  Go does not
    fix the order of a [range] over a map; the order taken here is the one
    of [map_to_list]. *)
Definition getOneTableInfo (tbInfos : gmap string Ptr) : string * option Ptr :=
  match map_to_list tbInfos with
  | (tb, tbInfo) :: _ => (tb, Some tbInfo)
  | [] => ("", None)
  end.

(** Modelled from the spec: [MergeNode.GetQuery], in merge_node.go.
    Sections 2 and 4.1.8: a Merge emits the query tuples that its
    [buildQuery] has built, which [GetQuery] returns. *)
Definition MergeNode_GetQuery (m : Ptr) (h : Heap) : option (list QueryTuple) :=
  m_querys <$> merges h !! m.

(** [func (j *JoinNode) GetQuery() []xcontext.QueryTuple], and
    [MergeNode.GetQuery] on a Merge. *)
Fixpoint GetQuery (n : PlanNode) (h : Heap) : option (list QueryTuple) :=
  match n with
  | Merge m => MergeNode_GetQuery m h
  | Join _ Left Right =>
      querys ← GetQuery Left h;
      rquerys ← GetQuery Right h;
      Some (querys ++ rquerys)
  end.

Definition set_otherJoinOn (v : option otherJoin) (j : JoinNode) : JoinNode :=
  let 'mkJoinNode a0 a1 a2 a3 a4 a5 a6 a7 a8 a9 a10 a11 a12 a13 a14 a15 a16
        a17 _ a19 a20 a21 a22 a23 a24 := j in
  mkJoinNode a0 a1 a2 a3 a4 a5 a6 a7 a8 a9 a10 a11 a12 a13 a14 a15 a16
    a17 v a19 a20 a21 a22 a23 a24.

(** The body of the loop of [setOtherJoin] for one filter of the ON
    clause: the four lists of [j.otherJoinOn] and the counter [i]. *)
Definition setOtherJoin_step (Left Right : PlanNode) (h : Heap)
    (filter : filterTuple) (s : otherJoin * Z) : option (otherJoin * Z) :=
  let '(oj, i) := s in
  if bool_decide (length (f_referTables filter) = 0%nat) then
    Some (mkOtherJoin (oj_noTables oj ++ [f_expr filter]) (oj_others oj)
            (oj_left oj) (oj_right oj), i)
  else
    ltbs ← getReferredTables Left h;
    if checkTbInNode (f_referTables filter) ltbs then
      let alias := "tmpc_" +:+ pretty i in
      let field := mkSelectTuple (AliasedExpr (f_expr filter) alias) alias
                     (f_referTables filter) in
      Some (mkOtherJoin (oj_noTables oj) (oj_others oj)
              (oj_left oj ++ [field]) (oj_right oj), i + 1)
    else
      rtbs ← getReferredTables Right h;
      if checkTbInNode (f_referTables filter) rtbs then
        Some (mkOtherJoin (oj_noTables oj) (oj_others oj) (oj_left oj)
                (oj_right oj ++ [filter]), i)
      else
        Some (mkOtherJoin (oj_noTables oj) (oj_others oj ++ [f_expr filter])
                (oj_left oj) (oj_right oj), i).

(** [func (j *JoinNode) setOtherJoin(filters []filterTuple)]. *)
Definition setOtherJoin (n : PlanNode) (filters : list filterTuple) (h : Heap)
  : option PlanNode :=
  match n with
  | Merge _ => None
  | Join j Left Right =>
      '(oj, _) ← foldM (setOtherJoin_step Left Right h) filters
                   (mkOtherJoin [] [] [] [], 0);
      Some (Join (set_otherJoinOn (Some oj) j) Left Right)
  end.

(** ** [findLCA] *)

Lemma nodes_self n : n ∈ nodes n.
Proof. destruct n; simpl; apply list_elem_of_here. Qed.

Lemma refs_self n : ref n ∈ refs n.
Proof. apply list_elem_of_fmap. exists n. split; [done|apply nodes_self]. Qed.

Lemma refs_Join j l r a :
  a ∈ refs (Join j l r) ↔ a = JoinRef (self j) ∨ a ∈ refs l ∨ a ∈ refs r.
Proof.
  unfold refs. simpl. rewrite elem_of_cons, fmap_app, elem_of_app.
  done.
Qed.

Lemma refs_Merge m a : a ∈ refs (Merge m) ↔ a = MergeRef m.
Proof.
  unfold refs. simpl. rewrite elem_of_cons. split; [|by left].
  intros [?|H]; [done|]. by apply elem_of_nil in H.
Qed.

Lemma nodes_below n t : n ∈ nodes t → refs n ⊆ refs t.
Proof.
  induction t as [m|j l IHl r IHr]; simpl.
  - intros H. apply elem_of_cons in H as [->|H]; [done|].
    by apply elem_of_nil in H.
  - intros H. apply elem_of_cons in H as [->|H]; [done|].
    apply elem_of_app in H. intros a Ha. apply refs_Join. right.
    destruct H as [H|H]; [left; by apply (IHl H)|right; by apply (IHr H)].
Qed.

Lemma findLCA_nil h p1 p2 :
  findLCA h p1 p2 = None
  ↔ ∀ a, a ∈ refs h → p1 ≠ Some a ∧ p2 ≠ Some a.
Proof.
  induction h as [m|j l IHl r IHr]; simpl.
  - destruct (bool_decide (p1 = Some (MergeRef m))) eqn:E1; simpl.
    + apply bool_decide_eq_true in E1. split; [done|]. intros H.
      destruct (H (MergeRef m)) as [H1 _]; [by apply refs_Merge|done].
    + apply bool_decide_eq_false in E1.
      destruct (bool_decide (p2 = Some (MergeRef m))) eqn:E2.
      * apply bool_decide_eq_true in E2. split; [done|]. intros H.
        destruct (H (MergeRef m)) as [_ H2]; [by apply refs_Merge|done].
      * apply bool_decide_eq_false in E2. split; [|done].
        intros _ a Ha. apply refs_Merge in Ha as ->. done.
  - destruct (bool_decide (p1 = Some (JoinRef (self j)))) eqn:E1; simpl.
    { apply bool_decide_eq_true in E1. split; [done|]. intros H.
      destruct (H (JoinRef (self j))) as [H1 _]; [|done].
      apply refs_Join. by left. }
    apply bool_decide_eq_false in E1.
    destruct (bool_decide (p2 = Some (JoinRef (self j)))) eqn:E2.
    { apply bool_decide_eq_true in E2. split; [done|]. intros H.
      destruct (H (JoinRef (self j))) as [_ H2]; [|done].
      apply refs_Join. by left. }
    apply bool_decide_eq_false in E2.
    destruct (findLCA l p1 p2) as [pl|] eqn:El.
    + assert (Hl : ¬ ∀ a, a ∈ refs l → p1 ≠ Some a ∧ p2 ≠ Some a).
      { intros H. by apply IHl in H. }
      split.
      * destruct (findLCA r p1 p2); discriminate.
      * intros H. exfalso. apply Hl. intros a Ha. apply H, refs_Join. auto.
    + destruct IHl as [IHl _]. specialize (IHl eq_refl).
      rewrite IHr. split.
      * intros Hr a Ha. apply refs_Join in Ha as [->|[Ha|Ha]]; auto.
      * intros H a Ha. apply H, refs_Join. auto.
Qed.

Lemma findLCA_swap h p1 p2 : findLCA h p1 p2 = findLCA h p2 p1.
Proof.
  induction h as [m|j l IHl r IHr]; simpl.
  - by rewrite orb_comm.
  - rewrite orb_comm, IHl, IHr. done.
Qed.

(** X1: [findLCA] returns nil exactly when neither of the two nodes is
    a node of the tree: one of them alone is enough for a result. *)
Theorem findLCA_None h p1 p2 :
  findLCA h p1 p2 = None
  ↔ ∀ a, a ∈ refs h → p1 ≠ Some a ∧ p2 ≠ Some a.
Proof. apply findLCA_nil. Qed.

(** X2: The result of [findLCA] does not depend on the order of the two
    nodes. *)
Theorem findLCA_comm h p1 p2 : findLCA h p1 p2 = findLCA h p2 p1.
Proof. apply findLCA_swap. Qed.

(** X3: A result of [findLCA] on two nodes of the tree is a common
    ancestor: a node of the tree with both of them in its subtree. *)
Theorem findLCA_ancestor h a b c :
  findLCA h (Some a) (Some b) = Some c →
  a ∈ refs h → b ∈ refs h →
  ∃ n, n ∈ nodes h ∧ ref n = c ∧ a ∈ refs n ∧ b ∈ refs n.
Proof.
  induction h as [m|j l IHl r IHr]; simpl.
  - intros H Ha Hb. apply refs_Merge in Ha as ->. apply refs_Merge in Hb as ->.
    rewrite bool_decide_eq_true_2 in H by done. simpl in H.
    injection H as <-. exists (Merge m).
    split; [apply nodes_self|]. split; [done|].
    split; by apply refs_Merge.
  - intros H Ha Hb.
    assert (Htop : ∃ n, n ∈ nodes (Join j l r) ∧ ref n = JoinRef (self j)
                       ∧ a ∈ refs n ∧ b ∈ refs n).
    { exists (Join j l r). split; [apply nodes_self|]. done. }
    destruct (bool_decide (Some a = Some (JoinRef (self j)))
              || bool_decide (Some b = Some (JoinRef (self j)))) eqn:E.
    { simpl in H. injection H as <-. exact Htop. }
    simpl in H. apply orb_false_iff in E as [E1 E2].
    apply bool_decide_eq_false in E1. apply bool_decide_eq_false in E2.
    assert (Hsub : ∀ t n, n ∈ nodes t → (t = l ∨ t = r) →
                          n ∈ nodes (Join j l r)).
    { intros t n Hn Ht. simpl. apply elem_of_cons. right.
      apply elem_of_app. destruct Ht as [->| ->]; auto. }
    destruct (findLCA l (Some a) (Some b)) as [pl|] eqn:El;
      destruct (findLCA r (Some a) (Some b)) as [pr|] eqn:Er.
    + injection H as <-. exact Htop.
    + injection H as <-.
      pose proof (proj1 (findLCA_nil r (Some a) (Some b)) Er) as Hr.
      assert (Ha' : a ∈ refs l).
      { apply refs_Join in Ha as [->|[Ha|Ha]]; [done|done|].
        destruct (Hr a Ha) as [? _]. done. }
      assert (Hb' : b ∈ refs l).
      { apply refs_Join in Hb as [->|[Hb|Hb]]; [done|done|].
        destruct (Hr b Hb) as [_ ?]. done. }
      destruct (IHl eq_refl Ha' Hb') as (n & Hn & Hc & Hna & Hnb).
      exists n. split; [apply (Hsub l); auto|done].
    + injection H as <-.
      pose proof (proj1 (findLCA_nil l (Some a) (Some b)) El) as Hl.
      assert (Ha' : a ∈ refs r).
      { apply refs_Join in Ha as [->|[Ha|Ha]]; [done| |done].
        destruct (Hl a Ha) as [? _]. done. }
      assert (Hb' : b ∈ refs r).
      { apply refs_Join in Hb as [->|[Hb|Hb]]; [done| |done].
        destruct (Hl b Hb) as [_ ?]. done. }
      destruct (IHr eq_refl Ha' Hb') as (n & Hn & Hc & Hna & Hnb).
      exists n. split; [apply (Hsub r); auto|done].
    + discriminate.
Qed.

Lemma findLCA_in h p1 p2 c : findLCA h p1 p2 = Some c → c ∈ refs h.
Proof.
  revert c. induction h as [m|j l IHl r IHr]; simpl; intros c.
  - destruct (_ || _); [|done]. intros [= <-]. by apply refs_Merge.
  - destruct (_ || _).
    { intros [= <-]. apply refs_Join. by left. }
    destruct (findLCA l p1 p2) as [pl|]; destruct (findLCA r p1 p2) as [pr|];
      intros [= <-]; apply refs_Join; auto.
Qed.

(** X4: In a tree whose nodes are distinct, the result of [findLCA] on
    two nodes of the tree is the lowest common ancestor: it lies in the
    subtree of every node that has both of them below it. *)
Theorem findLCA_lowest h a b c :
  findLCA h (Some a) (Some b) = Some c →
  NoDup (refs h) → a ∈ refs h → b ∈ refs h →
  ∀ n, n ∈ nodes h → a ∈ refs n → b ∈ refs n → c ∈ refs n.
Proof.
  induction h as [m|j l IHl r IHr].
  - intros H _ Ha Hb n Hn Hna Hnb. simpl in Hn.
    apply elem_of_cons in Hn as [->|Hn]; [|by apply elem_of_nil in Hn].
    by apply findLCA_in in H.
  - intros H Hnd Ha Hb n Hn Hna Hnb.
    simpl in Hn. apply elem_of_cons in Hn as [->|Hn].
    { by apply findLCA_in in H. }
    unfold refs in Hnd. simpl in Hnd. rewrite fmap_app in Hnd.
    apply NoDup_cons in Hnd as [Hself Hnd].
    apply NoDup_app in Hnd as (Hndl & Hdis & Hndr).
    assert (Hin : ∀ x, x ∈ refs n → x ∈ refs l ∨ x ∈ refs r).
    { intros x Hx. apply elem_of_app in Hn as [Hn|Hn];
        [left|right]; by apply (nodes_below _ _ Hn). }
    assert (Hx : ∀ x, x ∈ refs n → Some x ≠ Some (JoinRef (self j))).
    { intros x Hx [= ->]. apply Hself, elem_of_app. by apply Hin. }
    simpl in H.
    rewrite (bool_decide_eq_false_2 _ (Hx a Hna)) in H.
    rewrite (bool_decide_eq_false_2 _ (Hx b Hnb)) in H. simpl in H.
    apply elem_of_app in Hn as [Hn|Hn].
    + pose proof (nodes_below _ _ Hn) as Hsub.
      assert (Er : findLCA r (Some a) (Some b) = None).
      { apply findLCA_nil. intros x Hxr. split; intros [= <-].
        - by apply (Hdis a (Hsub _ Hna)).
        - by apply (Hdis b (Hsub _ Hnb)). }
      rewrite Er in H.
      destruct (findLCA l (Some a) (Some b)) as [pl|] eqn:El; [|done].
      injection H as ->.
      apply (IHl eq_refl Hndl (Hsub _ Hna) (Hsub _ Hnb) n Hn Hna Hnb).
    + pose proof (nodes_below _ _ Hn) as Hsub.
      assert (El : findLCA l (Some a) (Some b) = None).
      { apply findLCA_nil. intros x Hxl. split; intros [= <-].
        - by apply (Hdis a Hxl), Hsub.
        - by apply (Hdis b Hxl), Hsub. }
      rewrite El in H.
      apply (IHr H Hndr (Hsub _ Hna) (Hsub _ Hnb) n Hn Hna Hnb).
Qed.

(** The LCA of a node of the left subtree and a node of the right subtree
    is the JoinNode itself. *)
Lemma findLCA_split j l r a b :
  a ∈ refs l → b ∈ refs r →
  findLCA (Join j l r) (Some a) (Some b) = Some (JoinRef (self j)).
Proof.
  intros Ha Hb. simpl. destruct (_ || _); [done|].
  destruct (findLCA l (Some a) (Some b)) as [pl|] eqn:El.
  - destruct (findLCA r (Some a) (Some b)) as [pr|] eqn:Er; [done|].
    pose proof (proj1 (findLCA_nil _ _ _) Er) as Hr.
    by destruct (Hr b Hb) as [_ ?].
  - pose proof (proj1 (findLCA_nil _ _ _) El) as Hl.
    by destruct (Hl a Ha) as [? _].
Qed.

(** ** [getOneTableInfo] *)

(** X5: On an empty map [getOneTableInfo] returns the empty name and
    nil; on any other map it returns a table with the info that the map
    holds for it. *)
Theorem getOneTableInfo_entry tbInfos :
  (tbInfos = ∅ → getOneTableInfo tbInfos = ("", None))
  ∧ (tbInfos ≠ ∅ →
     ∃ tb tbInfo, getOneTableInfo tbInfos = (tb, Some tbInfo)
                  ∧ tbInfos !! tb = Some tbInfo).
Proof.
  unfold getOneTableInfo.
  destruct (map_to_list tbInfos) as [|[tb0 p0] rest] eqn:E.
  - apply map_to_list_empty_iff in E as ->. done.
  - split.
    + intros ->. by rewrite map_to_list_empty in E.
    + intros _. exists tb0, p0. split; [done|].
      apply elem_of_map_to_list. rewrite E. apply list_elem_of_here.
Qed.

(** ** [GetQuery] *)

(** X6: [GetQuery] returns the query tuples of the Merge leaves, those
    of the left subtree before those of the right subtree. *)
Theorem GetQuery_leaves n h qs :
  GetQuery n h = Some qs
  ↔ ∃ qss, Forall2 (λ m q, MergeNode_GetQuery m h = Some q) (leaves n) qss
           ∧ qs = concat qss.
Proof.
  revert qs. induction n as [m|j l IHl r IHr]; intros qs; simpl.
  - split.
    + intros H. exists [qs]. split; [by repeat constructor|].
      simpl. by rewrite app_nil_r.
    + intros (qss & H & ->). apply Forall2_cons_inv_l in H as (q & t & Hq & Ht & ->).
      apply Forall2_nil_inv_l in Ht as ->. simpl. by rewrite app_nil_r.
  - split.
    + intros H. destruct (GetQuery l h) as [ql|] eqn:El; [|done]. simpl in H.
      destruct (GetQuery r h) as [qr|] eqn:Er; [|done]. simpl in H.
      injection H as <-.
      destruct (proj1 (IHl ql) eq_refl) as (qsl & Hl & ->).
      destruct (proj1 (IHr qr) eq_refl) as (qsr & Hr & ->).
      exists (qsl ++ qsr). split; [by apply Forall2_app|].
      by rewrite concat_app.
    + intros (qss & H & ->).
      apply Forall2_app_inv_l in H as (qsl & qsr & Hl & Hr & ->).
      rewrite (proj2 (IHl (concat qsl))) by eauto. simpl.
      rewrite (proj2 (IHr (concat qsr))) by eauto. simpl.
      by rewrite concat_app.
Qed.

(** ** [setOtherJoin] *)

(** The four kinds of filters of an ON clause, by the tests of the loop of
    [setOtherJoin] in their order. *)
Definition inNoTables (f : filterTuple) : bool :=
  bool_decide (length (f_referTables f) = 0%nat).

Definition inLeft (ltbs : gmap string Ptr) (f : filterTuple) : bool :=
  negb (inNoTables f) && checkTbInNode (f_referTables f) ltbs.

Definition inRight (ltbs rtbs : gmap string Ptr) (f : filterTuple) : bool :=
  negb (inNoTables f) && negb (checkTbInNode (f_referTables f) ltbs)
  && checkTbInNode (f_referTables f) rtbs.

Definition inOthers (ltbs rtbs : gmap string Ptr) (f : filterTuple) : bool :=
  negb (inNoTables f) && negb (checkTbInNode (f_referTables f) ltbs)
  && negb (checkTbInNode (f_referTables f) rtbs).

(** The projection made of the [i]-th filter that belongs to the left
    child. *)
Definition tmpc (i : nat) (f : filterTuple) : selectTuple :=
  mkSelectTuple (AliasedExpr (f_expr f) ("tmpc_" +:+ pretty (Z.of_nat i)))
    ("tmpc_" +:+ pretty (Z.of_nat i)) (f_referTables f).

Lemma setOtherJoin_step_eq l r h ltbs rtbs f oj i :
  getReferredTables l h = Some ltbs → getReferredTables r h = Some rtbs →
  setOtherJoin_step l r h f (oj, i)
  = Some (if inNoTables f then
            (mkOtherJoin (oj_noTables oj ++ [f_expr f]) (oj_others oj)
               (oj_left oj) (oj_right oj), i)
          else if inLeft ltbs f then
            (mkOtherJoin (oj_noTables oj) (oj_others oj)
               (oj_left oj
                ++ [mkSelectTuple
                      (AliasedExpr (f_expr f) ("tmpc_" +:+ pretty i))
                      ("tmpc_" +:+ pretty i) (f_referTables f)])
               (oj_right oj), i + 1)
          else if inRight ltbs rtbs f then
            (mkOtherJoin (oj_noTables oj) (oj_others oj) (oj_left oj)
               (oj_right oj ++ [f]), i)
          else
            (mkOtherJoin (oj_noTables oj) (oj_others oj ++ [f_expr f])
               (oj_left oj) (oj_right oj), i)).
Proof.
  intros Hl Hr. unfold setOtherJoin_step, inLeft, inRight, inNoTables.
  destruct (bool_decide (length (f_referTables f) = 0%nat)); [done|].
  rewrite Hl. simpl.
  destruct (checkTbInNode (f_referTables f) ltbs); [done|].
  rewrite Hr. simpl.
  destruct (checkTbInNode (f_referTables f) rtbs); done.
Qed.

Lemma setOtherJoin_loop l r h ltbs rtbs fs oj :
  getReferredTables l h = Some ltbs → getReferredTables r h = Some rtbs →
  foldM (setOtherJoin_step l r h) fs (oj, Z.of_nat (length (oj_left oj)))
  = Some (mkOtherJoin
            (oj_noTables oj ++ (f_expr <$> List.filter inNoTables fs))
            (oj_others oj ++ (f_expr <$> List.filter (inOthers ltbs rtbs) fs))
            (oj_left oj
             ++ imap (λ k, tmpc (length (oj_left oj) + k))
                  (List.filter (inLeft ltbs) fs))
            (oj_right oj ++ List.filter (inRight ltbs rtbs) fs),
          Z.of_nat (length (oj_left oj)
                    + length (List.filter (inLeft ltbs) fs))).
Proof.
  intros Hl Hr. revert oj. induction fs as [|f fs IH]; intros oj.
  - simpl. rewrite !app_nil_r, Nat.add_0_r. by destruct oj.
  - cbn [foldM]. rewrite (setOtherJoin_step_eq l r h ltbs rtbs) by done.
    cbn [mbind option_bind List.filter].
    change (inLeft ltbs f)
      with (negb (inNoTables f) && checkTbInNode (f_referTables f) ltbs).
    change (inRight ltbs rtbs f)
      with (negb (inNoTables f) && negb (checkTbInNode (f_referTables f) ltbs)
            && checkTbInNode (f_referTables f) rtbs).
    change (inOthers ltbs rtbs f)
      with (negb (inNoTables f) && negb (checkTbInNode (f_referTables f) ltbs)
            && negb (checkTbInNode (f_referTables f) rtbs)).
    destruct (inNoTables f) eqn:E0; cbn [negb andb].
    { specialize (IH (mkOtherJoin (oj_noTables oj ++ [f_expr f]) (oj_others oj)
                        (oj_left oj) (oj_right oj))).
      cbn [oj_left oj_noTables oj_others oj_right] in IH. rewrite IH.
      rewrite fmap_cons, <- app_assoc. done. }
    destruct (checkTbInNode (f_referTables f) ltbs) eqn:EL; cbn [negb andb].
    { specialize (IH (mkOtherJoin (oj_noTables oj) (oj_others oj)
                        (oj_left oj ++ [tmpc (length (oj_left oj)) f])
                        (oj_right oj))).
      cbn [oj_left oj_noTables oj_others oj_right] in IH.
      rewrite length_app in IH. simpl in IH.
      replace (Z.of_nat (length (oj_left oj)) + 1)
        with (Z.of_nat (length (oj_left oj) + 1)) by lia.
      unfold tmpc at 1 in IH. rewrite IH. clear IH.
      rewrite imap_cons, <- app_assoc. simpl.
      rewrite Nat.add_0_r.
      rewrite (imap_ext _ ((λ k, tmpc (length (oj_left oj) + k)) ∘ S)).
      2: { intros k x _. simpl.
           by replace (length (oj_left oj) + 1 + k)%nat
             with (length (oj_left oj) + S k)%nat by lia. }
      by replace (length (oj_left oj) + 1
                  + length (List.filter (inLeft ltbs) fs))%nat
        with (length (oj_left oj)
              + S (length (List.filter (inLeft ltbs) fs)))%nat by lia. }
    destruct (checkTbInNode (f_referTables f) rtbs) eqn:ER; cbn [negb andb].
    { specialize (IH (mkOtherJoin (oj_noTables oj) (oj_others oj)
                        (oj_left oj) (oj_right oj ++ [f]))).
      cbn [oj_left oj_noTables oj_others oj_right] in IH. rewrite IH.
      rewrite <- app_assoc. done. }
    specialize (IH (mkOtherJoin (oj_noTables oj) (oj_others oj ++ [f_expr f])
                      (oj_left oj) (oj_right oj))).
    cbn [oj_left oj_noTables oj_others oj_right] in IH. rewrite IH.
    rewrite fmap_cons, <- app_assoc. done.
Qed.

(** X7: [setOtherJoin] puts every filter of the ON clause in exactly one
    of the four lists of [otherJoinOn], in the order of the clause: no
    tables, left child only (as a projection aliased [tmpc_k], [k]
    counting the left-only filters from 0), right child only, and the
    rest. *)
Theorem setOtherJoin_partition j l r fs h ltbs rtbs :
  getReferredTables l h = Some ltbs → getReferredTables r h = Some rtbs →
  setOtherJoin (Join j l r) fs h
  = Some (Join (set_otherJoinOn
                  (Some (mkOtherJoin
                           (f_expr <$> List.filter inNoTables fs)
                           (f_expr <$> List.filter (inOthers ltbs rtbs) fs)
                           (imap tmpc (List.filter (inLeft ltbs) fs))
                           (List.filter (inRight ltbs rtbs) fs))) j) l r).
Proof.
  intros Hl Hr. unfold setOtherJoin.
  pose proof (setOtherJoin_loop l r h ltbs rtbs fs (mkOtherJoin [] [] [] [])
                Hl Hr) as H.
  cbn [oj_left oj_noTables oj_others oj_right length app] in H.
  change (Z.of_nat 0) with 0 in H. rewrite H. simpl. done.
Qed.

(** * [pushFilter] *)

(** What [pushFilter] may write in a Merge: the filter set, which only
    grows, and the shard index. *)
Definition mergeKept (mn mn' : MergeNode) : Prop :=
  mn' = set_m_index (m_index mn') (set_m_filters (m_filters mn') mn)
  ∧ ∀ e, is_Some (m_filters mn !! e) → is_Some (m_filters mn' !! e).

(** What [pushFilter] may write in the store: nothing but that, in the
    Merges that are there. *)
Definition storeKept (h h' : Heap) : Prop :=
  cols h' = cols h ∧ tbInfos h' = tbInfos h
  ∧ ∀ m, option_Forall2 mergeKept (merges h !! m) (merges h' !! m).

(** What [pushFilter] may write in a JoinNode: the four filter lists,
    which only grow at their end, and [HasRightFilter], which is never
    cleared. *)
Definition joinKept (j j' : JoinNode) : Prop :=
  j' = set_HasRightFilter (HasRightFilter j')
         (set_rightNull (rightNull j')
            (set_noTableFilter (noTableFilter j')
               (set_otherFilter (otherFilter j')
                  (set_tableFilter (tableFilter j') j))))
  ∧ tableFilter j `prefix_of` tableFilter j'
  ∧ otherFilter j `prefix_of` otherFilter j'
  ∧ noTableFilter j `prefix_of` noTableFilter j'
  ∧ rightNull j `prefix_of` rightNull j'
  ∧ (HasRightFilter j = true → HasRightFilter j' = true).

Fixpoint treeKept (n n' : PlanNode) : Prop :=
  match n, n' with
  | Merge m, Merge m' => m = m'
  | Join j l r, Join j' l' r' => joinKept j j' ∧ treeKept l l' ∧ treeKept r r'
  | _, _ => False
  end.

Global Instance mergeKept_preorder : PreOrder mergeKept.
Proof.
  split.
  - intros mn. split; [by destruct mn|done].
  - intros m1 m2 m3 [H12 G12] [H23 G23]. split; [|by auto].
    destruct m1, m2, m3; simpl in *. injection H12 as <- <- <- <- <- <- <- <- <-.
    injection H23 as <- <- <- <- <- <- <- <- <-. done.
Qed.

Global Instance storeKept_preorder : PreOrder storeKept.
Proof.
  split.
  - intros h. split; [done|]. split; [done|]. intros m.
    destruct (merges h !! m); constructor. reflexivity.
  - intros h1 h2 h3 (Hc12 & Ht12 & H12) (Hc23 & Ht23 & H23).
    split; [congruence|]. split; [congruence|]. intros m.
    specialize (H12 m). specialize (H23 m).
    destruct H12 as [a b Hab|]; inversion H23; subst; constructor.
    by etrans.
Qed.

Global Instance joinKept_preorder : PreOrder joinKept.
Proof.
  split.
  - intros j. split; [by destruct j|]. done.
  - intros j1 j2 j3 (H12 & ? & ? & ? & ? & ?) (H23 & ? & ? & ? & ? & ?).
    split.
    + destruct j1, j2, j3; simpl in *.
      injection H12 as <- <- <- <- <- <- <- <- <- <- <- <- <- <- <- <- <- <- <- <-.
      injection H23 as <- <- <- <- <- <- <- <- <- <- <- <- <- <- <- <- <- <- <- <-.
      done.
    + split; [by etrans|]. split; [by etrans|]. split; [by etrans|].
      split; [by etrans|]. auto.
Qed.

Global Instance treeKept_preorder : PreOrder treeKept.
Proof.
  split.
  - intros n. induction n; simpl; [done|]. split; [reflexivity|done].
  - intros n1. induction n1 as [m|j l IHl r IHr]; intros [m2|j2 l2 r2]
      [m3|j3 l3 r3]; simpl; try done; try congruence.
    intros (? & ? & ?) (? & ? & ?). split; [by etrans|]. split; eauto.
Qed.

Lemma treeKept_refs n n' : treeKept n n' → refs n' = refs n.
Proof.
  revert n'. induction n as [m|j l IHl r IHr]; intros [m'|j' l' r']; simpl;
    try done.
  - by intros ->.
  - intros ((Hj & _) & Hl & Hr). unfold refs in *. simpl.
    rewrite !fmap_app, (IHl _ Hl), (IHr _ Hr). f_equal. f_equal.
    rewrite Hj. by destruct j.
Qed.

Lemma treeKept_sameShape n n' : treeKept n n' → sameShape n n'.
Proof.
  revert n'. induction n as [m|j l IHl r IHr]; intros [m'|j' l' r']; simpl;
    try done.
  intros ((Hj & _) & Hl & Hr). split; [|by auto].
  rewrite Hj. by destruct j.
Qed.

Lemma joinKept_fields j j' :
  joinKept j j' →
  self j' = self j ∧ j_referredTables j' = j_referredTables j
  ∧ IsLeftJoin j' = IsLeftJoin j.
Proof. intros (Hj & _). rewrite Hj. by destruct j. Qed.

Lemma storeKept_set_merge m mn mn' h :
  merges h !! m = Some mn → mergeKept mn mn' → storeKept h (set_merge m mn' h).
Proof.
  intros Hm Hk. split; [done|]. split; [done|]. intros m0.
  unfold set_merge. simpl. destruct (decide (m0 = m)) as [->|Hne].
  - rewrite lookup_insert_eq, Hm. by constructor.
  - rewrite lookup_insert_ne by done.
    destruct (merges h !! m0); constructor. reflexivity.
Qed.

Lemma storeKept_hasFilter h h' m e :
  storeKept h h' → hasFilter h m e → hasFilter h' m e.
Proof.
  intros (_ & _ & H) (mn & Hm & He). specialize (H m). rewrite Hm in H.
  inversion H as [a mn' [_ Hk]|]; subst. exists mn'. split; [done|auto].
Qed.

Lemma storeKept_getReferredTables n h h' :
  storeKept h h' → getReferredTables n h' = getReferredTables n h.
Proof.
  intros (_ & _ & H). destruct n as [m|j l r]; simpl; [|done].
  specialize (H m). destruct H as [mn mn' [Hk _]|]; simpl; [|done].
  rewrite Hk. by destruct mn.
Qed.

Lemma MergeNode_setWhereFilter_kept m e h h' :
  MergeNode_setWhereFilter m e h = Some h' → storeKept h h'.
Proof.
  unfold MergeNode_setWhereFilter. intros H.
  destruct (merges h !! m) as [mn|] eqn:Em; [|done]. simpl in H.
  injection H as <-. apply storeKept_set_merge with mn; [done|].
  split; [by destruct mn|]. intros e0 He0. destruct mn; simpl in *.
  destruct (decide (e0 = e)) as [->|Hne].
  - by rewrite lookup_insert_eq.
  - by rewrite lookup_insert_ne.
Qed.

Lemma set_m_index_kept m mn idx h :
  merges h !! m = Some mn → storeKept h (set_merge m (set_m_index idx mn) h).
Proof.
  intros Hm. apply storeKept_set_merge with mn; [done|].
  split; by destruct mn.
Qed.

Lemma update_join_kept a e n :
  treeKept n (update_join a (JoinNode_setWhereFilter e) n).
Proof.
  induction n as [m|j l IHl r IHr]; simpl; [done|].
  split; [|done]. case_bool_decide; [|reflexivity].
  split; [by destruct j|]. destruct j; simpl.
  split; [done|]. split; [by apply prefix_app_r|]. done.
Qed.

Lemma joinKept_tableFilter v j :
  joinKept j (set_tableFilter (tableFilter j ++ v) j).
Proof.
  split; [by destruct j|]. destruct j; simpl.
  split; [by apply prefix_app_r|]. done.
Qed.

Lemma treeKept_root j j' l r :
  joinKept j j' → treeKept (Join j l r) (Join j' l r).
Proof. intros H. simpl. split; [done|]. split; reflexivity. Qed.

Arguments treeKept : simpl never.

Section Filters.
Context {collab : Collaborators}.

Arguments pushFilter_place : simpl never.
Arguments pushFilter_step : simpl never.

(** The filters that [pushFilter] keeps in [tableFilter]: one table and a
    column object. *)
Definition isTableFilter (filter : filterTuple) : bool :=
  bool_decide (length (f_referTables filter) = 1%nat)
  && bool_decide (is_Some (f_col filter)).

(** The filters that [pushFilter] records in [rightNull]. *)
Definition isRightNull (isLeftJoin : bool) (rightTbs : gmap string Ptr)
    (filter : filterTuple) : bool :=
  negb (inNoTables filter)
  && (isLeftJoin && (checkIsWithNull filter rightTbs).1).

(** An error of the Route Oracle for the literal of [filter] and a table
    of the store. *)
Definition oracleError (h : Heap) (filter : filterTuple) (e : string) : Prop :=
  ∃ v p tbInfo idx,
    f_val filter = Some v ∧ tbInfos h !! p = Some tbInfo
    ∧ GetIndex (database tbInfo) (tableName tbInfo) v = (idx, Some e).

Lemma tableInfo_Some tbs tb h tbInfo :
  tableInfo tbs tb h = Some tbInfo →
  ∃ p, tbs !! tb = Some p ∧ tbInfos h !! p = Some tbInfo.
Proof.
  unfold tableInfo. intros H. destruct (tbs !! tb) as [p|]; [|done].
  by exists p.
Qed.

Lemma pushFilter_place_spec filter j l r h err n' h' :
  pushFilter_place filter (Join j l r) h = Some (err, n', h') →
  storeKept h h' ∧ treeKept (Join j l r) n'
  ∧ ∃ j' l' r', n' = Join j' l' r'
      ∧ noTableFilter j' = noTableFilter j ∧ rightNull j' = rightNull j
      ∧ HasRightFilter j' = HasRightFilter j
      ∧ tableFilter j' = tableFilter j
                         ++ (if isTableFilter filter then [filter] else [])
      ∧ ∀ e, err = Some e → oracleError h filter e.
Proof.
  unfold pushFilter_place, isTableFilter. intros Hp.
  destruct (bool_decide (length (f_referTables filter) = 1%nat)) eqn:E1.
  - destruct (head (f_referTables filter)) as [tb|]; [|done]. simpl in Hp.
    destruct (tableInfo (j_referredTables j) tb h) as [tbInfo|] eqn:Et;
      [|done]. simpl in Hp.
    destruct (tableInfo_Some _ _ _ _ Et) as (p & _ & Hp0).
    destruct (f_col filter) as [c|] eqn:Ec.
    + destruct (merges h !! tb_parent tbInfo) as [mn|] eqn:Em; [|done].
      simpl in Hp.
      assert (Hroot : ∀ h0, storeKept h h0 →
                storeKept h h0
                ∧ treeKept (Join j l r)
                    (Join (set_tableFilter (tableFilter j ++ [filter]) j) l r)
                ∧ ∃ j' l' r',
                    Join (set_tableFilter (tableFilter j ++ [filter]) j) l r
                    = Join j' l' r'
                    ∧ noTableFilter j' = noTableFilter j
                    ∧ rightNull j' = rightNull j
                    ∧ HasRightFilter j' = HasRightFilter j
                    ∧ tableFilter j' = tableFilter j ++ [filter]).
      { intros h0 Hk. split; [done|]. split.
        - apply treeKept_root, joinKept_tableFilter.
        - do 3 eexists. split; [done|]. by destruct j. }
      simpl.
      assert (Hok : ∀ h0, storeKept h h0 →
                Some (@None string,
                      Join (set_tableFilter (tableFilter j ++ [filter]) j) l r,
                      h0) = Some (err, n', h') →
                storeKept h h' ∧ treeKept (Join j l r) n'
                ∧ ∃ j' l' r', n' = Join j' l' r'
                    ∧ noTableFilter j' = noTableFilter j
                    ∧ rightNull j' = rightNull j
                    ∧ HasRightFilter j' = HasRightFilter j
                    ∧ tableFilter j' = tableFilter j ++ [filter]
                    ∧ ∀ e, err = Some e → oracleError h filter e).
      { intros h0 Hk [= <- <- <-].
        destruct (Hroot h0 Hk) as (? & ? & j' & l' & r' & ? & ? & ? & ? & ?).
        split; [done|]. split; [done|]. exists j', l', r'.
        repeat (split; [done|]). done. }
      destruct (f_val filter) as [v|] eqn:Ev; [|by apply (Hok h)].
      destruct (bool_decide (m_index mn = -1)
                && bool_decide (shardKey tbInfo ≠ "")); [|by apply (Hok h)].
      destruct (cols h !! c) as [cn|]; [|done]. simpl in Hp.
      destruct (nameMatch cn tb (shardKey tbInfo)); [|by apply (Hok h)].
      destruct (GetIndex (database tbInfo) (tableName tbInfo) v)
        as [idx err0] eqn:Eg.
      injection Hp as <- <- <-.
      destruct (Hroot _ (set_m_index_kept _ _ idx _ Em))
        as (? & ? & j' & l' & r' & ? & ? & ? & ? & ?).
      split; [done|]. split; [done|]. exists j', l', r'.
      repeat (split; [done|]). intros e ->. by exists v, p, tbInfo, idx.
    + destruct (MergeNode_setWhereFilter (tb_parent tbInfo) (f_expr filter) h)
        as [h1|] eqn:Es; [|done]. simpl in Hp. injection Hp as <- <- <-.
      split; [by eapply MergeNode_setWhereFilter_kept|].
      split; [reflexivity|]. exists j, l, r. simpl.
      rewrite app_nil_r. done.
  - destruct (foldM (parentOf (Join j l r) (j_referredTables j) h)
                (f_referTables filter) None) as [parent|]; [|done].
    simpl in Hp.
    destruct (setWhereFilter parent (f_expr filter) (Join j l r) h)
      as [[n1 h1]|] eqn:Es; [|done]. simpl in Hp. injection Hp as <- <- <-.
    cbn [andb]. rewrite app_nil_r. unfold setWhereFilter in Es.
    destruct parent as [[m|a]|]; [| |done].
    + destruct (MergeNode_setWhereFilter m (f_expr filter) h) as [h2|] eqn:Em;
        [|done]. simpl in Es. injection Es as <- <-.
      split; [by eapply MergeNode_setWhereFilter_kept|].
      split; [reflexivity|]. by exists j, l, r.
    + injection Es as <- <-. split; [reflexivity|].
      split; [exact (update_join_kept a (f_expr filter) (Join j l r))|].
      do 3 eexists. split; [done|].
      destruct (bool_decide (self j = a)); [|done]. by destruct j.
Qed.

(** One turn of the loop of [pushFilter]. *)
Lemma pushFilter_step_spec rt filter j l r h err n' h' :
  pushFilter_step rt filter (Join j l r) h = Some (err, n', h') →
  storeKept h h' ∧ treeKept (Join j l r) n'
  ∧ ∃ j' l' r', n' = Join j' l' r'
      ∧ noTableFilter j'
        = noTableFilter j ++ (if inNoTables filter then [f_expr filter] else [])
      ∧ rightNull j'
        = rightNull j ++ (if isRightNull (IsLeftJoin j) rt filter
                          then [(checkIsWithNull filter rt).2] else [])
      ∧ tableFilter j'
        = tableFilter j
          ++ (if negb (inNoTables filter)
                 && negb (isRightNull (IsLeftJoin j) rt filter)
                 && isTableFilter filter
              then [filter] else [])
      ∧ ∀ e, err = Some e → oracleError h filter e.
Proof.
  unfold pushFilter_step, isRightNull, inNoTables. intros Hp.
  destruct (bool_decide (length (f_referTables filter) = 0%nat)) eqn:E0.
  { injection Hp as <- <- <-. split; [reflexivity|]. split.
    - apply treeKept_root. split; [by destruct j|].
      destruct j; simpl. do 2 (split; [done|]).
      split; [by apply prefix_app_r|]. done.
    - do 3 eexists. split; [done|]. destruct j; simpl.
      rewrite !app_nil_r. done. }
  simpl.
  destruct (IsLeftJoin j && (checkIsWithNull filter rt).1) eqn:En.
  { injection Hp as <- <- <-. split; [reflexivity|]. split.
    - apply treeKept_root. split; [by destruct j|].
      destruct j; simpl. do 3 (split; [done|]).
      split; [by apply prefix_app_r|]. done.
    - do 3 eexists. split; [done|]. simpl. destruct j; simpl.
      rewrite !app_nil_r. done. }
  simpl.
  destruct (pushFilter_place filter (Join j l r) h) as [[[err1 n1] h1]|] eqn:E;
    [|done]. simpl in Hp.
  destruct (pushFilter_place_spec _ _ _ _ _ _ _ _ E)
    as (Hs & Ht & j1 & l1 & r1 & -> & Hn & Hr & Hh & Htf & He).
  rewrite !app_nil_r, <- Hn, <- Hr, <- Htf.
  destruct err1 as [e|].
  { injection Hp as <- <- <-. split; [done|]. split; [done|].
    by exists j1, l1, r1. }
  destruct (IsLeftJoin j1 && negb (HasRightFilter j1) && _).
  - injection Hp as <- <- <-. split; [done|]. split.
    + etrans; [exact Ht|]. apply treeKept_root.
      split; [by destruct j1|]. destruct j1; simpl. done.
    + do 3 eexists. split; [done|]. by destruct j1.
  - injection Hp as <- <- <-. split; [done|]. split; [done|].
    by exists j1, l1, r1.
Qed.

Lemma oracleError_kept h h' filter e :
  storeKept h h' → oracleError h' filter e → oracleError h filter e.
Proof.
  intros (_ & Ht & _) (v & p & tbInfo & idx & Hv & Hp & Hg).
  rewrite Ht in Hp. by exists v, p, tbInfo, idx.
Qed.

Lemma pushFilter_loop_kept rt fs j l r h err n' h' :
  pushFilter_loop rt fs (Join j l r) h = Some (err, n', h') →
  storeKept h h' ∧ treeKept (Join j l r) n'
  ∧ ∀ e, err = Some e → ∃ filter, filter ∈ fs ∧ oracleError h filter e.
Proof.
  revert j l r h. induction fs as [|f fs IH]; intros j l r h Hl; simpl in Hl.
  - injection Hl as <- <- <-. split; [reflexivity|]. split; [reflexivity|].
    done.
  - destruct (pushFilter_step rt f (Join j l r) h) as [[[err1 n1] h1]|] eqn:E;
      [|done]. simpl in Hl.
    destruct (pushFilter_step_spec _ _ _ _ _ _ _ _ _ E)
      as (Hs & Ht & j1 & l1 & r1 & -> & _ & _ & _ & He).
    destruct err1 as [e1|].
    + injection Hl as <- <- <-. split; [done|]. split; [done|].
      intros e He1. exists f. split; [apply list_elem_of_here|]. by apply He.
    + destruct (IH _ _ _ _ Hl) as (Hs2 & Ht2 & He2).
      split; [by etrans|]. split; [by etrans|].
      intros e He1. destruct (He2 e He1) as (f0 & Hf0 & Ho).
      exists f0. split; [by apply list_elem_of_further|].
      by eapply oracleError_kept.
Qed.

(** X8: An error that [pushFilter] returns is the error that the Route
    Oracle returned for the literal of one of the filters, as it is. *)
Theorem pushFilter_oracle_error n fs h e n' h' :
  pushFilter n fs h = Some (Some e, n', h') →
  ∃ filter, filter ∈ fs ∧ oracleError h filter e.
Proof.
  unfold pushFilter. intros H. destruct n as [m|j l r]; [done|].
  destruct (getReferredTables r h) as [rt|]; [|done]. simpl in H.
  destruct (pushFilter_loop_kept _ _ _ _ _ _ _ _ _ H) as (_ & _ & He).
  by apply He.
Qed.

(** X9: Whatever it returns, [pushFilter] keeps the plan tree as it is up
    to the four filter lists of its JoinNodes, to which it only appends,
    and [HasRightFilter], which it never clears; in the store it leaves
    the column objects and the table infos, and of a Merge it writes the
    filter set, which only grows, and the shard index. *)
Theorem pushFilter_writes n fs h err n' h' :
  pushFilter n fs h = Some (err, n', h') → treeKept n n' ∧ storeKept h h'.
Proof.
  unfold pushFilter. intros H. destruct n as [m|j l r]; [done|].
  destruct (getReferredTables r h) as [rt|]; [|done]. simpl in H.
  destruct (pushFilter_loop_kept _ _ _ _ _ _ _ _ _ H) as (? & ? & _). done.
Qed.

(** The filters that [pushFilter] keeps in [tableFilter] of a JoinNode. *)
Definition inTableFilter (isLeftJoin : bool) (rightTbs : gmap string Ptr)
    (filter : filterTuple) : bool :=
  negb (inNoTables filter) && negb (isRightNull isLeftJoin rightTbs filter)
  && isTableFilter filter.

Lemma pushFilter_loop_lists rt fs j l r h n' h' :
  pushFilter_loop rt fs (Join j l r) h = Some (None, n', h') →
  ∃ j' l' r',
    n' = Join j' l' r'
    ∧ noTableFilter j'
      = noTableFilter j ++ (f_expr <$> List.filter inNoTables fs)
    ∧ rightNull j'
      = rightNull j
        ++ ((λ f, (checkIsWithNull f rt).2)
              <$> List.filter (isRightNull (IsLeftJoin j) rt) fs)
    ∧ tableFilter j'
      = tableFilter j ++ List.filter (inTableFilter (IsLeftJoin j) rt) fs.
Proof.
  revert j l r h. induction fs as [|f fs IH]; intros j l r h Hl; simpl in Hl.
  - injection Hl as <- <-. exists j, l, r. simpl. by rewrite !app_nil_r.
  - destruct (pushFilter_step rt f (Join j l r) h) as [[[err1 n1] h1]|] eqn:E;
      [|done]. simpl in Hl.
    destruct (pushFilter_step_spec _ _ _ _ _ _ _ _ _ E)
      as (Hs & Ht & j1 & l1 & r1 & -> & Hn & Hr & Htf & He).
    destruct err1 as [e1|]; [done|].
    destruct (IH _ _ _ _ Hl) as (j2 & l2 & r2 & -> & Hn2 & Hr2 & Htf2).
    assert (Hi : IsLeftJoin j1 = IsLeftJoin j).
    { unfold treeKept in Ht. destruct Ht as (Hj & _).
      by destruct (joinKept_fields _ _ Hj) as (_ & _ & ?). }
    rewrite Hi in Hr2, Htf2.
    exists j2, l2, r2. split; [done|].
    rewrite Hn2, Hr2, Htf2, Hn, Hr, Htf. cbn [List.filter].
    unfold inTableFilter at 2.
    destruct (inNoTables f), (isRightNull (IsLeftJoin j) rt f),
      (isTableFilter f); simpl; rewrite <- ?app_assoc, ?app_nil_r; done.
Qed.

(** X10: After [pushFilter] has gone through the list without an error,
    the JoinNode has received, in the order of the list: in
    [noTableFilter] the expressions of the filters without tables, in
    [rightNull] what [checkIsWithNull] made of the other filters it
    accepts on a left join, and in [tableFilter] the remaining filters
    that have one table and a column object. *)
Theorem pushFilter_lists j l r fs h j' l' r' h' rightTbs :
  pushFilter (Join j l r) fs h = Some (None, Join j' l' r', h') →
  getReferredTables r h = Some rightTbs →
  noTableFilter j' = noTableFilter j ++ (f_expr <$> List.filter inNoTables fs)
  ∧ rightNull j'
    = rightNull j
      ++ ((λ f, (checkIsWithNull f rightTbs).2)
            <$> List.filter (isRightNull (IsLeftJoin j) rightTbs) fs)
  ∧ tableFilter j'
    = tableFilter j ++ List.filter (inTableFilter (IsLeftJoin j) rightTbs) fs.
Proof.
  unfold pushFilter. intros H Hr. rewrite Hr in H. simpl in H.
  destruct (pushFilter_loop_lists _ _ _ _ _ _ _ _ H)
    as (j2 & l2 & r2 & [= <- <- <-] & ? & ? & ?). done.
Qed.

(** ** Where [pushFilter] puts a filter of two tables or more *)

Lemma parentOf_root j l r tbs h rest p :
  foldM (parentOf (Join j l r) tbs h) rest (Some (JoinRef (self j))) = Some p →
  p = Some (JoinRef (self j)).
Proof.
  induction rest as [|tb rest IH]; simpl; [congruence|].
  assert (parentOf (Join j l r) tbs h tb (Some (JoinRef (self j)))
          = (_ ← tableInfo tbs tb h; Some (Some (JoinRef (self j))))) as ->.
  { unfold parentOf. destruct (tableInfo tbs tb h) as [tbInfo|]; [|done].
    simpl. by rewrite bool_decide_eq_true_2. }
  destruct (tableInfo tbs tb h) as [tbInfo|]; [|done]. simpl. exact IH.
Qed.

Lemma parentOf_cross j l r tbs h ta tb rest tia tib p :
  tableInfo tbs ta h = Some tia → tableInfo tbs tb h = Some tib →
  tb_parent tia ≠ tb_parent tib →
  (MergeRef (tb_parent tia) ∈ refs l ∧ MergeRef (tb_parent tib) ∈ refs r)
  ∨ (MergeRef (tb_parent tia) ∈ refs r ∧ MergeRef (tb_parent tib) ∈ refs l) →
  foldM (parentOf (Join j l r) tbs h) (ta :: tb :: rest) None = Some p →
  p = Some (JoinRef (self j)).
Proof.
  intros Ha Hb Hne Hside.
  assert (E1 : parentOf (Join j l r) tbs h ta None
               = Some (Some (MergeRef (tb_parent tia)))).
  { unfold parentOf. by rewrite Ha. }
  assert (E2 : parentOf (Join j l r) tbs h tb (Some (MergeRef (tb_parent tia)))
               = Some (Some (JoinRef (self j)))).
  { unfold parentOf. rewrite Hb. cbn [mbind option_bind].
    rewrite bool_decide_eq_true_2 by congruence. f_equal.
    destruct Hside as [[Hl Hr]|[Hr Hl]].
    - by apply findLCA_split.
    - rewrite findLCA_swap. by apply findLCA_split. }
  cbn [foldM]. rewrite E1. cbn [mbind option_bind]. rewrite E2.
  cbn [mbind option_bind]. apply parentOf_root.
Qed.

Lemma pushFilter_step_cross rt filter j l r h err j' l' r' h' ta tb rest
    tia tib :
  pushFilter_step rt filter (Join j l r) h = Some (err, Join j' l' r', h') →
  IsLeftJoin j && (checkIsWithNull filter rt).1 = false →
  f_referTables filter = ta :: tb :: rest →
  tableInfo (j_referredTables j) ta h = Some tia →
  tableInfo (j_referredTables j) tb h = Some tib →
  tb_parent tia ≠ tb_parent tib →
  (MergeRef (tb_parent tia) ∈ refs l ∧ MergeRef (tb_parent tib) ∈ refs r)
  ∨ (MergeRef (tb_parent tia) ∈ refs r ∧ MergeRef (tb_parent tib) ∈ refs l) →
  otherFilter j' = otherFilter j ++ [f_expr filter].
Proof.
  unfold pushFilter_step. intros Hp Hn Hf Ha Hb Hne Hside.
  rewrite Hf, Hn in Hp. simpl in Hp.
  destruct (pushFilter_place filter (Join j l r) h) as [[[err1 n1] h1]|] eqn:E;
    [|done]. simpl in Hp.
  assert (∃ l1 r1, n1 = Join (JoinNode_setWhereFilter (f_expr filter) j) l1 r1
                   ∧ err1 = None) as (l1 & r1 & -> & ->).
  { unfold pushFilter_place in E.
    rewrite bool_decide_eq_false_2 in E by (by rewrite Hf).
    destruct (foldM (parentOf (Join j l r) (j_referredTables j) h)
                (f_referTables filter) None) as [parent|] eqn:Ep; [|done].
    rewrite Hf in Ep.
    apply (parentOf_cross _ _ _ _ _ _ _ _ _ _ _ Ha Hb Hne Hside) in Ep as ->.
    simpl in E. rewrite bool_decide_eq_true_2 in E by done.
    injection E as <- <- <-. eauto. }
  destruct (IsLeftJoin _ && negb _ && _); injection Hp as <- <- <- <- <-;
    by destruct j.
Qed.

Lemma pushFilter_loop_other rt fs j l r h err j' l' r' h' :
  pushFilter_loop rt fs (Join j l r) h = Some (err, Join j' l' r', h') →
  otherFilter j `prefix_of` otherFilter j'.
Proof.
  intros H. destruct (pushFilter_loop_kept _ _ _ _ _ _ _ _ _ H) as (_ & Ht & _).
  unfold treeKept in Ht. by destruct Ht as ((_ & _ & ? & _) & _).
Qed.

(** X11: After [pushFilter] has gone through the list without an error, a
    filter of the list that is not recorded in [rightNull] and whose
    first two tables belong to two Merges, one under each child of the
    JoinNode, is in [otherFilter] of the JoinNode. *)
Theorem pushFilter_otherFilter j l r fs h j' l' r' h' rightTbs filter
    ta tb rest tia tib :
  pushFilter (Join j l r) fs h = Some (None, Join j' l' r', h') →
  getReferredTables r h = Some rightTbs →
  filter ∈ fs →
  IsLeftJoin j && (checkIsWithNull filter rightTbs).1 = false →
  f_referTables filter = ta :: tb :: rest →
  tableInfo (j_referredTables j) ta h = Some tia →
  tableInfo (j_referredTables j) tb h = Some tib →
  tb_parent tia ≠ tb_parent tib →
  (MergeRef (tb_parent tia) ∈ refs l ∧ MergeRef (tb_parent tib) ∈ refs r)
  ∨ (MergeRef (tb_parent tia) ∈ refs r ∧ MergeRef (tb_parent tib) ∈ refs l) →
  f_expr filter ∈ otherFilter j'.
Proof.
  unfold pushFilter. intros H Hr Hin Hn Hf Ha Hb Hne Hside.
  rewrite Hr in H. simpl in H.
  apply list_elem_of_split in Hin as (pre & post & ->).
  destruct (pushFilter_loop_split _ _ _ _ _ _ _ _ H)
    as (n1 & h1 & n2 & h2 & H1 & H2 & H3).
  destruct (pushFilter_loop_kept _ _ _ _ _ _ _ _ _ H1) as (Hs1 & Ht1 & _).
  destruct n1 as [m1|j1 l1 r1]; [done|].
  pose proof Ht1 as Ht1'. unfold treeKept in Ht1'. fold treeKept in Ht1'.
  destruct Ht1' as (Hj1 & Hl1 & Hr1).
  destruct (joinKept_fields _ _ Hj1) as (Hself & Hrt & Hleft).
  destruct (pushFilter_step_spec _ _ _ _ _ _ _ _ _ H2)
    as (_ & _ & j2 & l2 & r2 & -> & _).
  assert (Hti : ∀ t, tableInfo (j_referredTables j1) t h1
                     = tableInfo (j_referredTables j) t h).
  { intros t. unfold tableInfo. destruct Hs1 as (_ & -> & _). by rewrite Hrt. }
  apply (pushFilter_step_cross _ _ _ _ _ _ _ _ _ _ _ ta tb rest tia tib) in H2.
  - apply pushFilter_loop_other in H3.
    destruct H3 as [k ->]. rewrite H2.
    apply elem_of_app. left. apply elem_of_app. right. apply list_elem_of_here.
  - by rewrite Hleft.
  - done.
  - by rewrite Hti.
  - by rewrite Hti.
  - done.
  - by rewrite (treeKept_refs _ _ Hl1), (treeKept_refs _ _ Hr1).
Qed.

Lemma pushFilter_step_merge rt filter j l r h err n' h' tb ti :
  pushFilter_step rt filter (Join j l r) h = Some (err, n', h') →
  IsLeftJoin j && (checkIsWithNull filter rt).1 = false →
  f_referTables filter = [tb] → f_col filter = None →
  tableInfo (j_referredTables j) tb h = Some ti →
  hasFilter h' (tb_parent ti) (f_expr filter).
Proof.
  unfold pushFilter_step. intros Hp Hn Hf Hc Ht.
  rewrite Hf, Hn in Hp. simpl in Hp.
  destruct (pushFilter_place filter (Join j l r) h) as [[[err1 n1] h1]|] eqn:E;
    [|done]. simpl in Hp.
  assert (hasFilter h1 (tb_parent ti) (f_expr filter) ∧ err1 = None)
    as [Hh ->].
  { unfold pushFilter_place in E. rewrite Hf in E. simpl in E.
    rewrite Ht, Hc in E. simpl in E.
    destruct (MergeNode_setWhereFilter (tb_parent ti) (f_expr filter) h)
      as [h2|] eqn:Es; [|done]. simpl in E. injection E as <- <- <-.
    split; [|done]. by destruct (MergeNode_setWhereFilter_has _ _ _ _ Es). }
  destruct n1 as [m1|j1 l1 r1]; [done|].
  destruct (IsLeftJoin _ && negb _ && _); by injection Hp as <- <- <-.
Qed.

(** X12: After [pushFilter] has gone through the list without an error, a
    filter of the list with one table and no column object, which is not
    recorded in [rightNull], is in the filter set of the Merge that owns
    its table. *)
Theorem pushFilter_pushdown j l r fs h n' h' rightTbs filter tb ti :
  pushFilter (Join j l r) fs h = Some (None, n', h') →
  getReferredTables r h = Some rightTbs →
  filter ∈ fs →
  IsLeftJoin j && (checkIsWithNull filter rightTbs).1 = false →
  f_referTables filter = [tb] → f_col filter = None →
  tableInfo (j_referredTables j) tb h = Some ti →
  hasFilter h' (tb_parent ti) (f_expr filter).
Proof.
  unfold pushFilter. intros H Hr Hin Hn Hf Hc Ht.
  rewrite Hr in H. simpl in H.
  apply list_elem_of_split in Hin as (pre & post & ->).
  destruct (pushFilter_loop_split _ _ _ _ _ _ _ _ H)
    as (n1 & h1 & n2 & h2 & H1 & H2 & H3).
  destruct (pushFilter_loop_kept _ _ _ _ _ _ _ _ _ H1) as (Hs1 & Ht1 & _).
  destruct n1 as [m1|j1 l1 r1]; [done|].
  unfold treeKept in Ht1. destruct Ht1 as (Hj1 & _).
  destruct (joinKept_fields _ _ Hj1) as (Hself & Hrt & Hleft).
  destruct (pushFilter_step_spec _ _ _ _ _ _ _ _ _ H2)
    as (_ & _ & j2 & l2 & r2 & -> & _).
  destruct (pushFilter_loop_kept _ _ _ _ _ _ _ _ _ H3) as (Hs3 & _).
  apply (storeKept_hasFilter _ _ _ _ Hs3).
  apply (pushFilter_step_merge _ _ _ _ _ _ _ _ _ tb ti H2).
  - by rewrite Hleft.
  - done.
  - done.
  - unfold tableInfo. destruct Hs1 as (_ & -> & _). by rewrite Hrt.
Qed.

End Filters.

(** * [calcRoute] and [buildKeyFilter] *)

Section Routes.
Context {collab : Collaborators}.

Arguments buildKeyFilter : simpl nomatch.
Arguments calcRoute_filter : simpl never.
Arguments calcRoute_collapse : simpl never.
Arguments recordKeyFilter : simpl never.

(** A filter that is recorded in [keyFilters] of a JoinNode of the tree. *)
Fixpoint recorded (n : PlanNode) (f : filterTuple) : Prop :=
  match n with
  | Merge _ => False
  | Join j l r =>
      (∃ i fs, keyFilters j !! i = Some fs ∧ f ∈ fs) ∨ recorded l f ∨ recorded r f
  end.

(** What [buildKeyFilter] may write in a JoinNode: [keyFilters], where a
    filter that is recorded stays recorded. *)
Definition keysKept (j j' : JoinNode) : Prop :=
  j' = set_keyFilters (keyFilters j') j
  ∧ ∀ i fs f, keyFilters j !! i = Some fs → f ∈ fs →
      ∃ fs', keyFilters j' !! i = Some fs' ∧ f ∈ fs'.

Fixpoint keysKeptTree (n n' : PlanNode) : Prop :=
  match n, n' with
  | Merge m, Merge m' => m = m'
  | Join j l r, Join j' l' r' =>
      keysKept j j' ∧ keysKeptTree l l' ∧ keysKeptTree r r'
  | _, _ => False
  end.

Global Instance keysKept_preorder : PreOrder keysKept.
Proof.
  split.
  - intros j. split; [by destruct j|]. eauto.
  - intros j1 j2 j3 [H12 G12] [H23 G23]. split.
    + destruct j1, j2, j3; simpl in *.
      injection H12 as <- <- <- <- <- <- <- <- <- <- <- <- <- <- <- <- <- <- <- <- <- <- <- <-.
      injection H23 as <- <- <- <- <- <- <- <- <- <- <- <- <- <- <- <- <- <- <- <- <- <- <- <-.
      done.
    + intros i fs f Hi Hf. destruct (G12 _ _ _ Hi Hf) as (fs2 & Hi2 & Hf2).
      eauto.
Qed.

Global Instance keysKeptTree_preorder : PreOrder keysKeptTree.
Proof.
  split.
  - intros n. induction n; simpl; [done|]. split; [reflexivity|done].
  - intros n1. induction n1 as [m|j l IHl r IHr]; intros [m2|j2 l2 r2]
      [m3|j3 l3 r3]; simpl; try done; try congruence.
    intros (? & ? & ?) (? & ? & ?). split; [by etrans|]. split; eauto.
Qed.

Lemma keysKeptTree_keyed n n' f : keysKeptTree n n' → recorded n f → recorded n' f.
Proof.
  revert n'. induction n as [m|j l IHl r IHr]; intros [m'|j' l' r']; simpl;
    try done.
  intros ([_ Hj] & Hl & Hr) [(i & fs & Hi & Hf)|[H|H]].
  - left. destruct (Hj _ _ _ Hi Hf) as (fs' & ? & ?). eauto.
  - right. left. eauto.
  - right. right. eauto.
Qed.

Lemma keysKept_fields j j' :
  keysKept j j' →
  self j' = self j ∧ j_referredTables j' = j_referredTables j
  ∧ tableFilter j' = tableFilter j.
Proof. intros (Hj & _). rewrite Hj. by destruct j. Qed.

Lemma keysKeptTree_root j j' l r :
  keysKept j j' → keysKeptTree (Join j l r) (Join j' l r).
Proof. intros H. simpl. split; [done|]. split; reflexivity. Qed.

Lemma keysKeptTree_sameShape n n' : keysKeptTree n n' → sameShape n n'.
Proof.
  revert n'. induction n as [m|j l IHl r IHr]; intros [m'|j' l' r']; simpl;
    try done.
  intros (Hj & Hl & Hr). split; [|by auto].
  by destruct (keysKept_fields _ _ Hj) as (? & _).
Qed.

Lemma recordKeyFilter_kept onLeft filter i join j h j' h' :
  recordKeyFilter onLeft filter i join j h = Some (j', h') →
  keysKept j j' ∧ storeKept h h'
  ∧ ∃ fs, keyFilters j' !! i = Some fs ∧ filter ∈ fs.
Proof.
  unfold recordKeyFilter. intros Hr.
  assert (Hk : keysKept j
                 (set_keyFilters
                    (<[i := default [] (keyFilters j !! i) ++ [filter]]>
                       (keyFilters j)) j)
               ∧ ∃ fs, keyFilters
                         (set_keyFilters
                            (<[i := default [] (keyFilters j !! i) ++ [filter]]>
                               (keyFilters j)) j) !! i = Some fs
                       ∧ filter ∈ fs).
  { split.
    - split; [by destruct j|]. intros i0 fs f Hi Hf. destruct j; simpl in *.
      destruct (decide (i0 = i)) as [->|Hne].
      + rewrite lookup_insert_eq, Hi. simpl. eexists. split; [done|].
        apply elem_of_app. by left.
      + rewrite lookup_insert_ne by done. eauto.
    - destruct j; simpl. rewrite lookup_insert_eq. eexists. split; [done|].
      apply elem_of_app. right. apply list_elem_of_here. }
  destruct Hk as [Hk Hin].
  destruct (f_val filter) as [v|].
  - destruct (cols h !! _) as [cn|]; [|done]. simpl in Hr.
    destruct (tableInfo _ _ h) as [tbInfo|]; [|done]. simpl in Hr.
    destruct (merges h !! tb_parent tbInfo) as [mn|] eqn:Em; [|done].
    simpl in Hr.
    destruct (bool_decide _ && bool_decide _); injection Hr as <- <-.
    + split; [done|]. split; [by apply set_m_index_kept|done].
    + split; [done|]. split; [reflexivity|done].
  - injection Hr as <- <-. split; [done|]. split; [reflexivity|done].
Qed.

Arguments keysKeptTree : simpl never.

Lemma buildKeyFilter_spec n filter isFind h b n' h' :
  buildKeyFilter n filter isFind h = Some (b, n', h') →
  keysKeptTree n n' ∧ storeKept h h'
  ∧ (isFind = true → b = true)
  ∧ (b = false → n' = n ∧ h' = h)
  ∧ (b = true → isFind = true ∨ recorded n' filter).
Proof.
  revert isFind h b n' h'. induction n as [m|j l IHl r IHr];
    intros isFind h b n' h' Hb; simpl in Hb; [done|].
  destruct (f_col filter) as [c|]; [|done]. simpl in Hb.
  destruct (cols h !! c) as [cn|]; [|done]. simpl in Hb.
  destruct (head (f_referTables filter)) as [tb0|]; [|done]. simpl in Hb.
  destruct (getReferredTables l h) as [ltbs|]; [|done]. simpl in Hb.
  destruct (scanJoinOn _ _ _ _ _ _) as [found|]; [|done]. simpl in Hb.
  match type of Hb with
  | mbind _ ?o = _ =>
      destruct o as [[[find j1] h1]|] eqn:Ef; simpl in Hb; [|done]
  end.
  assert (Hrec : keysKept j j1 ∧ storeKept h h1
                 ∧ (find = false → j1 = j ∧ h1 = h)
                 ∧ (find = true →
                    ∃ i fs, keyFilters j1 !! i = Some fs ∧ filter ∈ fs)).
  { destruct found as [[i join]|].
    - destruct (recordKeyFilter _ filter i join j h) as [[j2 h2]|] eqn:Er;
        [|done]. simpl in Ef. injection Ef as <- <- <-.
      destruct (recordKeyFilter_kept _ _ _ _ _ _ _ _ Er) as (? & ? & fs & ? & ?).
      split; [done|]. split; [done|]. split; [done|]. eauto.
    - injection Ef as <- <- <-. split; [reflexivity|]. split; [reflexivity|].
      done. }
  destruct Hrec as (Hk & Hs & Hno & Hyes).
  assert (Hleaf : ∀ l0 r0,
            keysKeptTree (Join j l0 r0) (Join j1 l0 r0) ∧ storeKept h h1
            ∧ (isFind = true → find || isFind = true)
            ∧ (find || isFind = false → Join j1 l0 r0 = Join j l0 r0 ∧ h1 = h)
            ∧ (find || isFind = true →
               isFind = true ∨ recorded (Join j1 l0 r0) filter)).
  { intros l0 r0. split; [by apply keysKeptTree_root|]. split; [done|].
    split; [intros ->; by destruct find|]. split.
    - intros [-> ->]%orb_false_iff. by destruct (Hno eq_refl) as [-> ->].
    - destruct find; [|by left]. intros _. right. simpl. left. by apply Hyes. }
  assert (Hrec : ∀ c0 c1 b0 h2,
            (keysKeptTree c0 c1 ∧ storeKept h1 h2
             ∧ (find || isFind = true → b0 = true)
             ∧ (b0 = false → c1 = c0 ∧ h2 = h1)
             ∧ (b0 = true → find || isFind = true ∨ recorded c1 filter)) →
            storeKept h h2
            ∧ (isFind = true → b0 = true)
            ∧ (b0 = false → j1 = j ∧ c1 = c0 ∧ h2 = h)
            ∧ (b0 = true →
               isFind = true
               ∨ (∃ i fs, keyFilters j1 !! i = Some fs ∧ filter ∈ fs)
               ∨ recorded c1 filter)).
  { intros c0 c1 b0 h2 (Hkc & Hsc & Hmono & Hfalse & Htrue).
    split; [by etrans|]. split.
    { intros ->. apply Hmono. by destruct find. }
    split.
    - intros Hb0. destruct (Hfalse Hb0) as [-> ->].
      destruct find.
      + specialize (Hmono eq_refl). congruence.
      + by destruct (Hno eq_refl) as [-> ->].
    - intros Hb0. destruct (Htrue Hb0) as [Hf|Hf]; [|auto].
      destruct find; [right; left; by apply Hyes|]. by left. }
  destruct (bool_decide (is_Some (ltbs !! tb0))).
  - destruct l as [lm|lj ll lr].
    + injection Hb as <- <- <-. apply Hleaf.
    + destruct (buildKeyFilter (Join lj ll lr) filter (find || isFind) h1)
        as [[[b1 l1] h2]|] eqn:El; [|done]. simpl in Hb.
      injection Hb as <- <- <-. pose proof (IHl _ _ _ _ _ El) as Hl.
      destruct (Hrec _ _ _ _ Hl) as (? & ? & Hf & Ht).
      destruct Hl as (Hkl & _).
      split; [unfold keysKeptTree; fold keysKeptTree;
              split; [done|]; split; [done|reflexivity]|].
      split; [done|]. split; [done|]. split.
      * intros Hb0. by destruct (Hf Hb0) as (-> & -> & ->).
      * intros Hb0. destruct (Ht Hb0) as [?|[?|?]]; [by left| |].
        -- right. simpl. by left.
        -- right. simpl. right. by left.
  - destruct r as [rm|rj rl rr].
    + injection Hb as <- <- <-. apply Hleaf.
    + destruct (buildKeyFilter (Join rj rl rr) filter (find || isFind) h1)
        as [[[b1 r1] h2]|] eqn:Er; [|done]. simpl in Hb.
      injection Hb as <- <- <-. pose proof (IHr _ _ _ _ _ Er) as Hr.
      destruct (Hrec _ _ _ _ Hr) as (? & ? & Hf & Ht).
      destruct Hr as (Hkr & _).
      split; [unfold keysKeptTree; fold keysKeptTree;
              split; [done|]; split; [reflexivity|done]|].
      split; [done|]. split; [done|]. split.
      * intros Hb0. by destruct (Hf Hb0) as (-> & -> & ->).
      * intros Hb0. destruct (Ht Hb0) as [?|[?|?]]; [by left| |].
        -- right. simpl. by left.
        -- right. simpl. right. by right.
Qed.

(** X13: [buildKeyFilter] answers false only when it has changed nothing,
    and true only when [isFind] was set or the filter is now recorded in
    [keyFilters] of the node or of a JoinNode below it; all it writes in
    a JoinNode is [keyFilters]. *)
Theorem buildKeyFilter_found n filter isFind h b n' h' :
  buildKeyFilter n filter isFind h = Some (b, n', h') →
  keysKeptTree n n'
  ∧ (b = false → n' = n ∧ h' = h ∧ isFind = false)
  ∧ (b = true → isFind = true ∨ recorded n' filter).
Proof.
  intros H. destruct (buildKeyFilter_spec _ _ _ _ _ _ _ H)
    as (Hk & _ & Hm & Hf & Ht).
  split; [done|]. split; [|done]. intros Hb0.
  destruct (Hf Hb0) as [-> ->]. split; [done|]. split; [done|].
  destruct isFind; [|done]. specialize (Hm eq_refl). congruence.
Qed.

(** The state of the first loop of [calcRoute]. *)
Definition routeKept (s s' : PlanNode * Heap) : Prop :=
  keysKeptTree s.1 s'.1 ∧ storeKept s.2 s'.2.

Global Instance routeKept_preorder : PreOrder routeKept.
Proof.
  split.
  - intros [n h]. split; reflexivity.
  - intros s1 s2 s3 [? ?] [? ?]. split; by etrans.
Qed.

Lemma calcRoute_filter_spec filter j l r h n' h' :
  calcRoute_filter filter (Join j l r, h) = Some (n', h') →
  routeKept (Join j l r, h) (n', h')
  ∧ (recorded n' filter
     ∨ ∃ tb ti, head (f_referTables filter) = Some tb
         ∧ tableInfo (j_referredTables j) tb h = Some ti
         ∧ hasFilter h' (tb_parent ti) (f_expr filter)).
Proof.
  unfold calcRoute_filter. intros Hc.
  destruct (buildKeyFilter (Join j l r) filter false h)
    as [[[found n1] h1]|] eqn:E; simpl in Hc; [|done].
  destruct (buildKeyFilter_spec _ _ _ _ _ _ _ E) as (Hk & Hs & _ & Hf & Ht).
  destruct found.
  - injection Hc as <- <-. split; [done|]. left.
    by destruct (Ht eq_refl) as [?|?].
  - destruct (Hf eq_refl) as [-> ->].
    destruct (head (f_referTables filter)) as [tb0|]; [|done]. simpl in Hc.
    destruct (tableInfo (j_referredTables j) tb0 h) as [ti|] eqn:Eti; [|done].
    simpl in Hc.
    destruct (MergeNode_setWhereFilter (tb_parent ti) (f_expr filter) h)
      as [h2|] eqn:Es; [|done]. simpl in Hc. injection Hc as <- <-.
    split.
    + split; [reflexivity|]. simpl. by eapply MergeNode_setWhereFilter_kept.
    + right. exists tb0, ti. split; [done|]. split; [done|].
      by destruct (MergeNode_setWhereFilter_has _ _ _ _ Es).
Qed.

Lemma calcRoute_filters_kept filters s s' :
  foldM calcRoute_filter filters s = Some s' → routeKept s s'.
Proof.
  apply (foldM_rel routeKept). clear. intros filter [n h] [n' h'] Hc.
  destruct n as [m|j l r].
  - unfold calcRoute_filter in Hc. simpl in Hc. done.
  - by destruct (calcRoute_filter_spec _ _ _ _ _ _ _ Hc).
Qed.

(** X14: The first loop of [calcRoute] loses no table filter: when it is
    over, each filter it went through is recorded in [keyFilters] of a
    JoinNode of the tree, or its expression is in the filter set of the
    Merge that owns its first table. *)
Theorem calcRoute_filters_placed filters j l r h n' h' filter :
  foldM calcRoute_filter filters (Join j l r, h) = Some (n', h') →
  filter ∈ filters →
  recorded n' filter
  ∨ ∃ tb ti, head (f_referTables filter) = Some tb
      ∧ tableInfo (j_referredTables j) tb h = Some ti
      ∧ hasFilter h' (tb_parent ti) (f_expr filter).
Proof.
  intros H Hin. apply list_elem_of_split in Hin as (pre & post & ->).
  assert (∃ s1 s2, foldM calcRoute_filter pre (Join j l r, h) = Some s1
                   ∧ calcRoute_filter filter s1 = Some s2
                   ∧ foldM calcRoute_filter post s2 = Some (n', h'))
    as ([n1 h1] & [n2 h2] & H1 & H2 & H3).
  { clear -H. revert H. generalize (Join j l r, h).
    induction pre as [|g pre IH]; intros s H; simpl in H.
    - destruct (calcRoute_filter filter s) as [s2|] eqn:E; [|done].
      exists s, s2. done.
    - destruct (calcRoute_filter g s) as [s0|] eqn:E; [|done]. simpl in H.
      destruct (IH _ H) as (s1 & s2 & ? & ? & ?). exists s1, s2.
      simpl. rewrite E. done. }
  destruct (calcRoute_filters_kept _ _ _ H1) as [Hk1 Hs1]. simpl in Hk1, Hs1.
  destruct (calcRoute_filters_kept _ _ _ H3) as [Hk3 Hs3]. simpl in Hk3, Hs3.
  destruct n1 as [m1|j1 l1 r1]; [done|].
  unfold keysKeptTree in Hk1. destruct Hk1 as (Hj1 & _).
  destruct (keysKept_fields _ _ Hj1) as (_ & Hrt & _).
  destruct (calcRoute_filter_spec _ _ _ _ _ _ _ H2)
    as (_ & [Hkeyed|(tb & ti & Htb & Hti & Hhas)]).
  - left. by eapply keysKeptTree_keyed.
  - right. exists tb, ti. split; [done|]. split.
    + unfold tableInfo in *. destruct Hs1 as (_ & Ht & _).
      by rewrite <- Hrt, <- Ht.
    + by eapply storeKept_hasFilter.
Qed.



End Routes.

(** * Projections: [pushSelectExpr], [handleJoinOn], [pushOtherFilters] *)

Section Projections.
Context {collab : Collaborators}.

Arguments pushSelectExpr : simpl nomatch.
Arguments buildOrderBy : simpl never.
Arguments handleJoinOn_step : simpl never.
Arguments pushOtherFilter : simpl never.
Arguments pushComparison : simpl never.
Arguments pushOtherFilters_step : simpl never.
Arguments pushOtherJoin_left : simpl never.
Arguments pushOtherJoin_right : simpl never.

(** [index] is a position in the fields of the node [n], and the tuple
    there satisfies [P]. *)
Definition fieldAt (n : PlanNode) (h : Heap) (index : Z)
    (P : selectTuple → Prop) : Prop :=
  ∃ fs t, getFields n h = Some fs ∧ 0 ≤ index
          ∧ fs !! Z.to_nat index = Some t ∧ P t.

Lemma fieldAt_grow n n' h h' index P :
  heap_grow h h' → top_grow n n' → fieldAt n h index P → fieldAt n' h' index P.
Proof.
  intros Hg Ht (fs & t & Hfs & Hi & Hl & HP).
  destruct (grow_getFields _ _ _ _ _ Hg Ht Hfs) as (fs' & Hfs' & Hpre).
  exists fs', t. split; [done|]. split; [done|]. split; [|done].
  by eapply prefix_lookup_Some.
Qed.

Lemma pushSelectExpr_fail n field h index e n' h' :
  pushSelectExpr n field h = Some (index, Some e, n', h') →
  index = -1 ∧ n' = n ∧ h' = h ∧ isMerge n = false
  ∧ ∃ sql, Format_SelectExpr (cols h) (sel_expr field) = Some sql
           ∧ e = "unsupported: expr.'" +:+ sql +:+ "'.in.cross-shard.join".
Proof.
  revert index n' h'. induction n as [m|j l IHl r IHr]; intros index n' h' Hp;
    simpl in Hp.
  - destruct (MergeNode_pushSelectExpr m field h) as [[[i err] h1]|] eqn:E;
      [|done]. simpl in Hp.
    destruct (MergeNode_pushSelectExpr_spec _ _ _ _ _ _ E)
      as (_ & _ & _ & _ & _ & _ & -> & _). done.
  - destruct (getReferredTables l h) as [ltbs|]; [|done]. simpl in Hp.
    destruct (checkTbInNode (sel_referTables field) ltbs).
    { destruct (pushSelectExpr l field h) as [[[[i err] l1] h1]|] eqn:El;
        [|done]. simpl in Hp. destruct err as [e1|]; [|done].
      injection Hp as <- <- <- <-.
      destruct (IHl _ _ _ eq_refl) as (_ & -> & -> & _ & Hsql). done. }
    destruct (getReferredTables r h) as [rtbs|]; [|done]. simpl in Hp.
    destruct (checkTbInNode (sel_referTables field) rtbs).
    { destruct (pushSelectExpr r field h) as [[[[i err] r1] h1]|] eqn:Er;
        [|done]. simpl in Hp. destruct err as [e1|]; [|done].
      injection Hp as <- <- <- <-.
      destruct (IHr _ _ _ eq_refl) as (_ & -> & -> & _ & Hsql). done. }
    destruct (Format_SelectExpr (cols h) (sel_expr field)) as [sql|]; [|done].
    simpl in Hp. injection Hp as <- <- <- <-.
    do 4 (split; [done|]). by exists sql.
Qed.

(** X16: [pushSelectExpr] either appends the tuple to the fields of the
    node and returns its position there, or fails with index [-1] and the
    error [expr.'...'], naming the expression, and then it has changed
    nothing in the tree or in the store. *)
Theorem pushSelectExpr_outcome n field h index err n' h' :
  pushSelectExpr n field h = Some (index, err, n', h') →
  match err with
  | None =>
      ∃ fs, getFields n h = Some fs ∧ getFields n' h' = Some (fs ++ [field])
            ∧ index = Z.of_nat (length fs)
  | Some e =>
      index = -1 ∧ n' = n ∧ h' = h
      ∧ ∃ sql, Format_SelectExpr (cols h) (sel_expr field) = Some sql
               ∧ e = "unsupported: expr.'" +:+ sql +:+ "'.in.cross-shard.join"
  end.
Proof.
  intros Hp. destruct err as [e|].
  - destruct (pushSelectExpr_fail _ _ _ _ _ _ _ Hp) as (? & ? & ? & _ & ?).
    done.
  - destruct (pushSelectExpr_grow _ _ _ _ _ _ _ Hp) as (_ & _ & Hf).
    by apply Hf.
Qed.

(** ** [handleJoinOn] and [buildOrderBy] *)

(** What a join key says of the column [col] of a join-on, read in the
    node [n]: its names, and the position of its projection in the fields
    of [n], or [-1] when [n] is a JoinNode that refused the projection. *)
Definition keyOf (cs : gmap Ptr ColName) (n : PlanNode) (h : Heap)
    (col : Ptr) (key : JoinKey) : Prop :=
  ∃ cn, cs !! col = Some cn
    ∧ Field key = Name cn ∧ Table key = Qualifier cn
    ∧ ((Index key = -1 ∧ isMerge n = false)
       ∨ fieldAt n h (Index key)
           (λ t, sel_referTables t = [Qualifier cn] ∧ sel_field t = Name cn)).

Lemma keyOf_grow cs n n' h h' col key :
  heap_grow h h' → top_grow n n' → keyOf cs n h col key → keyOf cs n' h' col key.
Proof.
  intros Hg Ht (cn & Hc & Hf & Htb & H). exists cn. do 3 (split; [done|]).
  destruct H as [[Hi Hm]|H].
  - left. split; [done|]. destruct n, n'; done.
  - right. by eapply fieldAt_grow.
Qed.

Lemma set_m_sel_getFields m mn sel n h :
  merges h !! m = Some mn →
  getFields n (set_merge m (set_m_sel sel mn) h) = getFields n h.
Proof.
  intros Hm. destruct n as [m0|j l r]; simpl; [|done].
  destruct (decide (m0 = m)) as [->|Hne].
  - rewrite lookup_insert_eq, Hm. by destruct mn.
  - by rewrite lookup_insert_ne.
Qed.

Lemma buildOrderBy_key col node h key node' h' :
  buildOrderBy col node h = Some (key, node', h') →
  keyOf (cols h) node' h' col key.
Proof.
  unfold buildOrderBy. intros Hb.
  destruct (cols h !! col) as [cn|] eqn:Ec; [|done]. simpl in Hb.
  destruct (getFields node h) as [tuples|] eqn:Ef; [|done]. simpl in Hb.
  match type of Hb with
  | mbind _ ?o = _ =>
      destruct o as [[[index1 node1] h1]|] eqn:E1; simpl in Hb; [|done]
  end.
  match type of Hb with
  | mbind _ ?o = _ => destruct o as [h2|] eqn:E2; simpl in Hb; [|done]
  end.
  injection Hb as <- <- <-. exists cn. do 3 (split; [done|]). simpl.
  assert (Hsame : getFields node1 h2 = getFields node1 h1).
  { destruct node1 as [m|]; [|by injection E2 as <-].
    destruct (merges h1 !! m) as [mn|] eqn:Em; [|done]. simpl in E2.
    injection E2 as <-. by apply set_m_sel_getFields. }
  unfold fieldAt. rewrite Hsame.
  destruct (bool_decide (findField (Qualifier cn) (Name cn) tuples 0 = -1))
    eqn:Eb.
  - destruct (pushSelectExpr node _ h) as [[[[i1 e1] n1] h3]|] eqn:Ep;
      [|done]. simpl in E1. injection E1 as <- <- <-.
    destruct e1 as [e|].
    + destruct (pushSelectExpr_fail _ _ _ _ _ _ _ Ep) as (-> & -> & _ & ? & _).
      by left.
    + destruct (pushSelectExpr_grow _ _ _ _ _ _ _ Ep) as (_ & _ & Hf).
      destruct (Hf eq_refl) as (fs & Hfs & Hfs' & ->). right.
      eexists _, _. split; [done|]. split; [lia|]. rewrite Nat2Z.id.
      split; [by apply list_lookup_middle|]. done.
  - injection E1 as <- <- <-. apply bool_decide_eq_false in Eb.
    destruct (findField_spec (Qualifier cn) (Name cn) tuples 0 _
                ltac:(lia) eq_refl) as [?|(t & Hk & Hl & Hr & Hn)]; [done|].
    rewrite Z.sub_0_r in Hl. right. by exists tuples, t.
Qed.

Lemma handleJoinOn_step_keys lok rok join j l r h j' l' r' h' :
  handleJoinOn_step lok rok join (j, l, r, h) = Some (j', l', r', h') →
  ∃ lk rk,
    LeftKeys j' = LeftKeys j ++ [lk] ∧ RightKeys j' = RightKeys j ++ [rk]
    ∧ keyOf (cols h) l' h' (jt_left join) lk
    ∧ keyOf (cols h) r' h' (jt_right join) rk.
Proof.
  unfold handleJoinOn_step. intros Hs.
  destruct (buildOrderBy _ l h) as [[[leftKey l1] h1]|] eqn:E1;
    simpl in Hs; [|done].
  pose proof (buildOrderBy_key _ _ _ _ _ _ E1) as Hk1.
  destruct (buildOrderBy_grow _ _ _ _ _ _ E1) as [Hg1 Ht1].
  match type of Hs with
  | mbind _ ?o = _ => destruct o as [j1|] eqn:Ej1; simpl in Hs; [|done]
  end.
  assert (LeftKeys j1 = LeftKeys j ∧ RightKeys j1 = RightKeys j) as [Hl1 Hr1].
  { destruct (lok && negb (LeftUnique j)); [|by injection Ej1 as <-].
    destruct (tableInfo _ _ h1); [|done]. simpl in Ej1. injection Ej1 as <-.
    by destruct j. }
  destruct (buildOrderBy _ r h1) as [[[rightKey r1] h2]|] eqn:E2;
    simpl in Hs; [|done].
  pose proof (buildOrderBy_key _ _ _ _ _ _ E2) as Hk2.
  destruct (buildOrderBy_grow _ _ _ _ _ _ E2) as [Hg2 Ht2].
  match type of Hs with
  | mbind _ ?o = _ => destruct o as [j3|] eqn:Ej3; simpl in Hs; [|done]
  end.
  assert (LeftKeys j3 = LeftKeys j1 ++ [leftKey]
          ∧ RightKeys j3 = RightKeys j1) as [Hl3 Hr3].
  { destruct (rok && negb (RightUnique _)).
    - destruct (tableInfo _ _ h2); [|done]. simpl in Ej3. injection Ej3 as <-.
      by destruct j1.
    - injection Ej3 as <-. by destruct j1. }
  injection Hs as <- <- <- <-. exists leftKey, rightKey.
  split; [destruct j3; simpl in *; congruence|].
  split; [destruct j3; simpl in *; congruence|].
  split.
  - apply (keyOf_grow _ l1 l1 h1 h2); [done|reflexivity|done].
  - destruct Hg1 as (<- & _). done.
Qed.

Lemma handleJoinOn_loop_keys lok rok joins j l r h j' l' r' h' :
  foldM (handleJoinOn_step lok rok) joins (j, l, r, h) = Some (j', l', r', h') →
  ∃ lks rks,
    LeftKeys j' = LeftKeys j ++ lks ∧ RightKeys j' = RightKeys j ++ rks
    ∧ Forall2 (keyOf (cols h) l' h') (jt_left <$> joins) lks
    ∧ Forall2 (keyOf (cols h) r' h') (jt_right <$> joins) rks.
Proof.
  revert j l r h. induction joins as [|join joins IH]; intros j l r h Hf;
    simpl in Hf.
  - injection Hf as <- <- <- <-. exists [], []. rewrite !app_nil_r.
    repeat split; constructor.
  - destruct (handleJoinOn_step lok rok join (j, l, r, h))
      as [[[[j1 l1] r1] h1]|] eqn:Es; [|done]. simpl in Hf.
    destruct (handleJoinOn_step_keys _ _ _ _ _ _ _ _ _ _ _ Es)
      as (lk & rk & Hl & Hr & Hkl & Hkr).
    destruct (handleJoinOn_step_grow _ _ _ _ _ Es) as (_ & _ & _ & Hg1).
    simpl in Hg1.
    pose proof Hf as Hf'.
    apply (foldM_rel state_grow) in Hf'; [|apply handleJoinOn_step_grow].
    destruct Hf' as (_ & Htl & Htr & Hg). simpl in Htl, Htr, Hg.
    destruct (IH _ _ _ _ Hf) as (lks & rks & Hl2 & Hr2 & Hall & Halr).
    exists (lk :: lks), (rk :: rks).
    split; [by rewrite Hl2, Hl, <- app_assoc|].
    split; [by rewrite Hr2, Hr, <- app_assoc|].
    destruct Hg1 as (Hc & _). rewrite Hc in Hall, Halr.
    split; constructor; try done; by eapply keyOf_grow.
Qed.

(** X17: [handleJoinOn] appends one key to [LeftKeys] and one to
    [RightKeys] for each join-on, in order.  The key carries the names of
    the column of its side, and its index is the position of a projection
    of that column in the fields of that child; the index is [-1] only
    when the child is a JoinNode that refused the projection, whose error
    [buildOrderBy] drops. *)
Theorem handleJoinOn_keys j l r h j' l' r' h' :
  handleJoinOn (Join j l r) h = Some (Join j' l' r', h') →
  ∃ lks rks,
    LeftKeys j' = LeftKeys j ++ lks ∧ RightKeys j' = RightKeys j ++ rks
    ∧ Forall2 (keyOf (cols h) l' h') (jt_left <$> joinOn j) lks
    ∧ Forall2 (keyOf (cols h) r' h') (jt_right <$> joinOn j) rks.
Proof.
  intros Hj. simpl in Hj.
  match type of Hj with
  | mbind _ ?o = _ => destruct o as [[l1 h1]|] eqn:El; simpl in Hj; [|done]
  end.
  match type of Hj with
  | mbind _ ?o = _ => destruct o as [[r1 h2]|] eqn:Er; simpl in Hj; [|done]
  end.
  match type of Hj with
  | mbind _ ?o = _ =>
      destruct o as [[[[j3 l3] r3] h3]|] eqn:Ef; simpl in Hj; [|done]
  end.
  injection Hj as <- <- <- <-.
  assert (heap_grow h h1) as Hg1.
  { destruct (isMerge l); [injection El as <- <-; reflexivity|].
    by apply handleJoinOn_grow in El as [? _]. }
  assert (heap_grow h1 h2) as Hg2.
  { destruct (isMerge r); [injection Er as <- <-; reflexivity|].
    by apply handleJoinOn_grow in Er as [? _]. }
  destruct (handleJoinOn_loop_keys _ _ _ _ _ _ _ _ _ _ _ Ef)
    as (lks & rks & ? & ? & Hl & Hr).
  destruct Hg1 as (Hc1 & _). destruct Hg2 as (Hc2 & _).
  rewrite Hc2, Hc1 in Hl, Hr. by exists lks, rks.
Qed.

(** ** The ORDER BY that [handleJoinOn] gives to a Merge child *)

(** Every Merge of the store is still there, with the ORDER BY it had
    followed by [added m]. *)
Definition ordersGrow (added : Ptr → list Order) (h h' : Heap) : Prop :=
  ∀ m mn, merges h !! m = Some mn →
    ∃ mn', merges h' !! m = Some mn'
           ∧ OrderBy (m_sel mn') = OrderBy (m_sel mn) ++ added m.

Lemma ordersGrow_refl h : ordersGrow (λ _, []) h h.
Proof. intros m mn Hm. exists mn. by rewrite app_nil_r. Qed.

Lemma ordersGrow_trans a1 a2 h1 h2 h3 :
  ordersGrow a1 h1 h2 → ordersGrow a2 h2 h3 →
  ordersGrow (λ m, a1 m ++ a2 m) h1 h3.
Proof.
  intros H12 H23 m mn Hm. destruct (H12 _ _ Hm) as (mn2 & Hm2 & Ho2).
  destruct (H23 _ _ Hm2) as (mn3 & Hm3 & Ho3). exists mn3.
  split; [done|]. by rewrite Ho3, Ho2, app_assoc.
Qed.

Lemma ordersGrow_ext a1 a2 h h' :
  (∀ m, a1 m = a2 m) → ordersGrow a1 h h' → ordersGrow a2 h h'.
Proof.
  intros He H m mn Hm. destruct (H _ _ Hm) as (mn' & ? & ?). exists mn'.
  by rewrite <- He.
Qed.

Lemma pushSelectExpr_orders n field h index err n' h' :
  pushSelectExpr n field h = Some (index, err, n', h') →
  ordersGrow (λ _, []) h h' ∧ leaves n' = leaves n.
Proof.
  revert index err n' h'. induction n as [m|j l IHl r IHr];
    intros index err n' h' Hp; simpl in Hp.
  - unfold MergeNode_pushSelectExpr in Hp.
    destruct (merges h !! m) as [mn|] eqn:Em; [|done]. simpl in Hp.
    injection Hp as <- <- <- <-. split; [|done].
    intros m0 mn0 Hm0. simpl. destruct (decide (m0 = m)) as [->|Hne].
    + rewrite lookup_insert_eq. eexists. split; [done|].
      rewrite app_nil_r. rewrite Em in Hm0. injection Hm0 as <-.
      destruct mn as [? ? ? [] ? ? ? ? ? ? ?]. done.
    + rewrite lookup_insert_ne by done. exists mn0. by rewrite app_nil_r.
  - destruct (getReferredTables l h) as [ltbs|]; [|done]. simpl in Hp.
    destruct (checkTbInNode (sel_referTables field) ltbs).
    { destruct (pushSelectExpr l field h) as [[[[i e] l1] h1]|] eqn:El;
        [|done]. simpl in Hp.
      destruct (IHl _ _ _ _ eq_refl) as (Ho & Hlv).
      destruct e; injection Hp as <- <- <- <-; simpl; by rewrite Hlv. }
    destruct (getReferredTables r h) as [rtbs|]; [|done]. simpl in Hp.
    destruct (checkTbInNode (sel_referTables field) rtbs).
    { destruct (pushSelectExpr r field h) as [[[[i e] r1] h1]|] eqn:Er;
        [|done]. simpl in Hp.
      destruct (IHr _ _ _ _ eq_refl) as (Ho & Hlv).
      destruct e; injection Hp as <- <- <- <-; simpl; by rewrite Hlv. }
    destruct (Format_SelectExpr (cols h) (sel_expr field)); [|done].
    injection Hp as <- <- <- <-. split; [apply ordersGrow_refl|done].
Qed.

(** The ordering that [buildOrderBy] adds to the Merge [m] when it is
    called for the column [col] on the node [n]. *)
Definition orderOn (n : PlanNode) (col : Ptr) (m : Ptr) : list Order :=
  match n with
  | Merge m' =>
      if bool_decide (m' = m) then [mkOrder (ColNameE col) AscScr] else []
  | Join _ _ _ => []
  end.

Lemma orderOn_top n n' col m :
  top_grow n n' → orderOn n' col m = orderOn n col m.
Proof. destruct n, n'; simpl; try done. by intros ->. Qed.

Lemma buildOrderBy_orders col n h key n' h' :
  buildOrderBy col n h = Some (key, n', h') →
  ordersGrow (orderOn n col) h h' ∧ leaves n' = leaves n.
Proof.
  unfold buildOrderBy. intros Hb.
  destruct (cols h !! col) as [cn|] eqn:Ec; [|done]. simpl in Hb.
  destruct (getFields n h) as [tuples|] eqn:Ef; [|done]. simpl in Hb.
  match type of Hb with
  | mbind _ ?o = _ =>
      destruct o as [[[index1 node1] h1]|] eqn:E1; simpl in Hb; [|done]
  end.
  match type of Hb with
  | mbind _ ?o = _ => destruct o as [h2|] eqn:E2; simpl in Hb; [|done]
  end.
  injection Hb as <- <- <-.
  assert (ordersGrow (λ _, []) h h1 ∧ leaves node1 = leaves n
          ∧ top_grow n node1) as (Ho1 & Hlv & Ht).
  { destruct (bool_decide _).
    - destruct (pushSelectExpr n _ h) as [[[[i1 e1] n1] h3]|] eqn:Ep; [|done].
      simpl in E1. injection E1 as <- <- <-.
      destruct (pushSelectExpr_grow _ _ _ _ _ _ _ Ep) as (_ & ? & _).
      by apply pushSelectExpr_orders in Ep as [? ?].
    - injection E1 as <- <- <-. split; [apply ordersGrow_refl|].
      split; [done|reflexivity]. }
  split; [|done].
  assert (ordersGrow (orderOn node1 col) h1 h2) as Ho2.
  { destruct node1 as [m|j l r].
    - destruct (merges h1 !! m) as [mn|] eqn:Em; [|done]. simpl in E2.
      injection E2 as <-. intros m0 mn0 Hm0. simpl.
      destruct (decide (m0 = m)) as [->|Hne].
      + rewrite lookup_insert_eq, bool_decide_eq_true_2 by done.
        eexists. split; [done|]. rewrite Em in Hm0. injection Hm0 as <-.
        destruct mn as [? ? ? [] ? ? ? ? ? ? ?]. done.
      + rewrite lookup_insert_ne, bool_decide_eq_false_2 by done.
        exists mn0. by rewrite app_nil_r.
    - injection E2 as <-. apply ordersGrow_refl. }
  eapply ordersGrow_ext; [|eapply ordersGrow_trans; [exact Ho1|exact Ho2]].
  intros m. simpl. by apply orderOn_top.
Qed.

Lemma handleJoinOn_step_orders lok rok join j l r h j' l' r' h' :
  handleJoinOn_step lok rok join (j, l, r, h) = Some (j', l', r', h') →
  ordersGrow (λ m, orderOn l (jt_left join) m ++ orderOn r (jt_right join) m)
    h h'
  ∧ leaves l' = leaves l ∧ leaves r' = leaves r.
Proof.
  unfold handleJoinOn_step. intros Hs.
  destruct (buildOrderBy _ l h) as [[[leftKey l1] h1]|] eqn:E1;
    simpl in Hs; [|done].
  destruct (buildOrderBy_orders _ _ _ _ _ _ E1) as (Ho1 & Hl1).
  match type of Hs with
  | mbind _ ?o = _ => destruct o as [j1|] eqn:Ej1; simpl in Hs; [|done]
  end.
  destruct (buildOrderBy _ r h1) as [[[rightKey r1] h2]|] eqn:E2;
    simpl in Hs; [|done].
  destruct (buildOrderBy_orders _ _ _ _ _ _ E2) as (Ho2 & Hl2).
  match type of Hs with
  | mbind _ ?o = _ => destruct o as [j3|] eqn:Ej3; simpl in Hs; [|done]
  end.
  injection Hs as <- <- <- <-.
  split; [by eapply ordersGrow_trans|done].
Qed.

(** The orderings that the loop of [handleJoinOn] adds to the Merge [m]. *)
Definition ordersOn (l r : PlanNode) (joins : list joinTuple) (m : Ptr)
  : list Order :=
  flat_map (λ join, orderOn l (jt_left join) m ++ orderOn r (jt_right join) m)
    joins.

Lemma handleJoinOn_loop_orders lok rok joins j l r h j' l' r' h' :
  foldM (handleJoinOn_step lok rok) joins (j, l, r, h) = Some (j', l', r', h') →
  ordersGrow (ordersOn l r joins) h h'
  ∧ leaves l' = leaves l ∧ leaves r' = leaves r.
Proof.
  revert j l r h. induction joins as [|join joins IH]; intros j l r h Hf;
    simpl in Hf.
  - injection Hf as <- <- <- <-. split; [apply ordersGrow_refl|done].
  - destruct (handleJoinOn_step lok rok join (j, l, r, h))
      as [[[[j1 l1] r1] h1]|] eqn:Es; [|done]. simpl in Hf.
    destruct (handleJoinOn_step_orders _ _ _ _ _ _ _ _ _ _ _ Es)
      as (Ho & Hl & Hr).
    destruct (handleJoinOn_step_grow _ _ _ _ _ Es) as (_ & Htl & Htr & _).
    simpl in Htl, Htr.
    destruct (IH _ _ _ _ Hf) as (Ho2 & Hl2 & Hr2).
    split; [|split; congruence].
    eapply ordersGrow_ext; [|eapply ordersGrow_trans; [exact Ho|exact Ho2]].
    intros m. unfold ordersOn. simpl. f_equal.
    apply flat_map_ext. intros join0.
    by rewrite (orderOn_top l l1), (orderOn_top r r1).
Qed.

Lemma orderOn_not_leaf n col m : m ∉ leaves n → orderOn n col m = [].
Proof.
  destruct n as [m0|j l r]; simpl; [|done]. intros Hn.
  rewrite bool_decide_eq_false_2; [done|]. intros ->. apply Hn.
  apply list_elem_of_here.
Qed.

(** Below a node, [handleJoinOn] leaves the ORDER BY of the Merges that
    are not leaves of the node. *)
Lemma handleJoinOn_orders n h n' h' :
  handleJoinOn n h = Some (n', h') →
  leaves n' = leaves n
  ∧ ∀ m mn, m ∉ leaves n → merges h !! m = Some mn →
      ∃ mn', merges h' !! m = Some mn'
             ∧ OrderBy (m_sel mn') = OrderBy (m_sel mn).
Proof.
  revert h n' h'. induction n as [m0|j l IHl r IHr]; intros h n' h' Hj;
    simpl in Hj; [done|].
  match type of Hj with
  | mbind _ ?o = _ => destruct o as [[l1 h1]|] eqn:El; simpl in Hj; [|done]
  end.
  match type of Hj with
  | mbind _ ?o = _ => destruct o as [[r1 h2]|] eqn:Er; simpl in Hj; [|done]
  end.
  match type of Hj with
  | mbind _ ?o = _ =>
      destruct o as [[[[j3 l3] r3] h3]|] eqn:Ef; simpl in Hj; [|done]
  end.
  injection Hj as <- <-.
  assert (Hl : leaves l1 = leaves l
               ∧ ∀ m mn, m ∉ leaves l → merges h !! m = Some mn →
                   ∃ mn', merges h1 !! m = Some mn'
                          ∧ OrderBy (m_sel mn') = OrderBy (m_sel mn)).
  { destruct (isMerge l); [|by apply IHl].
    injection El as <- <-. split; [done|]. eauto. }
  assert (Hr : leaves r1 = leaves r
               ∧ ∀ m mn, m ∉ leaves r → merges h1 !! m = Some mn →
                   ∃ mn', merges h2 !! m = Some mn'
                          ∧ OrderBy (m_sel mn') = OrderBy (m_sel mn)).
  { destruct (isMerge r); [|by apply IHr].
    injection Er as <- <-. split; [done|]. eauto. }
  destruct Hl as [Hll Hl]. destruct Hr as [Hlr Hr].
  destruct (handleJoinOn_loop_orders _ _ _ _ _ _ _ _ _ _ _ Ef)
    as (Ho & Hl3 & Hr3).
  split; [simpl; congruence|].
  intros m mn Hn Hm. simpl in Hn.
  apply not_elem_of_app in Hn as [Hnl Hnr].
  destruct (Hl _ _ Hnl Hm) as (mn1 & Hm1 & Ho1).
  destruct (Hr _ _ Hnr Hm1) as (mn2 & Hm2 & Ho2).
  destruct (Ho _ _ Hm2) as (mn3 & Hm3 & Ho3).
  exists mn3. split; [done|]. rewrite Ho3, Ho2, Ho1.
  unfold ordersOn. rewrite <- Hll in Hnl. rewrite <- Hlr in Hnr.
  clear -Hnl Hnr. induction (joinOn j) as [|join joins IH]; simpl.
  - by rewrite app_nil_r.
  - rewrite !orderOn_not_leaf by done. simpl. exact IH.
Qed.

Lemma ordersOn_left lp r joins :
  lp ∉ leaves r →
  ordersOn (Merge lp) r joins lp
  = (λ join, mkOrder (ColNameE (jt_left join)) AscScr) <$> joins.
Proof.
  intros Hn. unfold ordersOn. induction joins as [|join joins IH]; [done|].
  rewrite fmap_cons. cbn [flat_map]. rewrite IH.
  rewrite (orderOn_not_leaf r) by done. simpl.
  by rewrite bool_decide_eq_true_2.
Qed.

Lemma ordersOn_right l rp joins :
  rp ∉ leaves l →
  ordersOn l (Merge rp) joins rp
  = (λ join, mkOrder (ColNameE (jt_right join)) AscScr) <$> joins.
Proof.
  intros Hn. unfold ordersOn. induction joins as [|join joins IH]; [done|].
  rewrite fmap_cons. cbn [flat_map]. rewrite IH.
  rewrite (orderOn_not_leaf l) by done. simpl.
  by rewrite bool_decide_eq_true_2.
Qed.

(** X18: When the left child is a Merge that is not a leaf of the right
    child, [handleJoinOn] appends to its ORDER BY, for each join-on in
    order, the left column of the join-on in ascending direction, and
    nothing else; the same holds of a right child that is a Merge, with
    the right columns. *)
Theorem handleJoinOn_orderBy j l r h n' h' :
  handleJoinOn (Join j l r) h = Some (n', h') →
  (∀ lp mn, l = Merge lp → lp ∉ leaves r → merges h !! lp = Some mn →
     ∃ mn', merges h' !! lp = Some mn'
       ∧ OrderBy (m_sel mn')
         = OrderBy (m_sel mn)
           ++ ((λ join, mkOrder (ColNameE (jt_left join)) AscScr)
                 <$> joinOn j))
  ∧ (∀ rp mn, r = Merge rp → rp ∉ leaves l → merges h !! rp = Some mn →
       ∃ mn', merges h' !! rp = Some mn'
         ∧ OrderBy (m_sel mn')
           = OrderBy (m_sel mn)
             ++ ((λ join, mkOrder (ColNameE (jt_right join)) AscScr)
                   <$> joinOn j)).
Proof.
  intros Hj. simpl in Hj.
  match type of Hj with
  | mbind _ ?o = _ => destruct o as [[l1 h1]|] eqn:El; simpl in Hj; [|done]
  end.
  match type of Hj with
  | mbind _ ?o = _ => destruct o as [[r1 h2]|] eqn:Er; simpl in Hj; [|done]
  end.
  match type of Hj with
  | mbind _ ?o = _ =>
      destruct o as [[[[j3 l3] r3] h3]|] eqn:Ef; simpl in Hj; [|done]
  end.
  injection Hj as <- <-.
  destruct (handleJoinOn_loop_orders _ _ _ _ _ _ _ _ _ _ _ Ef)
    as (Ho & _ & _).
  split.
  - intros lp mn -> Hn Hm. simpl in El. injection El as <- <-.
    assert (∃ mn2, merges h2 !! lp = Some mn2
                   ∧ OrderBy (m_sel mn2) = OrderBy (m_sel mn)
                   ∧ lp ∉ leaves r1) as (mn2 & Hm2 & Ho2 & Hn1).
    { destruct (isMerge r).
      - injection Er as <- <-. by exists mn.
      - destruct (handleJoinOn_orders _ _ _ _ Er) as [Hlv Hfr].
        destruct (Hfr _ _ Hn Hm) as (mn2 & ? & ?). exists mn2.
        by rewrite Hlv. }
    destruct (Ho _ _ Hm2) as (mn3 & Hm3 & Ho3). exists mn3.
    split; [done|]. by rewrite Ho3, Ho2, ordersOn_left.
  - intros rp mn -> Hn Hm. simpl in Er. injection Er as <- <-.
    assert (∃ mn1, merges h1 !! rp = Some mn1
                   ∧ OrderBy (m_sel mn1) = OrderBy (m_sel mn)
                   ∧ rp ∉ leaves l1) as (mn1 & Hm1 & Ho1 & Hn1).
    { destruct (isMerge l).
      - injection El as <- <-. by exists mn.
      - destruct (handleJoinOn_orders _ _ _ _ El) as [Hlv Hfr].
        destruct (Hfr _ _ Hn Hm) as (mn1 & ? & ?). exists mn1.
        by rewrite Hlv. }
    destruct (Ho _ _ Hm1) as (mn3 & Hm3 & Ho3). exists mn3.
    split; [done|]. by rewrite Ho3, Ho1, ordersOn_right.
Qed.

(** ** [pushOtherFilters] *)

(** What a [Comparison] of [CmpFilter] says of the residual predicate
    [expr], read in the children [l] and [r]: the operator, and the
    positions in the fields of [l] and of [r] of the projections of the
    two operands, which [Exchange] says were swapped. *)
Definition cmpOf (cs : gmap Ptr ColName) (l r : PlanNode) (h : Heap)
    (expr : Expr) (c : Comparison) : Prop :=
  ∃ op a b ta tb,
    expr = ComparisonExpr op a b ∧ cmp_Operator c = op
    ∧ getTbInExpr cs a = Some ta ∧ getTbInExpr cs b = Some tb
    ∧ if Exchange c
      then fieldAt l h (cmp_Left c) (projected cs b tb)
           ∧ fieldAt r h (cmp_Right c) (projected cs a ta)
      else fieldAt l h (cmp_Left c) (projected cs a ta)
           ∧ fieldAt r h (cmp_Right c) (projected cs b tb).

Lemma cmpOf_grow cs l l' r r' h h' expr c :
  heap_grow h h' → top_grow l l' → top_grow r r' →
  cmpOf cs l r h expr c → cmpOf cs l' r' h' expr c.
Proof.
  intros Hg Hl Hr (op & a & b & ta & tb & ? & ? & ? & ? & H).
  exists op, a, b, ta, tb. do 4 (split; [done|]).
  destruct (Exchange c); destruct H as [Ha Hb]; split; by eapply fieldAt_grow.
Qed.

Lemma pushOtherFilter_at expr node tbs idx h index node' idx' h' :
  pushOtherFilter expr node tbs idx h = Some (index, None, node', idx', h') →
  fieldAt node' h' index (projected (cols h) expr tbs).
Proof.
  intros H. destruct (pushOtherFilter_spec _ _ _ _ _ _ _ _ _ _ H)
    as (_ & _ & Hp). destruct (Hp eq_refl) as (fs & t & ? & ? & ? & ?).
  by exists fs, t.
Qed.

Lemma pushComparison_spec op exch a ta b tb j l r idx h j' l' r' idx' h' :
  pushComparison op exch a ta b tb (j, l, r, idx, h)
    = Some (None, (j', l', r', idx', h')) →
  ∃ lidx ridx,
    j' = set_CmpFilter (CmpFilter j ++ [mkComparison lidx ridx op exch]) j
    ∧ fieldAt l' h' lidx (projected (cols h) a ta)
    ∧ fieldAt r' h' ridx (projected (cols h) b tb).
Proof.
  unfold pushComparison. intros Hb.
  destruct (pushOtherFilter a l ta idx h) as [[[[[li e0] l1] i1] h1]|] eqn:E5;
    simpl in Hb; [|done].
  destruct e0 as [e0|]; [done|].
  destruct (pushOtherFilter b r tb i1 h1) as [[[[[ri e1] r1] i2] h2]|] eqn:E6;
    simpl in Hb; [|done].
  destruct e1 as [e1|]; [done|]. injection Hb as <- <- <- <- <-.
  exists li, ri. split; [done|].
  destruct (pushOtherFilter_spec _ _ _ _ _ _ _ _ _ _ E5) as ((Hc & _) & _ & _).
  destruct (pushOtherFilter_spec _ _ _ _ _ _ _ _ _ _ E6) as (Hg2 & _ & _).
  split.
  - apply (fieldAt_grow l1 l1 h1 h2); [done|reflexivity|].
    by apply pushOtherFilter_at in E5.
  - rewrite <- Hc. by apply pushOtherFilter_at in E6.
Qed.

Lemma pushOtherFilters_step_spec expr j l r idx h j' l' r' idx' h' :
  pushOtherFilters_step expr (j, l, r, idx, h)
    = Some (None, (j', l', r', idx', h')) →
  ∃ c, j' = set_CmpFilter (CmpFilter j ++ [c]) j
       ∧ cmpOf (cols h) l' r' h' expr c.
Proof.
  unfold pushOtherFilters_step. intros Hs.
  assert (Herr : ∀ s, clauseError (cols h) expr ≫= (λ e, Some (Some e, s))
                      ≠ Some (None, (j', l', r', idx', h'))).
  { intros s He. destruct (clauseError (cols h) expr); done. }
  destruct expr as [c|v| |op el er|op e|el er]; try (by apply Herr in Hs).
  destruct (getTbInExpr (cols h) el) as [ta|] eqn:Ea; [|done]. simpl in Hs.
  destruct (getTbInExpr (cols h) er) as [tb|] eqn:Eb; [|done]. simpl in Hs.
  destruct (getReferredTables l h) as [ltb|]; [|done]. simpl in Hs.
  destruct (getReferredTables r h) as [rtb|]; [|done]. simpl in Hs.
  destruct (checkTbInNode ta ltb && checkTbInNode tb rtb).
  { destruct (pushComparison_spec _ _ _ _ _ _ _ _ _ _ _ _ _ _ _ _ Hs)
      as (li & ri & -> & Hl & Hr).
    eexists. split; [done|]. exists op, el, er, ta, tb. simpl. done. }
  destruct (checkTbInNode ta rtb && checkTbInNode tb ltb);
    [|by apply Herr in Hs].
  destruct (pushComparison_spec _ _ _ _ _ _ _ _ _ _ _ _ _ _ _ _ Hs)
    as (li & ri & -> & Hl & Hr).
  eexists. split; [done|]. exists op, el, er, ta, tb. simpl. done.
Qed.

Lemma CmpFilter_set_CmpFilter v j : CmpFilter (set_CmpFilter v j) = v.
Proof. by destruct j. Qed.

Lemma LeftTmpCols_set_CmpFilter v j :
  LeftTmpCols (set_CmpFilter v j) = LeftTmpCols j.
Proof. by destruct j. Qed.

Lemma pushOtherFilters_loop filters j l r idx h j' l' r' idx' h' :
  foldE pushOtherFilters_step filters (j, l, r, idx, h)
    = Some (None, (j', l', r', idx', h')) →
  ∃ cmps, j' = set_CmpFilter (CmpFilter j ++ cmps) j
          ∧ Forall2 (cmpOf (cols h) l' r' h') filters cmps.
Proof.
  revert j l r idx h. induction filters as [|expr filters IH];
    intros j l r idx h Hf; simpl in Hf.
  - injection Hf as <- <- <- <- <-. exists []. rewrite app_nil_r.
    split; [by destruct j|constructor].
  - destruct (pushOtherFilters_step expr (j, l, r, idx, h))
      as [[e [[[[j1 l1] r1] idx1] h1]]|] eqn:Es; simpl in Hf; [|done].
    destruct e as [e|]; [done|].
    destruct (pushOtherFilters_step_spec _ _ _ _ _ _ _ _ _ _ _ Es)
      as (c & -> & Hc).
    destruct (pushOtherFilters_step_grow _ _ _ _ Es) as (_ & _ & _ & Hg1).
    simpl in Hg1.
    pose proof Hf as Hf'.
    apply (foldE_rel others_grow) in Hf'; [|apply pushOtherFilters_step_grow].
    destruct Hf' as (_ & Htl & Htr & Hg). simpl in Htl, Htr, Hg.
    destruct (IH _ _ _ _ _ Hf) as (cmps & -> & Hall).
    exists (c :: cmps). split.
    + rewrite CmpFilter_set_CmpFilter, <- app_assoc. by destruct j.
    + destruct Hg1 as (Hcols & _). rewrite Hcols in Hall.
      constructor; [by eapply cmpOf_grow|done].
Qed.

(** X19: When [pushOtherFilters] succeeds, every predicate of the list
    was a binary comparison, and [CmpFilter] has received one entry for
    each, in order, with the operator of the predicate and the positions,
    in the fields of the left and of the right child, of the projections
    of its two operands; [Exchange] is set when the left operand is the
    one projected in the right child. *)
Theorem pushOtherFilters_CmpFilter filters j l r idx h j' l' r' idx' h' :
  pushOtherFilters filters (j, l, r, idx, h)
    = Some (None, (j', l', r', idx', h')) →
  ∃ cmps, CmpFilter j' = CmpFilter j ++ cmps
          ∧ Forall2 (cmpOf (cols h) l' r' h') filters cmps.
Proof.
  intros H. destruct (pushOtherFilters_loop _ _ _ _ _ _ _ _ _ _ _ H)
    as (cmps & -> & Hall).
  exists cmps. by rewrite CmpFilter_set_CmpFilter.
Qed.

(** ** [pushOtherJoin] *)

Lemma pushOtherJoin_left_loop fields j l r idx h j' l' r' idx' h' :
  foldE pushOtherJoin_left fields (j, l, r, idx, h)
    = Some (None, (j', l', r', idx', h')) →
  ∃ idxs, j' = set_LeftTmpCols (LeftTmpCols j ++ idxs) j
          ∧ Forall2 (λ field index, fieldAt l' h' index (λ t, t = field))
              fields idxs.
Proof.
  revert j l r idx h. induction fields as [|field fields IH];
    intros j l r idx h Hf; simpl in Hf.
  - injection Hf as <- <- <- <- <-. exists []. rewrite app_nil_r.
    split; [by destruct j|constructor].
  - destruct (pushOtherJoin_left field (j, l, r, idx, h))
      as [[e [[[[j1 l1] r1] idx1] h1]]|] eqn:Es; simpl in Hf; [|done].
    destruct e as [e|]; [done|].
    pose proof Hf as Hf'.
    apply (foldE_rel others_grow) in Hf'; [|apply pushOtherJoin_left_grow].
    destruct Hf' as (_ & Htl & _ & Hg). simpl in Htl, Hg.
    destruct (IH _ _ _ _ _ Hf) as (idxs & -> & Hall).
    unfold pushOtherJoin_left in Es.
    destruct (pushSelectExpr l field h) as [[[[i e] l2] h2]|] eqn:Ep;
      simpl in Es; [|done].
    destruct e as [e|]; [done|]. injection Es as <- <- <- <- <-.
    exists (i :: idxs). split.
    + destruct j; simpl. by rewrite <- app_assoc.
    + constructor; [|done]. apply (fieldAt_grow l2 l' h2 h'); [done|done|].
      destruct (pushSelectExpr_grow _ _ _ _ _ _ _ Ep) as (_ & _ & Hfs).
      destruct (Hfs eq_refl) as (fs & _ & Hfs' & ->).
      exists (fs ++ [field]), field. split; [done|]. split; [lia|].
      rewrite Nat2Z.id. split; [by apply list_lookup_middle|done].
Qed.

Lemma pushOtherJoin_right_has filter s err s' :
  pushOtherJoin_right filter s = Some (err, s') →
  s'.1 = s.1
  ∧ (∀ m e, hasFilter s.2 m e → hasFilter s'.2 m e)
  ∧ (err = None → ∃ m, hasFilter s'.2 m (f_expr filter)).
Proof.
  destruct s as [[[[j l] r] idx] h]. unfold pushOtherJoin_right. intros H.
  destruct (foldM _ _ _) as [parent|]; [|done]. simpl in H.
  assert (Herr : (sql ← Format (cols h) (f_expr filter);
                  Some (Some ("unsupported: on.clause.'" +:+ sql
                              +:+ "'.in.cross-shard.join"), (j, l, r, idx, h)))
                 = Some (err, s') →
                 s'.1 = (j, l, r, idx)
                 ∧ (∀ m e, hasFilter h m e → hasFilter s'.2 m e)
                 ∧ (err = None → ∃ m, hasFilter s'.2 m (f_expr filter))).
  { intros He. destruct (Format (cols h) (f_expr filter)); [|done].
    injection He as <- <-. done. }
  destruct parent as [[m|a]|]; [|by apply Herr..].
  destruct (MergeNode_setWhereFilter m (f_expr filter) h) as [h1|] eqn:Es;
    [|done]. simpl in H. injection H as <- <-. simpl.
  destruct (MergeNode_setWhereFilter_has _ _ _ _ Es) as [? ?].
  split; [done|]. split; [done|]. intros _. by exists m.
Qed.

Lemma pushOtherJoin_right_loop filters s s' :
  foldE pushOtherJoin_right filters s = Some (None, s') →
  s'.1 = s.1
  ∧ (∀ m e, hasFilter s.2 m e → hasFilter s'.2 m e)
  ∧ ∀ f, f ∈ filters → ∃ m, hasFilter s'.2 m (f_expr f).
Proof.
  revert s. induction filters as [|filter filters IH]; intros s Hf;
    simpl in Hf.
  - injection Hf as <-. split; [done|]. split; [done|].
    intros f Hin. by apply elem_of_nil in Hin.
  - destruct (pushOtherJoin_right filter s) as [[e s1]|] eqn:Es; simpl in Hf;
      [|done]. destruct e as [e|]; [done|].
    destruct (pushOtherJoin_right_has _ _ _ _ Es) as (H1 & Hm1 & Hh1).
    destruct (IH _ Hf) as (H2 & Hm2 & Hh2).
    split; [congruence|]. split; [by auto|].
    intros f Hin. apply elem_of_cons in Hin as [->|Hin]; [|by auto].
    destruct (Hh1 eq_refl) as (m & ?). exists m. auto.
Qed.

(** X20: When [pushOtherJoin] succeeds on a node with an [otherJoinOn],
    [LeftTmpCols] has received, for each projection of
    [otherJoinOn.left] in order, the position of that projection in the
    fields of the left child, and the expression of each filter of
    [otherJoinOn.right] is in the filter set of a Merge. *)
Theorem pushOtherJoin_LeftTmpCols j l r idx h j' l' r' idx' h' oj :
  pushOtherJoin (j, l, r, idx, h) = Some (None, (j', l', r', idx', h')) →
  otherJoinOn j = Some oj →
  ∃ idxs,
    LeftTmpCols j' = LeftTmpCols j ++ idxs
    ∧ Forall2 (λ field index, fieldAt l' h' index (λ t, t = field))
        (oj_left oj) idxs
    ∧ ∀ f, f ∈ oj_right oj → ∃ m, hasFilter h' m (f_expr f).
Proof.
  unfold pushOtherJoin. simpl. intros H Hoj. rewrite Hoj in H.
  match type of H with
  | mbind _ ?o = _ =>
      destruct o as [[e [[[[j1 l1] r1] idx1] h1]]|] eqn:E1; simpl in H; [|done]
  end.
  destruct e as [e|]; [done|].
  assert (LeftTmpCols j1 = LeftTmpCols j) as Hj1.
  { destruct (bool_decide _); [|by injection E1 as <- <- <- <- <-].
    destruct (pushOtherFilters_loop _ _ _ _ _ _ _ _ _ _ _ E1) as (? & -> & _).
    apply LeftTmpCols_set_CmpFilter. }
  match type of H with
  | mbind _ ?o = _ => destruct o as [[r2 h2]|] eqn:E2; simpl in H; [|done]
  end.
  match type of H with
  | mbind _ ?o = _ =>
      destruct o as [[e [[[[j3 l3] r3] idx3] h3]]|] eqn:E3; simpl in H; [|done]
  end.
  destruct e as [e|]; [done|].
  destruct (pushOtherJoin_left_loop _ _ _ _ _ _ _ _ _ _ _ E3)
    as (idxs & -> & Hall).
  destruct (pushOtherJoin_right_loop _ _ _ H) as (Hsame & _ & Hright).
  simpl in Hsame, Hright. injection Hsame as -> -> -> ->.
  pose proof H as H'.
  apply (foldE_rel others_grow) in H'; [|apply pushOtherJoin_right_grow].
  destruct H' as (_ & _ & _ & Hg). simpl in Hg.
  exists idxs. split; [destruct j1; simpl in *; congruence|].
  split; [|done].
  eapply Forall2_impl; [exact Hall|]. intros field index Hat.
  apply (fieldAt_grow l3 l3 h3 h'); [done|reflexivity|done].
Qed.

End Projections.

(** * HAVING and ORDER BY *)

Section Clauses.
Context {collab : Collaborators}.

Arguments analyze_step : simpl never.

Lemma foldE_split {A S : Type} (f : A → S → option (error * S)) pre x post
    s s' :
  foldE f (pre ++ x :: post) s = Some (None, s') →
  ∃ s1 s2, foldE f pre s = Some (None, s1) ∧ f x s1 = Some (None, s2)
           ∧ foldE f post s2 = Some (None, s').
Proof.
  revert s. induction pre as [|y pre IH]; intros s H; simpl in H.
  - destruct (f x s) as [[[e|] s2]|] eqn:E; simpl in H; [done| |done].
    by exists s, s2.
  - destruct (f y s) as [[[e|] s0]|] eqn:E; simpl in H; [done| |done].
    destruct (IH _ H) as (s1 & s2 & ? & ? & ?). exists s1, s2.
    simpl. rewrite E. done.
Qed.

(** ** [pushHaving] *)

(** A Merge that holds [e] in its HAVING. *)
Definition hasHaving (h : Heap) (m : Ptr) (e : Expr) : Prop :=
  ∃ mn, merges h !! m = Some mn ∧ e ∈ Having (m_sel mn).

(** What [pushHaving] keeps of the store: the table infos, and what the
    Merges hold in their HAVING. *)
Definition havingKept (h h' : Heap) : Prop :=
  tbInfos h' = tbInfos h ∧ ∀ m e, hasHaving h m e → hasHaving h' m e.

Global Instance havingKept_preorder : PreOrder havingKept.
Proof.
  split.
  - intros h. done.
  - intros h1 h2 h3 [? ?] [? ?]. split; [congruence|auto].
Qed.

Lemma MergeNode_AddHaving_has m e h h' :
  MergeNode_AddHaving m e h = Some h' → havingKept h h' ∧ hasHaving h' m e.
Proof.
  unfold MergeNode_AddHaving. intros H.
  destruct (merges h !! m) as [mn|] eqn:Em; [|done]. simpl in H.
  injection H as <-. split; [split; [done|]|].
  - intros m0 e0 (mn0 & Hm0 & He0). unfold hasHaving. simpl.
    destruct (decide (m0 = m)) as [->|Hne].
    + rewrite lookup_insert_eq. eexists. split; [done|].
      rewrite Em in Hm0. injection Hm0 as <-.
      destruct mn as [? ? ? [] ? ? ? ? ? ? ?]. simpl in *.
      apply elem_of_app. by left.
    + rewrite lookup_insert_ne by done. by exists mn0.
  - unfold hasHaving. simpl. rewrite lookup_insert_eq. eexists.
    split; [done|]. destruct mn as [? ? ? [] ? ? ? ? ? ? ?]. simpl.
    apply elem_of_app. right. apply list_elem_of_here.
Qed.

Lemma MergeNode_pushHaving_has m havings h err h' :
  MergeNode_pushHaving m havings h = Some (err, h') →
  err = None ∧ havingKept h h'
  ∧ ∀ f, f ∈ havings → hasHaving h' m (f_expr f).
Proof.
  unfold MergeNode_pushHaving. intros H.
  destruct (foldM _ havings h) as [h1|] eqn:E; [|done]. simpl in H.
  injection H as <- <-. split; [done|].
  revert h E. induction havings as [|f fs IH]; intros h E; simpl in E.
  - injection E as <-. split; [reflexivity|]. intros f Hf.
    by apply elem_of_nil in Hf.
  - destruct (MergeNode_AddHaving m (f_expr f) h) as [h2|] eqn:Ea; [|done].
    simpl in E. destruct (MergeNode_AddHaving_has _ _ _ _ Ea) as [Hk Hh].
    destruct (IH _ E) as [Hk2 Hh2]. split; [by etrans|].
    intros f0 Hf0. apply elem_of_cons in Hf0 as [->|Hf0]; [|by auto].
    by apply Hk2.
Qed.

(** The body of the loop of [pushHaving] on the node [Join j l r]. *)
Definition pushHaving_step (j : JoinNode) (l r : PlanNode)
    (filter : filterTuple) (h : Heap) : option (error * Heap) :=
  if bool_decide (length (f_referTables filter) = 0%nat) then
    '(_, h1) ← pushHaving l [filter] h;
    '(_, h2) ← pushHaving r [filter] h1;
    Some (None, h2)
  else if bool_decide (length (f_referTables filter) = 1%nat) then
    tb ← head (f_referTables filter);
    tbInfo ← tableInfo (j_referredTables j) tb h;
    h1 ← MergeNode_AddHaving (tb_parent tbInfo) (f_expr filter) h;
    Some (None, h1)
  else
    parent ← foldM (parentOf (Join j l r) (j_referredTables j) h)
               (f_referTables filter) None;
    match parent with
    | Some (MergeRef m) =>
        h1 ← MergeNode_AddHaving m (f_expr filter) h;
        Some (None, h1)
    | _ =>
        sql ← Format (cols h) (f_expr filter);
        Some (Some ("unsupported: havings.'" +:+ sql
                    +:+ "'.in.cross-shard.join"), h)
    end.

Lemma pushHaving_Join j l r havings h :
  pushHaving (Join j l r) havings h = foldE (pushHaving_step j l r) havings h.
Proof. done. Qed.

Arguments pushHaving : simpl never.

Lemma pushHaving_kept n havings h err h' :
  pushHaving n havings h = Some (err, h') → havingKept h h'.
Proof.
  revert havings h err h'. induction n as [m|j l IHl r IHr];
    intros havings h err h' H.
  - by apply MergeNode_pushHaving_has in H as (_ & ? & _).
  - rewrite pushHaving_Join in H. revert H. apply (foldE_rel havingKept).
    clear -IHl IHr. intros f h err h' H. unfold pushHaving_step in H.
    destruct (bool_decide (length (f_referTables f) = 0%nat)).
    { destruct (pushHaving l [f] h) as [[e1 h1]|] eqn:E1; [|done].
      simpl in H.
      destruct (pushHaving r [f] h1) as [[e2 h2]|] eqn:E2; [|done].
      simpl in H. injection H as <- <-. etrans; [by eapply IHl|by eapply IHr]. }
    destruct (bool_decide (length (f_referTables f) = 1%nat)).
    { destruct (head (f_referTables f)); [|done]. simpl in H.
      destruct (tableInfo _ _ h); [|done]. simpl in H.
      destruct (MergeNode_AddHaving _ _ h) as [h1|] eqn:Ea; [|done].
      simpl in H. injection H as <- <-.
      by apply MergeNode_AddHaving_has in Ea as [? _]. }
    destruct (foldM _ _ _) as [parent|]; [|done]. simpl in H.
    assert (Herr : (sql ← Format (cols h) (f_expr f);
                    Some (Some ("unsupported: havings.'" +:+ sql
                                +:+ "'.in.cross-shard.join"), h))
                   = Some (err, h') → havingKept h h').
    { intros He. destruct (Format (cols h) (f_expr f)); [|done].
      injection He as <- <-. reflexivity. }
    destruct parent as [[m|a]|]; [|by apply Herr..].
    destruct (MergeNode_AddHaving m _ h) as [h1|] eqn:Ea; [|done].
    simpl in H. injection H as <- <-.
    by apply MergeNode_AddHaving_has in Ea as [? _].
Qed.

Lemma pushHaving_noTables n f h err h' :
  length (f_referTables f) = 0%nat →
  pushHaving n [f] h = Some (err, h') →
  err = None ∧ ∀ m, m ∈ leaves n → hasHaving h' m (f_expr f).
Proof.
  intros Hf. revert h err h'. induction n as [m|j l IHl r IHr];
    intros h err h' H.
  - apply MergeNode_pushHaving_has in H as (-> & _ & Hh). split; [done|].
    intros m0 Hm0. simpl in Hm0. apply list_elem_of_singleton in Hm0 as ->.
    apply Hh, list_elem_of_here.
  - rewrite pushHaving_Join in H. simpl in H. unfold pushHaving_step in H.
    rewrite bool_decide_eq_true_2 in H by done.
    destruct (pushHaving l [f] h) as [[e1 h1]|] eqn:E1; [|done].
    simpl in H.
    destruct (pushHaving r [f] h1) as [[e2 h2]|] eqn:E2; [|done].
    simpl in H. injection H as <- <-. split; [done|].
    destruct (IHl _ _ _ E1) as [_ Hl]. destruct (IHr _ _ _ E2) as [_ Hr].
    destruct (pushHaving_kept _ _ _ _ _ E2) as [_ Hk].
    intros m Hm. simpl in Hm. apply elem_of_app in Hm as [Hm|Hm]; auto.
Qed.

(** X21: When [pushHaving] of a JoinNode succeeds, a predicate of the
    list without tables is in the HAVING of every Merge leaf of the node,
    and a predicate with one table is in the HAVING of the Merge that
    owns the table. *)
Theorem pushHaving_placed j l r havings h h' f :
  pushHaving (Join j l r) havings h = Some (None, h') →
  f ∈ havings →
  (length (f_referTables f) = 0%nat →
   ∀ m, m ∈ leaves (Join j l r) → hasHaving h' m (f_expr f))
  ∧ (∀ tb ti, f_referTables f = [tb] →
       tableInfo (j_referredTables j) tb h = Some ti →
       hasHaving h' (tb_parent ti) (f_expr f)).
Proof.
  rewrite pushHaving_Join. intros H Hin.
  apply list_elem_of_split in Hin as (pre & post & ->).
  destruct (foldE_split _ _ _ _ _ _ H) as (h1 & h2 & H1 & H2 & H3).
  rewrite <- pushHaving_Join in H1, H3.
  destruct (pushHaving_kept _ _ _ _ _ H1) as [Ht1 _].
  destruct (pushHaving_kept _ _ _ _ _ H3) as [_ Hk3].
  split.
  - intros Hf m Hm. apply Hk3.
    assert (pushHaving (Join j l r) [f] h1 = Some (None, h2)) as Hs.
    { rewrite pushHaving_Join. simpl. by rewrite H2. }
    destruct (pushHaving_noTables _ _ _ _ _ Hf Hs) as [_ Hh]. by apply Hh.
  - intros tb ti Hf Hti. apply Hk3. unfold pushHaving_step in H2.
    rewrite Hf in H2. simpl in H2.
    assert (tableInfo (j_referredTables j) tb h1 = Some ti) as Hti1.
    { unfold tableInfo in *. by rewrite Ht1. }
    rewrite Hti1 in H2. simpl in H2.
    destruct (MergeNode_AddHaving _ _ h1) as [h3|] eqn:Ea; [|done].
    simpl in H2. injection H2 as <-.
    by apply MergeNode_AddHaving_has in Ea as [_ ?].
Qed.

(** ** [OrderByPlan.analyze] *)

(** What an [OrderBy] tuple says of the ordering [o]: the names of its
    column, and [DESC] for [desc], [ASC] for [asc], the empty direction
    otherwise. *)
Definition orderByOf (cs : gmap Ptr ColName) (o : Order) (ob : OrderByT)
  : Prop :=
  ∃ c e, o_Expr o = ColNameE c ∧ cs !! c = Some e
    ∧ ob_Field ob = Name e ∧ ob_Table ob = Qualifier e
    ∧ (o_Direction o = "desc" → ob_Direction ob = DESC)
    ∧ (o_Direction o = "asc" → ob_Direction ob = ASC)
    ∧ (o_Direction o ≠ "desc" → o_Direction o ≠ "asc" → ob_Direction ob = "").

Lemma analyze_step_tuple cs o p p' :
  analyze_step cs o p = Some (None, p') →
  ∃ ob, p' = set_OrderBys (OrderBys p ++ [ob]) p ∧ orderByOf cs o ob.
Proof.
  unfold analyze_step. intros H.
  destruct (o_Expr o) as [c| | | | |] eqn:Eo; try done.
  destruct (cs !! c) as [e|] eqn:Ec; [|done]. simpl in H.
  destruct (_ && _); [done|]. destruct (negb _); [done|].
  injection H as <-. eexists. split; [done|]. exists c, e. simpl.
  do 4 (split; [done|]).
  destruct (bool_decide (o_Direction o = "desc")) eqn:Ed.
  - apply bool_decide_eq_true in Ed. rewrite Ed. done.
  - apply bool_decide_eq_false in Ed.
    destruct (bool_decide (o_Direction o = "asc")) eqn:Ea.
    + apply bool_decide_eq_true in Ea. rewrite Ea. done.
    + apply bool_decide_eq_false in Ea. done.
Qed.

Lemma analyze_loop cs os p p' :
  foldE (analyze_step cs) os p = Some (None, p') →
  ∃ obs, p' = set_OrderBys (OrderBys p ++ obs) p
         ∧ Forall2 (orderByOf cs) os obs.
Proof.
  revert p. induction os as [|o os IH]; intros p H; simpl in H.
  - injection H as <-. exists []. rewrite app_nil_r.
    split; [by destruct p|constructor].
  - destruct (analyze_step cs o p) as [[[e|] p1]|] eqn:E; simpl in H;
      [done| |done].
    destruct (analyze_step_tuple _ _ _ _ E) as (ob & -> & Hob).
    destruct (IH _ H) as (obs & -> & Hall). exists (ob :: obs).
    split; [|by constructor]. destruct p; simpl. by rewrite <- app_assoc.
Qed.

(** X22: When [analyze] succeeds, the plan has received one [OrderBy]
    tuple for each ordering of the statement, in order, with the names of
    the ordering column and its direction, and nothing else of the plan
    has changed. *)
Theorem analyze_OrderBys cs p p' :
  analyze cs p = Some (None, p') →
  ∃ obs, p' = set_OrderBys (OrderBys p ++ obs) p
         ∧ Forall2 (orderByOf cs) (OrderBy (op_node p)) obs.
Proof. apply analyze_loop. Qed.

(** X23: [analyze] stops at the first ordering it does not accept; when
    that ordering is not a column, the error is [orderby:] followed by
    the rendering of the expression, and the plan holds the tuples of
    the orderings before it. *)
Theorem analyze_not_column cs p pre o post :
  OrderBy (op_node p) = pre ++ o :: post →
  Forall (orderInSelect cs p) pre →
  (∀ c, o_Expr o ≠ ColNameE c) →
  ∃ obs, analyze cs p
         = Some (Some ("unsupported: orderby:" +:+ Sprintf_v (o_Expr o)),
                 set_OrderBys (OrderBys p ++ obs) p)
         ∧ Forall2 (orderByOf cs) pre obs.
Proof.
  intros Ho Hpre Hnc. unfold analyze. rewrite Ho.
  destruct (foldE_analyze_pass _ _ _ Hpre) as (p1 & H1 & _).
  rewrite (foldE_app _ _ _ _ _ H1).
  destruct (analyze_loop _ _ _ _ H1) as (obs & -> & Hall).
  exists obs. split; [|done]. simpl. unfold analyze_step.
  destruct (o_Expr o) as [c| | | | |] eqn:Eo; try done.
  by destruct (Hnc c).
Qed.

(** ** [pushOrderBy] *)

(** What [pushOrderBy] leaves when it succeeds. *)
Lemma pushOrderBy_spec j l r sel fields h n' sel' :
  pushOrderBy (Join j l r) sel fields h = Some (None, n', sel') →
  sel' = (if bool_decide (length (OrderBy sel) = 0%nat)
          then set_OrderBy ((λ by_, mkOrder by_ AscScr) <$> GroupBy sel) sel
          else sel)
  ∧ if bool_decide (length (OrderBy sel') = 0%nat) then n' = Join j l r
    else ∃ plan,
        n' = Join (set_j_children (j_children j ++ [PlanOrderBy plan]) j) l r
        ∧ op_node plan = sel' ∧ op_tuples plan = fields
        ∧ Forall2 (orderByOf (cols h)) (OrderBy sel') (OrderBys plan)
        ∧ (length (OrderBy sel) = 0%nat →
           Forall (λ ob, ob_Direction ob = ASC) (OrderBys plan)).
Proof.
  unfold pushOrderBy. intros H.
  assert (Hs : (if bool_decide (length (OrderBy sel) = 0%nat)
                then set_OrderBy
                       (OrderBy sel
                        ++ map (λ by_, mkOrder by_ AscScr) (GroupBy sel)) sel
                else sel)
               = (if bool_decide (length (OrderBy sel) = 0%nat)
                  then set_OrderBy
                         ((λ by_, mkOrder by_ AscScr) <$> GroupBy sel) sel
                  else sel)).
  { destruct (bool_decide (length (OrderBy sel) = 0%nat)) eqn:Hl; [|done].
    apply bool_decide_eq_true in Hl.
    destruct (OrderBy sel); [|discriminate Hl]. simpl. f_equal. }
  rewrite Hs in H. clear Hs.
  set (sel1 := if bool_decide (length (OrderBy sel) = 0%nat)
               then set_OrderBy ((λ by_, mkOrder by_ AscScr) <$> GroupBy sel) sel
               else sel) in *.
  destruct (bool_decide (0 < length (OrderBy sel1))%nat) eqn:El.
  - apply bool_decide_eq_true in El.
    destruct (OrderByPlan_Build (cols h) _) as [[[e|] plan]|] eqn:Eb;
      simpl in H; [done| |done].
    injection H as <- <-. split; [done|].
    rewrite bool_decide_eq_false_2 by lia. exists plan. split; [done|].
    destruct (analyze_loop _ _ _ _ Eb) as (obs & -> & Hall). simpl.
    split; [done|]. split; [done|]. split; [done|].
    intros Hz. simpl in Hall. subst sel1.
    rewrite bool_decide_eq_true_2 in Hall by done.
    assert (OrderBy (set_OrderBy ((λ by_, mkOrder by_ AscScr) <$> GroupBy sel) sel)
            = (λ by_, mkOrder by_ AscScr) <$> GroupBy sel) as Ho
      by by destruct sel.
    rewrite Ho in Hall. clear -Hall. revert obs Hall.
    induction (GroupBy sel) as [|g gs IH]; intros obs Hall.
    + apply Forall2_nil_inv_l in Hall as ->. constructor.
    + rewrite fmap_cons in Hall.
      apply Forall2_cons_inv_l in Hall as (ob & obs' & Hob & Hall & ->).
      constructor; [|by apply IH].
      destruct Hob as (c & e & _ & _ & _ & _ & _ & Ha & _). by apply Ha.
  - apply bool_decide_eq_false in El. injection H as <- <-. split; [done|].
    rewrite bool_decide_eq_true_2 by lia. done.
Qed.

(** X24: When [pushOrderBy] succeeds on a statement that has an ORDER BY,
    or a GROUP BY, which it then takes as the ORDER BY in ascending
    direction, the node has received one more child plan, an
    [OrderByPlan] with one tuple for each ordering; when the statement
    has neither, the node is as before. *)
Theorem pushOrderBy_plan j l r sel fields h n' sel' :
  pushOrderBy (Join j l r) sel fields h = Some (None, n', sel') →
  sel' = (if bool_decide (length (OrderBy sel) = 0%nat)
          then set_OrderBy ((λ by_, mkOrder by_ AscScr) <$> GroupBy sel) sel
          else sel)
  ∧ if bool_decide (length (OrderBy sel') = 0%nat) then n' = Join j l r
    else ∃ plan,
        n' = Join (set_j_children (j_children j ++ [PlanOrderBy plan]) j) l r
        ∧ op_node plan = sel' ∧ op_tuples plan = fields
        ∧ Forall2 (orderByOf (cols h)) (OrderBy sel') (OrderBys plan)
        ∧ (length (OrderBy sel) = 0%nat →
           Forall (λ ob, ob_Direction ob = ASC) (OrderBys plan)).
Proof. apply pushOrderBy_spec. Qed.

End Clauses.

(** * [buildQuery] *)

Section Queries.
Context {collab : Collaborators}.

Arguments prepareChild : simpl never.
Arguments MergeNode_buildQuery : simpl never.

(** The filter sets of the Merges only grow. *)
Definition filtersKept (h h' : Heap) : Prop :=
  ∀ m e, hasFilter h m e → hasFilter h' m e.

Global Instance filtersKept_preorder : PreOrder filtersKept.
Proof.
  split; [intros h m e H; exact H|].
  intros h1 h2 h3 H12 H23 m e H. apply H23, H12, H.
Qed.

(** The no-table filter [e] has reached the node [n]: the filter set of
    a Merge, [noTableFilter] of a JoinNode. *)
Definition reached (n : PlanNode) (h : Heap) (e : Expr) : Prop :=
  match n with
  | Merge m => hasFilter h m e
  | Join j _ _ => e ∈ noTableFilter j
  end.

Lemma prepareChild_reached keys j child h child' h' :
  prepareChild keys j child h = Some (child', h') →
  filtersKept h h' ∧ leaves child' = leaves child
  ∧ ∀ e, e ∈ noTableFilter j → reached child' h' e.
Proof.
  unfold prepareChild. intros Hp.
  destruct (setNoTableFilter child (noTableFilter j) h) as [[child1 h1]|]
    eqn:Es; [|done]. simpl in Hp.
  destruct (attachKeyFilters keys j h1) as [h2|] eqn:Ea; [|done].
  simpl in Hp. injection Hp as <- <-.
  destruct (setNoTableFilter_renamed (λ _ _, True) _ _ _ _ _ Es)
    as [(_ & Hk1 & _) _].
  unfold attachKeyFilters in Ea.
  apply (attachKeyFilters_loop _ _ (map_to_list (keyFilters j))) in Ea
    as [(_ & Hk2 & _) _]; [|done].
  split; [intros m e H; auto|].
  destruct child as [m|jc l r]; simpl in Es.
  - destruct (MergeNode_setNoTableFilter m (noTableFilter j) h) as [h3|]
      eqn:Em; [|done]. simpl in Es. injection Es as <- <-.
    split; [done|]. intros e He. simpl. apply Hk2.
    unfold MergeNode_setNoTableFilter in Em.
    destruct (merges h !! m); [|done]. simpl in Em.
    apply foldM_setWhereFilter_has in Em as [Hin _]. by apply Hin.
  - injection Es as <- <-. split; [done|]. intros e He. simpl.
    unfold JoinNode_setNoTableFilter. destruct jc; simpl.
    apply elem_of_app. by right.
Qed.

Lemma MergeNode_buildQuery_kept m h h' :
  MergeNode_buildQuery m h = Some h' → filtersKept h h'.
Proof.
  unfold MergeNode_buildQuery. intros H.
  destruct (merges h !! m) as [mn|] eqn:Em; [|done]. simpl in H.
  destruct (mapM _ (SelectExprs _)); [|done]. simpl in H.
  destruct (mapM _ (map fst _)); [|done]. simpl in H.
  destruct (mapM _ (OrderBy _)); [|done]. simpl in H. injection H as <-.
  intros m0 e (mn0 & Hm0 & He). unfold hasFilter. simpl.
  destruct (decide (m0 = m)) as [->|Hne].
  - rewrite lookup_insert_eq. eexists. split; [done|].
    rewrite Em in Hm0. injection Hm0 as <-. by destruct mn.
  - rewrite lookup_insert_ne by done. by exists mn0.
Qed.

Lemma noTableFilter_set_Strategy s j :
  noTableFilter (set_Strategy s j) = noTableFilter j.
Proof. by destruct j. Qed.

Lemma buildQuery_at_reached t n h n' h' :
  buildQuery_at t n h = Some (n', h') →
  filtersKept h h'
  ∧ ∀ e, reached n h e → ∀ m, m ∈ leaves n → hasFilter h' m e.
Proof.
  revert n h n' h'. induction t as [tm|tj tl IHl tr IHr];
    intros [m|j l r] h n' h' H; simpl in H; try done.
  - destruct (MergeNode_buildQuery m h) as [h1|] eqn:E; [|done]. simpl in H.
    injection H as <- <-. pose proof (MergeNode_buildQuery_kept _ _ _ E) as Hk.
    split; [done|]. intros e He m0 Hm0. simpl in Hm0.
    apply list_elem_of_singleton in Hm0 as ->. by apply Hk.
  - destruct (MergeNode_buildQuery m h) as [h1|] eqn:E; [|done]. simpl in H.
    injection H as <- <-. pose proof (MergeNode_buildQuery_kept _ _ _ E) as Hk.
    split; [done|]. intros e He m0 Hm0. simpl in Hm0.
    apply list_elem_of_singleton in Hm0 as ->. by apply Hk.
  - destruct (prepareChild _ _ l h) as [[l1 h1]|] eqn:E1; [|done].
    simpl in H.
    destruct (buildQuery_at tl l1 h1) as [[l2 h2]|] eqn:E2; [|done].
    simpl in H.
    destruct (prepareChild _ _ r h2) as [[r1 h3]|] eqn:E3; [|done].
    simpl in H.
    destruct (buildQuery_at tr r1 h3) as [[r2 h4]|] eqn:E4; [|done].
    simpl in H. injection H as <- <-.
    destruct (prepareChild_reached _ _ _ _ _ _ E1) as (Hk1 & Hl1 & Hr1).
    destruct (prepareChild_reached _ _ _ _ _ _ E3) as (Hk3 & Hl3 & Hr3).
    destruct (IHl _ _ _ _ E2) as (Hk2 & Hall2).
    destruct (IHr _ _ _ _ E4) as (Hk4 & Hall4).
    split.
    + etrans; [exact Hk1|]. etrans; [exact Hk2|]. by etrans.
    + intros e He m Hm. simpl in He, Hm.
      rewrite noTableFilter_set_Strategy in Hr1, Hr3.
      apply elem_of_app in Hm as [Hm|Hm].
      * apply Hk4, Hk3. apply (Hall2 e); [by apply Hr1|by rewrite Hl1].
      * apply (Hall4 e); [by apply Hr3|by rewrite Hl3].
Qed.

(** X25: After [buildQuery] of a JoinNode, every expression of its
    [noTableFilter] is in the filter set of every Merge leaf below it. *)
Theorem buildQuery_noTableFilter j l r h n' h' e m :
  buildQuery (Join j l r) h = Some (n', h') →
  e ∈ noTableFilter j → m ∈ leaves (Join j l r) → hasFilter h' m e.
Proof.
  unfold buildQuery. intros H He Hm.
  destruct (buildQuery_at_reached _ _ _ _ _ H) as [_ Hall].
  by apply (Hall e).
Qed.

End Queries.

(** * The search for a projected column, and the child plans *)

Section Passes.
Context {collab : Collaborators}.

Arguments pushSelectExpr : simpl nomatch.
Arguments pushOtherFilter : simpl never.
Arguments pushComparison : simpl never.
Arguments pushOtherFilters_step : simpl never.
Arguments pushNullExprs_step : simpl never.
Arguments pushOtherJoin_left : simpl never.
Arguments pushOtherJoin_right : simpl never.
Arguments handleJoinOn_step : simpl never.
Arguments buildOrderBy : simpl never.

(** The test of the search loops of [buildOrderBy] and [pushOtherFilter]. *)
Definition projects (table field : string) (t : selectTuple) : Prop :=
  sel_referTables t = [table] ∧ sel_field t = field.

Lemma findField_first_from table field tuples i :
  0 ≤ i →
  let k := findField table field tuples i in
  (k = -1 ∧ Forall (λ t, ¬ projects table field t) tuples)
  ∨ (i ≤ k
     ∧ (∃ t, tuples !! Z.to_nat (k - i) = Some t ∧ projects table field t)
     ∧ ∀ n t, (n < Z.to_nat (k - i))%nat → tuples !! n = Some t →
              ¬ projects table field t).
Proof.
  revert i. induction tuples as [|t ts IH]; intros i Hi; simpl.
  - left. split; [done|constructor].
  - destruct (bool_decide (sel_referTables t = [table])) eqn:E1;
      [destruct (bool_decide (sel_field t = field)) eqn:E2|]; simpl.
    + right. split; [lia|]. rewrite Z.sub_diag. simpl. split.
      * exists t. split; [done|]. apply bool_decide_eq_true in E1, E2. done.
      * intros n t' Hn. lia.
    + apply bool_decide_eq_false in E2.
      destruct (IH (i + 1)) as [[Hk Hall]|(Hk & (t' & Hl & Hp) & Hfirst)];
        [lia| |].
      * left. split; [done|]. constructor; [|done]. by intros [_ ?].
      * right. split; [lia|].
        replace (Z.to_nat (findField table field ts (i + 1) - i))
          with (S (Z.to_nat (findField table field ts (i + 1) - (i + 1))))
          by lia.
        split; [by exists t'|]. intros [|n] t0 Hn Hl0; simpl in Hl0.
        -- injection Hl0 as <-. by intros [_ ?].
        -- apply (Hfirst n); [lia|done].
    + apply bool_decide_eq_false in E1.
      destruct (IH (i + 1)) as [[Hk Hall]|(Hk & (t' & Hl & Hp) & Hfirst)];
        [lia| |].
      * left. split; [done|]. constructor; [|done]. by intros [? _].
      * right. split; [lia|].
        replace (Z.to_nat (findField table field ts (i + 1) - i))
          with (S (Z.to_nat (findField table field ts (i + 1) - (i + 1))))
          by lia.
        split; [by exists t'|]. intros [|n] t0 Hn Hl0; simpl in Hl0.
        -- injection Hl0 as <-. by intros [? _].
        -- apply (Hfirst n); [lia|done].
Qed.

(** X26: The search of [buildOrderBy] and [pushOtherFilter] for a
    projection of [table.field] answers [-1] when no tuple refers to
    exactly [table] under the name [field], and the position of the first
    such tuple otherwise. *)
Theorem findField_first table field tuples :
  let k := findField table field tuples 0 in
  (k = -1 ∧ Forall (λ t, ¬ projects table field t) tuples)
  ∨ (0 ≤ k
     ∧ (∃ t, tuples !! Z.to_nat k = Some t ∧ projects table field t)
     ∧ ∀ n t, (n < Z.to_nat k)%nat → tuples !! n = Some t →
              ¬ projects table field t).
Proof.
  pose proof (findField_first_from table field tuples 0 ltac:(lia)) as H.
  simpl in *. by rewrite Z.sub_0_r in H.
Qed.

(** X27: [pushOtherFilter] reuses the projection of a column that the
    node has already, and then changes nothing; otherwise it appends a
    projection under the alias [tmpo_k], [k] being the counter, which it
    increments.  When it fails, the node, the store and the counter are
    as before. *)
Theorem pushOtherFilter_outcome expr node tbs idx h index err node' idx' h' :
  pushOtherFilter expr node tbs idx h = Some (index, err, node', idx', h') →
  match err with
  | Some _ => index = -1 ∧ node' = node ∧ h' = h ∧ idx' = idx
  | None =>
      (node' = node ∧ h' = h ∧ idx' = idx
       ∧ ∃ c cn fs, expr = ColNameE c ∧ cols h !! c = Some cn
           ∧ getFields node h = Some fs
           ∧ index = findField (Qualifier cn) (Name cn) fs 0 ∧ index ≠ -1)
      ∨ (idx' = idx + 1
         ∧ ∃ fs, getFields node h = Some fs
             ∧ getFields node' h'
               = Some (fs ++ [mkSelectTuple
                                (AliasedExpr expr ("tmpo_" +:+ pretty idx))
                                ("tmpo_" +:+ pretty idx) tbs])
             ∧ index = Z.of_nat (length fs))
  end.
Proof.
  unfold pushOtherFilter. intros Hp.
  match type of Hp with
  | mbind _ ?o = _ => destruct o as [index0|] eqn:Ei; simpl in Hp; [|done]
  end.
  destruct (bool_decide (index0 = -1)) eqn:Hm.
  - destruct (pushSelectExpr node _ h) as [[[[i1 e1] n1] h1]|] eqn:Ep;
      simpl in Hp; [|done].
    destruct e1 as [e|]; injection Hp as <- <- <- <- <-.
    + by destruct (pushSelectExpr_fail _ _ _ _ _ _ _ Ep) as (? & ? & ? & _).
    + right. split; [done|].
      destruct (pushSelectExpr_grow _ _ _ _ _ _ _ Ep) as (_ & _ & Hf).
      by apply Hf.
  - apply bool_decide_eq_false in Hm. injection Hp as <- <- <- <- <-.
    left. do 3 (split; [done|]).
    destruct expr as [c| | | | |]; try (by injection Ei as <-).
    destruct (cols h !! c) as [cn|] eqn:Ec; simpl in Ei; [|done].
    destruct (getFields node h) as [fs|] eqn:Ef; simpl in Ei; [|done].
    injection Ei as <-. by exists c, cn, fs.
Qed.

(** ** The child plans of a JoinNode *)

Lemma pushSelectExpr_children j l r field h index err j' l' r' h' :
  pushSelectExpr (Join j l r) field h = Some (index, err, Join j' l' r', h') →
  j_children j' = j_children j.
Proof.
  simpl. intros Hp.
  destruct (getReferredTables l h) as [ltbs|]; [|done]. simpl in Hp.
  destruct (checkTbInNode (sel_referTables field) ltbs).
  { destruct (pushSelectExpr l field h) as [[[[i e] l1] h1]|]; [|done].
    simpl in Hp. destruct e; simplify_eq; [done|by destruct j]. }
  destruct (getReferredTables r h) as [rtbs|]; [|done]. simpl in Hp.
  destruct (checkTbInNode (sel_referTables field) rtbs).
  { destruct (pushSelectExpr r field h) as [[[[i e] r1] h1]|]; [|done].
    simpl in Hp. destruct e; simplify_eq; [done|by destruct j]. }
  destruct (Format_SelectExpr _ _); [|done]. simpl in Hp.
  by simplify_eq.
Qed.

(** The child plans of the node at the root of a state of a pass. *)
Definition childrenOf (n : PlanNode) : list Plan :=
  match n with
  | Merge _ => []
  | Join j _ _ => j_children j
  end.

Definition sameChildren {A : Type} (root : A → PlanNode) (s s' : A) : Prop :=
  isMerge (root s') = isMerge (root s)
  ∧ childrenOf (root s') = childrenOf (root s).

Global Instance sameChildren_preorder {A : Type} (root : A → PlanNode) :
  PreOrder (sameChildren root).
Proof.
  split.
  - intros s. done.
  - intros s1 s2 s3 [? ?] [? ?]. split; congruence.
Qed.

Lemma pushSelectExprs_step_children tuple s err s' :
  pushSelectExprs_step tuple s = Some (err, s') → sameChildren fst s s'.
Proof.
  destruct s as [n h]. unfold pushSelectExprs_step. simpl. intros H.
  destruct (pushSelectExpr n tuple h) as [[[[i e] n1] h1]|] eqn:Ep; [|done].
  simpl in H. injection H as <- <-. simpl.
  destruct (pushSelectExpr_grow _ _ _ _ _ _ _ Ep) as (_ & Ht & _).
  destruct n as [m|j l r], n1 as [m1|j1 l1 r1]; try done.
  split; [done|]. simpl. by eapply pushSelectExpr_children.
Qed.

(** The child plans of the node of a state of the loop of
    [handleJoinOn]. *)
Definition stateChildren (s s' : JoinNode * PlanNode * PlanNode * Heap)
  : Prop :=
  j_children s'.1.1.1 = j_children s.1.1.1.

Global Instance stateChildren_preorder : PreOrder stateChildren.
Proof.
  split; [by intros s|]. intros s1 s2 s3. unfold stateChildren. congruence.
Qed.

Lemma handleJoinOn_step_children lok rok join s s' :
  handleJoinOn_step lok rok join s = Some s' → stateChildren s s'.
Proof.
  unfold stateChildren.
  destruct s as [[[j l] r] h]. unfold handleJoinOn_step. intros Hs.
  destruct (buildOrderBy _ l h) as [[[leftKey l1] h1]|]; simpl in Hs; [|done].
  match type of Hs with
  | mbind _ ?o = _ => destruct o as [j1|] eqn:Ej1; simpl in Hs; [|done]
  end.
  assert (j_children j1 = j_children j) as H1.
  { destruct (lok && negb (LeftUnique j)); [|by injection Ej1 as <-].
    destruct (tableInfo _ _ h1); [|done]. simpl in Ej1. injection Ej1 as <-.
    by destruct j. }
  destruct (buildOrderBy _ r h1) as [[[rightKey r1] h2]|]; simpl in Hs;
    [|done].
  match type of Hs with
  | mbind _ ?o = _ => destruct o as [j3|] eqn:Ej3; simpl in Hs; [|done]
  end.
  assert (j_children j3 = j_children j1) as H3.
  { destruct (rok && negb (RightUnique _)).
    - destruct (tableInfo _ _ h2); [|done]. simpl in Ej3. injection Ej3 as <-.
      by destruct j1.
    - injection Ej3 as <-. by destruct j1. }
  injection Hs as <-. simpl. rewrite <- H1, <- H3. by destruct j3.
Qed.

Lemma handleJoinOn_children j l r h j' l' r' h' :
  handleJoinOn (Join j l r) h = Some (Join j' l' r', h') →
  j_children j' = j_children j.
Proof.
  simpl. intros Hj.
  match type of Hj with
  | mbind _ ?o = _ => destruct o as [[l1 h1]|] eqn:El; simpl in Hj; [|done]
  end.
  match type of Hj with
  | mbind _ ?o = _ => destruct o as [[r1 h2]|] eqn:Er; simpl in Hj; [|done]
  end.
  match type of Hj with
  | mbind _ ?o = _ =>
      destruct o as [[[[j3 l3] r3] h3]|] eqn:Ef; simpl in Hj; [|done]
  end.
  injection Hj as <- <- <- <-.
  apply (foldM_rel stateChildren) in Ef; [done|].
  apply handleJoinOn_step_children.
Qed.

(** The child plans of the node of a state of [handleOthers]. *)
Definition othersChildren (s s' : OthersState) : Prop :=
  j_children s'.1.1.1.1 = j_children s.1.1.1.1.

Global Instance othersChildren_preorder : PreOrder othersChildren.
Proof.
  split; [by intros s|]. intros s1 s2 s3. unfold othersChildren. congruence.
Qed.

Lemma pushComparison_children op exch a ta b tb s err s' :
  pushComparison op exch a ta b tb s = Some (err, s') → othersChildren s s'.
Proof.
  destruct s as [[[[j l] r] idx] h]. unfold pushComparison. intros Hb.
  destruct (pushOtherFilter a l ta idx h) as [[[[[li e0] l1] i1] h1]|];
    simpl in Hb; [|done].
  destruct e0 as [e0|]; [by injection Hb as <- <-|].
  destruct (pushOtherFilter b r tb i1 h1) as [[[[[ri e1] r1] i2] h2]|];
    simpl in Hb; [|done].
  destruct e1 as [e1|]; injection Hb as <- <-; unfold othersChildren; simpl;
    by destruct j.
Qed.

Lemma pushOtherFilters_children filters s err s' :
  pushOtherFilters filters s = Some (err, s') → othersChildren s s'.
Proof.
  apply (foldE_rel othersChildren). clear. intros expr s err s' Hs.
  destruct s as [[[[j l] r] idx] h]. unfold pushOtherFilters_step in Hs.
  assert (clauseError (cols h) expr ≫= (λ e, Some (Some e, (j, l, r, idx, h)))
          = Some (err, s') → othersChildren (j, l, r, idx, h) s') as Herr.
  { intros He. destruct (clauseError (cols h) expr); [|done].
    injection He as <- <-. reflexivity. }
  destruct expr as [c|v| |op el er|op e|el er]; try (by apply Herr).
  destruct (getTbInExpr (cols h) el); [|done]. simpl in Hs.
  destruct (getTbInExpr (cols h) er); [|done]. simpl in Hs.
  destruct (getReferredTables l h); [|done]. simpl in Hs.
  destruct (getReferredTables r h); [|done]. simpl in Hs.
  destruct (_ && _); [by eapply pushComparison_children|].
  destruct (_ && _); [by eapply pushComparison_children|by apply Herr].
Qed.

Lemma pushNullExprs_children s err s' :
  pushNullExprs s = Some (err, s') → othersChildren s s'.
Proof.
  unfold pushNullExprs. apply (foldE_rel othersChildren). clear.
  intros tuple s err s' Hs. destruct s as [[[[j l] r] idx] h].
  unfold pushNullExprs_step in Hs.
  destruct (pushOtherFilter _ r _ idx h) as [[[[[i e] r1] i1] h1]|];
    simpl in Hs; [|done].
  destruct e as [e|]; injection Hs as <- <-; unfold othersChildren; simpl;
    by destruct j.
Qed.

Lemma pushOtherJoin_children s err s' :
  pushOtherJoin s = Some (err, s') → othersChildren s s'.
Proof.
  unfold pushOtherJoin. intros H.
  destruct (otherJoinOn s.1.1.1.1) as [oj|];
    [|injection H as <- <-; reflexivity].
  match type of H with
  | mbind _ ?o = _ =>
      destruct o as [[e s1]|] eqn:E1; simpl in H; [|done]
  end.
  assert (othersChildren s s1) as H1.
  { destruct (bool_decide _); [by eapply pushOtherFilters_children|].
    injection E1 as <- <-. reflexivity. }
  destruct e as [e|]; [by injection H as <- <-|].
  destruct s1 as [[[[j1 l1] r1] idx1] h1].
  match type of H with
  | mbind _ ?o = _ => destruct o as [[r2 h2]|] eqn:E2; simpl in H; [|done]
  end.
  match type of H with
  | mbind _ ?o = _ =>
      destruct o as [[e s3]|] eqn:E3; simpl in H; [|done]
  end.
  assert (othersChildren (j1, l1, r2, idx1, h2) s3) as H3.
  { revert E3. apply (foldE_rel othersChildren). clear.
    intros field s err s' Hs. destruct s as [[[[j l] r] idx] h].
    unfold pushOtherJoin_left in Hs.
    destruct (pushSelectExpr l field h) as [[[[i e] l1] h1]|]; simpl in Hs;
      [|done].
    destruct e as [e|]; injection Hs as <- <-; unfold othersChildren; simpl;
      by destruct j. }
  assert (othersChildren s3 s') as H4.
  { destruct e as [e|]; [injection H as <- <-; reflexivity|].
    revert H. apply (foldE_rel othersChildren). clear.
    intros filter s err s' Hs.
    destruct (pushOtherJoin_right_has _ _ _ _ Hs) as (Heq & _).
    unfold othersChildren. by rewrite Heq. }
  etrans; [exact H1|]. etrans; [|exact H4]. exact H3.
Qed.

Lemma handleOthers_children j l r h j' l' r' h' err :
  handleOthers (Join j l r) h = Some (err, Join j' l' r', h') →
  j_children j' = j_children j.
Proof.
  simpl. intros H.
  match type of H with
  | mbind _ ?o = _ =>
      destruct o as [[[e1 l1] h1]|] eqn:El; simpl in H; [|done]
  end.
  destruct e1 as [e1|]; [by injection H as <- <- <- <- <-|].
  match type of H with
  | mbind _ ?o = _ =>
      destruct o as [[[e2 r1] h2]|] eqn:Er; simpl in H; [|done]
  end.
  destruct e2 as [e2|]; [by injection H as <- <- <- <- <-|].
  destruct (pushOtherJoin (j, l1, r1, 0, h2)) as [[e3 s1]|] eqn:E1;
    simpl in H; [|done].
  pose proof (pushOtherJoin_children _ _ _ E1) as H1.
  unfold othersChildren in H1. simpl in H1.
  destruct e3 as [e3|]; [by injection H as <- <- <- <- <-|].
  destruct (pushNullExprs s1) as [[e4 s2]|] eqn:E2; simpl in H; [|done].
  pose proof (pushNullExprs_children _ _ _ E2) as H2.
  unfold othersChildren in H2.
  destruct e4 as [e4|]; [injection H as <- <- <- <- <-; congruence|].
  destruct (pushOtherFilters _ s2) as [[e5 s3]|] eqn:E3; simpl in H; [|done].
  pose proof (pushOtherFilters_children _ _ _ _ E3) as H3.
  unfold othersChildren in H3.
  injection H as <- <- <- <- <-. congruence.
Qed.

(** X28: The child plans of a JoinNode are appended in the order of the
    passes: after [pushSelectExprs], [pushOrderBy] and [pushLimit] have
    succeeded one after the other, the node has, after the children it
    had, the aggregate plan when there is a GROUP BY, then the order-by
    plan when the statement has an ordering, then the limit plan. *)
Theorem passes_children j l r fields groups sel hasAggregates h
    j1 l1 r1 h1 fields' j2 l2 r2 sel2 j3 l3 r3 :
  pushSelectExprs (Join j l r) fields groups sel hasAggregates h
    = Some (None, Join j1 l1 r1, h1) →
  pushOrderBy (Join j1 l1 r1) sel fields' h1
    = Some (None, Join j2 l2 r2, sel2) →
  pushLimit (Join j2 l2 r2) sel2 = Some (None, Join j3 l3 r3) →
  ∃ ord,
    j_children j3
    = j_children j
      ++ (if bool_decide (0 < length groups)%nat
          then [PlanAggregate fields groups] else [])
      ++ ord ++ [PlanLimit]
    ∧ if bool_decide (length (OrderBy sel2) = 0%nat) then ord = []
      else ∃ plan, ord = [PlanOrderBy plan].
Proof.
  intros Hs Ho Hl.
  assert (j_children j1
          = j_children j
            ++ (if bool_decide (0 < length groups)%nat
                then [PlanAggregate fields groups] else [])) as H1.
  { unfold pushSelectExprs in Hs. destruct hasAggregates; [done|].
    set (n0 := if bool_decide (0 < length groups)%nat
               then match AggregatePlan_Build (SelectExprs sel) fields groups
                    with
                    | Some e => (Some e, Join j l r)
                    | None =>
                        (None,
                         Join (set_j_children
                                 (j_children j ++ [PlanAggregate fields groups])
                                 j) l r)
                    end
               else (None, Join j l r)) in Hs.
    assert (∀ e n, n0 = (e, n) → e = None →
              ∃ j0, n = Join j0 l r
                    ∧ j_children j0
                      = j_children j
                        ++ (if bool_decide (0 < length groups)%nat
                            then [PlanAggregate fields groups] else []))
      as Hn0.
    { intros e n. subst n0. destruct (bool_decide _).
      - destruct (AggregatePlan_Build _ _ _).
        + by intros [= <- <-].
        + intros [= <- <-] _. eexists. split; [done|]. by destruct j.
      - intros [= <- <-] _. exists j. by rewrite app_nil_r. }
    destruct n0 as [e0 n1]. destruct e0 as [e0|]; [done|].
    destruct (Hn0 _ _ eq_refl eq_refl) as (j0 & -> & Hj0).
    destruct (foldE pushSelectExprs_step fields (Join j0 l r, h))
      as [[e2 [n2 h2]]|] eqn:E2; simpl in Hs; [|done].
    destruct e2 as [e2|]; [done|].
    apply (foldE_rel (sameChildren fst)) in E2;
      [|apply pushSelectExprs_step_children].
    destruct E2 as [Hm2 Hc2]. simpl in Hm2, Hc2.
    destruct n2 as [m2|j2' l2' r2']; [done|]. simpl in Hc2.
    destruct (handleJoinOn (Join j2' l2' r2') h2) as [[n3 h3]|] eqn:E3;
      simpl in Hs; [|done].
    destruct (handleJoinOn_grow _ _ _ _ E3) as [_ Hg3].
    destruct n3 as [m3|j3' l3' r3']; [done|].
    apply handleJoinOn_children in E3.
    apply handleOthers_children in Hs. congruence. }
  destruct (pushOrderBy_spec _ _ _ _ _ _ _ _ Ho) as [_ Hp].
  assert (∃ ord, j_children j2 = j_children j1 ++ ord
                 ∧ if bool_decide (length (OrderBy sel2) = 0%nat) then ord = []
                   else ∃ plan, ord = [PlanOrderBy plan]) as (ord & H2 & Hord).
  { destruct (bool_decide (length (OrderBy sel2) = 0%nat)).
    - injection Hp as <- <- <-. exists []. by rewrite app_nil_r.
    - destruct Hp as (plan & [= -> <- <-] & _). exists [PlanOrderBy plan].
      split; [by destruct j1|]. by exists plan. }
  exists ord. split; [|done].
  unfold pushLimit in Hl. destruct (LimitPlan_Build sel2); [done|].
  injection Hl as <- <- <-.
  replace (j_children (set_j_children (j_children j2 ++ [PlanLimit]) j2))
    with (j_children j2 ++ [PlanLimit]) by (by destruct j2).
  rewrite H2, H1, <- !app_assoc. done.
Qed.

End Passes.

(** * Null tests on the right side of a left join *)

Section NullTests.
Context {collab : Collaborators}.

Arguments pushSelectExpr : simpl nomatch.
Arguments pushOtherFilter : simpl never.
Arguments pushComparison : simpl never.
Arguments pushOtherFilters_step : simpl never.
Arguments pushNullExprs_step : simpl never.
Arguments pushOtherJoin_left : simpl never.
Arguments pushOtherJoin_right : simpl never.
Arguments handleJoinOn_step : simpl never.
Arguments buildOrderBy : simpl never.
Arguments calcRoute_collapse : simpl never.
Arguments treeKept : simpl never.

(** The two fields of a JoinNode that hold the null tests of a left
    join: the expressions that [pushFilter] has recorded, and the indexes
    that [pushNullExprs] has recorded for them. *)
Definition nulls (j : JoinNode) : list nullExpr * list Z :=
  (rightNull j, RightTmpCols j).

Definition nullsOf (n : PlanNode) : list nullExpr * list Z :=
  match n with
  | Merge _ => ([], [])
  | Join j _ _ => nulls j
  end.

(** ** The passes that leave them alone *)


Definition sameNulls (s s' : PlanNode * Heap) : Prop :=
  isMerge s'.1 = isMerge s.1 ∧ nullsOf s'.1 = nullsOf s.1.

Global Instance sameNulls_preorder : PreOrder sameNulls.
Proof.
  split.
  - intros s. done.
  - intros s1 s2 s3 [? ?] [? ?]. split; congruence.
Qed.


Definition stateNulls (s s' : JoinNode * PlanNode * PlanNode * Heap) : Prop :=
  nulls s'.1.1.1 = nulls s.1.1.1.

Global Instance stateNulls_preorder : PreOrder stateNulls.
Proof.
  split; [by intros s|]. intros s1 s2 s3. unfold stateNulls. congruence.
Qed.



Definition othersNulls (s s' : OthersState) : Prop :=
  nulls s'.1.1.1.1 = nulls s.1.1.1.1.

Global Instance othersNulls_preorder : PreOrder othersNulls.
Proof.
  split; [by intros s|]. intros s1 s2 s3. unfold othersNulls. congruence.
Qed.






(** ** What [pushNullExprs] records *)









End NullTests.

(** * Null tests, evaluated *)

Module NullCases.
Import Example.
Import Witnesses.

(** Modelled from the spec: an instance of [checkIsWithNull], in expr.go.
    Section 4.1.1: a predicate that is an IS NULL test on right-side
    tables is recorded in [rightNull]; Section 8 leaves the shape of what
    is recorded open.  This instance records the operand of the test,
    with the tables of the filter, which is the expression
    [pushOtherFilter] is then called with. *)
Definition checkIsWithNull_operand (filter : filterTuple)
    (tbs : gmap string Ptr) : bool * nullExpr :=
  match f_expr filter with
  | IsExpr op e =>
      if bool_decide (op = "is null") && checkTbInNode (f_referTables filter) tbs
      then (true, mkNullExpr e (f_referTables filter))
      else (false, mkNullExpr NullVal [])
  | _ => (false, mkNullExpr NullVal [])
  end.

Definition operand : Collaborators := {|
  GetIndex := GetIndex_hash;
  checkIsWithNull := checkIsWithNull_operand;
  AggregatePlan_Build := λ _ _ _, None;
  LimitPlan_Build := λ _, None;
  MergeNode_route := route_backend;
  Sprintf_v := λ _, "&{...}" |}.

(** The entry recorded for [t2.c is null]: the column [t2.c]. *)
Definition col_c : nullExpr := mkNullExpr (ColNameE 106) ["t2"].





(** When the two sides route to the same backend, [calcRoute] hands back
    the Merge they collapse into, and the entries of [rightNull] go with
    the JoinNode: the filter set of the Merge is empty. *)
Lemma calcRoute_collapse_rightNull :
  ∃ j1 h1 h2 mn,
    pushFilter (collab := operand) (plan0 "left join") [isnull_c] heap0
      = Some (None, Join j1 (Merge 1) (Merge 2), h1)
    ∧ rightNull j1 = [col_c]
    ∧ calcRoute (collab := operand) (Join j1 (Merge 1) (Merge 2)) h1
      = Some (Merge 1, None, h2)
    ∧ merges h2 !! 1%nat = Some mn ∧ m_filters mn = ∅.
Proof.
  destruct (pushFilter (collab := operand) (plan0 "left join") [isnull_c] heap0)
    as [[[e1 n1] h1]|] eqn:E1; [|evaluate E1].
  pose proof E1 as E1'. vm_compute in E1'. injection E1' as He Hn1 Hh1.
  destruct e1 as [e1|]; [discriminate He|]. clear He.
  destruct n1 as [m1|j1 l1 r1]; [discriminate Hn1|].
  injection Hn1 as Hj1 Hl1 Hr1. subst l1 r1.
  destruct (calcRoute (collab := operand) (Join j1 (Merge 1) (Merge 2)) h1)
    as [[[n2 e2] h2]|] eqn:E2; [|rewrite <- Hj1, <- Hh1 in E2; evaluate E2].
  pose proof E2 as E2'. rewrite <- Hj1, <- Hh1 in E2'. vm_compute in E2'.
  injection E2' as Hn2 He Hh2.
  destruct e2 as [e2|]; [discriminate He|]. clear He.
  destruct n2 as [m2|j2 l2 r2]; [|discriminate Hn2].
  injection Hn2 as <-.
  destruct (merges h2 !! 1%nat) as [mn|] eqn:Em;
    [|rewrite <- Hh2 in Em; evaluate Em].
  exists j1, h1, h2, mn. split; [reflexivity|].
  split; [by rewrite <- Hj1|]. split; [exact E2|]. split; [exact Em|].
  rewrite <- Hh2 in Em. vm_compute in Em. injection Em as <-. reflexivity.
Qed.

End NullCases.

(** * More of the worked plan, evaluated *)

Module Cases.
Import Example.
Import Witnesses.
#[local] Existing Instance collaborators.

(** A closed decidable proposition, by evaluation. *)
Ltac decided := apply (bool_decide_unpack _); vm_compute; exact I.

(** [(t1 join t2) join t3], the third table read from the Merge 4. *)
Definition nested : PlanNode :=
  Join (newJoinNode 5 None [] tables) (plan0 "join") (Merge 4).

(** [1 = 1], a filter without tables. *)
Definition no_tables : filterTuple := mkFilterTuple one_eq_one [] None None.

(** [t1.b = 1], a filter of the ON clause on the left table. *)
Definition on_left : filterTuple :=
  mkFilterTuple (ComparisonExpr "=" (ColNameE 104) (SQLVal "1")) ["t1"]
    (Some 104%nat) (Some "1").

(** [t2.a = lit], a filter on the shard key of the right table. *)
Definition where_key (lit : string) : filterTuple :=
  mkFilterTuple (ComparisonExpr "=" (ColNameE 102) (SQLVal lit)) ["t2"]
    (Some 102%nat) (Some lit).

(** [t1.b > t2.b] as a select expression. *)
Definition select_cmp : selectTuple :=
  mkSelectTuple (AliasedExpr cmp_b "") "cmp" ["t1"; "t2"].


(** The left join after [setOtherJoin] of [t1.b = 1 and t2.c = 5]. *)
Definition other_join : JoinNode :=
  set_otherJoinOn (Some (mkOtherJoin [] [] [tmpc 0 on_left] [where_c]))
    (newJoinNode 3 (Some (mkJoinTableExpr "left join" None)) [on_a] tables).

(** [select a from t order by a desc] and [... order by 1]. *)
Definition order_a : OrderByPlan :=
  NewOrderByPlan (mkSelect [] [mkOrder (ColNameE 2) "desc"] [] [])
    [mkSelectTuple (AliasedExpr (ColNameE 2) "") "a" ["t"]]
    {[ "t" := 1%nat ]}.

Definition order_lit : OrderByPlan :=
  NewOrderByPlan (mkSelect [] [mkOrder (SQLVal "1") "asc"] [] [])
    [mkSelectTuple (AliasedExpr (ColNameE 2) "") "a" ["t"]]
    {[ "t" := 1%nat ]}.

(** [select t1.b, t2.b ... group by t1.b]. *)
Definition group_b : Select := mkSelect [] [] [ColNameE 104] [].

Definition on_group : selectTuple :=
  mkSelectTuple (AliasedExpr (ColNameE 104) "") "b" ["t1"].

Lemma findLCA_ancestor_witness :
  ∃ n, n ∈ nodes nested ∧ ref n = JoinRef 3
       ∧ MergeRef 1 ∈ refs n ∧ MergeRef 2 ∈ refs n.
Proof.
  apply (findLCA_ancestor nested (MergeRef 1) (MergeRef 2) (JoinRef 3)).
  - vm_compute. reflexivity.
  - decided.
  - decided.
Defined.

Lemma findLCA_lowest_witness : JoinRef 3 ∈ refs (plan0 "join").
Proof.
  apply (findLCA_lowest nested (MergeRef 1) (MergeRef 2) (JoinRef 3)).
  - vm_compute. reflexivity.
  - decided.
  - decided.
  - decided.
  - simpl. apply list_elem_of_further, list_elem_of_here.
  - decided.
  - decided.
Defined.

Lemma setOtherJoin_partition_witness :
  setOtherJoin (plan0 "left join") [no_tables; on_left; where_c; having_b]
    heap0
  = Some (Join (set_otherJoinOn
                  (Some (mkOtherJoin [one_eq_one] [cmp_b] [tmpc 0 on_left]
                           [where_c]))
                  (newJoinNode 3 (Some (mkJoinTableExpr "left join" None))
                     [on_a] tables))
               (Merge 1) (Merge 2)).
Proof.
  pose proof (setOtherJoin_partition
                (newJoinNode 3 (Some (mkJoinTableExpr "left join" None))
                   [on_a] tables)
                (Merge 1) (Merge 2) [no_tables; on_left; where_c; having_b]
                heap0 leftTables rightTables eq_refl eq_refl) as H.
  exact H.
Defined.

Lemma pushFilter_oracle_error_witness :
  ∃ n' h',
    pushFilter (plan0 "join") [where_key "'x'"] heap0
      = Some (Some "hash.unsupported.key.type", n', h')
    ∧ ∃ filter, filter ∈ [where_key "'x'"]
                ∧ oracleError heap0 filter "hash.unsupported.key.type".
Proof.
  destruct (pushFilter (plan0 "join") [where_key "'x'"] heap0)
    as [[[err n'] h']|] eqn:E; [|evaluate E].
  pose proof E as E'. vm_compute in E'. injection E' as He _ _.
  destruct err as [e|]; [|discriminate He]. injection He as ->.
  exists n', h'. split; [reflexivity|].
  exact (pushFilter_oracle_error _ _ _ _ _ _ E).
Defined.

Lemma pushFilter_writes_witness :
  ∃ err n' h',
    pushFilter (plan0 "left join") [where_c] heap0 = Some (err, n', h')
    ∧ treeKept (plan0 "left join") n' ∧ storeKept heap0 h'.
Proof.
  destruct (pushFilter (plan0 "left join") [where_c] heap0)
    as [[[err n'] h']|] eqn:E; [|evaluate E].
  exists err, n', h'. split; [reflexivity|].
  exact (pushFilter_writes _ _ _ _ _ _ E).
Defined.

Lemma pushFilter_lists_witness :
  ∃ j' h',
    pushFilter (plan0 "left join") [no_tables; isnull_c; where_a "1"] heap0
      = Some (None, Join j' (Merge 1) (Merge 2), h')
    ∧ noTableFilter j' = [one_eq_one] ∧ rightNull j' = [null_c]
    ∧ tableFilter j' = [where_a "1"].
Proof.
  destruct (pushFilter (plan0 "left join") [no_tables; isnull_c; where_a "1"]
              heap0) as [[[err n'] h']|] eqn:E; [|evaluate E].
  pose proof E as E'. vm_compute in E'. injection E' as He Hn _.
  destruct err as [e|]; [discriminate He|]. clear He.
  destruct n' as [m|j' l' r']; [discriminate Hn|].
  injection Hn as _ Hl Hr. subst l' r'.
  exists j', h'. split; [reflexivity|].
  exact (pushFilter_lists _ _ _ _ _ _ _ _ _ rightTables E eq_refl).
Defined.

Lemma pushFilter_otherFilter_witness :
  ∃ j' h',
    pushFilter (plan0 "join") [having_b] heap0
      = Some (None, Join j' (Merge 1) (Merge 2), h')
    ∧ cmp_b ∈ otherFilter j'.
Proof.
  destruct (pushFilter (plan0 "join") [having_b] heap0)
    as [[[err n'] h']|] eqn:E; [|evaluate E].
  pose proof E as E'. vm_compute in E'. injection E' as He Hn _.
  destruct err as [e|]; [discriminate He|]. clear He.
  destruct n' as [m|j' l' r']; [discriminate Hn|].
  injection Hn as _ Hl Hr. subst l' r'.
  exists j', h'. split; [reflexivity|].
  apply (pushFilter_otherFilter _ _ _ _ _ _ _ _ _ rightTables having_b
           "t1" "t2" [] (mkTableInfo "db" "t1" "id" 1%nat)
           (mkTableInfo "db" "t2" "a" 2%nat) E).
  - reflexivity.
  - apply list_elem_of_here.
  - reflexivity.
  - reflexivity.
  - reflexivity.
  - reflexivity.
  - discriminate.
  - left. split; decided.
Defined.

Lemma pushFilter_pushdown_witness :
  ∃ n' h',
    pushFilter (plan0 "join") [isnull_c] heap0 = Some (None, n', h')
    ∧ hasFilter h' 2%nat (f_expr isnull_c).
Proof.
  destruct (pushFilter (plan0 "join") [isnull_c] heap0)
    as [[[err n'] h']|] eqn:E; [|evaluate E].
  pose proof E as E'. vm_compute in E'. injection E' as He _ _.
  destruct err as [e|]; [discriminate He|]. clear He.
  exists n', h'. split; [reflexivity|].
  apply (pushFilter_pushdown _ _ _ _ _ _ _ rightTables isnull_c "t2"
           (mkTableInfo "db" "t2" "a" 2%nat) E).
  - reflexivity.
  - apply list_elem_of_here.
  - reflexivity.
  - reflexivity.
  - reflexivity.
  - reflexivity.
Defined.

Lemma buildKeyFilter_found_witness :
  ∃ n' h',
    buildKeyFilter (plan0 "join") (where_a "1") false heap0
      = Some (true, n', h')
    ∧ recorded n' (where_a "1").
Proof.
  destruct (buildKeyFilter (plan0 "join") (where_a "1") false heap0)
    as [[[b n'] h']|] eqn:E; [|evaluate E].
  pose proof E as E'. vm_compute in E'. injection E' as Hb _ _. subst b.
  exists n', h'. split; [reflexivity|].
  destruct (buildKeyFilter_found _ _ _ _ _ _ _ E) as (_ & _ & Ht).
  destruct (Ht eq_refl) as [Hf|Hk]; [discriminate Hf|exact Hk].
Defined.

Lemma calcRoute_filters_placed_witness :
  ∃ n' h',
    foldM calcRoute_filter [where_a "1"; where_c] (plan0 "join", heap0)
      = Some (n', h')
    ∧ (recorded n' where_c
       ∨ ∃ tb ti, head (f_referTables where_c) = Some tb
           ∧ tableInfo tables tb heap0 = Some ti
           ∧ hasFilter h' (tb_parent ti) (f_expr where_c)).
Proof.
  destruct (foldM calcRoute_filter [where_a "1"; where_c]
              (plan0 "join", heap0)) as [[n' h']|] eqn:E; [|evaluate E].
  exists n', h'. split; [reflexivity|].
  apply (calcRoute_filters_placed _ _ _ _ _ _ _ where_c E).
  apply list_elem_of_further, list_elem_of_here.
Defined.


Lemma pushSelectExpr_outcome_witness :
  ∃ index,
    pushSelectExpr (plan0 "join") select_cmp heap0
      = Some (index,
              Some "unsupported: expr.'t1.b > t2.b'.in.cross-shard.join",
              plan0 "join", heap0)
    ∧ index = -1.
Proof.
  destruct (pushSelectExpr (plan0 "join") select_cmp heap0)
    as [[[[index err] n'] h']|] eqn:E; [|evaluate E].
  pose proof E as E'. vm_compute in E'. injection E' as _ He _ _.
  destruct err as [e|]; [|discriminate He]. injection He as ->.
  destruct (pushSelectExpr_outcome _ _ _ _ _ _ _ E) as (Hi & -> & -> & _).
  exists index. split; [reflexivity|exact Hi].
Defined.

Lemma handleJoinOn_keys_witness :
  ∃ j' l' r' h' lks rks,
    handleJoinOn (plan0 "join") heap0 = Some (Join j' l' r', h')
    ∧ LeftKeys j' = lks ∧ RightKeys j' = rks
    ∧ Forall2 (keyOf (cols heap0) l' h') [101%nat] lks
    ∧ Forall2 (keyOf (cols heap0) r' h') [102%nat] rks.
Proof.
  destruct (handleJoinOn (plan0 "join") heap0) as [[n' h']|] eqn:E;
    [|evaluate E].
  pose proof E as E'. vm_compute in E'. injection E' as Hn _.
  destruct n' as [m|j' l' r']; [discriminate Hn|]. clear Hn.
  destruct (handleJoinOn_keys _ _ _ _ _ _ _ _ E)
    as (lks & rks & Hl & Hr & Hal & Har).
  exists j', l', r', h', lks, rks. split; [reflexivity|].
  split; [exact Hl|]. split; [exact Hr|]. split; [exact Hal|exact Har].
Defined.

Lemma handleJoinOn_orderBy_witness :
  ∃ n' h' mn',
    handleJoinOn (plan0 "join") heap0 = Some (n', h')
    ∧ merges h' !! 1%nat = Some mn'
    ∧ OrderBy (m_sel mn') = [mkOrder (ColNameE 101) "asc"].
Proof.
  destruct (handleJoinOn (plan0 "join") heap0) as [[n' h']|] eqn:E;
    [|evaluate E].
  destruct (handleJoinOn_orderBy _ _ _ _ _ _ E) as [Hl _].
  destruct (Hl 1%nat (newMergeNode "t1" 11%nat) eq_refl) as (mn' & Hm & Ho).
  - intros Hin. apply list_elem_of_singleton in Hin. discriminate Hin.
  - reflexivity.
  - exists n', h', mn'. split; [reflexivity|]. split; [exact Hm|exact Ho].
Defined.

Lemma pushOtherFilters_CmpFilter_witness :
  ∃ j' l' r' idx' h' cmps,
    pushOtherFilters [cmp_b]
      (newJoinNode 3 None [on_a] tables, Merge 1, Merge 2, 0, heap0)
      = Some (None, (j', l', r', idx', h'))
    ∧ CmpFilter j' = cmps
    ∧ Forall2 (cmpOf (cols heap0) l' r' h') [cmp_b] cmps.
Proof.
  destruct (pushOtherFilters [cmp_b]
              (newJoinNode 3 None [on_a] tables, Merge 1, Merge 2, 0, heap0))
    as [[err [[[[j' l'] r'] idx'] h']]|] eqn:E; [|evaluate E].
  pose proof E as E'. vm_compute in E'. injection E' as He _ _ _ _ _.
  destruct err as [e|]; [discriminate He|]. clear He.
  destruct (pushOtherFilters_CmpFilter _ _ _ _ _ _ _ _ _ _ _ E)
    as (cmps & Hc & Hall).
  exists j', l', r', idx', h', cmps. split; [reflexivity|].
  split; [exact Hc|exact Hall].
Defined.

Lemma pushOtherJoin_LeftTmpCols_witness :
  ∃ j' l' r' idx' h' idxs,
    pushOtherJoin (other_join, Merge 1, Merge 2, 0, heap0)
      = Some (None, (j', l', r', idx', h'))
    ∧ LeftTmpCols j' = idxs
    ∧ Forall2 (λ field index, fieldAt l' h' index (λ t, t = field))
        [tmpc 0 on_left] idxs
    ∧ ∀ f, f ∈ [where_c] → ∃ m, hasFilter h' m (f_expr f).
Proof.
  destruct (pushOtherJoin (other_join, Merge 1, Merge 2, 0, heap0))
    as [[err [[[[j' l'] r'] idx'] h']]|] eqn:E; [|evaluate E].
  pose proof E as E'. vm_compute in E'. injection E' as He _ _ _ _ _.
  destruct err as [e|]; [discriminate He|]. clear He.
  destruct (pushOtherJoin_LeftTmpCols _ _ _ _ _ _ _ _ _ _
              (mkOtherJoin [] [] [tmpc 0 on_left] [where_c]) E eq_refl)
    as (idxs & Hc & Hall & Hr).
  exists j', l', r', idx', h', idxs. split; [reflexivity|].
  split; [exact Hc|]. split; [exact Hall|exact Hr].
Defined.

Lemma pushHaving_placed_witness :
  ∃ h',
    pushHaving (plan0 "join") [no_tables] heap0 = Some (None, h')
    ∧ hasHaving h' 1%nat one_eq_one ∧ hasHaving h' 2%nat one_eq_one.
Proof.
  destruct (pushHaving (plan0 "join") [no_tables] heap0)
    as [[err h']|] eqn:E; [|evaluate E].
  pose proof E as E'. vm_compute in E'. injection E' as He _.
  destruct err as [e|]; [discriminate He|]. clear He.
  exists h'. split; [reflexivity|].
  destruct (pushHaving_placed _ _ _ _ _ _ no_tables E) as [Hall _].
  { apply list_elem_of_here. }
  split; apply (Hall eq_refl); decided.
Defined.

Lemma analyze_OrderBys_witness :
  ∃ p', analyze order_cols order_a = Some (None, p')
        ∧ OrderBys p' = [mkOrderBy "a" "" DESC].
Proof.
  destruct (analyze order_cols order_a) as [[err p']|] eqn:E; [|evaluate E].
  pose proof E as E'. vm_compute in E'. injection E' as He Hp.
  destruct err as [e|]; [discriminate He|]. clear He.
  exists p'. split; [reflexivity|].
  destruct (analyze_OrderBys _ _ _ E) as (obs & _ & _).
  rewrite <- Hp. reflexivity.
Defined.

Lemma analyze_not_column_witness :
  ∃ obs,
    analyze order_cols order_lit
    = Some (Some "unsupported: orderby:&{...}",
            set_OrderBys (OrderBys order_lit ++ obs) order_lit)
    ∧ Forall2 (orderByOf order_cols) [] obs.
Proof.
  destruct (analyze_not_column order_cols order_lit []
              (mkOrder (SQLVal "1") "asc") []) as (obs & H1 & H2).
  - reflexivity.
  - constructor.
  - intros c Hc. discriminate Hc.
  - exists obs. split; [exact H1|exact H2].
Defined.

Lemma pushOrderBy_plan_witness :
  ∃ n' sel' plan,
    pushOrderBy (plan0 "join") group_b select_list heap0
      = Some (None, n', sel')
    ∧ OrderBy sel' = [mkOrder (ColNameE 104) "asc"]
    ∧ n' = Join (set_j_children [PlanOrderBy plan]
                   (newJoinNode 3 (Some (mkJoinTableExpr "join" None))
                      [on_a] tables)) (Merge 1) (Merge 2)
    ∧ Forall (λ ob, ob_Direction ob = ASC) (OrderBys plan).
Proof.
  destruct (pushOrderBy (plan0 "join") group_b select_list heap0)
    as [[[err n'] sel']|] eqn:E; [|evaluate E].
  pose proof E as E'. vm_compute in E'. injection E' as He _ _.
  destruct err as [e|]; [discriminate He|]. clear He.
  destruct (pushOrderBy_plan _ _ _ _ _ _ _ _ E) as [Hs Hp].
  assert (Ho : OrderBy sel' = [mkOrder (ColNameE 104) "asc"])
    by (rewrite Hs; reflexivity).
  rewrite bool_decide_eq_false_2 in Hp by (rewrite Ho; discriminate).
  destruct Hp as (plan & Hn & _ & _ & _ & Hasc).
  exists n', sel', plan. split; [reflexivity|]. split; [exact Ho|].
  split; [exact Hn|]. apply Hasc. reflexivity.
Defined.

Lemma buildQuery_noTableFilter_witness :
  ∃ n' h',
    buildQuery (Join (set_noTableFilter [one_eq_one] (keyed "join"))
                  (Merge 1) (Merge 2)) heap0 = Some (n', h')
    ∧ hasFilter h' 1%nat one_eq_one ∧ hasFilter h' 2%nat one_eq_one.
Proof.
  destruct (buildQuery (Join (set_noTableFilter [one_eq_one] (keyed "join"))
                          (Merge 1) (Merge 2)) heap0)
    as [[n' h']|] eqn:E; [|evaluate E].
  exists n', h'. split; [reflexivity|].
  split; apply (buildQuery_noTableFilter _ _ _ _ _ _ _ _ E);
    try apply list_elem_of_here; decided.
Defined.

Lemma pushOtherFilter_outcome_witness :
  ∃ node' h',
    pushOtherFilter (ColNameE 105) (Merge 2) ["t2"] 7 heap0
      = Some (0, None, node', 8, h')
    ∧ getFields node' h'
      = Some [mkSelectTuple (AliasedExpr (ColNameE 105) "tmpo_7") "tmpo_7"
                ["t2"]].
Proof.
  destruct (pushOtherFilter (ColNameE 105) (Merge 2) ["t2"] 7 heap0)
    as [[[[[index err] node'] idx'] h']|] eqn:E; [|evaluate E].
  pose proof E as E'. vm_compute in E'. injection E' as Hi He _ Hidx _.
  destruct err as [e|]; [discriminate He|]. clear He. subst index idx'.
  exists node', h'. split; [reflexivity|].
  destruct (pushOtherFilter_outcome _ _ _ _ _ _ _ _ _ _ E)
    as [(_ & _ & Hidx & _)|(_ & fs & Hfs & Hfs' & _)]; [discriminate Hidx|].
  vm_compute in Hfs. injection Hfs as <-. exact Hfs'.
Defined.

Lemma passes_children_witness :
  ∃ j1 l1 r1 h1 j2 l2 r2 sel2 j3 l3 r3 plan,
    pushSelectExprs (plan0 "join") select_list [on_group] group_b false heap0
      = Some (None, Join j1 l1 r1, h1)
    ∧ pushOrderBy (Join j1 l1 r1) group_b select_list h1
      = Some (None, Join j2 l2 r2, sel2)
    ∧ pushLimit (Join j2 l2 r2) sel2 = Some (None, Join j3 l3 r3)
    ∧ j_children j3
      = [PlanAggregate select_list [on_group]; PlanOrderBy plan; PlanLimit].
Proof.
  destruct (pushSelectExprs (plan0 "join") select_list [on_group] group_b
              false heap0) as [[[e1 n1] h1]|] eqn:E1; [|evaluate E1].
  pose proof E1 as E1'. vm_compute in E1'. injection E1' as He Hn Hh1.
  destruct e1 as [e|]; [discriminate He|]. clear He.
  destruct n1 as [m|j1 l1 r1]; [discriminate Hn|].
  injection Hn as Hj1 Hl1 Hr1.
  destruct (pushOrderBy (Join j1 l1 r1) group_b select_list h1)
    as [[[e2 n2] sel2]|] eqn:E2;
    [|rewrite <- Hj1, <- Hl1, <- Hr1, <- Hh1 in E2; evaluate E2].
  pose proof E2 as E2'. rewrite <- Hj1, <- Hl1, <- Hr1, <- Hh1 in E2'.
  vm_compute in E2'. injection E2' as He Hn Hsel.
  destruct e2 as [e|]; [discriminate He|]. clear He.
  destruct n2 as [m|j2 l2 r2]; [discriminate Hn|].
  injection Hn as Hj2 Hl2 Hr2.
  destruct (pushLimit (Join j2 l2 r2) sel2) as [[e3 n3]|] eqn:E3;
    [|rewrite <- Hj2, <- Hl2, <- Hr2, <- Hsel in E3; evaluate E3].
  pose proof E3 as E3'. rewrite <- Hj2, <- Hl2, <- Hr2, <- Hsel in E3'.
  vm_compute in E3'. injection E3' as He Hn.
  destruct e3 as [e|]; [discriminate He|]. clear He.
  destruct n3 as [m|j3 l3 r3]; [discriminate Hn|]. clear Hn.
  destruct (passes_children
              (newJoinNode 3 (Some (mkJoinTableExpr "join" None)) [on_a] tables)
              (Merge 1) (Merge 2) _ _ _ _ _ _ _ _ _ _ _ _ _ _ _ _ _ E1 E2 E3)
    as (ord & Hc & Hord).
  rewrite <- Hsel in Hord. simpl in Hord. destruct Hord as (plan & ->).
  exists j1, l1, r1, h1, j2, l2, r2, sel2, j3, l3, r3, plan.
  split; [reflexivity|]. split; [exact E2|]. split; [exact E3|]. exact Hc.
Defined.

End Cases.
